(* ===== verification/_CoqProject ===== *)
-Q . S2P
Prelude.v
NetAddr.v
LibProxy.v
Tls.v
TomlConfig.v
LibMetric.v
Metric.v
BackendConfig.v
Peer.v
Balance.v
World.v
Connector.v
Backend.v
Proxy.v
MetricApi.v
Discipline.v
System.v
Run.v
Example.v
Locks.v
Safety.v
Fair.v
Writers.v
Liveness.v
Solo.v
Lifecycle.v
Handle.v
Races.v
Config.v
EndToEnd.v
UnitTests.v
AsyncIo.v
ProxyClient.v
Front.v
Server.v
ConnectorTests.v
Entry.v
Tui.v
TuiDraw.v
Terminal.v
Service.v
UiSystem.v
EasyCert.v
