(* ===== verification/Prelude.v ===== *)
(** * Octoproxy: verification development

    Octoproxy is an HTTP CONNECT proxy.  A client process accepts proxy
    requests, chooses one of its backends (servers it reaches over mutually
    authenticated HTTP/2 or QUIC), opens a stream on a multiplexed connection,
    sends the requested host in a length-prefixed head, and copies bytes both
    ways; a server process reads the head and connects to the host.  The client
    keeps metrics per backend, balances over the backends that are up, retries
    those that are down, and offers a metric service through which a terminal
    UI lists, opens, closes, resets and switches backends.

    ** Files and what they model

    - [Prelude]: results, panics, machine integers in the two build profiles,
      strings as byte sequences, automation.
    - [NetAddr]: [std::net] addresses, the standard library's parser on them,
      [lib/src/config.rs].
    - [LibProxy]: the connect head and the server's [tunnel],
      [lib/src/proxy.rs]; the stream is the class [TunnelIo].
    - [Tls]: [lib/src/tls.rs]; [rustls] is the class [TlsLib].
    - [TomlConfig]: the loader of TOML files, [TomlFileConfig] of
      [lib/src/config.rs].
    - [LibMetric]: [lib/src/metric.rs]; [f64] is the class [F64], and the class
      [RoundedF64] what IEEE 754 says of its rounding.
    - [Metric]: the metric half of [client/src/metric.rs]; the [left-right]
      crate is the class [LeftRight], with an instance.
    - [BackendConfig]: the configuration half of [client/src/backends.rs].
    - [Peer]: [PeerInfo] ([client/src/metric.rs]) and [HostRuler]
      ([client/src/config.rs]).
    - [Balance]: [client/src/balance.rs]; the hash ring is the class
      [HashRing], the interface of an algorithm the class [Balancer].
    - [World]: the state the client's tasks share and programs over it.
    - [Connector]: [client/src/connector.rs]; [Backend]: the [Backend] type of
      [client/src/backends.rs]; [Proxy]: [Config::next_available_backend] and
      [client/src/proxy.rs]; [MetricApi]: the service half of
      [client/src/metric.rs]; [System] ties them together.
    - [Run]: a weakest-precondition judgement for one program that runs alone,
      with a measure on the calls of loops; [Example] holds a concrete process
      and two environments, used by the witnesses.
    - [Discipline], [Locks], [Safety]: the typestate of lock use, every
      function's proof in it, and what it implies for the reachable states.
    - [Fair]: the pool with the queues of its locks, which serve their tasks in
      order; freedom from deadlock.
    - [Liveness]: termination of the whole pool with fair locks, whatever the
      network answers.
    - [Solo], [Lifecycle], [Handle]: what the functions of [Connector] and
      [Backend], the API requests and the retry task, and a CONNECT handler do
      when they run alone.
    - [Writers]: which task may change what, in every interleaving; [Races]:
      interleavings the code does not guard against, as executed examples.
    - [Config]: [Config::new] of [client/src/config.rs], down to the store the
      client starts from; [EndToEnd]: a client from its files to its last
      task, and a request from its authority to the host the server connects
      to.
    - [AsyncIo]: the byte streams that wrap others, [QuicBidiStream] of
      [lib/src/proxy.rs] and [lib/src/proxy_client/stream.rs].
    - [ProxyClient]: [lib/src/proxy_client], the CONNECT tunnel of the client
      that forwards other methods; [Front]: [listening_proxy], the HTTP
      listener in front of the client's tasks.
    - [Server]: [server/src/config.rs] and [server/src/proxy.rs].
    - [Entry]: the main functions of [octoproxy], [client], [server] and
      [easycert], and how their joined futures end.
    - [Tui]: the events, requests and three threads of [tui/src]; [TuiDraw]:
      what [App::draw] puts on the screen, over the class [Ratatui];
      [Terminal]: the terminal's modes around it, over the class [Crossterm].
    - [Service]: the promise the metric service makes to the UI; [UiSystem]:
      the service's sessions, and UI and client composed over the websocket.
    - [EasyCert]: [easycert/src/gen.rs] and [show.rs].
    - [UnitTests], [ConnectorTests]: the repository's own unit tests as
      computations on the model, each proved to pass.

    ** How async code is modelled

    An async function is a [World.prog]: a tree whose nodes are the operations
    [World.op], each one atomic access to the shared store (a lock, a field, a
    metric call, a token) or one request to the network.  Loops without a bound
    in the code are calls of a [World.label] whose body is unfolded one turn at
    a time, so no fuel bounds them.  Identities stand for the [Arc]s: an index
    for a backend, a number for a client, a token, a connection.
    [tokio::select!] with a cancellation token is the transformation
    [World.select_cancel]: any operation of the selected future may be
    preempted once the token is cancelled, which drops the guards it holds.  A
    pool of tasks steps by [World.step_pool]; the schedule, the clock, the
    random generator, the files and the network's answers are inputs of a step,
    so the theorems on reachable pools hold for all of them.  In
    [World.step_pool] a free lock may be granted to any task that asks for it,
    so what is proved of its runs holds for every order of grants.  Deadlock
    and termination depend on the order: [Fair.fair_step] adds the queues of
    tokio's [RwLock] and [Mutex], in which a task joins the queue of the lock it
    asks for and is served when nothing before it is in its way - a reader
    waits behind a queued writer.  The runs with queues are among the others,
    so invariants carry over.

    The other components are pure functions or, where they have threads or
    tasks of their own, small transition systems: [Server.h2_step] (the accept
    loop and its semaphore), [Front.front_step] (the listener: requests, upgrades,
    its channel and the tasks it starts), [Tui.tui_step] (the UI thread, the
    input thread and the fetch thread), [UiSystem.system_step] (the UI, its
    session and the client), [ProxyClient.tunnel_turn] (one turn of the
    tunnel's poll loop, driven by the stream's answers).

    ** Theorems

    Each property is the theorem after the comment that carries its number.

    - Concurrency of the client: no deadlock with fair locks ([Fair]), no race,
      unreachable code ([Safety]); every task finishes under every schedule
      with fair locks, whatever the network answers and whichever cancellations
      win, in a run with finitely many fluctuations - a connection found
      closed, a QUIC write that stalls, a backend made [Normal] again, an
      arrival ([Liveness], from the configuration files on in [EndToEnd]); only
      the retry task makes a backend [Normal] again ([Writers]).
    - Composition: every request that names a host gets exactly one handler
      ([Front]); the UI connected to the client is a run of both parts in which
      its requests are answered and, in a debug build, name existing backends
      ([UiSystem]).
    - What one request does: a CONNECT handler ([Handle]), the retry task, the
      status switch, the reset and the protocol switch with its failure
      ([Lifecycle]), the replies of the metric service ([Service]).
    - Metrics: refinement of the double-buffered metric by a plain record,
      accounting of connections, totals ([Metric]), the latency estimate
      in rounded arithmetic ([LibMetric]).
    - Choosing and configuring: [Balance], [Peer], [BackendConfig], [Tls],
      [NetAddr], [Config], [Server].
    - Wire formats: the connect head and the server's tunnel ([LibProxy],
      [EndToEnd]), the CONNECT tunnel ([ProxyClient]).
    - The tools: one request at a time, the spinner and the channels ([Tui]),
      what is on the screen ([TuiDraw]), the terminal's restoration
      ([Terminal]), how the programs end ([Entry]), the files and the table of
      the certificate tool ([EasyCert]).
    - Agreement with the code's tests: [UnitTests], [ConnectorTests].

    Several theorems state what the code does where that is not what one would
    want: a close after a reset and a close before an open ([Metric]), a stale
    round-robin index ([Balance]), a short read of the head ([LibProxy]), a
    failed protocol switch ([Lifecycle]), a lost forced close, the racing
    retry flag, a restarted QUIC write and a zero retry interval ([Races]), a
    UI that stays pending after an error and one that closes on a lost
    connection ([Tui]), a server that hides why it ended ([Entry]), a terminal
    left in raw mode ([Terminal]), names cut at their second colon
    ([EasyCert]).

    ** Bounds and fuel

    Fuel appears where the code loops over input: [Tls.key_loop] and
    [Balance.uri_hash_loop] are given one more step than they can use, and
    theorems show that they return.  [World.exec] counts steps of an explicit
    run.  [Run.wp] counts loop calls; its theorems give a bound for every
    program they treat, so a result is proved to be reached.  [Liveness] needs
    no bound on the steps: it uses a well-founded order on what the tasks have
    left to do; its [n] bounds only the fluctuations of a run.

    ** Not modelled

    Code outside the repository is a class or an input of the definitions that
    use it: rustls, quinn, hyper, the toml, pem, x509 and rcgen crates, the
    left-right crate, the hash ring, f64, the clock, the file system, the
    network, ratatui's layout and crossterm.  Closing a connection's driver
    ([World.Abort]) is an operation without effect on the store.  The store
    runs the release build (wrapping arithmetic); [Metric], [BackendConfig], [Tui] and [EasyCert]
    treat both builds.  clap's parsing of the command line, logging and spans,
    the runtime's construction, the axum router of the metric service and the
    types that only rename others have no model; nor has the failure of a
    write to the terminal while the UI runs, which ends it.  [RequestInfo] of
    [lib/src/proxy.rs] is never used, and the end-to-end programs under [e2e]
    are test drivers outside the product. *)
From stdpp Require Export base list strings gmap numbers.
From Stdlib Require Export ZArith Lia Ascii.
#[export] Set Default Goal Selector "!".
Open Scope Z_scope.

(** ** Results and panics *)

(** Rust's [Result<A, E>]. *)
Inductive result (E A : Type) : Type :=
  | Ok (a : A)
  | Err (e : E).
Arguments Ok {E A} a.
Arguments Err {E A} e.

(** A computation that may panic (overflow check, division by zero,
    [unwrap] of a missing value). *)
Inductive outcome (A : Type) : Type :=
  | Done (a : A)
  | Panic.
Arguments Done {A} a.
Arguments Panic {A}.

#[export] Instance result_ret {E} : MRet (result E) := fun _ a => Ok a.
#[export] Instance result_bind {E} : MBind (result E) :=
  fun _ _ k m => match m with Ok a => k a | Err e => Err e end.
#[export] Instance outcome_ret : MRet outcome := fun _ a => Done a.
#[export] Instance outcome_bind : MBind outcome :=
  fun _ _ k m => match m with Done a => k a | Panic => Panic end.

Definition is_done {A} (o : outcome A) : Prop := exists a, o = Done a.
Definition result_map_err {E F A} (f : E -> F) (r : result E A) : result F A :=
  match r with Ok a => Ok a | Err e => Err (f e) end.

(** [assert!], [assert_eq!] and the [unwrap]s: failing is a panic. *)
Definition assert (b : bool) : outcome unit := if b then Done tt else Panic.
Definition assert_eq {A} `{EqDecision A} (a b : A) : outcome unit := assert (bool_decide (a = b)).
Definition unwrap {A} (o : option A) : outcome A := match o with Some a => Done a | None => Panic end.
Definition unwrap_ok {E A} (r : result E A) : outcome A := match r with Ok a => Done a | Err _ => Panic end.
Definition unwrap_err {E A} (r : result E A) : outcome E := match r with Ok _ => Panic | Err e => Done e end.
Definition is_ok {E A} (r : result E A) : bool := match r with Ok _ => true | Err _ => false end.
Definition is_err {E A} (r : result E A) : bool := negb (is_ok r).
Definition is_some {A} (o : option A) : bool := match o with Some _ => true | None => false end.

(** A [for] loop whose body may panic. *)
Fixpoint for_each {A} (f : A -> outcome unit) (l : list A) : outcome unit :=
  match l with
  | [] => Done tt
  | a :: l => _ ← f a; for_each f l
  end.

Lemma for_each_done {A} (f : A -> outcome unit) l : Forall (fun a => f a = Done tt) l -> for_each f l = Done tt.
Proof. induction 1 as [|a l Ha _ IH]; [done|]. cbn. by rewrite Ha. Qed.

(** ** Machine integers *)

(** The two Cargo profiles: [Debug] compiles overflow checks in, [Release]
    (the profile the README builds) wraps around. *)
Inductive profile := Debug | Release.

Definition in_width (w z : Z) : Prop := 0 <= z < 2 ^ w.
#[export] Instance in_width_dec w z : Decision (in_width w z).
Proof. unfold in_width. apply _. Defined.

(** The value of a [w]-bit unsigned expression whose mathematical value is
    [z]: itself when it fits, a panic or the wrapped value otherwise. *)
Definition fit (p : profile) (w z : Z) : outcome Z :=
  if decide (in_width w z) then Done z
  else match p with Debug => Panic | Release => Done (z mod 2 ^ w) end.

Definition uadd (p : profile) (w a b : Z) : outcome Z := fit p w (a + b).
Definition usub (p : profile) (w a b : Z) : outcome Z := fit p w (a - b).
Definition umul (p : profile) (w a b : Z) : outcome Z := fit p w (a * b).

(** [a.checked_add(b)] *)
Definition checked_add (w a b : Z) : option Z :=
  if decide (a + b < 2 ^ w) then Some (a + b) else None.

(** [z as uN] *)
Definition as_width (w z : Z) : Z := z mod 2 ^ w.

Lemma fit_ok p w z : in_width w z -> fit p w z = Done z.
Proof. intros H. unfold fit. by rewrite decide_True. Qed.

Lemma fit_release w z : fit Release w z = Done (z mod 2 ^ w).
Proof.
  unfold fit, in_width. case_decide as H; [|done].
  by rewrite Z.mod_small.
Qed.

Lemma fit_inv p w z r : 0 <= w -> fit p w z = Done r -> in_width w r.
Proof.
  intros Hw. unfold fit. case_decide; [by intros [= <-]|].
  destruct p; [done|]. intros [= <-]. unfold in_width.
  apply Z.mod_pos_bound. by apply Z.pow_pos_nonneg.
Qed.

Lemma fit_debug_panic w z : ~ in_width w z -> fit Debug w z = Panic.
Proof. intros H. unfold fit. by rewrite decide_False. Qed.

Lemma checked_add_width w a b r :
  0 <= a -> 0 <= b -> checked_add w a b = Some r -> in_width w r /\ r = a + b.
Proof.
  unfold checked_add, in_width. intros Ha Hb. case_decide; [|done].
  intros [= <-]. lia.
Qed.

(** ** Strings as byte sequences *)

(** A Rust [str] is its sequence of bytes: a [string] of 8-bit [ascii]. *)

#[global] Arguments String.append : simpl nomatch.

Fixpoint str_take (n : nat) (s : string) : string :=
  match n, s with
  | S n, String c s => String c (str_take n s)
  | _, _ => EmptyString
  end.

Fixpoint str_drop (n : nat) (s : string) : string :=
  match n, s with
  | O, _ => s
  | S n, String _ s => str_drop n s
  | S _, EmptyString => EmptyString
  end.

(** [s.rfind(c)] for a one-byte character [c]. *)
Fixpoint rfind (c : ascii) (s : string) : option nat :=
  match s with
  | EmptyString => None
  | String c' s' =>
      match rfind c s' with
      | Some i => Some (S i)
      | None => if decide (c = c') then Some O else None
      end
  end.

(** The byte [c] occurs in [s]. *)
Fixpoint str_elem (c : ascii) (s : string) : Prop :=
  match s with
  | EmptyString => False
  | String c' s' => c = c' \/ str_elem c s'
  end.

Fixpoint spaces (n : nat) : string :=
  match n with O => EmptyString | S n => String " " (spaces n) end.

(** [format!("{:<n}", s)] and [format!("{:>n}", s)] for ASCII text. *)
Definition pad_right (n : nat) (s : string) : string :=
  (s +:+ spaces (n - String.length s))%string.
Definition pad_left (n : nat) (s : string) : string :=
  (spaces (n - String.length s) +:+ s)%string.

Fixpoint starts_with (p s : string) : bool :=
  match p, s with
  | EmptyString, _ => true
  | String a p, String b s => bool_decide (a = b) && starts_with p s
  | _, _ => false
  end.

Lemma str_app_nil_r (s : string) : (s +:+ EmptyString)%string = s.
Proof. induction s as [|? ? IH]; simpl; [done|by rewrite IH]. Qed.

Lemma str_app_assoc (a b c : string) :
  (a +:+ (b +:+ c))%string = ((a +:+ b) +:+ c)%string.
Proof. induction a as [|? ? IH]; simpl; [done|by rewrite IH]. Qed.

Lemma str_length_app (a b : string) :
  String.length (a +:+ b)%string = (String.length a + String.length b)%nat.
Proof. induction a as [|? ? IH]; simpl; [done|by rewrite IH]. Qed.

Lemma str_take_drop n s : (str_take n s +:+ str_drop n s)%string = s.
Proof. revert s; induction n as [|n IH]; intros [|c s]; simpl; try done. by rewrite IH. Qed.

Lemma str_take_app a b : str_take (String.length a) (a +:+ b)%string = a.
Proof. induction a as [|? ? IH]; simpl; [by destruct b|by rewrite IH]. Qed.

Lemma str_drop_app a b : str_drop (String.length a) (a +:+ b)%string = b.
Proof. induction a; simpl; [by destruct b|]. done. Qed.

Lemma str_take_app_le n a b :
  (n <= String.length a)%nat -> str_take n (a +:+ b)%string = str_take n a.
Proof.
  revert a; induction n as [|n IH]; intros [|c a]; simpl; try done; try lia.
  intros H. rewrite IH by lia. done.
Qed.

Lemma str_drop_app_le n a b :
  (n <= String.length a)%nat -> str_drop n (a +:+ b)%string = (str_drop n a +:+ b)%string.
Proof.
  revert a; induction n as [|n IH]; intros [|c a]; simpl; try done; try lia.
  intros H. rewrite IH by lia. done.
Qed.

Lemma str_take_length n s : String.length (str_take n s) = Nat.min n (String.length s).
Proof. revert s; induction n as [|n IH]; intros [|c s]; simpl; try done. by rewrite IH. Qed.

Lemma str_drop_length n s : String.length (str_drop n s) = (String.length s - n)%nat.
Proof. revert s; induction n as [|n IH]; intros [|c s]; simpl; try done. Qed.

Lemma str_length_zero s : String.length s = 0%nat <-> s = EmptyString.
Proof. by destruct s. Qed.

Lemma spaces_length n : String.length (spaces n) = n.
Proof. induction n; simpl; congruence. Qed.

Lemma pad_right_length n s :
  String.length (pad_right n s) = Nat.max n (String.length s).
Proof. unfold pad_right. rewrite str_length_app, spaces_length. lia. Qed.

Lemma str_elem_app c a b : str_elem c (a +:+ b)%string <-> str_elem c a \/ str_elem c b.
Proof. induction a as [|c' a IH]; simpl; [tauto|]. rewrite IH. tauto. Qed.

Lemma rfind_None c s : rfind c s = None <-> ~ str_elem c s.
Proof.
  induction s as [|c' s IH]; simpl; [tauto|].
  destruct (rfind c s) as [i|].
  - split; [done|]. intros H. destruct IH as [_ IH].
    by discriminate IH; tauto.
  - destruct IH as [IH _]. specialize (IH eq_refl). case_decide as D.
    + split; [done|]. intros []. by left.
    + split; [|done]. by intros _ [?|?].
Qed.

(** [rfind] splits the string at the last occurrence. *)
Lemma rfind_Some c s i :
  rfind c s = Some i ->
  s = (str_take i s +:+ String c (str_drop (S i) s))%string
  /\ ~ str_elem c (str_drop (S i) s).
Proof.
  revert i; induction s as [|c' s IH]; intros i; simpl; [done|].
  destruct (rfind c s) as [j|] eqn:E.
  - intros [= <-]. destruct (IH j eq_refl) as [H1 H2]. simpl.
    split; [by f_equal|done].
  - case_decide as D; [|done]. intros [= <-]. subst c'. simpl.
    split; [by destruct s|].
    replace (str_drop 0 s) with s by (by destruct s). by apply rfind_None.
Qed.

(** ** Lists *)

(** Remove the first occurrence of [x]; [None] when there is none. *)
Fixpoint remove_one {A} `{EqDecision A} (x : A) (l : list A) : option (list A) :=
  match l with
  | [] => None
  | y :: l => if decide (x = y) then Some l else cons y <$> remove_one x l
  end.

Lemma filter_length_lt {A} (P Q : A -> Prop) `{forall x, Decision (P x), forall x, Decision (Q x)} x l :
  x ∈ l -> P x -> ~ Q x -> (forall y, Q y -> P y) ->
  (length (filter Q l) < length (filter P l))%nat.
Proof.
  intros Hx HP HQ Hsub. replace (filter Q l) with (filter Q (filter P l)).
  - apply length_filter_lt with x; [by apply list_elem_of_filter|done].
  - rewrite list_filter_filter. apply list_filter_iff. naive_solver.
Qed.

Lemma remove_one_perm {A} `{EqDecision A} (x : A) l l' :
  remove_one x l = Some l' -> l ≡ₚ x :: l'.
Proof.
  revert l'; induction l as [|y l IH]; intros l'; simpl; [done|].
  case_decide as D; [by intros [= ->]; subst|].
  intros H. apply fmap_Some in H as (k & Hk & ->).
  rewrite (IH k Hk). apply Permutation_swap.
Qed.

(** ** Automation *)

Create HintDb octo.
Create Rewrite HintDb octo_rw.
#[export] Hint Resolve fit_ok fit_inv checked_add_width : octo.
#[export] Hint Rewrite fit_release str_length_app spaces_length pad_right_length : octo_rw.

(** Split every conjunction of the context and of the goal. *)
Ltac split_ands :=
  repeat match goal with
    | H : _ /\ _ |- _ => destruct H
    | |- _ /\ _ => split
  end.

(** Case analysis on every [match] of the goal whose scrutinee is a plain
    variable or application, closing the contradictory branches. *)
Ltac cases :=
  repeat (case_match; simplify_eq/=; try done).
