(* ===== verification/NetAddr.v ===== *)
(** * Socket addresses

    The address types of [std::net] with the parser the standard library runs
    on [address.parse::<SocketAddr>()], [parse::<IpAddr>()] and
    [parse::<u16>()], and the repository's own address parsing built on them
    ([lib/src/config.rs]). *)

From S2P Require Import Prelude.

(** ** The address types of [std::net] *)

Inductive Ipv4Addr := Ipv4 (a b c d : Z).
Inductive Ipv6Addr := Ipv6 (segments : list Z).
Inductive IpAddr := IpV4 (a : Ipv4Addr) | IpV6 (a : Ipv6Addr).
Inductive SocketAddr :=
  | SocketV4 (ip : Ipv4Addr) (port : Z)
  | SocketV6 (ip : Ipv6Addr) (port flowinfo scope_id : Z).

#[export] Instance Ipv4Addr_eq : EqDecision Ipv4Addr.
Proof. solve_decision. Defined.
#[export] Instance Ipv6Addr_eq : EqDecision Ipv6Addr.
Proof. solve_decision. Defined.
#[export] Instance IpAddr_eq : EqDecision IpAddr.
Proof. solve_decision. Defined.
#[export] Instance SocketAddr_eq : EqDecision SocketAddr.
Proof. solve_decision. Defined.

(** [SocketAddr] is a [HashMap] key ([MetricData::active_peers]). *)
#[export] Instance SocketAddr_countable : Countable SocketAddr.
Proof.
  refine (inj_countable'
    (fun a => match a with
      | SocketV4 (Ipv4 a b c d) p => inl (a, b, c, d, p)
      | SocketV6 (Ipv6 s) p f i => inr (s, p, f, i)
      end)
    (fun t => match t with
      | inl (a, b, c, d, p) => SocketV4 (Ipv4 a b c d) p
      | inr (s, p, f, i) => SocketV6 (Ipv6 s) p f i
      end) _).
  by intros [[] ?|[] ? ? ?].
Defined.

(** ** The parser of [core::net::parser]

    A parser consumes a prefix of its input; failing restores the input, so
    [read_atomically] is the identity on this representation. *)
Module Parser.

Definition parser (A : Type) := string -> option (A * string).

Definition pret {A} (a : A) : parser A := fun s => Some (a, s).
Definition pbind {A B} (m : parser A) (k : A -> parser B) : parser B :=
  fun s => match m s with Some (a, s') => k a s' | None => None end.
Definition por {A} (m n : parser A) : parser A :=
  fun s => match m s with Some r => Some r | None => n s end.
Definition pmap {A B} (f : A -> B) (m : parser A) : parser B :=
  pbind m (fun a => pret (f a)).

(** [char::to_digit(radix)] on ASCII bytes. *)
Definition to_digit (radix : Z) (c : ascii) : option Z :=
  let n := Z.of_N (N_of_ascii c) in
  let d := if decide (48 <= n <= 57) then Some (n - 48)
           else if decide (97 <= n <= 122) then Some (n - 97 + 10)
           else if decide (65 <= n <= 90) then Some (n - 65 + 10)
           else None in
  match d with
  | Some d => if decide (d < radix) then Some d else None
  | None => None
  end.

Definition read_given_char (c : ascii) : parser unit := fun s =>
  match s with
  | String c' s' => if decide (c = c') then Some (tt, s') else None
  | EmptyString => None
  end.

(** The digit loop of [read_number]: [acc] is [result], [n] is
    [digit_count].  With [max_digits] the loop fails past the maximum; without
    it the accumulation is checked against the width of the target type. *)
Fixpoint read_digits (radix : Z) (max_digits : option nat) (width : Z)
    (acc : Z) (n : nat) (s : string) : option (Z * nat * string) :=
  match s with
  | EmptyString => Some (acc, n, s)
  | String c s' =>
      match to_digit radix c with
      | None => Some (acc, n, s)
      | Some d =>
          let acc' := acc * radix + d in
          match max_digits with
          | Some m => if decide (m < S n)%nat then None
                      else read_digits radix max_digits width acc' (S n) s'
          | None => if decide (acc' < 2 ^ width)
                    then read_digits radix max_digits width acc' (S n) s'
                    else None
          end
      end
  end.

Definition read_number (radix : Z) (max_digits : option nat)
    (allow_zero_prefix : bool) (width : Z) : parser Z := fun s =>
  let has_leading_zero := match s with String "0" _ => true | _ => false end in
  match read_digits radix max_digits width 0 0 s with
  | None => None
  | Some (r, n, s') =>
      if decide (n = 0%nat) then None
      else if negb allow_zero_prefix && has_leading_zero
              && bool_decide (1 < n)%nat then None
      else if decide (r < 2 ^ width) then Some (r, s') else None
  end.

Definition read_separator {A} (sep : ascii) (index : nat) (inner : parser A)
    : parser A :=
  if decide (0 < index)%nat
  then pbind (read_given_char sep) (fun _ => inner)
  else inner.

Definition read_ipv4_addr : parser Ipv4Addr :=
  let octet i := read_separator "." i (read_number 10 (Some 3%nat) false 8) in
  pbind (octet 0%nat) (fun a => pbind (octet 1%nat) (fun b =>
  pbind (octet 2%nat) (fun c => pbind (octet 3%nat) (fun d =>
  pret (Ipv4 a b c d))))).

(** [read_groups(p, groups)] for a slice of length [i + fuel], at index [i]:
    the groups read from [i] on, whether they end in an embedded IPv4
    address, and the rest of the input. *)
Fixpoint read_groups (fuel i : nat) (s : string) : list Z * bool * string :=
  match fuel with
  | O => ([], false, s)
  | S fuel' =>
      let group := read_separator ":" i (read_number 16 (Some 4%nat) true 16) in
      let plain :=
        match group s with
        | Some (g, s') =>
            let '(gs, v4, s'') := read_groups fuel' (S i) s' in (g :: gs, v4, s'')
        | None => ([], false, s)
        end in
      (* [i < limit - 1]: at least two groups are left *)
      if decide (1 < fuel)%nat then
        match read_separator ":" i read_ipv4_addr s with
        | Some (Ipv4 a b c d, s') => ([a * 256 + b; c * 256 + d], true, s')
        | None => plain
        end
      else plain
  end.

Definition read_ipv6_addr : parser Ipv6Addr := fun s =>
  let '(head, head_ipv4, s1) := read_groups 8 0 s in
  if decide (length head = 8%nat) then Some (Ipv6 head, s1)
  else if head_ipv4 : bool then None
  else
    pbind (read_given_char ":") (fun _ =>
    pbind (read_given_char ":") (fun _ s2 =>
      let '(tail, _, s3) := read_groups (8 - (length head + 1)) 0 s2 in
      let zeros := replicate (8 - length head - length tail) 0 in
      Some (Ipv6 (head ++ zeros ++ tail), s3))) s1.

Definition read_port : parser Z :=
  pbind (read_given_char ":") (fun _ => read_number 10 None true 16).

Definition read_scope_id : parser Z :=
  pbind (read_given_char "%") (fun _ => read_number 10 None true 32).

Definition read_socket_addr_v4 : parser SocketAddr :=
  pbind read_ipv4_addr (fun ip => pbind read_port (fun port =>
  pret (SocketV4 ip port))).

Definition read_socket_addr_v6 : parser SocketAddr :=
  pbind (read_given_char "[") (fun _ =>
  pbind read_ipv6_addr (fun ip =>
  pbind (por read_scope_id (pret 0)) (fun scope_id =>
  pbind (read_given_char "]") (fun _ =>
  pbind read_port (fun port => pret (SocketV6 ip port 0 scope_id)))))).

Definition read_socket_addr : parser SocketAddr :=
  por read_socket_addr_v4 read_socket_addr_v6.

Definition read_ip_addr : parser IpAddr :=
  por (pmap IpV4 read_ipv4_addr) (pmap IpV6 read_ipv6_addr).

(** [parse_with]: the whole input must be consumed. *)
Definition parse_with {A} (p : parser A) (s : string) : option A :=
  match p s with Some (a, EmptyString) => Some a | _ => None end.

Definition parse_socket_addr : string -> option SocketAddr := parse_with read_socket_addr.
Definition parse_ip_addr : string -> option IpAddr := parse_with read_ip_addr.

(** [str::parse::<u16>()]: an optional [+], then at least one digit. *)
Definition parse_u16 (s : string) : option Z :=
  let digits := match s with String "+" s' => s' | _ => s end in
  parse_with (read_number 10 None true 16) digits.

End Parser.

Import Parser.

Example parse_v4_ex : parse_socket_addr "127.0.0.1:8081" = Some (SocketV4 (Ipv4 127 0 0 1) 8081).
Proof. reflexivity. Qed.
Example parse_v6_ex :
  parse_socket_addr "[2001:db8::1%7]:443" =
  Some (SocketV6 (Ipv6 [8193; 3512; 0; 0; 0; 0; 0; 1]) 443 0 7).
Proof. reflexivity. Qed.
Example parse_v6_v4_ex :
  parse_ip_addr "::ffff:1.2.3.4" = Some (IpV6 (Ipv6 [0; 0; 0; 0; 0; 65535; 258; 772])).
Proof. reflexivity. Qed.
Example parse_bad_ex : parse_socket_addr "localhost:8081" = None /\ parse_ip_addr "1.1.1" = None
  /\ parse_ip_addr "01.1.1.1" = None /\ parse_u16 "65536" = None /\ parse_u16 "8081" = Some 8081.
Proof. repeat split; reflexivity. Qed.

(** ** Printing of IPv4 socket addresses ([Display] of [std::net]) *)

Definition digit_char (d : Z) : ascii := ascii_of_N (Z.to_N (48 + d)).

(** The decimal digits of [n] in front of [s]; [fuel] bounds their number. *)
Fixpoint dec_go (fuel : nat) (n : Z) (s : string) : string :=
  match fuel with
  | O => s
  | S fuel' =>
      let s' := String (digit_char (n mod 10)) s in
      if decide (n < 10) then s' else dec_go fuel' (n / 10) s'
  end.

Fixpoint dec_len (fuel : nat) (n : Z) : nat :=
  match fuel with
  | O => O
  | S fuel' => if decide (n < 10) then 1%nat else S (dec_len fuel' (n / 10))
  end.

(** [Display] of a [u8] or [u16]: at most five digits. *)
Definition show_dec (n : Z) (s : string) : string := dec_go 5 n s.

Definition show_ipv4 (a : Ipv4Addr) (s : string) : string :=
  match a with
  | Ipv4 a b c d =>
      show_dec a (String "." (show_dec b (String "." (show_dec c (String "." (show_dec d s))))))
  end.

(** [Display] of [SocketAddrV4] *)
Definition show_socket_v4 (ip : Ipv4Addr) (port : Z) : string :=
  show_ipv4 ip (String ":" (show_dec port EmptyString)).

(** The types' own bounds: octets are [u8], ports [u16]. *)
Definition ipv4_ok (a : Ipv4Addr) : Prop :=
  match a with
  | Ipv4 a b c d => in_width 8 a /\ in_width 8 b /\ in_width 8 c /\ in_width 8 d
  end.

(** ** [lib/src/config.rs] *)

(** [parse_socket_address]: a socket address, or a bare port on localhost. *)
Definition parse_socket_address (address : string) : result string SocketAddr :=
  match parse_socket_addr address with
  | Some listen_address => Ok listen_address
  | None =>
      match parse_u16 address with
      | Some port => Ok (SocketV4 (Ipv4 127 0 0 1) port)
      | None => Err "cannot parse listen address into socket address"
      end
  end.

Section LogLevel.
(** [tracing]'s levels and their parser, and the process environment. *)
Context {Level LevelFilter : Type}.
Context (ERROR : Level) (parse_level : string -> option Level).
Context (from_level : Level -> LevelFilter) (env_var : string -> option string).

Definition parse_log_level_str (log_level : string) : LevelFilter :=
  let log_level := default log_level (env_var "RUST_LOG") in
  from_level (default ERROR (parse_level log_level)).
End LogLevel.

(** ** Properties of the parser on printed addresses *)

Lemma to_digit_char d : 0 <= d < 10 -> to_digit 10 (digit_char d) = Some d.
Proof.
  intros H. assert (d = 0 \/ d = 1 \/ d = 2 \/ d = 3 \/ d = 4 \/ d = 5 \/ d = 6
    \/ d = 7 \/ d = 8 \/ d = 9) as Hd by lia.
  by repeat destruct Hd as [->|Hd]; [..|subst].
Qed.

Lemma digit_char_zero d : 0 < d < 10 -> digit_char d <> "0"%char.
Proof.
  intros H E. pose proof (to_digit_char d) as T. rewrite E in T.
  specialize (T ltac:(lia)). vm_compute in T. injection T as T. lia.
Qed.

(** Whether a digit count and a value pass the checks of the digit loop. *)
Definition digits_fit (md : option nat) (w : Z) (n : Z) (k : nat) : Prop :=
  match md with Some m => (k <= m)%nat | None => n < 2 ^ w end.

Lemma read_digits_dec md w fuel n s :
  0 <= n < 10 ^ Z.of_nat fuel -> digits_fit md w n (dec_len fuel n) ->
  read_digits 10 md w 0 0 (dec_go fuel n s) =
  read_digits 10 md w n (dec_len fuel n) s.
Proof.
  revert n s; induction fuel as [|fuel IH]; intros n s Hn Hfit.
  { simpl in *. by replace n with 0 by lia. }
  rewrite Nat2Z.inj_succ, Z.pow_succ_r in Hn by lia.
  assert (Hm : 0 <= n mod 10 < 10) by (apply Z.mod_pos_bound; lia).
  pose proof (Z.div_mod n 10 ltac:(lia)) as Hd.
  cbn [dec_go dec_len] in *. case_decide as C.
  - cbn [read_digits]. rewrite to_digit_char, Z.mod_small by lia. cbn zeta.
    rewrite Z.mul_0_l, Z.add_0_l.
    destruct md as [m|]; simpl in Hfit; [rewrite decide_False by lia|rewrite decide_True by lia]; done.
  - rewrite IH.
    + cbn [read_digits]. rewrite to_digit_char by lia. cbn zeta.
      replace (n / 10 * 10 + n mod 10) with n by lia.
      destruct md as [m|]; simpl in Hfit; [rewrite decide_False by lia|rewrite decide_True by lia]; done.
    + split; [apply Z.div_pos; lia|]. apply Z.div_lt_upper_bound; lia.
    + destruct md as [m|]; simpl in *; [lia|].
      assert (n / 10 <= n) by (apply Z.div_le_upper_bound; lia). lia.
Qed.

Lemma dec_go_head fuel n s :
  0 < n < 10 ^ Z.of_nat fuel -> exists c t, dec_go fuel n s = String c t /\ c <> "0"%char.
Proof.
  revert n s; induction fuel as [|fuel IH]; intros n s Hn; [simpl in Hn; lia|].
  rewrite Nat2Z.inj_succ, Z.pow_succ_r in Hn by lia. cbn [dec_go]. case_decide as C.
  - eexists _, _; split; [done|]. rewrite Z.mod_small by lia. apply digit_char_zero. lia.
  - apply IH. split; [apply Z.div_str_pos; lia|apply Z.div_lt_upper_bound; lia].
Qed.

Lemma dec_len_pos fuel n : (0 < dec_len (S fuel) n)%nat.
Proof. simpl. case_decide; lia. Qed.

(** The input after a number does not continue it. *)
Definition number_stops (s : string) : Prop :=
  match s with String c _ => to_digit 10 c = None | EmptyString => True end.

Lemma read_digits_stop md w a k s :
  number_stops s -> read_digits 10 md w a k s = Some (a, k, s).
Proof. destruct s as [|c s]; simpl; [done|]. by intros ->. Qed.

(** A printed number is read back, whatever follows it. *)
Lemma read_number_dec md z w n s :
  0 <= n < 10 ^ 5 -> n < 2 ^ w -> digits_fit md w n (dec_len 5 n) -> number_stops s ->
  read_number 10 md z w (show_dec n s) = Some (n, s).
Proof.
  intros Hn Hw Hfit Hs. unfold read_number, show_dec.
  rewrite read_digits_dec, read_digits_stop by done.
  pose proof (dec_len_pos 4 n) as Hp. rewrite decide_False by lia.
  assert (negb z && match dec_go 5 n s with String "0" _ => true | _ => false end
    && bool_decide (1 < dec_len 5 n)%nat = false) as ->.
  { destruct (decide (n = 0)) as [->|Hn0]; [by destruct z|].
    destruct (dec_go_head 5 n s) as (c & t & -> & Hc); [lia|].
    destruct c as [[] [] [] [] [] [] [] []]; try (by destruct z); done. }
  by rewrite decide_True.
Qed.

Lemma dec_len_octet n : in_width 8 n -> (dec_len 5 n <= 3)%nat.
Proof.
  unfold in_width. intros H. assert (n / 10 / 10 < 10).
  { rewrite Z.div_div by lia. apply Z.div_lt_upper_bound; lia. }
  cbn [dec_len]. repeat (case_decide; [lia|]). lia.
Qed.

Lemma read_octet n s : in_width 8 n -> number_stops s ->
  read_number 10 (Some 3%nat) false 8 (show_dec n s) = Some (n, s).
Proof.
  intros H Hs. pose proof (dec_len_octet n H). unfold in_width in H.
  apply read_number_dec; simpl; try lia; done.
Qed.

Lemma read_separator_S {A} sep i (inner : parser A) s :
  read_separator sep (S i) inner (String sep s) = inner s.
Proof.
  unfold read_separator. rewrite decide_True by lia. unfold pbind. simpl.
  by rewrite decide_True.
Qed.

Lemma read_ipv4_show a s :
  ipv4_ok a -> number_stops s -> read_ipv4_addr (show_ipv4 a s) = Some (a, s).
Proof.
  destruct a as [a b c d]. intros (Ha & Hb & Hc & Hd) Hs.
  unfold read_ipv4_addr, pbind, show_ipv4.
  change (read_separator "." 0%nat ?p) with p.
  repeat rewrite ?read_separator_S, read_octet by done.
  done.
Qed.

Lemma read_port_show port s :
  in_width 16 port -> number_stops s ->
  read_port (String ":" (show_dec port s)) = Some (port, s).
Proof.
  unfold in_width. intros H Hs. unfold read_port, pbind. simpl.
  apply read_number_dec; simpl; try lia; done.
Qed.

(** C35: [parse_socket_address] inverts the printing of IPv4 socket addresses. *)
Theorem parse_show_socket_v4 ip port :
  ipv4_ok ip -> in_width 16 port ->
  parse_socket_address (show_socket_v4 ip port) = Ok (SocketV4 ip port).
Proof.
  intros Hip Hp. unfold parse_socket_address, parse_socket_addr, parse_with,
    read_socket_addr, por, read_socket_addr_v4, show_socket_v4, pbind.
  by rewrite read_ipv4_show, read_port_show by done.
Qed.

(** ** Bare ports *)

Fixpoint all_digits (s : string) : Prop :=
  match s with
  | EmptyString => True
  | String c s => (exists d, to_digit 10 c = Some d) /\ all_digits s
  end.

Lemma all_digits_dec_go fuel n s : 0 <= n -> all_digits s -> all_digits (dec_go fuel n s).
Proof.
  revert n s; induction fuel as [|fuel IH]; intros n s Hn Hs; [done|].
  assert (all_digits (String (digit_char (n mod 10)) s)).
  { split; [|done]. eexists. apply to_digit_char. apply Z.mod_pos_bound. lia. }
  cbn [dec_go]. case_decide; [done|]. apply IH; [apply Z.div_pos; lia|done].
Qed.

Lemma read_digits_all md w a k s r n s' :
  all_digits s -> read_digits 10 md w a k s = Some (r, n, s') -> s' = EmptyString.
Proof.
  revert a k; induction s as [|c s IH]; intros a k; simpl; [by intros _ [= <- <- <-]|].
  intros [[d ->] Hs]. destruct md; case_decide; [done|by apply IH..|done].
Qed.

Lemma read_number_all md z w s r s' :
  all_digits s -> read_number 10 md z w s = Some (r, s') -> s' = EmptyString.
Proof.
  intros Hs. unfold read_number.
  destruct (read_digits 10 md w 0 0 s) as [[[r0 n] s0]|] eqn:E; [|done].
  apply read_digits_all in E; [|done]. subst s0.
  repeat case_match; congruence.
Qed.

Lemma read_socket_addr_digits s : all_digits s -> read_socket_addr s = None.
Proof.
  intros Hs. unfold read_socket_addr, por.
  assert (read_socket_addr_v4 s = None) as ->.
  { unfold read_socket_addr_v4, read_ipv4_addr, pbind.
    change (read_separator "." 0%nat ?p) with p.
    destruct (read_number 10 (Some 3%nat) false 8 s) as [[a r]|] eqn:E; [|done].
    apply read_number_all in E as ->; done. }
  destruct s as [|c s]; [done|]. destruct Hs as [[d Hd] _].
  unfold read_socket_addr_v6, pbind, read_given_char. case_decide; [|done].
  subst c. done.
Qed.

(** A bare port number is an address on localhost. *)
Theorem parse_show_port port :
  in_width 16 port ->
  parse_socket_address (show_dec port EmptyString) = Ok (SocketV4 (Ipv4 127 0 0 1) port).
Proof.
  intros Hp. unfold parse_socket_address, parse_socket_addr, parse_with.
  assert (all_digits (show_dec port EmptyString)) as Hd.
  { apply all_digits_dec_go; [unfold in_width in Hp; lia|done]. }
  rewrite read_socket_addr_digits by done.
  assert (parse_u16 (show_dec port EmptyString) = Some port) as ->; [|done].
  unfold parse_u16, parse_with.
  assert (match show_dec port EmptyString with String "+" s' => s' | _ => show_dec port EmptyString end
    = show_dec port EmptyString) as ->.
  { destruct (show_dec port EmptyString) as [|c t]; [done|].
    destruct Hd as [[d Hd] _].
    destruct c as [[] [] [] [] [] [] [] []]; try done. }
  unfold in_width in Hp.
  rewrite read_number_dec; simpl; try lia; done.
Qed.

(** ** Every parsed address is in range *)

Definition socket_ok (a : SocketAddr) : Prop :=
  match a with
  | SocketV4 ip port => ipv4_ok ip /\ in_width 16 port
  | SocketV6 (Ipv6 segs) port flowinfo scope =>
      length segs = 8%nat /\ Forall (in_width 16) segs /\ in_width 16 port
      /\ flowinfo = 0 /\ in_width 32 scope
  end.

(** [Post P p]: every result of the parser [p] satisfies [P]. *)
Definition Post {A} (P : A -> Prop) (p : parser A) : Prop :=
  forall s a s', p s = Some (a, s') -> P a.

Lemma Post_bind {A B} (P : A -> Prop) (Q : B -> Prop) (m : parser A) k :
  Post P m -> (forall a, P a -> Post Q (k a)) -> Post Q (pbind m k).
Proof.
  intros Hm Hk s b s'. unfold pbind. destruct (m s) as [[a s1]|] eqn:E; [|done].
  apply Hk. by eapply Hm.
Qed.

Lemma Post_ret {A} (P : A -> Prop) a : P a -> Post P (pret a).
Proof. intros H s b s' [= <- <-]. done. Qed.

Lemma Post_or {A} (P : A -> Prop) (m n : parser A) : Post P m -> Post P n -> Post P (por m n).
Proof. intros Hm Hn s b s'. unfold por. destruct (m s) as [[]|] eqn:E; [intros [= <- <-]|]; eauto. Qed.

Lemma Post_separator {A} (P : A -> Prop) sep i (m : parser A) :
  Post P m -> Post P (read_separator sep i m).
Proof.
  intros Hm. unfold read_separator. case_decide; [|done].
  by apply (Post_bind (fun _ => True)); [done|intros].
Qed.

Lemma Post_true {A} (m : parser A) : Post (fun _ => True) m.
Proof. done. Qed.

Lemma read_digits_nonneg radix md w a k s r n s' :
  0 < radix -> 0 <= a -> read_digits radix md w a k s = Some (r, n, s') -> 0 <= r.
Proof.
  intros Hr. revert a k; induction s as [|c s IH]; intros a k Ha; simpl; [by intros [= <- _ _]|].
  destruct (to_digit radix c) as [d|] eqn:E; [|by intros [= <- _ _]].
  assert (0 <= d).
  { unfold to_digit in E. repeat case_decide; simplify_eq; lia. }
  destruct md; case_decide; try done; apply IH; nia.
Qed.

Lemma Post_number radix md z w : 0 < radix -> Post (in_width w) (read_number radix md z w).
Proof.
  intros Hr s a s'. unfold read_number.
  destruct (read_digits radix md w 0 0 s) as [[[r n] s0]|] eqn:E; [|done].
  apply read_digits_nonneg in E; [|done..].
  repeat case_match; try done; intros [= <- <-]; done.
Qed.

Lemma Post_ipv4 : Post ipv4_ok read_ipv4_addr.
Proof.
  unfold read_ipv4_addr.
  repeat (eapply Post_bind; [apply Post_separator, Post_number; lia|intros ? ?]).
  by apply Post_ret.
Qed.

Lemma read_groups_ok fuel i s gs v4 s' :
  read_groups fuel i s = (gs, v4, s') ->
  (length gs <= fuel)%nat /\ Forall (in_width 16) gs.
Proof.
  revert i s gs v4 s'; induction fuel as [|fuel IH]; intros i s gs v4 s'.
  { intros [= <- _ _]. split; [simpl; lia|constructor]. }
  set (group := read_separator ":" i (read_number 16 (Some 4%nat) true 16)).
  assert (Hplain : forall gs v4 s', match group s with
      | Some (g, s') => let '(gs, v4, s'') := read_groups fuel (S i) s' in (g :: gs, v4, s'')
      | None => ([], false, s) end = (gs, v4, s') ->
      (length gs <= S fuel)%nat /\ Forall (in_width 16) gs).
  { intros gs0 v40 s0. destruct (group s) as [[g s1]|] eqn:E.
    - destruct (read_groups fuel (S i) s1) as [[gs1 v1] s2] eqn:E1.
      intros [= <- _ _]. apply IH in E1 as [H1 H2]. split; [simpl; lia|].
      constructor; [|done]. eapply Post_separator; [|apply E]. apply Post_number. lia.
    - intros [= <- _ _]. split; [simpl; lia|constructor]. }
  cbn [read_groups]. fold group. case_decide as C; [|apply Hplain].
  destruct (read_separator ":" i read_ipv4_addr s) as [[[a b c d] s1]|] eqn:E; [|apply Hplain].
  intros [= <- _ _]. apply (Post_separator _ _ _ _ Post_ipv4) in E as (Ha & Hb & Hc & Hd).
  split; [simpl; lia|]. unfold in_width in *.
  apply Forall_cons_2; [lia|]. apply Forall_cons_2; [lia|constructor].
Qed.

Lemma Post_ipv6 :
  Post (fun a => match a with Ipv6 segs => length segs = 8%nat /\ Forall (in_width 16) segs end)
    read_ipv6_addr.
Proof.
  intros s a s'. unfold read_ipv6_addr.
  destruct (read_groups 8 0 s) as [[head v4] s1] eqn:E1.
  apply read_groups_ok in E1 as [L1 F1].
  case_decide as C; [by intros [= <- _]|]. destruct v4; [done|].
  unfold pbind. do 2 (destruct (read_given_char _ _) as [[[] ?]|]; [|done]).
  destruct (read_groups (8 - (length head + 1)) 0 _) as [[tail v5] s3] eqn:E2.
  apply read_groups_ok in E2 as [L2 F2]. intros [= <- _].
  rewrite !length_app, length_replicate. split; [lia|].
  rewrite !Forall_app. repeat split; [done| |done].
  apply Forall_replicate. unfold in_width. lia.
Qed.

Lemma Post_socket : Post socket_ok read_socket_addr.
Proof.
  apply Post_or.
  - eapply Post_bind; [apply Post_ipv4|]. intros ip Hip.
    eapply Post_bind; [|intros port Hp; by apply Post_ret].
    eapply Post_bind; [apply Post_true|]. intros _ _. apply Post_number. lia.
  - eapply Post_bind; [apply Post_true|]. intros _ _.
    eapply Post_bind; [apply Post_ipv6|]. intros [segs] [Hl Hf].
    eapply (Post_bind (in_width 32)).
    { apply Post_or; [|apply Post_ret; unfold in_width; lia].
      eapply Post_bind; [apply Post_true|]. intros _ _. apply Post_number. lia. }
    intros scope Hs. eapply Post_bind; [apply Post_true|]. intros _ _.
    eapply (Post_bind (in_width 16)).
    { eapply Post_bind; [apply Post_true|]. intros _ _. apply Post_number. lia. }
    intros port Hp. by apply Post_ret.
Qed.

(** The model's integers stay in the widths of the types they stand for:
    octets, segments and ports, and IPv6 has exactly eight segments. *)
Theorem parse_socket_address_ok s a :
  parse_socket_address s = Ok a -> socket_ok a.
Proof.
  unfold parse_socket_address, parse_socket_addr, parse_with.
  destruct (read_socket_addr s) as [[b []]|] eqn:E.
  1: { intros [= <-]. by eapply Post_socket. }
  all: destruct (parse_u16 s) as [p|] eqn:Ep; intros [= <-];
    split; [unfold ipv4_ok, in_width; lia|];
    unfold parse_u16, parse_with in Ep;
    destruct (read_number _ _ _ _ _) as [[q []]|] eqn:Eq; simplify_eq;
    apply Post_number in Eq; [done|lia].
Qed.

(** ** Witnesses *)

Lemma parse_show_socket_v4_witness :
  parse_socket_address "10.0.0.255:65535" = Ok (SocketV4 (Ipv4 10 0 0 255) 65535).
Proof.
  apply (parse_show_socket_v4 (Ipv4 10 0 0 255) 65535); unfold ipv4_ok, in_width; lia.
Defined.

Lemma parse_show_port_witness :
  parse_socket_address "8404" = Ok (SocketV4 (Ipv4 127 0 0 1) 8404).
Proof. apply (parse_show_port 8404). unfold in_width. lia. Defined.
