(* ===== verification/LibProxy.v ===== *)
(** * Connect head and server-side tunnel ([lib/src/proxy.rs])

    [ConnectHeadBuf] is the only framing of the protocol: a 16-bit big-endian
    length followed by the UTF-8 bytes of [host:port].  The client writes it
    at the start of every stream, the server's [tunnel] reads it back. *)

From S2P Require Import Prelude.

(** ** UTF-8 ([std::str::from_utf8]) *)

Definition byte_in (lo hi : N) (c : ascii) : bool :=
  bool_decide (lo <= N_of_ascii c)%N && bool_decide (N_of_ascii c <= hi)%N.
Definition is_ascii_byte : ascii -> bool := byte_in 0 127.
Definition is_cont : ascii -> bool := byte_in 128 191.
Definition lead2 : ascii -> bool := byte_in 194 223.
(** First two bytes of a three- and of a four-byte sequence. *)
Definition lead3 (c d : ascii) : bool :=
  (byte_in 224 224 c && byte_in 160 191 d)
  || ((byte_in 225 236 c || byte_in 238 239 c) && is_cont d)
  || (byte_in 237 237 c && byte_in 128 159 d).
Definition lead4 (c d : ascii) : bool :=
  (byte_in 240 240 c && byte_in 144 191 d)
  || (byte_in 241 243 c && is_cont d)
  || (byte_in 244 244 c && byte_in 128 143 d).

Fixpoint utf8_valid (s : string) : bool :=
  match s with
  | EmptyString => true
  | String c1 s1 =>
      if is_ascii_byte c1 then utf8_valid s1 else
      match s1 with
      | EmptyString => false
      | String c2 s2 =>
          if lead2 c1 && is_cont c2 then utf8_valid s2 else
          match s2 with
          | EmptyString => false
          | String c3 s3 =>
              if lead3 c1 c2 && is_cont c3 then utf8_valid s3 else
              match s3 with
              | EmptyString => false
              | String c4 s4 =>
                  lead4 c1 c2 && is_cont c3 && is_cont c4 && utf8_valid s4
              end
          end
      end
  end.

Definition from_utf8 (s : string) : option string :=
  if utf8_valid s then Some s else None.

(** Induction on the characters of a valid string. *)
Lemma utf8_ind (P : string -> Prop) :
  P EmptyString ->
  (forall c s, is_ascii_byte c = true -> P s -> P (String c s)) ->
  (forall c1 c2 s, is_ascii_byte c1 = false -> lead2 c1 && is_cont c2 = true -> P s ->
    P (String c1 (String c2 s))) ->
  (forall c1 c2 c3 s, is_ascii_byte c1 = false -> lead2 c1 && is_cont c2 = false ->
    lead3 c1 c2 && is_cont c3 = true -> P s ->
    P (String c1 (String c2 (String c3 s)))) ->
  (forall c1 c2 c3 c4 s, is_ascii_byte c1 = false -> lead2 c1 && is_cont c2 = false ->
    lead3 c1 c2 && is_cont c3 = false ->
    lead4 c1 c2 && is_cont c3 && is_cont c4 = true -> P s ->
    P (String c1 (String c2 (String c3 (String c4 s))))) ->
  forall s, utf8_valid s = true -> P s.
Proof.
  intros H0 H1 H2 H3 H4 s.
  remember (String.length s) as n eqn:Hn. revert s Hn.
  induction (lt_wf n) as [n _ IH]. intros s ->.
  assert (IH' : forall t, (String.length t < String.length s)%nat -> utf8_valid t = true -> P t).
  { intros t Ht Hv. by eapply IH. }
  clear IH. destruct s as [|c1 s1]; [done|]. simpl.
  destruct (is_ascii_byte c1) eqn:A1; [intros Hv; apply H1; [done|apply IH'; [simpl; lia|done]]|].
  destruct s1 as [|c2 s2]; [done|].
  destruct (lead2 c1 && is_cont c2) eqn:A2; [intros Hv; apply H2; [done..|apply IH'; [simpl; lia|done]]|].
  destruct s2 as [|c3 s3]; [done|].
  destruct (lead3 c1 c2 && is_cont c3) eqn:A3; [intros Hv; apply H3; [done..|apply IH'; [simpl; lia|done]]|].
  destruct s3 as [|c4 s4]; [done|]. intros Hv. apply andb_prop in Hv as [A4 Hv].
  apply H4; [done..|apply IH'; [simpl; lia|done]].
Qed.

Lemma utf8_valid_app a b :
  utf8_valid a = true -> utf8_valid b = true -> utf8_valid (a +:+ b)%string = true.
Proof.
  intros Ha Hb. revert a Ha. apply utf8_ind; simpl.
  - done.
  - by intros c s -> H.
  - by intros c1 c2 s -> -> H.
  - by intros c1 c2 c3 s -> -> -> H.
  - by intros c1 c2 c3 c4 s -> -> -> -> H.
Qed.

Lemma byte_in_ascii lo hi c :
  is_ascii_byte c = true -> (127 < lo)%N -> byte_in lo hi c = false.
Proof.
  unfold is_ascii_byte, byte_in. intros H Hlo.
  apply andb_prop in H as [_ H]. apply bool_decide_eq_true in H.
  by rewrite bool_decide_eq_false_2 by lia.
Qed.

Lemma ascii_not_lead c : is_ascii_byte c = true ->
  is_cont c = false /\ lead2 c = false /\ (forall d, lead3 c d = false) /\ (forall d, lead4 c d = false)
  /\ (forall d, lead3 d c = false) /\ (forall d, lead4 d c = false).
Proof.
  intros H. unfold lead2, lead3, lead4, is_cont.
  repeat split; intros;
    repeat (rewrite (byte_in_ascii _ _ c) by (done || lia); rewrite ?andb_false_r; simpl);
    done.
Qed.

(** An ASCII byte is never inside a character: both sides of it are valid. *)
Lemma utf8_valid_split c s :
  is_ascii_byte c = true -> utf8_valid s = true ->
  forall a b, s = (a +:+ String c b)%string -> utf8_valid a = true /\ utf8_valid b = true.
Proof.
  intros Hc Hs. destruct (ascii_not_lead c Hc) as (N1 & N2 & N3 & N4 & N5 & N6).
  cut (utf8_valid s = true /\ forall a b, s = (a +:+ String c b)%string ->
    utf8_valid a = true /\ utf8_valid b = true); [tauto|].
  revert s Hs. apply utf8_ind.
  - split; [done|]. by intros [].
  - intros x s Hx [Hv IH]. split; [simpl; by rewrite Hx|].
    intros [|x' a] b; simpl; intros [= -> ->]; [done|].
    destruct (IH a b eq_refl). by rewrite Hx.
  - intros x y s Hx Hy [Hv IH]. split; [simpl; by rewrite Hx, Hy|].
    apply andb_prop in Hy as Hy'. destruct Hy' as [_ Hy'].
    intros [|x' [|y' a]] b; simpl; intros [=]; simplify_eq; try congruence.
    destruct (IH a b eq_refl). by rewrite Hx, Hy.
  - intros x y z s Hx Hy Hz [Hv IH]. split; [simpl; by rewrite Hx, Hy, Hz|].
    apply andb_prop in Hz as Hz'. destruct Hz' as [Hz1 Hz2].
    intros [|x' [|y' [|z' a]]] b; simpl; intros [=]; simplify_eq; try congruence.
    destruct (IH a b eq_refl). by rewrite Hx, Hy, Hz.
  - intros x y z w s Hx Hy Hz Hw [Hv IH]. split; [simpl; by rewrite Hx, Hy, Hz, Hw|].
    apply andb_prop in Hw as Hw'. destruct Hw' as [Hw' Hw3].
    apply andb_prop in Hw' as [Hw1 Hw2].
    intros [|x' [|y' [|z' [|w' a]]]] b; simpl; intros [=]; simplify_eq; try congruence.
    destruct (IH a b eq_refl). by rewrite Hx, Hy, Hz, Hw.
Qed.

(** ** [ConnectHeadBuf] *)

Record ConnectHeadBuf := { head_bytes : string }.

(** [buf.put_u16(n)]: big endian, [n] already truncated to 16 bits. *)
Definition put_u16 (n : Z) (s : string) : string :=
  String (ascii_of_N (Z.to_N (n / 256))) (String (ascii_of_N (Z.to_N (n mod 256))) s).

(** [impl From<&str> for ConnectHeadBuf]; [host.len() as u16] truncates. *)
Definition head_from_str (host : string) : ConnectHeadBuf :=
  {| head_bytes := put_u16 (as_width 16 (Z.of_nat (String.length host))) host |}.

(** [impl From<Bytes> for ConnectHeadBuf] *)
Definition head_from_bytes (host_buf : string) : ConnectHeadBuf :=
  {| head_bytes := put_u16 (as_width 16 (Z.of_nat (String.length host_buf))) host_buf |}.

(** [as_str]: skips the two length bytes and unwraps the UTF-8 check.  The
    slice [self.0[2..]] panics on a buffer shorter than two bytes. *)
Definition head_as_str (b : ConnectHeadBuf) : outcome string :=
  if decide (String.length (head_bytes b) < 2)%nat then Panic
  else match from_utf8 (str_drop 2 (head_bytes b)) with
       | Some s => Done s
       | None => Panic
       end.

Definition head_as_ref (b : ConnectHeadBuf) : string := head_bytes b.

Lemma head_as_str_from host :
  utf8_valid host = true -> head_as_str (head_from_str host) = Done host.
Proof.
  intros H. unfold head_as_str, head_from_str, put_u16. cbn [head_bytes].
  rewrite decide_False by (simpl; lia). simpl. unfold from_utf8. by rewrite H.
Qed.

(** ** [tunnel], the server side

    The byte stream, the outbound connection and the copy loop belong to
    [tokio]: they are the operations of [TunnelIo]. *)
Class TunnelIo (S C : Type) := {
  (** [AsyncReadExt::read_u16]: two bytes, big endian, or an error on EOF *)
  read_u16 : S -> result string (Z * S);
  (** [AsyncReadExt::read_buf] on an empty buffer of capacity [n]: the bytes
      of a single read *)
  read_buf : nat -> S -> result string (string * S);
  (** [TcpStream::connect] *)
  tcp_connect : string -> result string C;
  (** [tokio::io::copy_bidirectional] *)
  copy_bidirectional : S -> C -> result string unit;
}.

Section Tunnel.
Context {S C : Type} `{TunnelIo S C}.

(** The first half of [tunnel]: the address the client asked for. *)
Definition tunnel_url (inbound : S) : result string (string * S) :=
  '(url_len, inbound) ← read_u16 inbound;
  '(buf, inbound) ← read_buf (Z.to_nat url_len) inbound;
  match from_utf8 buf with
  | Some url => Ok (url, inbound)
  | None => Err "invalid utf-8"
  end.

Definition tunnel (inbound : S) : result string unit :=
  '(url, inbound) ← tunnel_url inbound;
  outbound ← tcp_connect url;
  copy_bidirectional inbound outbound.
End Tunnel.

(** The documented behaviour of [tokio]'s reads: [remaining] is what the peer
    has sent and this side has not read; [arrived] is how much of it a single
    read can return now. *)
Class TunnelIoLaws (S C : Type) `{TunnelIo S C}
    (remaining : S -> string) (arrived : S -> nat) := {
  read_u16_spec : forall s h l t, remaining s = String h (String l t) ->
    exists s', read_u16 s = Ok (Z.of_N (N_of_ascii h) * 256 + Z.of_N (N_of_ascii l), s')
      /\ remaining s' = t /\ arrived s' = (arrived s - 2)%nat;
  read_buf_spec : forall n s, (0 < n)%nat -> (0 < arrived s)%nat ->
    exists s', read_buf n s = Ok (str_take (Nat.min n (arrived s)) (remaining s), s')
      /\ remaining s' = str_drop (Nat.min n (arrived s)) (remaining s);
}.

(** A stream of [tokio] test quality: the bytes still to read, of which the
    first [n] are in the receive buffer. *)
Module Segment.
Record stream := { bytes : string; ready : nat }.

Definition seg_read_u16 (s : stream) : result string (Z * stream) :=
  match bytes s with
  | String h (String l t) =>
      Ok (Z.of_N (N_of_ascii h) * 256 + Z.of_N (N_of_ascii l),
          {| bytes := t; ready := ready s - 2 |})
  | _ => Err "unexpected end of file"
  end.

Definition seg_read_buf (n : nat) (s : stream) : result string (string * stream) :=
  let k := Nat.min n (ready s) in
  Ok (str_take k (bytes s), {| bytes := str_drop k (bytes s); ready := ready s - k |}).

#[export] Instance seg_io : TunnelIo stream string := {|
  read_u16 := seg_read_u16;
  read_buf := seg_read_buf;
  tcp_connect := fun url => Ok url;
  copy_bidirectional := fun _ url => Err url;
|}.

#[export] Instance seg_laws : TunnelIoLaws stream string bytes ready.
Proof.
  split.
  - intros [b r] h l t. simpl. intros ->. eexists. by split.
  - intros n [b r] Hn Hr. simpl. eexists. by split.
Qed.
End Segment.
Import Segment.

Lemma put_u16_value n : in_width 16 n ->
  Z.of_N (N_of_ascii (ascii_of_N (Z.to_N (n / 256)))) * 256
  + Z.of_N (N_of_ascii (ascii_of_N (Z.to_N (n mod 256)))) = n.
Proof.
  unfold in_width. intros Hn.
  assert (0 <= n / 256 < 256) by (split; [apply Z.div_pos|apply Z.div_lt_upper_bound]; lia).
  pose proof (Z.mod_pos_bound n 256 ltac:(lia)).
  rewrite !N_ascii_embedding by lia. rewrite !Z2N.id by lia.
  pose proof (Z.div_mod n 256). lia.
Qed.

Section TunnelSpec.
Context {S C : Type} `{HIo : TunnelIo S C} {remaining : S -> string} {arrived : S -> nat}
  `{!TunnelIoLaws S C remaining arrived}.

(** What [tunnel_url] returns on a stream that starts with a connect head. *)
Lemma tunnel_url_head s host rest :
  0 < Z.of_nat (String.length host) < 2 ^ 16 ->
  remaining s = (head_as_ref (head_from_str host) +:+ rest)%string ->
  (2 < arrived s)%nat ->
  let k := Nat.min (String.length host) (arrived s - 2) in
  match from_utf8 (str_take k (host +:+ rest)%string) with
  | Some url => exists s', tunnel_url s = Ok (url, s')
      /\ remaining s' = str_drop k (host +:+ rest)%string
  | None => tunnel_url s = Err "invalid utf-8"%string
  end.
Proof.
  intros Hl Hr Ha k. set (n := Z.of_nat (String.length host)).
  assert (Hn : as_width 16 n = n).
  { unfold as_width. apply Z.mod_small. unfold n. lia. }
  unfold head_as_ref, head_from_str, put_u16 in Hr. simpl in Hr.
  fold n in Hr. rewrite Hn in Hr.
  destruct (read_u16_spec _ _ _ _ Hr) as (s1 & E1 & R1 & A1).
  rewrite put_u16_value in E1 by (unfold in_width, n; lia).
  destruct (read_buf_spec (Z.to_nat n) s1) as (s2 & E2 & R2); [unfold n; lia|lia|].
  rewrite A1, R1 in *. unfold n in E2, R2. rewrite Nat2Z.id in *. fold k in E2, R2.
  unfold tunnel_url. rewrite E1. cbn. unfold n. rewrite Nat2Z.id, E2. cbn.
  destruct (from_utf8 _); [|done]. eexists. by split.
Qed.

(** When the whole head has arrived, the server connects to exactly the
    host the client encoded and leaves exactly the payload in the stream. *)
Theorem tunnel_connects_to_host s host rest :
  0 < Z.of_nat (String.length host) < 2 ^ 16 -> utf8_valid host = true ->
  remaining s = (head_as_ref (head_from_str host) +:+ rest)%string ->
  (2 + String.length host <= arrived s)%nat ->
  exists s', remaining s' = rest /\
    tunnel s = (outbound ← tcp_connect host; copy_bidirectional s' outbound).
Proof.
  intros Hl Hv Hr Ha.
  pose proof (tunnel_url_head s host rest Hl Hr ltac:(lia)) as Hu. cbn zeta in Hu.
  rewrite Nat.min_l, str_take_app, str_drop_app in Hu by lia.
  unfold from_utf8 in Hu. rewrite Hv in Hu. destruct Hu as (s' & E & R).
  exists s'. split; [done|]. unfold tunnel. by rewrite E.
Qed.

(** The head is read with a single [read_buf]: when only part of it has
    arrived, the server connects to the part, a strict prefix of the host. *)
Theorem tunnel_short_read_truncates s host rest :
  0 < Z.of_nat (String.length host) < 2 ^ 16 ->
  remaining s = (head_as_ref (head_from_str host) +:+ rest)%string ->
  (2 < arrived s < 2 + String.length host)%nat ->
  let url := str_take (arrived s - 2) host in
  utf8_valid url = true ->
  url <> host /\ exists s', remaining s' = (str_drop (arrived s - 2) host +:+ rest)%string /\
    tunnel s = (outbound ← tcp_connect url; copy_bidirectional s' outbound).
Proof.
  intros Hl Hr Ha url Hv.
  pose proof (tunnel_url_head s host rest Hl Hr ltac:(lia)) as Hu. cbn zeta in Hu.
  rewrite Nat.min_r, str_take_app_le, str_drop_app_le in Hu by lia. fold url in Hu.
  unfold from_utf8 in Hu. rewrite Hv in Hu. destruct Hu as (s' & E & R). split.
  - intros Heq. apply (f_equal String.length) in Heq. unfold url in Heq.
    rewrite str_take_length in Heq. lia.
  - exists s'. split; [done|]. unfold tunnel. by rewrite E.
Qed.
End TunnelSpec.

Definition example_stream (n : nat) : stream :=
  {| bytes := (head_as_ref (head_from_str "example.com:443") +:+ "GET")%string; ready := n |}.

Lemma tunnel_connects_to_host_witness :
  exists s', bytes s' = "GET" /\
    tunnel (example_stream 20) = (outbound ← tcp_connect "example.com:443"; copy_bidirectional s' outbound).
Proof.
  apply (tunnel_connects_to_host (remaining := bytes) (arrived := ready) (example_stream 20) "example.com:443" "GET");
    [simpl; lia|reflexivity|reflexivity|simpl; lia].
Defined.

Lemma tunnel_short_read_truncates_witness :
  "example" <> "example.com:443" /\ exists s', bytes s' = ".com:443GET" /\
    tunnel (example_stream 9) = (outbound ← tcp_connect "example"; copy_bidirectional s' outbound).
Proof.
  apply (tunnel_short_read_truncates (remaining := bytes) (arrived := ready) (example_stream 9) "example.com:443" "GET");
    [simpl; lia|reflexivity|simpl; lia|reflexivity].
Defined.
