(* ===== verification/Tls.v ===== *)
(** * TLS configuration ([lib/src/tls.rs])

    Reading keys and certificates and choosing the roots of trust.  [rustls]
    and [rustls_pemfile] are the class [TlsLib]: the PEM reader one item at a
    time, which certificates parse, and whether a chain and key form a
    configuration. *)

From S2P Require Import Prelude.

(** [rustls_pemfile::Item]; the loader looks at the three key cases only. *)
Inductive PemItem :=
  | RSAKey (key : string)
  | PKCS8Key (key : string)
  | ECKey (key : string)
  | OtherItem.

(** [std::fs]: the contents of the readable files. *)
Definition FileSystem := string -> option string.

Class TlsLib := {
  (** [rustls_pemfile::read_one]: the next item and the rest of the input *)
  read_one : string -> result string (option (PemItem * string));
  (** reading an item consumes input *)
  read_one_progress : forall s i s', read_one s = Ok (Some (i, s')) ->
    (String.length s' < String.length s)%nat;
  (** [rustls_pemfile::certs] *)
  pem_certs : string -> result string (list string);
  (** [RootCertStore::add] *)
  parsable : string -> bool;
  (** [with_single_cert] accepts the chain and key *)
  single_cert_ok : list string -> string -> bool;
  (** [rustls::Ticketer::new()], which fails when the system has no random
      numbers *)
  ticketer_new : result string unit;
}.

Inductive RootCertStore :=
  | RootCerts (certs : list string)
  | WebpkiRoots.

Inductive ClientVerifier :=
  | AllowAnyAuthenticatedClient (roots : list string)
  | NoClientAuth.

Inductive Ticketer := RustlsTicketer | NeverProducesTickets.

Record ServerConfig := {
  client_verifier : ClientVerifier;
  server_certs : list string;
  server_key : string;
  ticketer : Ticketer;
  session_cache : nat;
  max_early_data_size : Z;
  server_alpn : list string;
}.

Record ClientConfig := {
  root_store : RootCertStore;
  client_certs : list string;
  client_auth_key : string;
  enable_early_data : bool;
  alpn_protocols : list string;
}.

(** [rustls::server::ProducesTickets] as a trait object. *)
Record ProducesTickets := {
  enabled : bool;
  lifetime : Z;
  encrypt : string -> option string;
  decrypt : string -> option string;
}.

Definition never_produces_tickets : ProducesTickets := {|
  enabled := false;
  lifetime := 0;
  encrypt := fun _ => None;
  decrypt := fun _ => None;
|}.

(** [ServerCertVerified::assertion] and [HandshakeSignatureValid::assertion] *)
Inductive Assertion := assertion.

Record ServerCertVerifier := {
  verify_server_cert (end_entity : string) (intermediates : list string) (server_name : string)
    (scts : list string) (ocsp_response : string) (now : Z) : result string Assertion;
  verify_tls12_signature (message cert dss : string) : result string Assertion;
  verify_tls13_signature (message cert dss : string) : result string Assertion;
}.

(** Not used by the program: [build_tls_client_config] keeps rustls's own
    verifier. *)
Definition NoVerifier : ServerCertVerifier := {|
  verify_server_cert := fun _ _ _ _ _ _ => Ok assertion;
  verify_tls12_signature := fun _ _ _ => Ok assertion;
  verify_tls13_signature := fun _ _ _ => Ok assertion;
|}.

Definition QUIC_ALPN : string := "h3".

(** [.context(msg)] keeps [msg] as the displayed error. *)
Definition context {A B} (msg : string) (r : result B A) : result string A :=
  result_map_err (fun _ => msg) r.

Definition open_file (fs : FileSystem) (msg filename : string) : result string string :=
  match fs filename with Some s => Ok s | None => Err msg end.

Section Tls.
Context `{TL : TlsLib} (fs : FileSystem).

(** The loop of [load_private_key]; [None] when the fuel runs out. *)
Fixpoint key_loop (fuel : nat) (reader : string) : option (result string string) :=
  match fuel with
  | O => None
  | S fuel =>
      match read_one reader with
      | Err e => Some (Err e)
      | Ok (Some (RSAKey key, _)) => Some (Ok key)
      | Ok (Some (PKCS8Key key, _)) => Some (Ok key)
      | Ok (Some (ECKey key, _)) => Some (Ok key)
      | Ok None => Some (Err "no keys found (encrypted keys not supported)")
      | Ok (Some (OtherItem, reader)) => key_loop fuel reader
      end
  end.

Definition load_private_key (filename : string) : result string string :=
  keyfile ← open_file fs "cannot open private key file" filename;
  default (Err EmptyString) (key_loop (S (String.length keyfile)) keyfile).

Definition load_certs (filename : string) : result string (list string) :=
  certfile ← open_file fs "cannot open certificate file" filename;
  pem_certs certfile.

(** [RootCertStore::add_parsable_certificates] *)
Definition add_parsable (certs : list string) : list string :=
  filter (fun c => parsable c = true) certs.

Definition build_client_root_store (cafile : option string) : result string RootCertStore :=
  match cafile with
  | Some cafile =>
      pem ← open_file fs "cannot open ca file" cafile;
      certs ← pem_certs pem;
      let added := add_parsable certs in
      if decide (length added = 0%nat) then Err "cannot parse cert"
      else Ok (RootCerts added)
  | None => Ok WebpkiRoots
  end.

(** The loop [client_auth_roots.add(&cert)?] *)
Fixpoint add_roots (roots certs : list string) : result string (list string) :=
  match certs with
  | [] => Ok roots
  | cert :: certs =>
      if parsable cert then add_roots (roots ++ [cert]) certs else Err "invalid certificate"
  end.

Definition build_tls_server_config (certs key : string) (client_ca : option string)
    : result string ServerConfig :=
  certs ← load_certs certs;
  keys ← load_private_key key;
  client_verifier ←
    match client_ca with
    | Some client_certs =>
        client_certs ← load_certs client_certs;
        client_auth_roots ← add_roots [] client_certs;
        Ok (AllowAnyAuthenticatedClient client_auth_roots)
    | None => Ok NoClientAuth
    end;
  if single_cert_ok certs keys then
    _ ← ticketer_new;
    Ok {| client_verifier := client_verifier; server_certs := certs; server_key := keys;
          ticketer := RustlsTicketer; session_cache := 256; max_early_data_size := 0;
          server_alpn := [] |}
  else Err "invalid private key".

Definition build_tls_client_config (cacert : option string) (client_cert client_key : string)
    : result string ClientConfig :=
  root_store ← build_client_root_store cacert;
  certs ← load_certs client_cert;
  key ← load_private_key client_key;
  if single_cert_ok certs key then
    Ok {| root_store := root_store; client_certs := certs; client_auth_key := key;
          enable_early_data := false; alpn_protocols := [] |}
  else Err "invalid private key".

(** ** The key loop terminates and returns the first key *)

(** The items the reader produces from [s], up to the first error. *)
Inductive reads : string -> list PemItem -> option string -> Prop :=
  | reads_end s : read_one s = Ok None -> reads s [] None
  | reads_err s e : read_one s = Err e -> reads s [] (Some e)
  | reads_item s i s' l e : read_one s = Ok (Some (i, s')) -> reads s' l e -> reads s (i :: l) e.

Definition item_key (i : PemItem) : option string :=
  match i with RSAKey k | PKCS8Key k | ECKey k => Some k | OtherItem => None end.

Lemma key_loop_spec fuel s :
  (String.length s < fuel)%nat ->
  exists l e, reads s l e /\ key_loop fuel s =
    Some (match head (omap item_key l) with
          | Some k => Ok k
          | None => Err (default "no keys found (encrypted keys not supported)" e)
          end).
Proof.
  revert s; induction fuel as [|fuel IH]; intros s Hf; [lia|]. cbn [key_loop].
  destruct (read_one s) as [[[i s']|]|e] eqn:E.
  - pose proof (read_one_progress _ _ _ E) as Hp.
    destruct (IH s') as (l & e & Hr & Hk); [lia|].
    exists (i :: l), e. split; [by eapply reads_item|]. by destruct i.
  - exists [], None. split; [by constructor|done].
  - exists [], (Some e). split; [by constructor|done].
Qed.

(** C39: For every readable file the loop over the PEM items ends, with the first
    key of the file in any of the three encodings, or an error when an item
    is malformed before a key is found or there is no key at all. *)
Theorem load_private_key_first filename s :
  fs filename = Some s ->
  exists items e, reads s items e /\
    load_private_key filename =
      match head (omap item_key items) with
      | Some k => Ok k
      | None => Err (default "no keys found (encrypted keys not supported)" e)
      end.
Proof.
  intros Hf. unfold load_private_key, open_file. rewrite Hf. cbn -[key_loop].
  destruct (key_loop_spec (S (String.length s)) s) as (l & e & Hr & ->); [lia|].
  exists l, e. by split.
Qed.

Lemma add_roots_spec roots certs r :
  add_roots roots certs = Ok r -> r = roots ++ certs /\ Forall (fun c => parsable c = true) certs.
Proof.
  revert roots; induction certs as [|c certs IH]; intros roots; simpl.
  - intros [= <-]. by rewrite app_nil_r.
  - destruct (parsable c) eqn:E; [|done]. intros H.
    destruct (IH _ H) as [-> Hf]. rewrite <- app_assoc. split; [done|by constructor].
Qed.

(** C34: Mutual authentication: a server configuration demands client
    certificates exactly when a client CA is given, and then trusts all of
    its certificates and nothing else. *)
Theorem server_config_client_auth certs key client_ca cfg :
  build_tls_server_config certs key client_ca = Ok cfg ->
  match client_ca with
  | None => client_verifier cfg = NoClientAuth
  | Some ca => exists l, load_certs ca = Ok l /\ Forall (fun c => parsable c = true) l
      /\ client_verifier cfg = AllowAnyAuthenticatedClient l
  end
  /\ load_certs certs = Ok (server_certs cfg) /\ load_private_key key = Ok (server_key cfg).
Proof.
  unfold build_tls_server_config. destruct (load_certs certs) as [cs|] eqn:E1; [|done].
  destruct (load_private_key key) as [k|] eqn:E2; [|done]. cbn.
  destruct client_ca as [ca|]; cbn.
  - destruct (load_certs ca) as [l|] eqn:E3; [|done]. cbn.
    destruct (add_roots [] l) as [r|] eqn:E4; [|done]. cbn.
    apply add_roots_spec in E4 as [-> Hf]. case_match; [|done]. destruct ticketer_new; [|done]. intros [= <-]. simpl.
    split; [|done]. by exists l.
  - case_match; [|done]. destruct ticketer_new; [|done]. intros [= <-]. done.
Qed.

(** C40: A client never trusts an empty set of roots: with a CA file at least one
    certificate of it parsed (the others are skipped), without one the
    built-in roots are used. *)
Theorem client_roots_nonempty cacert cert key cfg :
  build_tls_client_config cacert cert key = Ok cfg ->
  match cacert, root_store cfg with
  | None, WebpkiRoots => True
  | Some ca, RootCerts l => l <> [] /\ exists pem all, fs ca = Some pem /\ pem_certs pem = Ok all
      /\ forall c, c ∈ l <-> c ∈ all /\ parsable c = true
  | _, _ => False
  end.
Proof.
  unfold build_tls_client_config. destruct (build_client_root_store cacert) as [rs|] eqn:E; [|done].
  cbn. destruct (load_certs cert); [|done]. cbn. destruct (load_private_key key); [|done]. cbn.
  case_match; [|done]. intros [= <-]. simpl. revert E. unfold build_client_root_store, open_file.
  destruct cacert as [ca|]; [|by intros [= <-]].
  destruct (fs ca) as [pem|] eqn:Ef; [|done]. cbn.
  destruct (pem_certs pem) as [all|] eqn:Ec; [|done]. cbn.
  case_decide as D; [done|]. intros [= <-]. split; [by destruct (add_parsable all)|].
  exists pem, all. repeat split; try done; unfold add_parsable in *.
  all: rewrite list_elem_of_filter in *; tauto.
Qed.
End Tls.

(** ** A PEM reader for the witnesses: one character per item *)

Definition char_item (c : ascii) : PemItem :=
  if decide (c = "r"%char) then RSAKey "rsa"
  else if decide (c = "p"%char) then PKCS8Key "pkcs8"
  else if decide (c = "e"%char) then ECKey "ec"
  else OtherItem.

Definition char_read (s : string) : result string (option (PemItem * string)) :=
  match s with
  | EmptyString => Ok None
  | String c s' => if decide (c = "!"%char) then Err "bad pem" else Ok (Some (char_item c, s'))
  end.

Lemma char_read_progress s i s' :
  char_read s = Ok (Some (i, s')) -> (String.length s' < String.length s)%nat.
Proof. destruct s as [|c s]; simpl; [done|]. case_decide; [done|]. intros [= _ <-]. lia. Qed.

#[export] Instance char_pem : TlsLib := {|
  read_one := char_read;
  read_one_progress := char_read_progress;
  pem_certs := fun s => Ok (match s with EmptyString => [] | _ => [s] end);
  parsable := fun s => bool_decide (s <> "garbage");
  single_cert_ok := fun _ _ => true;
  ticketer_new := Ok tt;
|}.

Definition example_fs : FileSystem := fun f =>
  if decide (f = "key.pem") then Some "cep"
  else if decide (f = "cert.pem") then Some "cert"
  else if decide (f = "ca.pem") then Some "ca" else None.

Lemma load_private_key_first_witness :
  exists items e, reads "cep" items e /\
    load_private_key example_fs "key.pem" =
      match head (omap item_key items) with
      | Some k => Ok k
      | None => Err (default "no keys found (encrypted keys not supported)" e)
      end.
Proof. apply (load_private_key_first example_fs "key.pem" "cep"). reflexivity. Defined.

Lemma server_config_client_auth_witness :
  exists cfg, build_tls_server_config example_fs "cert.pem" "key.pem" (Some "ca.pem") = Ok cfg
    /\ ((exists l, load_certs example_fs "ca.pem" = Ok l /\ Forall (fun c => parsable c = true) l
        /\ client_verifier cfg = AllowAnyAuthenticatedClient l)
    /\ load_certs example_fs "cert.pem" = Ok (server_certs cfg)
    /\ load_private_key example_fs "key.pem" = Ok (server_key cfg)).
Proof.
  eexists. split; [vm_compute; reflexivity|].
  apply (server_config_client_auth example_fs "cert.pem" "key.pem" (Some "ca.pem")).
  vm_compute. reflexivity.
Defined.

Lemma client_roots_nonempty_witness :
  exists cfg, build_tls_client_config example_fs (Some "ca.pem") "cert.pem" "key.pem" = Ok cfg
    /\ match root_store cfg with
       | RootCerts l => l <> [] /\ exists pem all, example_fs "ca.pem" = Some pem
           /\ pem_certs pem = Ok all /\ forall c, c ∈ l <-> c ∈ all /\ parsable c = true
       | WebpkiRoots => False
       end.
Proof.
  eexists. split; [vm_compute; reflexivity|].
  apply (client_roots_nonempty example_fs (Some "ca.pem") "cert.pem" "key.pem").
  vm_compute. reflexivity.
Defined.
