(* ===== verification/TomlConfig.v ===== *)
(** * Loading a TOML file ([lib/src/config.rs], [TomlFileConfig])

    The client's and the server's configuration and the host rules are loaded
    through this trait; the toml crate's [from_str] is a parameter. *)

From S2P Require Import Prelude LibProxy Tls.

(** [read_to_string]: the bytes of a file as a string. *)
Definition read_to_string (contents : string) : result string string :=
  match from_utf8 contents with
  | Some s => Ok s
  | None => Err "stream did not contain valid UTF-8"
  end.

(** [std::fs::read_to_string] *)
Definition fs_read_to_string (fs : FileSystem) (path : string) : result string string :=
  data ← open_file fs "No such file or directory" path; read_to_string data.

Section TomlFileConfig.
Context {T : Type} (from_str : string -> result string T).

(** [load_from_read], given what the reader holds. *)
Definition load_from_read (r : string) : result string T :=
  s ← read_to_string r;
  match from_str s with
  | Ok config => Ok config
  | Err e => Err e
  end.

Definition load_from_file (fs : FileSystem) (path : string) : result string T :=
  data ← context "Failed to read file" (fs_read_to_string fs path);
  match from_str data with
  | Ok config => Ok config
  | Err e => Err e
  end.

(** A file is loaded exactly when it is there, is UTF-8 and parses; its value
    is then that of reading its contents. *)
Lemma load_from_file_ok fs path config :
  load_from_file fs path = Ok config <->
  exists data, fs path = Some data /\ utf8_valid data = true /\ from_str data = Ok config.
Proof.
  unfold load_from_file, fs_read_to_string, open_file, read_to_string, from_utf8. destruct (fs path) as [data|]; cbn.
  - destruct (utf8_valid data) eqn:Eu; cbn.
    + destruct (from_str data) as [c|e] eqn:E; split; try done; [intros [= ->]; by exists data| |];
        intros (d & [= <-] & _ & H); congruence.
    + split; [done|]. intros (d & [= <-] & H & _). congruence.
  - split; [done|]. by intros (d & H & _).
Qed.

Lemma load_from_read_file fs path data config :
  fs path = Some data -> load_from_file fs path = Ok config <-> load_from_read data = Ok config.
Proof.
  intros Hd. unfold load_from_file, load_from_read, fs_read_to_string, open_file. rewrite Hd. cbn.
  by destruct (read_to_string data) as [s|e].
Qed.
End TomlFileConfig.
