(* ===== verification/LibMetric.v ===== *)
(** * Metric data ([lib/src/metric.rs])

    The backend status and protocol, the record of metrics a backend keeps,
    the peak-EWMA latency estimator, and the messages of the metric API.
    [f64] arithmetic is the class [F64]: the definitions use its operations as
    the code writes them.  The bounds on the estimator are proved for every
    arithmetic that rounds as IEEE 754 prescribes, the class [RoundedF64]; the
    instance [RF64] on the reals has no rounding and serves the witnesses, the
    instance [GF64] rounds to a grid. *)

From Stdlib Require Import Reals Lra.
From S2P Require Import Prelude NetAddr.

(** ** [BackendStatus] and [BackendProtocol] *)

Inductive BackendStatus :=
  | Normal
  | Closed
  | Unknown
  | ForceClosed.

Inductive BackendProtocol := HTTP2 | Quic.

#[export] Instance BackendStatus_eq : EqDecision BackendStatus.
Proof. solve_decision. Defined.
#[export] Instance BackendProtocol_eq : EqDecision BackendProtocol.
Proof. solve_decision. Defined.

(** [#[default]] of the two enums *)
Definition BackendStatus_default : BackendStatus := Normal.
Definition BackendProtocol_default : BackendProtocol := Quic.

(** [impl Display for BackendProtocol] *)
Definition show_protocol (p : BackendProtocol) : string :=
  pad_right 12 (match p with HTTP2 => "http2" | Quic => "quic" end).

(** [impl Display for BackendStatus] *)
Definition show_status (s : BackendStatus) : string :=
  pad_right 12
    (match s with
     | Normal => "NORMAL"
     | Closed => "CLOSED"
     | Unknown => "UNKNOWN"
     | ForceClosed => "FORCECLOSED"
     end).

(** The serde names: [rename_all = "snake_case"] and ["lowercase"]. *)
Definition status_from_str (s : string) : option BackendStatus :=
  if decide (s = "normal") then Some Normal
  else if decide (s = "closed") then Some Closed
  else if decide (s = "unknown") then Some Unknown
  else if decide (s = "force_closed") then Some ForceClosed
  else None.

Definition protocol_from_str (s : string) : option BackendProtocol :=
  if decide (s = "http2") then Some HTTP2
  else if decide (s = "quic") then Some Quic
  else None.

(** ** Floating point *)

Class F64 := {
  f64 : Type;
  (** [z as f64], and the literals *)
  f64_of_Z : Z -> f64;
  fadd : f64 -> f64 -> f64;
  fsub : f64 -> f64 -> f64;
  fmul : f64 -> f64 -> f64;
  fdiv : f64 -> f64 -> f64;
  fexp : f64 -> f64;
  (** [a > b] and [a <= b] *)
  fgtb : f64 -> f64 -> bool;
  fleb : f64 -> f64 -> bool;
}.

(** Exact arithmetic on the reals. *)
Definition Rgtb (x y : R) : bool := if Rlt_dec y x then true else false.
Definition Rleb (x y : R) : bool := if Rle_dec x y then true else false.

#[export] Instance RF64 : F64 := {|
  f64 := R;
  f64_of_Z := IZR;
  fadd := Rplus;
  fsub := Rminus;
  fmul := Rmult;
  fdiv := Rdiv;
  fexp := exp;
  fgtb := Rgtb;
  fleb := Rleb;
|}.

Section MetricTypes.
Context `{F : F64}.

(** ** [PeakEWMA] *)

(** [Instant]s are nanoseconds on the monotonic clock. *)
Record PeakEWMA := { decay : f64; rtt : f64; last_event : Z }.

(** [Instant - Instant] saturates at zero. *)
Definition duration_since (now earlier : Z) : Z := Z.max 0 (now - earlier).

(** [PeakEWMA::new], also its [Default]. *)
Definition ewma_new (now : Z) : PeakEWMA :=
  {| decay := f64_of_Z 1000000000; rtt := f64_of_Z 50000000; last_event := now |}.

(** [(-1.0 * dur.as_nanos() as f64 / self.decay).exp()] *)
Definition ewma_weight (self : PeakEWMA) (dur : Z) : f64 :=
  fexp (fdiv (fmul (f64_of_Z (-1)) (f64_of_Z dur)) (decay self)).

Definition ewma_observe (now : Z) (r : f64) (self : PeakEWMA) : PeakEWMA :=
  let dur := duration_since now (last_event self) in
  let rtt' :=
    if fgtb r (rtt self) then r
    else
      let weight := ewma_weight self dur in
      fadd (fmul (rtt self) weight) (fmul r (fsub (f64_of_Z 1) weight)) in
  {| decay := decay self; rtt := rtt'; last_event := now |}.

(** [(active_requests + 1) as f64 * self.rtt * weight]; the addition is on
    [u32]. *)
Definition ewma_get (p : profile) (now : Z) (active_requests : Z) (self : PeakEWMA)
    : outcome f64 :=
  let dur := duration_since now (last_event self) in
  let weight := ewma_weight self dur in
  n ← uadd p 32 active_requests 1;
  Done (fmul (fmul (f64_of_Z n) (rtt self)) weight).

Definition ewma_get_mut (p : profile) (now : Z) (active_requests : Z) (self : PeakEWMA)
    : outcome (f64 * PeakEWMA) :=
  let self := ewma_observe now (f64_of_Z 0) self in
  n ← uadd p 32 active_requests 1;
  Done (fmul (f64_of_Z n) (rtt self), self).

(** ** [MetricData] *)

Record MetricData := {
  active_connections : Z;
  protocol : BackendProtocol;
  active_peers : gmap SocketAddr Z;
  status : BackendStatus;
  connection_time : Z;
  peak_ewma : PeakEWMA;
  transmission_time : Z;
  incoming_bytes : Z;
  outgoing_bytes : Z;
  total_incoming_bytes : Z;
  total_outgoing_bytes : Z;
  failures : Z;
}.

(** [#[derive(Default)]] *)
Definition MetricData_default (now : Z) : MetricData := {|
  active_connections := 0;
  protocol := BackendProtocol_default;
  active_peers := ∅;
  status := BackendStatus_default;
  connection_time := 0;
  peak_ewma := ewma_new now;
  transmission_time := 0;
  incoming_bytes := 0;
  outgoing_bytes := 0;
  total_incoming_bytes := 0;
  total_outgoing_bytes := 0;
  failures := 0;
|}.

Record BackendMetric := {
  bm_backend_name : string;
  bm_domain : string;
  bm_address : string;
  bm_metric : MetricData;
}.

(** ** Metric API messages *)

Inductive MetricApiReq :=
  | ReqSwitchBackendStatus (backend_id : nat)
  | ReqSwitchBackendProtocol (backend_id : nat)
  | ReqResetBackend (backend_id : nat)
  | ReqAllBackends.

Inductive MetricApiResp :=
  | RespSwitchBackendStatus
  | RespSwitchBackendProtocol
  | RespResetBackend
  | RespAllBackends (items : list BackendMetric)
  | RespError (msg : string).
End MetricTypes.

(** ** Display *)

(** Every status and protocol prints in exactly twelve columns, and distinct
    values print differently. *)
Theorem show_columns :
  (forall s, String.length (show_status s) = 12%nat)
  /\ (forall p, String.length (show_protocol p) = 12%nat)
  /\ (forall s t, show_status s = show_status t -> s = t)
  /\ (forall p q, show_protocol p = show_protocol q -> p = q).
Proof. repeat split; [by intros []..|by intros [] []|by intros [] []]. Qed.

(** ** The estimator in rounded arithmetic *)

(** What IEEE 754 says of [f64], and the documentation of [exp] of its range:
    an operation on finite numbers whose exact result does not overflow is
    correctly rounded, rounding is monotone and keeps representable numbers, and
    its error is at most the fraction [u] of the exact result, or [η] where that
    underflows.  For binary64 [u] is 2^-53, [η] is 2^-1075, and [big] may be
    2^1023. *)
Class RoundedF64 `{F64} (finite : f64 -> Prop) (val : f64 -> R) (rnd : R -> R) (u η big : R) : Prop := {
  rf_mono : forall x y, (x <= y -> rnd x <= rnd y)%R;
  rf_rnd_val : forall a, finite a -> rnd (val a) = val a;
  rf_rnd_0 : rnd 0%R = 0%R;
  rf_rnd_1 : rnd 1%R = 1%R;
  rf_error : forall x, (Rabs (rnd x - x) <= u * Rabs x + η)%R;
  rf_u : (0 <= u <= 1 / 8)%R;
  rf_η : (0 <= η <= 1)%R;
  rf_big : (IZR (2 ^ 200) <= big)%R;
  rf_of_Z : forall z, (Rabs (IZR z) <= big)%R -> finite (f64_of_Z z) /\ val (f64_of_Z z) = rnd (IZR z);
  rf_add : forall a b, finite a -> finite b -> (Rabs (val a + val b) <= big)%R ->
    finite (fadd a b) /\ val (fadd a b) = rnd (val a + val b)%R;
  rf_sub : forall a b, finite a -> finite b -> (Rabs (val a - val b) <= big)%R ->
    finite (fsub a b) /\ val (fsub a b) = rnd (val a - val b)%R;
  rf_mul : forall a b, finite a -> finite b -> (Rabs (val a * val b) <= big)%R ->
    finite (fmul a b) /\ val (fmul a b) = rnd (val a * val b)%R;
  rf_div : forall a b, finite a -> finite b -> val b <> 0%R -> (Rabs (val a / val b) <= big)%R ->
    finite (fdiv a b) /\ val (fdiv a b) = rnd (val a / val b)%R;
  (** it may underflow to zero *)
  rf_exp : forall a, finite a -> (val a <= 0)%R -> finite (fexp a) /\ (0 <= val (fexp a) <= 1)%R;
  rf_gtb : forall a b, finite a -> finite b -> fgtb a b = Rgtb (val a) (val b);
  rf_leb : forall a b, finite a -> finite b -> fleb a b = Rleb (val a) (val b);
}.

Section EwmaBounds.
Context `{F : F64} {finite : f64 -> Prop} {val : f64 -> R} {rnd : R -> R} {u η big : R}
  `{RF : !RoundedF64 finite val rnd u η big}.
Open Scope R_scope.

Lemma rnd_nonneg x : 0 <= x -> 0 <= rnd x.
Proof. intros Hx. rewrite <- rf_rnd_0. by apply rf_mono. Qed.

Lemma rnd_nonpos x : x <= 0 -> rnd x <= 0.
Proof. intros Hx. rewrite <- rf_rnd_0. by apply rf_mono. Qed.

Lemma rnd_bounds x : 0 <= x -> x * (1 - u) - η <= rnd x <= x * (1 + u) + η.
Proof.
  intros Hx. pose proof (rf_error x) as H. rewrite (Rabs_pos_eq x Hx) in H. 
  pose proof (Rle_abs (rnd x - x)). pose proof (Rle_abs (- (rnd x - x))) as Hn. rewrite Rabs_Ropp in Hn. lra.
Qed.

Lemma rnd_abs x : Rabs (rnd x) <= 2 * Rabs x + 1.
Proof.
  pose proof (rf_error x) as H. pose proof (Rabs_triang (rnd x - x) x) as Ht. replace (rnd x - x + x) with (rnd x) in Ht by ring.
  pose proof (Rabs_pos x). pose proof rf_u. pose proof rf_η. nra.
Qed.

(** The weight of the old estimate lies between 0 and 1, both included. *)
Lemma weight_bounds (e : PeakEWMA) dur :
  finite (decay e) -> 1 <= val (decay e) -> (0 <= dur < 2 ^ 128)%Z ->
  finite (ewma_weight e dur) /\ 0 <= val (ewma_weight e dur) <= 1.
Proof.
  intros Hf Hd Hdur. unfold ewma_weight. pose proof rf_big as Hb.
  assert (H128 : IZR (2 ^ 128) * 64 <= IZR (2 ^ 200)) by (rewrite <- mult_IZR; apply IZR_le; lia).
  assert (H1 : 1 <= IZR (2 ^ 128)) by (apply IZR_le; lia).
  assert (Hz : 0 <= IZR dur <= IZR (2 ^ 128)) by (split; apply IZR_le; lia).
  destruct (rf_of_Z (-1)) as [F1 V1]; [rewrite Rabs_left; lra|].
  destruct (rf_of_Z dur) as [F2 V2]; [rewrite Rabs_pos_eq; lra|].
  pose proof (rnd_abs (-1)) as A1. rewrite <- V1, (Rabs_left (-1)) in A1 by lra.
  pose proof (rnd_abs (IZR dur)) as A2. rewrite <- V2, (Rabs_pos_eq (IZR dur)) in A2 by lra.
  assert (S1 : val (f64_of_Z (-1)) <= 0) by (rewrite V1; apply rnd_nonpos; lra).
  assert (S2 : 0 <= val (f64_of_Z dur)) by (rewrite V2; apply rnd_nonneg; lra).
  rewrite (Rabs_left1 _ S1) in A1. rewrite (Rabs_pos_eq _ S2) in A2.
  set (x := val (f64_of_Z (-1)) * val (f64_of_Z dur)).
  assert (X1 : x <= 0) by (unfold x; nra). assert (X2 : - x <= 9 * IZR (2 ^ 128)) by (unfold x; nra).
  destruct (rf_mul _ _ F1 F2) as [F3 V3]; [fold x; rewrite Rabs_left1; lra|]. fold x in V3.
  pose proof (rnd_abs x) as A3. rewrite (Rabs_left1 x X1) in A3. assert (S3 : rnd x <= 0) by (by apply rnd_nonpos).
  rewrite (Rabs_left1 _ S3) in A3.
  assert (Hinv : 0 < / val (decay e) <= 1).
  { split; [apply Rinv_0_lt_compat; lra|]. rewrite <- Rinv_1. apply Rinv_le_contravar; lra. }
  assert (Y : - (19 * IZR (2 ^ 128)) <= rnd x / val (decay e) <= 0) by (unfold Rdiv; split; nra).
  destruct (rf_div _ _ F3 Hf) as [F4 V4]; [lra|rewrite V3, Rabs_left1; lra|].
  apply rf_exp; [done|]. rewrite V4, V3. apply rnd_nonpos. lra.
Qed.

(** The rounding of a weighted mean of [r <= o]. *)
Lemma mean_bounds o r w :
  0 <= r <= o -> 0 <= w <= 1 ->
  r * (1 - u) ^ 3 - 4 * η * (1 + o) <= rnd (rnd (o * w) + rnd (r * rnd (1 - w))) <= o * (1 + u) ^ 3 + 4 * η * (1 + o).
Proof.
  intros Hr Hw. pose proof rf_u as Hu. pose proof rf_η as He.
  pose proof (rnd_bounds (1 - w) ltac:(lra)) as [S1 S2]. assert (S0 : 0 <= rnd (1 - w)) by (apply rnd_nonneg; lra).
  set (s := rnd (1 - w)) in *. assert (Hrs : 0 <= r * s) by nra. assert (How : 0 <= o * w) by nra.
  pose proof (rnd_bounds (o * w) How) as [A1 A2]. pose proof (rnd_nonneg _ How) as A0.
  pose proof (rnd_bounds (r * s) Hrs) as [B1 B2]. pose proof (rnd_nonneg _ Hrs) as B0.
  set (a := rnd (o * w)) in *. set (b := rnd (r * s)) in *.
  pose proof (rnd_bounds (a + b) ltac:(lra)) as [N1 N2].
  assert (Eu : r * s <= r * ((1 - w) * (1 + u) + η)) by nra.
  assert (El : r * ((1 - w) * (1 - u) - η) <= r * s) by nra.
  assert (Q : 0 <= o * η) by nra. assert (Qr : 0 <= r * η <= o * η) by nra.
  split.
  - assert (L1 : r * (1 - u) ^ 2 - 2 * η - r * η <= a + b).
    { assert (r * w * (1 - u) <= o * w * (1 - u)) by (apply Rmult_le_compat_r; [lra|]; apply Rmult_le_compat_r; lra).
      assert (r * ((1 - w) * (1 - u) - η) * (1 - u) <= r * s * (1 - u)) by (apply Rmult_le_compat_r; lra).
      assert (0 <= r * w * (1 - u) * u) by (repeat apply Rmult_le_pos; lra).
      assert (0 <= r * η * u) by (repeat apply Rmult_le_pos; lra). nra. }
    assert (L2 : (r * (1 - u) ^ 2 - 2 * η - r * η) * (1 - u) <= (a + b) * (1 - u)) by (apply Rmult_le_compat_r; lra).
    assert (0 <= r * η * u) by (repeat apply Rmult_le_pos; lra). assert (0 <= η * u) by (apply Rmult_le_pos; lra).
    simpl in *. nra.
  - assert (L1 : a + b <= o * (1 + u) ^ 2 + 2 * η + o * η * (1 + u)).
    { assert (r * s * (1 + u) <= r * ((1 - w) * (1 + u) + η) * (1 + u)) by (apply Rmult_le_compat_r; lra).
      assert (r * ((1 - w) * (1 + u) + η) * (1 + u) <= o * ((1 - w) * (1 + u) + η) * (1 + u)).
      { apply Rmult_le_compat_r; [lra|]. apply Rmult_le_compat_r; [|lra]. apply Rplus_le_le_0_compat; [|lra]. apply Rmult_le_pos; lra. }
      assert (0 <= o * w * (1 + u) * u) by (repeat apply Rmult_le_pos; lra). nra. }
    assert (L2 : (a + b) * (1 + u) <= (o * (1 + u) ^ 2 + 2 * η + o * η * (1 + u)) * (1 + u)) by (apply Rmult_le_compat_r; lra).
    assert (o * η * (1 + u) * (1 + u) <= o * η * 2) by (rewrite Rmult_assoc; apply Rmult_le_compat_l; [lra|nra]).
    assert (η * (1 + u) <= η * (9 / 8)) by (apply Rmult_le_compat_l; lra).
    simpl in *. nra.
Qed.

(** A latency, in nanoseconds, that is representable and in the range of a
    [Duration]. *)
Definition latency (x : f64) : Prop := finite x /\ 0 <= val x <= IZR (2 ^ 128).

(** The estimator: a finite decay of at least one nanosecond, a latency, and
    less than 2^128 nanoseconds since the last event. *)
Record estimator_ok (now : Z) (e : PeakEWMA) : Prop := {
  eo_decay : finite (decay e) /\ 1 <= val (decay e);
  eo_rtt : latency (rtt e);
  eo_time : (now - last_event e < 2 ^ 128)%Z;
}.

Lemma estimator_weight now e :
  estimator_ok now e ->
  finite (ewma_weight e (duration_since now (last_event e))) /\
  0 <= val (ewma_weight e (duration_since now (last_event e))) <= 1.
Proof.
  intros [[H1 H2] _ H3]. apply weight_bounds; [done|done|]. unfold duration_since. lia.
Qed.

Lemma range_big x : 0 <= x <= 8 * IZR (2 ^ 166) -> Rabs x <= big.
Proof.
  intros Hx. rewrite Rabs_pos_eq by lra. etrans; [|apply rf_big].
  assert (8 * IZR (2 ^ 166) <= IZR (2 ^ 200)) by (rewrite <- mult_IZR; apply IZR_le; lia). lra.
Qed.

Lemma range_128 : 1 <= IZR (2 ^ 128) /\ IZR (2 ^ 128) * IZR (2 ^ 38) <= IZR (2 ^ 166).
Proof. rewrite <- mult_IZR. split; apply IZR_le; lia. Qed.

(** C31: A latency above the estimate replaces it at once; otherwise the new
    estimate is a mean of the two: up to the rounding of the arithmetic - three
    relative errors of [u] and an underflow of a few [η] - it lies between the
    observation and the old estimate. *)
Theorem observe_peak_and_decay now r (e : PeakEWMA) :
  latency r -> estimator_ok now e ->
  let e' := ewma_observe now r e in
  let slack := 4 * η * (1 + val (rtt e)) in
  decay e' = decay e /\ last_event e' = now /\
  (val (rtt e) < val r -> rtt e' = r) /\
  (val r <= val (rtt e) ->
     finite (rtt e') /\ val r * (1 - u) ^ 3 - slack <= val (rtt e') <= val (rtt e) * (1 + u) ^ 3 + slack).
Proof.
  intros [Fr Hr] Hok. destruct (estimator_weight now e Hok) as [Fw Hw]. destruct Hok as [_ [Fe He] _]. cbv zeta.
  unfold ewma_observe. cbn [decay last_event rtt]. rewrite rf_gtb by done. unfold Rgtb.
  split; [done|]. split; [done|]. destruct (Rlt_dec (val (rtt e)) (val r)) as [D|D]; (split; [intros; try done; lra|]); intros Hle; [lra|].
  set (weight := ewma_weight e _) in *. destruct range_128 as [R1 R2]. assert (R3 : IZR (2 ^ 38) >= 1) by (apply Rle_ge, IZR_le; lia).
  destruct (rf_of_Z 1) as [F1 V1]; [apply range_big; nra|]. rewrite rf_rnd_1 in V1.
  destruct (rf_sub _ _ F1 Fw) as [Fs Vs]; [apply range_big; rewrite V1; nra|]. rewrite V1 in Vs.
  destruct (rf_mul _ _ Fe Fw) as [Fa Va]; [apply range_big; nra|].
  assert (S : 0 <= val (fsub (f64_of_Z 1) weight) <= 1).
  { rewrite Vs. split; [apply rnd_nonneg; lra|]. rewrite <- rf_rnd_1 at 2. apply rf_mono. lra. }
  destruct (rf_mul _ _ Fr Fs) as [Fb Vb]; [apply range_big; nra|].
  assert (A : 0 <= val (fmul (rtt e) weight) <= val (rtt e)).
  { rewrite Va. split; [apply rnd_nonneg; nra|]. rewrite <- (rf_rnd_val (rtt e)) at 2 by done. apply rf_mono. nra. }
  assert (B : 0 <= val (fmul r (fsub (f64_of_Z 1) weight)) <= val r).
  { rewrite Vb. split; [apply rnd_nonneg; nra|]. rewrite <- (rf_rnd_val r) at 2 by done. apply rf_mono. nra. }
  destruct (rf_add _ _ Fa Fb) as [Fn Vn]; [apply range_big; nra|]. split; [exact Fn|].
  rewrite Vn, Va, Vb, Vs. apply mean_bounds; lra.
Qed.

End EwmaBounds.

Lemma exp_range a : (a <= 0 -> 0 <= exp a <= 1)%R.
Proof.
  intros Ha. split; [left; apply exp_pos|]. rewrite <- exp_0.
  destruct Ha as [Ha| ->]; [left; by apply exp_increasing|by right].
Qed.

(** Exact arithmetic rounds nothing. *)
#[export] Instance RF64_rounded : RoundedF64 (H := RF64) (fun _ => True) (fun x => x) (fun x => x) 0 0 (IZR (2 ^ 200)).
Proof.
  split; try done; try lra.
  - intros x. rewrite Rminus_diag, Rabs_R0. lra.
  - intros a _ Ha. split; [done|]. by apply exp_range.
Qed.

(** An arithmetic that does round: down to multiples of 2^-10. *)
Definition grid (x : R) : R := (IZR (Int_part (x * 1024)) / 1024)%R.

Definition GF64 : F64 := {|
  f64 := R;
  f64_of_Z := fun z => grid (IZR z);
  fadd := fun a b => grid (a + b);
  fsub := fun a b => grid (a - b);
  fmul := fun a b => grid (a * b);
  fdiv := fun a b => grid (a / b);
  fexp := fun a => grid (exp a);
  fgtb := Rgtb;
  fleb := Rleb;
|}.

Section Grid.
Open Scope R_scope.

Lemma grid_bounds x : grid x <= x < grid x + 1 / 1024.
Proof. unfold grid. pose proof (base_Int_part (x * 1024)) as [H1 H2]. lra. Qed.

(** The multiple of 2^-10 at or just below [x]. *)
Lemma grid_unique x k : IZR k <= x * 1024 < IZR k + 1 -> grid x = IZR k / 1024.
Proof.
  intros Hk. unfold grid. f_equal. f_equal. pose proof (base_Int_part (x * 1024)) as [H1 H2].
  assert (A : (Int_part (x * 1024) < k + 1)%Z) by (apply lt_IZR; rewrite plus_IZR; lra).
  assert (B : (k < Int_part (x * 1024) + 1)%Z) by (apply lt_IZR; rewrite plus_IZR; lra). lia.
Qed.

Lemma grid_Z z : grid (IZR z) = IZR z.
Proof. rewrite (grid_unique _ (z * 1024)); rewrite mult_IZR; lra. Qed.

Lemma grid_grid x : grid (grid x) = grid x.
Proof. apply (grid_unique _ (Int_part (x * 1024))). unfold grid. lra. Qed.

Lemma grid_mono x y : x <= y -> grid x <= grid y.
Proof.
  intros H. unfold grid. pose proof (base_Int_part (x * 1024)) as [H1 _]. pose proof (base_Int_part (y * 1024)) as [_ H2].
  assert (A : (Int_part (x * 1024) < Int_part (y * 1024) + 1)%Z) by (apply lt_IZR; rewrite plus_IZR; lra).
  apply Z.lt_succ_r, IZR_le in A. lra.
Qed.

#[export] Instance GF64_rounded :
  RoundedF64 (H := GF64) (fun x => grid x = x) (fun x => x) grid 0 (1 / 1024) (IZR (2 ^ 200)).
Proof.
  split; try done; try lra.
  - apply grid_mono.
  - exact (grid_Z 0).
  - exact (grid_Z 1).
  - intros x. pose proof (grid_bounds x). rewrite Rabs_left1; lra.
  - intros z _. split; [apply grid_grid|done].
  - intros a b _ _ _. split; [apply grid_grid|done].
  - intros a b _ _ _. split; [apply grid_grid|done].
  - intros a b _ _ _. split; [apply grid_grid|done].
  - intros a b _ _ _ _. split; [apply grid_grid|done].
  - intros a _ Ha. split; [apply grid_grid|]. cbn. destruct (exp_range a Ha) as [E1 E2].
    rewrite <- (grid_Z 0), <- (grid_Z 1). split; by apply grid_mono.
Qed.

(** After a long idle time the weight underflows, and every backend costs
    nothing, however many requests it has. *)
Example idle_cost_underflows n e :
  (0 <= n)%Z -> (n + 1 < 2 ^ 32)%Z -> e = ewma_new (F := GF64) 0 ->
  ewma_get (F := GF64) Release 2000000000000 n e = Done (0 : @f64 GF64).
Proof.
  intros Hn Hm ->. unfold ewma_get, uadd. rewrite fit_ok by (unfold in_width; lia). cbn [mbind outcome_bind]. f_equal.
  assert (Hw : ewma_weight (F := GF64) (ewma_new 0) (duration_since 2000000000000 0) = 0).
  { unfold ewma_weight. change (duration_since 2000000000000 0) with 2000000000000%Z. cbn. rewrite !grid_Z, <- mult_IZR, grid_Z.
    replace (IZR (-1 * 2000000000000) / 1000000000) with (IZR (-2000)) by (rewrite mult_IZR; field). rewrite grid_Z.
    change 0 with (IZR 0) at 1. rewrite (grid_unique _ 0); [lra|].
    pose proof (exp_pos (IZR (-2000))). split; [lra|].
    assert (E : exp (IZR (-2000)) = / exp 2000) by (rewrite <- exp_Ropp; f_equal; lra).
    assert (L : 2001 < exp 2000) by (pose proof (exp_ineq1 2000); lra).
    rewrite E. assert (/ exp 2000 < / 2001) by (apply Rinv_lt_contravar; nra). lra. }
  change (last_event (ewma_new 0)) with 0%Z. rewrite Hw. cbn. rewrite Rmult_0_r. exact (grid_Z 0).
Qed.
End Grid.

(** ** Witnesses *)

Definition example_ewma : PeakEWMA (F := RF64) := ewma_new (F := RF64) 0.

Lemma example_ewma_ok now :
  (0 <= now < 100)%Z -> estimator_ok (F := RF64) (finite := fun _ => True) (val := fun x => x) now example_ewma.
Proof. intros Hn. split; cbn; [split; [done|]; lra|split; [done|]; split; lra|lia]. Qed.

Lemma observe_peak_and_decay_witness :
  let e' := ewma_observe 5 (IZR 7 : @f64 RF64) example_ewma in
  decay e' = decay example_ewma /\ last_event e' = 5 /\ (IZR 7 <= rtt e' <= rtt example_ewma)%R.
Proof.
  destruct (observe_peak_and_decay (F := RF64) (finite := fun _ => True) (val := fun x => x) (rnd := fun x => x) (u := 0) (η := 0)
    (big := IZR (2 ^ 200)) 5 (IZR 7 : @f64 RF64) example_ewma) as (H1 & H2 & _ & H3).
  - split; [exact I|]. split; apply IZR_le; lia.
  - apply example_ewma_ok. lia.
  - cbv zeta. split; [exact H1|]. split; [exact H2|]. destruct H3 as [_ H3]; [cbn; lra|]. cbn [rtt] in H3 |- *. lra.
Defined.

