(* ===== verification/Metric.v ===== *)
(** * Backend metrics ([client/src/metric.rs], the metric half)

    [MetricOp] and its [absorb_first], the writer that groups operations into
    published batches, and [Metric], the handle every other component uses.
    The [left-right] crate is the interface [LeftRight]; [TwoCopy] is an
    instance of it, two copies of the data and an operation log, for which the
    laws are proved. *)

From S2P Require Import Prelude NetAddr LibMetric.

(** ** Operations on [MetricData] *)

Inductive MetricOp :=
  | AddPeer (peer : SocketAddr)
  | SubPeer (peer : SocketAddr)
  | IncrActiveConnection
  | DecrActiveConnection
  | ChangeStatus (s : BackendStatus)
  | ChangeProtocol (p : BackendProtocol)
  | Summary (connection_time transmission_time incoming_bytes outgoing_bytes : Z)
  | Reset
  | AddFailures.

Section MetricData.
Context `{F : F64}.
Implicit Types (d : MetricData) (p : profile).

(** Field updates of [MetricData]. *)
Definition with_active n d : MetricData :=
  {| active_connections := n; protocol := protocol d; active_peers := active_peers d;
     status := status d; connection_time := connection_time d; peak_ewma := peak_ewma d;
     transmission_time := transmission_time d; incoming_bytes := incoming_bytes d;
     outgoing_bytes := outgoing_bytes d; total_incoming_bytes := total_incoming_bytes d;
     total_outgoing_bytes := total_outgoing_bytes d; failures := failures d |}.
Definition with_peers m d : MetricData :=
  {| active_connections := active_connections d; protocol := protocol d; active_peers := m;
     status := status d; connection_time := connection_time d; peak_ewma := peak_ewma d;
     transmission_time := transmission_time d; incoming_bytes := incoming_bytes d;
     outgoing_bytes := outgoing_bytes d; total_incoming_bytes := total_incoming_bytes d;
     total_outgoing_bytes := total_outgoing_bytes d; failures := failures d |}.
Definition with_status s d : MetricData :=
  {| active_connections := active_connections d; protocol := protocol d; active_peers := active_peers d;
     status := s; connection_time := connection_time d; peak_ewma := peak_ewma d;
     transmission_time := transmission_time d; incoming_bytes := incoming_bytes d;
     outgoing_bytes := outgoing_bytes d; total_incoming_bytes := total_incoming_bytes d;
     total_outgoing_bytes := total_outgoing_bytes d; failures := failures d |}.
Definition with_protocol pr d : MetricData :=
  {| active_connections := active_connections d; protocol := pr; active_peers := active_peers d;
     status := status d; connection_time := connection_time d; peak_ewma := peak_ewma d;
     transmission_time := transmission_time d; incoming_bytes := incoming_bytes d;
     outgoing_bytes := outgoing_bytes d; total_incoming_bytes := total_incoming_bytes d;
     total_outgoing_bytes := total_outgoing_bytes d; failures := failures d |}.
Definition with_failures n d : MetricData :=
  {| active_connections := active_connections d; protocol := protocol d; active_peers := active_peers d;
     status := status d; connection_time := connection_time d; peak_ewma := peak_ewma d;
     transmission_time := transmission_time d; incoming_bytes := incoming_bytes d;
     outgoing_bytes := outgoing_bytes d; total_incoming_bytes := total_incoming_bytes d;
     total_outgoing_bytes := total_outgoing_bytes d; failures := n |}.
Definition with_ewma e d : MetricData :=
  {| active_connections := active_connections d; protocol := protocol d; active_peers := active_peers d;
     status := status d; connection_time := connection_time d; peak_ewma := e;
     transmission_time := transmission_time d; incoming_bytes := incoming_bytes d;
     outgoing_bytes := outgoing_bytes d; total_incoming_bytes := total_incoming_bytes d;
     total_outgoing_bytes := total_outgoing_bytes d; failures := failures d |}.

(** [if let Some(n) = total.checked_add(x) { total = n }] *)
Definition add_total (total x : Z) : Z :=
  match checked_add 64 total x with Some n => n | None => total end.

(** [Absorb::absorb_first]; [now] is the [Instant::now()] of the estimator. *)
Definition absorb_first (p : profile) (now : Z) (operation : MetricOp) (d : MetricData)
    : outcome MetricData :=
  match operation with
  | IncrActiveConnection =>
      n ← uadd p 32 (active_connections d) 1; Done (with_active n d)
  | DecrActiveConnection =>
      n ← usub p 32 (active_connections d) 1; Done (with_active n d)
  | Summary ct tm ib ob =>
      Done {| active_connections := active_connections d; protocol := protocol d;
              active_peers := active_peers d; status := status d;
              connection_time := ct;
              peak_ewma := ewma_observe now (f64_of_Z ct) (peak_ewma d);
              transmission_time := tm; incoming_bytes := ib; outgoing_bytes := ob;
              total_incoming_bytes := add_total (total_incoming_bytes d) ib;
              total_outgoing_bytes := add_total (total_outgoing_bytes d) ob;
              failures := failures d |}
  | AddFailures =>
      n ← uadd p 32 (failures d) 1; Done (with_failures n d)
  | Reset => Done (with_peers ∅ (with_active 0 (with_failures 0 d)))
  | AddPeer peer =>
      match active_peers d !! peer with
      | Some counter =>
          n ← uadd p 32 counter 1; Done (with_peers (<[peer := n]> (active_peers d)) d)
      | None => Done (with_peers (<[peer := 1]> (active_peers d)) d)
      end
  | SubPeer peer =>
      match active_peers d !! peer with
      | Some counter =>
          if decide (counter = 1) then Done (with_peers (delete peer (active_peers d)) d)
          else n ← usub p 32 counter 1; Done (with_peers (<[peer := n]> (active_peers d)) d)
      | None => Done d
      end
  | ChangeStatus s => Done (with_status s d)
  | ChangeProtocol pr => Done (with_protocol pr d)
  end.

(** [Absorb::sync_with]: [*self = first.clone()]. *)
Definition sync_with (first self : MetricData) : MetricData := first.

Fixpoint absorb_all (p : profile) (now : Z) (ops : list MetricOp) (d : MetricData)
    : outcome MetricData :=
  match ops with
  | [] => Done d
  | o :: ops => d ← absorb_first p now o d; absorb_all p now ops d
  end.

Lemma absorb_all_cons_done p now o ops d d' :
  absorb_first p now o d = Done d' -> absorb_all p now (o :: ops) d = absorb_all p now ops d'.
Proof. simpl. by intros ->. Qed.

(** *** Equality up to the estimator

    [absorb_first] reads the clock, so the two copies [left-right] keeps
    differ in [peak_ewma]; they agree on everything else. *)
#[export] Instance metric_equiv : Equiv MetricData :=
  fun d d' => with_ewma (peak_ewma d') d = d'.

#[export] Instance metric_equivalence : Equivalence (≡@{MetricData}).
Proof.
  split.
  - by intros [].
  - intros [] [] [=]. by simplify_eq.
  - intros [] [] [] [=] [=]. by simplify_eq.
Qed.

Inductive outcome_rel : outcome MetricData -> outcome MetricData -> Prop :=
  | Done_rel d d' : d ≡ d' -> outcome_rel (Done d) (Done d')
  | Panic_rel : outcome_rel Panic Panic.

Lemma absorb_first_equiv p now now' o d d' :
  d ≡ d' -> outcome_rel (absorb_first p now o d) (absorb_first p now' o d').
Proof.
  destruct d, d'. intros [=]. simplify_eq.
  destruct o; simpl; repeat case_match; simpl; unfold uadd, usub, fit;
    repeat case_match; simpl; constructor; done.
Qed.

Lemma absorb_all_equiv p now now' ops d d' :
  d ≡ d' -> outcome_rel (absorb_all p now ops d) (absorb_all p now' ops d').
Proof.
  revert d d'; induction ops as [|o ops IH]; intros d d' H; simpl; [by constructor|].
  destruct (absorb_first_equiv p now now' o d d' H); simpl; [by apply IH|constructor].
Qed.

Lemma absorb_all_done p now now' ops d d' d1 :
  d ≡ d' -> absorb_all p now ops d = Done d1 ->
  exists d1', absorb_all p now' ops d' = Done d1' /\ d1 ≡ d1'.
Proof.
  intros H E. pose proof (absorb_all_equiv p now now' ops d d' H) as R.
  rewrite E in R. inversion R; subst. eauto.
Qed.

(** In the release build no metric operation panics. *)
Lemma absorb_all_release now ops d : is_done (absorb_all Release now ops d).
Proof.
  revert d; induction ops as [|o ops IH]; intros d; [by exists d|]. simpl.
  assert (is_done (absorb_first Release now o d)) as [d' ->]; [|apply IH].
  unfold is_done. destruct o; simpl; unfold uadd, usub; rewrite ?fit_release; simpl; eauto.
  - case_match; rewrite ?fit_release; simpl; eauto.
  - repeat case_match; rewrite ?fit_release; simpl; eauto.
Qed.
End MetricData.

(** ** The [left-right] interface

    A write handle publishes batches of operations to readers.  The laws are
    the crate's documentation: a reader sees the initial value with every
    published batch applied and nothing of the pending one. *)
Class LeftRight `{F : F64} := {
  WriteHandle : Type;
  (** [left_right::new]: two default copies *)
  lr_new : MetricData -> MetricData -> WriteHandle;
  lr_append : MetricOp -> WriteHandle -> WriteHandle;
  (** [publish] runs [Absorb] at time [now] *)
  lr_publish : profile -> Z -> WriteHandle -> outcome WriteHandle;
  (** [ReadHandle::enter]: [None] once the writer is dropped *)
  lr_enter : WriteHandle -> option MetricData;
  (** [lr_rep w ops d]: published value [d], pending operations [ops] *)
  lr_rep : profile -> WriteHandle -> list MetricOp -> MetricData -> Prop;
  lr_new_rep : forall p d d', d ≡ d' -> lr_rep p (lr_new d d') [] d;
  lr_append_rep : forall p w ops d o, lr_rep p w ops d -> lr_rep p (lr_append o w) (ops ++ [o]) d;
  lr_publish_rep : forall p now w ops d d', lr_rep p w ops d ->
    absorb_all p now ops d = Done d' ->
    exists w', lr_publish p now w = Done w' /\ lr_rep p w' [] d';
  lr_enter_rep : forall p w ops d, lr_rep p w ops d -> exists d0, lr_enter w = Some d0 /\ d0 ≡ d;
}.

Module TwoCopy.
Section TwoCopy.
Context `{F : F64}.

(** The copy readers see, the other copy, the operations the readers' copy
    has absorbed and the other has not, and the pending operations. *)
Record handle := {
  fresh : MetricData;
  stale : MetricData;
  replay : list MetricOp;
  pending : list MetricOp;
}.

Definition tc_new (d d' : MetricData) : handle :=
  {| fresh := d; stale := d'; replay := []; pending := [] |}.

Definition tc_append (o : MetricOp) (w : handle) : handle :=
  {| fresh := fresh w; stale := stale w; replay := replay w; pending := pending w ++ [o] |}.

(** Bring the stale copy up to date, apply the pending batch to it, swap. *)
Definition tc_publish (p : profile) (now : Z) (w : handle) : outcome handle :=
  s ← absorb_all p now (replay w) (stale w);
  s ← absorb_all p now (pending w) s;
  Done {| fresh := s; stale := fresh w; replay := pending w; pending := [] |}.

Definition tc_rep (p : profile) (w : handle) (ops : list MetricOp) (d : MetricData) : Prop :=
  fresh w ≡ d /\ pending w = ops
  /\ forall now, exists s, absorb_all p now (replay w) (stale w) = Done s /\ s ≡ fresh w.

#[export] Program Instance two_copy : LeftRight := {|
  WriteHandle := handle;
  lr_new := tc_new;
  lr_append := tc_append;
  lr_publish := tc_publish;
  lr_enter := fun w => Some (fresh w);
  lr_rep := tc_rep;
|}.
Next Obligation.
  intros p d d' H. split; [done|]. split; [done|]. intros now. exists d'. by split.
Qed.
Next Obligation. intros p w ops d o (H1 & <- & H3). by repeat split. Qed.
Next Obligation.
  intros p now w ops d d' (H1 & <- & H3) E. destruct (H3 now) as (s & E1 & E2).
  assert (Hs : d ≡ s) by (by rewrite E2, H1).
  destruct (absorb_all_done p now now _ _ _ _ Hs E) as (s' & E3 & E4).
  unfold tc_publish. rewrite E1. cbn. rewrite E3. cbn.
  eexists. split; [done|]. split; [done|]. split; [done|]. intros now'. simpl.
  assert (Hf : s ≡ fresh w) by done.
  destruct (absorb_all_done p now now' _ _ _ _ Hf E3) as (s2 & E5 & E6). by exists s2.
Qed.
Next Obligation. intros p w ops d (H1 & _ & _). simpl. eauto. Qed.
End TwoCopy.
End TwoCopy.

(** ** [MetricWriter] and [Metric] *)

Section Metric.
Context `{F : F64} {LR : LeftRight} (p : profile).

(** [self.writer.append(op)] for each operation, then [publish]. *)
Definition append_all (ops : list MetricOp) (w : WriteHandle) : WriteHandle :=
  foldl (fun w o => lr_append o w) w ops.
Definition publish_all (now : Z) (ops : list MetricOp) (w : WriteHandle) : outcome WriteHandle :=
  lr_publish p now (append_all ops w).

(** The batches of [MetricWriter]'s methods. *)
Definition incr_connection_ops (peer : SocketAddr) : list MetricOp :=
  [IncrActiveConnection; AddPeer peer].
Definition set_protocol_ops (pr : BackendProtocol) : list MetricOp := [ChangeProtocol pr].
Definition set_status_ops (s : BackendStatus) : list MetricOp := [ChangeStatus s].
Definition reset_ops : list MetricOp := [Reset].
Definition summary_ops (connection_time transmission_time incoming_bytes outgoing_bytes : Z)
    (peer : SocketAddr) : list MetricOp :=
  [DecrActiveConnection; SubPeer peer;
   Summary connection_time transmission_time incoming_bytes outgoing_bytes].
Definition add_failures_ops (peer : SocketAddr) : list MetricOp :=
  [AddFailures; SubPeer peer; DecrActiveConnection].

Record Metric := {
  backend_name : string;
  backend_address : string;
  domain : string;
  writer : WriteHandle;
}.

Definition with_writer (m : Metric) (w : WriteHandle) : Metric :=
  {| backend_name := backend_name m; backend_address := backend_address m;
     domain := domain m; writer := w |}.

Definition metric_new (now now' : Z) (name address dom : string)
    (s : BackendStatus) (pr : BackendProtocol) : outcome Metric :=
  let w := lr_new (MetricData_default now) (MetricData_default now') in
  w ← publish_all now (set_status_ops s) w;
  w ← publish_all now (set_protocol_ops pr) w;
  Done {| backend_name := name; backend_address := address; domain := dom; writer := w |}.

(** One call of a mutating method of [Metric], each under the writer's lock. *)
Inductive MetricCall :=
  | CallSetProtocol (pr : BackendProtocol)
  | CallSetStatus (s : BackendStatus)
  | CallSummary (connection_time transmission_time incoming_bytes outgoing_bytes : Z)
      (peer : SocketAddr)
  | CallAddFailures (peer : SocketAddr)
  | CallIncrConnection (peer : SocketAddr)
  | CallReset.

Definition call_ops (c : MetricCall) : list MetricOp :=
  match c with
  | CallSetProtocol pr => set_protocol_ops pr
  | CallSetStatus s => set_status_ops s
  | CallSummary ct tm ib ob peer => summary_ops ct tm ib ob peer
  | CallAddFailures peer => add_failures_ops peer
  | CallIncrConnection peer => incr_connection_ops peer
  | CallReset => reset_ops
  end.

Definition metric_call (now : Z) (c : MetricCall) (m : Metric) : outcome Metric :=
  w ← publish_all now (call_ops c) (writer m); Done (with_writer m w).

Fixpoint metric_calls (cs : list (Z * MetricCall)) (m : Metric) : outcome Metric :=
  match cs with
  | [] => Done m
  | (now, c) :: cs => m ← metric_call now c m; metric_calls cs m
  end.

Definition get_peak_ewma (now : Z) (m : Metric) : outcome f64 :=
  match lr_enter (writer m) with
  | Some r => ewma_get p now (active_connections r) (peak_ewma r)
  | None => Done (f64_of_Z 1000000)
  end.

Definition get_status (m : Metric) : BackendStatus :=
  match lr_enter (writer m) with Some r => status r | None => Unknown end.

Definition metric_get (m : Metric) : option BackendMetric :=
  match lr_enter (writer m) with
  | Some d => Some {| bm_backend_name := backend_name m; bm_domain := domain m;
                      bm_address := backend_address m; bm_metric := d |}
  | None => None
  end.

(** *** The abstract metric: a value updated in place *)

Fixpoint spec_calls (cs : list (Z * MetricCall)) (d : MetricData) : outcome MetricData :=
  match cs with
  | [] => Done d
  | (now, c) :: cs => d ← absorb_all p now (call_ops c) d; spec_calls cs d
  end.

Lemma spec_calls_cons_done now c cs d d1 :
  absorb_all p now (call_ops c) d = Done d1 ->
  spec_calls ((now, c) :: cs) d = spec_calls cs d1.
Proof. simpl. by intros ->. Qed.

Definition metric_rep (m : Metric) (d : MetricData) : Prop := lr_rep p (writer m) [] d.

(** What a metric is made with. *)
Definition named (m : Metric) : string * string * string := (backend_name m, domain m, backend_address m).

Lemma append_all_rep ops w pend d :
  lr_rep p w pend d -> lr_rep p (append_all ops w) (pend ++ ops) d.
Proof.
  unfold append_all. revert w pend; induction ops as [|o ops IH]; intros w pend H; simpl.
  - by rewrite app_nil_r.
  - rewrite (app_assoc _ [o] ops). by apply IH, lr_append_rep.
Qed.

Lemma publish_all_rep now ops w d d' :
  lr_rep p w [] d -> absorb_all p now ops d = Done d' ->
  exists w', publish_all now ops w = Done w' /\ lr_rep p w' [] d'.
Proof.
  intros H E. apply (append_all_rep ops) in H. simpl in H.
  by eapply lr_publish_rep.
Qed.

Lemma metric_call_rep now c m d d' :
  metric_rep m d -> absorb_all p now (call_ops c) d = Done d' ->
  exists m', metric_call now c m = Done m' /\ metric_rep m' d'
    /\ named m' = named m.
Proof.
  intros H E. destruct (publish_all_rep _ _ _ _ _ H E) as (w' & E' & R').
  exists (with_writer m w'). unfold metric_call. rewrite E'. by repeat split.
Qed.

Lemma metric_calls_rep cs m d d' :
  metric_rep m d -> spec_calls cs d = Done d' ->
  exists m', metric_calls cs m = Done m' /\ metric_rep m' d'
    /\ named m' = named m.
Proof.
  revert m d; induction cs as [|[now c] cs IH]; intros m d H; simpl.
  - intros [= <-]. by exists m.
  - destruct (absorb_all p now (call_ops c) d) as [d1|] eqn:E; [|done]. cbn. intros E'.
    destruct (metric_call_rep _ _ _ _ _ H E) as (m1 & E1 & R1 & N1).
    destruct (IH _ _ R1 E') as (m' & E2 & R2 & N2). exists m'. rewrite E1. cbn.
    repeat split; congruence.
Qed.

Lemma metric_new_rep now now' name address dom s pr :
  exists m, metric_new now now' name address dom s pr = Done m
    /\ metric_rep m (with_protocol pr (with_status s (MetricData_default now)))
    /\ named m = (name, dom, address).
Proof.
  assert (H : lr_rep p (lr_new (MetricData_default now) (MetricData_default now')) []
    (MetricData_default now)) by (by apply lr_new_rep).
  destruct (publish_all_rep now (set_status_ops s) _ _ _ H eq_refl) as (w1 & E1 & R1).
  destruct (publish_all_rep now (set_protocol_ops pr) _ _ _ R1 eq_refl) as (w2 & E2 & R2).
  unfold metric_new. rewrite E1. cbn. rewrite E2. cbn. by eexists.
Qed.

(** *** What the methods mean

    An independent account of the record a reader sees, field by field:
    counters are 32 bits wide, a peer has an entry while it has connections, and
    a total that would overflow 64 bits is kept. *)

Definition count_of (peer : SocketAddr) (peers : gmap SocketAddr Z) : Z := default 0 (peers !! peer).

(** One connection of [peer] less; a peer without any is ignored. *)
Definition without_one (peer : SocketAddr) (peers : gmap SocketAddr Z) : outcome (gmap SocketAddr Z) :=
  match peers !! peer with
  | None => Done peers
  | Some n => if decide (n = 1) then Done (delete peer peers) else n ← fit p 32 (n - 1); Done (<[peer := n]> peers)
  end.

Definition total_of (total more : Z) : Z := if decide (total + more < 2 ^ 64) then total + more else total.

Definition call_effect (now : Z) (c : MetricCall) (d : MetricData) : outcome MetricData :=
  match c with
  | CallIncrConnection peer =>
      active ← fit p 32 (active_connections d + 1);
      n ← (if decide (is_Some (active_peers d !! peer)) then fit p 32 (count_of peer (active_peers d) + 1) else Done 1);
      Done {| active_connections := active; active_peers := <[peer := n]> (active_peers d);
              protocol := protocol d; status := status d; failures := failures d;
              connection_time := connection_time d; transmission_time := transmission_time d;
              peak_ewma := peak_ewma d; incoming_bytes := incoming_bytes d; outgoing_bytes := outgoing_bytes d;
              total_incoming_bytes := total_incoming_bytes d; total_outgoing_bytes := total_outgoing_bytes d |}
  | CallSummary connect transfer incoming outgoing peer =>
      active ← fit p 32 (active_connections d - 1);
      peers ← without_one peer (active_peers d);
      Done {| active_connections := active; active_peers := peers;
              protocol := protocol d; status := status d; failures := failures d;
              connection_time := connect; transmission_time := transfer;
              peak_ewma := ewma_observe now (f64_of_Z connect) (peak_ewma d);
              incoming_bytes := incoming; outgoing_bytes := outgoing;
              total_incoming_bytes := total_of (total_incoming_bytes d) incoming;
              total_outgoing_bytes := total_of (total_outgoing_bytes d) outgoing |}
  | CallAddFailures peer =>
      failed ← fit p 32 (failures d + 1);
      peers ← without_one peer (active_peers d);
      active ← fit p 32 (active_connections d - 1);
      Done {| active_connections := active; active_peers := peers;
              protocol := protocol d; status := status d; failures := failed;
              connection_time := connection_time d; transmission_time := transmission_time d;
              peak_ewma := peak_ewma d; incoming_bytes := incoming_bytes d; outgoing_bytes := outgoing_bytes d;
              total_incoming_bytes := total_incoming_bytes d; total_outgoing_bytes := total_outgoing_bytes d |}
  | CallReset =>
      Done {| active_connections := 0; active_peers := ∅;
              protocol := protocol d; status := status d; failures := 0;
              connection_time := connection_time d; transmission_time := transmission_time d;
              peak_ewma := peak_ewma d; incoming_bytes := incoming_bytes d; outgoing_bytes := outgoing_bytes d;
              total_incoming_bytes := total_incoming_bytes d; total_outgoing_bytes := total_outgoing_bytes d |}
  | CallSetStatus s =>
      Done {| active_connections := active_connections d; active_peers := active_peers d;
              protocol := protocol d; status := s; failures := failures d;
              connection_time := connection_time d; transmission_time := transmission_time d;
              peak_ewma := peak_ewma d; incoming_bytes := incoming_bytes d; outgoing_bytes := outgoing_bytes d;
              total_incoming_bytes := total_incoming_bytes d; total_outgoing_bytes := total_outgoing_bytes d |}
  | CallSetProtocol pr =>
      Done {| active_connections := active_connections d; active_peers := active_peers d;
              protocol := pr; status := status d; failures := failures d;
              connection_time := connection_time d; transmission_time := transmission_time d;
              peak_ewma := peak_ewma d; incoming_bytes := incoming_bytes d; outgoing_bytes := outgoing_bytes d;
              total_incoming_bytes := total_incoming_bytes d; total_outgoing_bytes := total_outgoing_bytes d |}
  end.

Fixpoint effects (cs : list (Z * MetricCall)) (d : MetricData) : outcome MetricData :=
  match cs with
  | [] => Done d
  | (now, c) :: cs => d ← call_effect now c d; effects cs d
  end.

(** The record of a backend that was never used. *)
Definition unused (now : Z) (s : BackendStatus) (pr : BackendProtocol) : MetricData :=
  {| active_connections := 0; active_peers := ∅; protocol := pr; status := s; failures := 0;
     connection_time := 0; transmission_time := 0; peak_ewma := ewma_new now;
     incoming_bytes := 0; outgoing_bytes := 0; total_incoming_bytes := 0; total_outgoing_bytes := 0 |}.

Lemma add_total_of total more : add_total total more = total_of total more.
Proof. unfold add_total, total_of, checked_add. repeat case_decide; done || lia. Qed.

(** The batches of operations the methods publish have exactly this effect. *)
Lemma call_effect_ops now c d : absorb_all p now (call_ops c) d = call_effect now c d.
Proof.
  destruct c as [pr|s|ct tm ib ob peer|peer|peer|];
    cbn [call_ops set_protocol_ops set_status_ops summary_ops add_failures_ops incr_connection_ops reset_ops
         absorb_all absorb_first call_effect]; unfold uadd, usub, without_one, count_of; try done.
  - destruct (fit p 32 (active_connections d - 1)) as [n|]; [|done]. cbn [mbind outcome_bind active_peers with_active].
    destruct (active_peers d !! peer) as [k|]; [case_decide|]; cbn; rewrite ?add_total_of; try done.
    destruct (fit p 32 (k - 1)); cbn; by rewrite ?add_total_of.
  - destruct (fit p 32 (failures d + 1)) as [n|]; [|done]. cbn [mbind outcome_bind active_peers with_failures].
    destruct (active_peers d !! peer) as [k|]; [case_decide|]; cbn; try (by destruct (fit p 32 (active_connections d - 1))).
    destruct (fit p 32 (k - 1)); cbn; [|done]. by destruct (fit p 32 (active_connections d - 1)).
  - destruct (fit p 32 (active_connections d + 1)) as [n|]; [|done]. cbn [mbind outcome_bind active_peers with_active].
    destruct (active_peers d !! peer) as [k|] eqn:E; [rewrite decide_True by (by eexists)|rewrite decide_False by (by intros [? ?])]; cbn; [|done].
    by destruct (fit p 32 (k + 1)).
Qed.

Lemma effects_spec cs d : spec_calls cs d = effects cs d.
Proof.
  revert d; induction cs as [|[now c] cs IH]; intros d; [done|]. cbn. rewrite call_effect_ops.
  destruct (call_effect now c d) as [d1|]; [apply IH|done].
Qed.

(** C5: Refinement: after any sequence of method calls on a new metric its
    readers see the name, domain and address it was made with and, up to the
    estimator, exactly the record that [call_effect] describes call by call:
    the counters, the peers with open connections, the last times and sizes,
    the totals, status and protocol.  This is proved of the operations, their
    batches and the double-buffered handle together. *)
Theorem metric_refines_record now now' name address dom s pr cs d :
  effects cs (unused now s pr) = Done d ->
  exists m m' bm,
    metric_new now now' name address dom s pr = Done m /\ metric_calls cs m = Done m' /\
    metric_get m' = Some bm /\ bm_backend_name bm = name /\ bm_domain bm = dom /\ bm_address bm = address /\
    bm_metric bm ≡ d /\ get_status m' = status d.
Proof.
  intros E. rewrite <- effects_spec in E. destruct (metric_new_rep now now' name address dom s pr) as (m & E1 & R1 & N1).
  destruct (metric_calls_rep _ _ _ _ R1 E) as (m' & E2 & R2 & N2).
  destruct (lr_enter_rep _ _ _ _ R2) as (d0 & E3 & R3).
  eexists m, m', _. split; [done|]. split; [done|].
  unfold metric_get, get_status. rewrite E3. split; [done|]. simpl. unfold named in *. rewrite N1 in N2. injection N2 as -> -> ->.
  do 3 (split; [done|]). split; [done|].
  unfold equiv, metric_equiv in R3. by rewrite <- R3.
Qed.
End Metric.

(** ** Connection accounting

    A connection task opens with [incr_connection] and ends with exactly one
    of [summary] and [add_failures].  The ledger is the multiset of peers with
    an open connection; a trace is legal when every close matches an open and
    [reset] only happens with no connection open. *)
Section Accounting.
Context `{F : F64} (p : profile).

Definition ledger_step (c : MetricCall) (open : list SocketAddr) : option (list SocketAddr) :=
  match c with
  | CallIncrConnection peer => Some (peer :: open)
  | CallSummary _ _ _ _ peer | CallAddFailures peer => remove_one peer open
  | CallReset => match open with [] => Some [] | _ => None end
  | CallSetProtocol _ | CallSetStatus _ => Some open
  end.

Fixpoint ledger (cs : list (Z * MetricCall)) (open : list SocketAddr) : option (list SocketAddr) :=
  match cs with
  | [] => Some open
  | (_, c) :: cs => open ← ledger_step c open; ledger cs open
  end.

(** Open connections of one peer, as the map stores them: absent when zero. *)
Definition peer_n (peer : SocketAddr) (open : list SocketAddr) : Z :=
  Z.of_nat (length (filter (eq peer) open)).
Definition peer_entry (peer : SocketAddr) (open : list SocketAddr) : option Z :=
  if decide (peer_n peer open = 0) then None else Some (peer_n peer open).

(** The metric data agrees with the ledger after at most [n] calls. *)
Record balanced (n : Z) (open : list SocketAddr) (d : MetricData) : Prop := {
  bal_active : active_connections d = Z.of_nat (length open);
  bal_peers : forall peer, active_peers d !! peer = peer_entry peer open;
  bal_open : Z.of_nat (length open) <= n;
  bal_failures : 0 <= failures d <= n;
}.

Lemma peer_n_bounds peer open : 0 <= peer_n peer open <= Z.of_nat (length open).
Proof. unfold peer_n. pose proof (length_filter (eq peer) open). lia. Qed.

Lemma peer_n_cons peer x open :
  peer_n peer (x :: open) = if decide (peer = x) then peer_n peer open + 1 else peer_n peer open.
Proof. unfold peer_n. rewrite filter_cons. case_decide; simpl; lia. Qed.

Lemma peer_n_perm peer o1 o2 : o1 ≡ₚ o2 -> peer_n peer o1 = peer_n peer o2.
Proof. intros Hp. unfold peer_n. by rewrite (filter_Permutation _ _ _ Hp). Qed.

Lemma balanced_perm n o1 o2 d : o1 ≡ₚ o2 -> balanced n o1 d -> balanced n o2 d.
Proof.
  intros Hp [H1 H2 H3 H4]. split; try done.
  - by rewrite <- Hp.
  - intros peer. rewrite H2. unfold peer_entry. by rewrite (peer_n_perm peer o1 o2).
  - by rewrite <- Hp.
Qed.

Lemma balanced_open now n peer open d :
  balanced n open d -> n + 1 < 2 ^ 32 ->
  exists d', absorb_all p now (incr_connection_ops peer) d = Done d'
    /\ balanced (n + 1) (peer :: open) d'.
Proof.
  intros [H1 H2 H3 H4] Hn. simpl. unfold uadd. rewrite H1.
  rewrite fit_ok by (unfold in_width; lia). simpl. rewrite H2.
  unfold peer_entry. pose proof (peer_n_bounds peer open).
  case_decide as C; simpl;
    [|unfold uadd; rewrite fit_ok by (unfold in_width; lia); simpl];
    (eexists; split; [done|]; split; simpl; try lia;
     intros q; unfold peer_entry; rewrite peer_n_cons; rewrite lookup_insert;
     repeat case_decide; subst; rewrite ?H2; unfold peer_entry; repeat case_decide;
     first [lia|done|f_equal; lia]).
Qed.

(** [SubPeer] removes one open connection of [peer] from the map. *)
Lemma sub_peer_balanced now peer open d :
  (forall q, active_peers d !! q = peer_entry q (peer :: open)) ->
  Z.of_nat (length open) < 2 ^ 32 - 1 ->
  exists d', absorb_first p now (SubPeer peer) d = Done d'
    /\ (forall q, active_peers d' !! q = peer_entry q open)
    /\ active_connections d' = active_connections d /\ failures d' = failures d.
Proof.
  intros H2 Hn. simpl. rewrite H2. pose proof (peer_n_bounds peer open).
  assert (peer_entry peer (peer :: open) = Some (peer_n peer open + 1)) as ->.
  { unfold peer_entry. rewrite peer_n_cons, (decide_True _ _ eq_refl).
    by rewrite decide_False by lia. }
  case_decide as C3; [|unfold usub; rewrite fit_ok by (unfold in_width; lia); simpl].
  all: eexists; split; [done|]; split; [|done]; intros q; simpl;
    rewrite ?lookup_delete, ?lookup_insert, ?H2; unfold peer_entry; rewrite ?peer_n_cons;
    repeat case_decide; subst; first [lia|done|f_equal; lia].
Qed.

Lemma balanced_close now n c open peer d :
  balanced n (peer :: open) d -> n + 1 < 2 ^ 32 ->
  (c = CallAddFailures peer \/ exists ct tm ib ob, c = CallSummary ct tm ib ob peer) ->
  exists d', absorb_all p now (call_ops c) d = Done d' /\ balanced (n + 1) open d'.
Proof.
  intros [H1 H2 H3 H4] Hn Hc. cbn [length] in *.
  set (d1 := with_failures (failures d + 1) d).
  set (d2 := with_active (Z.of_nat (length open)) d).
  destruct (sub_peer_balanced now peer open d1) as (d1' & E1 & P1 & A1 & F1); [done|lia|].
  destruct (sub_peer_balanced now peer open d2) as (d2' & E2 & P2 & A2 & F2); [done|lia|].
  assert (Hdec : forall n d, active_connections d = n + 1 -> in_width 32 n ->
    absorb_first p now DecrActiveConnection d = Done (with_active n d)).
  { intros k e He Hk. simpl. unfold usub. rewrite He.
    by rewrite Z.add_simpl_r, fit_ok by done. }
  destruct Hc as [->|(ct & tm & ib & ob & ->)]; unfold call_ops, add_failures_ops, summary_ops.
  - rewrite (absorb_all_cons_done _ _ _ _ _ d1)
      by (simpl; unfold uadd; by rewrite fit_ok by (unfold in_width; lia)).
    rewrite (absorb_all_cons_done _ _ _ _ _ _ E1).
    rewrite (absorb_all_cons_done _ _ _ _ _ _
      (Hdec (Z.of_nat (length open)) d1' ltac:(rewrite A1; simpl; lia) ltac:(unfold in_width; lia))).
    eexists. split; [done|]. split; simpl; [done|done|lia|]. rewrite F1. simpl. lia.
  - rewrite (absorb_all_cons_done _ _ _ _ _ d2)
      by (apply Hdec; [lia|unfold in_width; lia]).
    rewrite (absorb_all_cons_done _ _ _ _ _ _ E2). simpl.
    eexists. split; [done|]. split; simpl; [done|done|lia|]. rewrite F2. simpl. lia.
Qed.

Lemma balanced_mono n m open d : n <= m -> balanced n open d -> balanced m open d.
Proof. intros H [H1 H2 H3 H4]. split; [done|done|lia|lia]. Qed.

Lemma balanced_step now n c open open' d :
  balanced n open d -> n + 1 < 2 ^ 32 -> ledger_step c open = Some open' ->
  exists d', absorb_all p now (call_ops c) d = Done d' /\ balanced (n + 1) open' d'.
Proof.
  intros Hb Hn Hl.
  assert (Hclose : forall peer, remove_one peer open = Some open' ->
    balanced n (peer :: open') d).
  { intros peer Hr. apply remove_one_perm in Hr. by apply (balanced_perm n open). }
  destruct c; simpl in Hl; simplify_eq.
  - eexists. split; [done|]. apply (balanced_mono n); [lia|]. by destruct Hb.
  - eexists. split; [done|]. apply (balanced_mono n); [lia|]. by destruct Hb.
  - eapply balanced_close; [by apply Hclose|done|right]. by repeat eexists.
  - eapply balanced_close; [by apply Hclose|done|by left].
  - by apply balanced_open.
  - destruct open; [|done]. simplify_eq. eexists. split; [done|].
    destruct Hb as [H1 H2 H3 H4]. split; simpl; [done| |simpl in *; lia|lia].
    intros peer. by rewrite lookup_empty.
Qed.

Lemma ledger_balanced cs n open open' d :
  balanced n open d -> n + Z.of_nat (length cs) < 2 ^ 32 -> ledger cs open = Some open' ->
  exists d', spec_calls p cs d = Done d' /\ balanced (n + Z.of_nat (length cs)) open' d'.
Proof.
  revert n open d; induction cs as [|[now c] cs IH]; intros n open d Hb Hn; cbn [length ledger spec_calls] in *.
  { intros [= <-]. rewrite Z.add_0_r. eauto. }
  rewrite Nat2Z.inj_succ, <- Z.add_succ_comm, <- Z.add_1_r in *.
  destruct (ledger_step c open) as [o1|] eqn:E; [|done]. cbn. intros Hl.
  destruct (balanced_step now n c open o1 d) as (d1 & E1 & B1); [done|lia|done|].
  rewrite E1. cbn. destruct (IH (n + 1) o1 d1) as (d2 & E2 & B2); [done|lia|done|].
  by exists d2.
Qed.

Lemma balanced_default now s pr :
  balanced 0 [] (with_protocol pr (with_status s (MetricData_default now))).
Proof. split; simpl; [done| |done|lia]. intros peer. by rewrite lookup_empty. Qed.

(** C7: On every legal trace, in both build profiles, no metric call panics,
    [active_connections] is the number of open connections and
    [active_peers] counts the open connections of each peer, with no entry
    for a peer without one. *)
Theorem connection_accounting now s pr cs open :
  ledger cs [] = Some open -> Z.of_nat (length cs) < 2 ^ 32 ->
  exists d, spec_calls p cs (with_protocol pr (with_status s (MetricData_default now))) = Done d
    /\ active_connections d = Z.of_nat (length open)
    /\ forall peer, active_peers d !! peer = peer_entry peer open.
Proof.
  intros Hl Hn. destruct (ledger_balanced cs 0 [] open _ (balanced_default now s pr))
    as (d & E & [H1 H2 _ _]); [lia|done|]. eauto.
Qed.

(** The totals never wrap: every call leaves them in range and does not
    decrease them; an addition that would overflow is dropped. *)
Definition totals_ok (d : MetricData) : Prop :=
  in_width 64 (total_incoming_bytes d) /\ in_width 64 (total_outgoing_bytes d).

Definition call_bytes_ok (c : MetricCall) : Prop :=
  match c with
  | CallSummary _ _ ib ob _ => in_width 64 ib /\ in_width 64 ob
  | _ => True
  end.

Lemma add_total_spec total x :
  in_width 64 total -> in_width 64 x ->
  in_width 64 (add_total total x) /\ total <= add_total total x
  /\ (total + x < 2 ^ 64 -> add_total total x = total + x)
  /\ (2 ^ 64 <= total + x -> add_total total x = total).
Proof. unfold add_total, checked_add, in_width. intros ? ?. case_decide; lia. Qed.

Definition op_bytes_ok (o : MetricOp) : Prop :=
  match o with
  | Summary _ _ ib ob => in_width 64 ib /\ in_width 64 ob
  | _ => True
  end.

Lemma call_ops_bytes c : call_bytes_ok c -> Forall op_bytes_ok (call_ops c).
Proof. destruct c; intros H; repeat apply Forall_cons_2; try apply Forall_nil_2; done. Qed.

Lemma absorb_first_totals now o d d' :
  totals_ok d -> op_bytes_ok o -> absorb_first p now o d = Done d' ->
  totals_ok d' /\ total_incoming_bytes d <= total_incoming_bytes d'
  /\ total_outgoing_bytes d <= total_outgoing_bytes d'.
Proof.
  intros [T1 T2] Ho E.
  assert (Hsame : total_incoming_bytes d' = total_incoming_bytes d ->
    total_outgoing_bytes d' = total_outgoing_bytes d -> totals_ok d'
    /\ total_incoming_bytes d <= total_incoming_bytes d'
    /\ total_outgoing_bytes d <= total_outgoing_bytes d').
  { unfold totals_ok. by intros -> ->. }
  destruct o as [q|q| | |s|pr|ct tm ib ob| |]; simpl in *; unfold uadd, usub, fit in E;
    repeat case_match; simpl in E; try done; try (injection E as <-; by apply Hsame).
  injection E as <-. destruct Ho as [B1 B2]. unfold totals_ok. simpl.
  destruct (add_total_spec _ _ T1 B1) as (? & ? & _).
  destruct (add_total_spec _ _ T2 B2) as (? & ? & _). done.
Qed.

(** C30: No method call wraps or decreases the byte totals: a total that would
    overflow 64 bits keeps its value. *)
Theorem totals_monotone now c d d' :
  totals_ok d -> call_bytes_ok c -> absorb_all p now (call_ops c) d = Done d' ->
  totals_ok d' /\ total_incoming_bytes d <= total_incoming_bytes d'
  /\ total_outgoing_bytes d <= total_outgoing_bytes d'.
Proof.
  intros Hok Hc. apply call_ops_bytes in Hc. revert d Hok.
  induction Hc as [|o ops Ho Hops IH]; intros d Hok; simpl; [by intros [= <-]|].
  destruct (absorb_first p now o d) as [d1|] eqn:E1; [|done]. simpl. intros E.
  destruct (absorb_first_totals now o d d1) as (H1 & H2 & H3); [done..|].
  destruct (IH d1) as (H4 & H5 & H6); [done..|]. split; [done|lia].
Qed.
End Accounting.

(** ** Outside the legal traces *)
Section Illegal.
Context `{F : F64}.

(** [reset] while a connection is open zeroes the counter its close will
    decrement: the close panics in a debug build and wraps the counter to
    [u32::MAX] in a release build. *)
Theorem reset_then_close_underflows now peer d :
  spec_calls Debug [(now, CallReset); (now, CallAddFailures peer)] d = Panic
  /\ exists d', spec_calls Release [(now, CallReset); (now, CallAddFailures peer)] d = Done d'
       /\ active_connections d' = 2 ^ 32 - 1.
Proof. split; [reflexivity|]. eexists. split; reflexivity. Qed.

(** [incr_connection] runs in a task of its own: when the connection closes
    first, the release build ends with the right number of connections but
    keeps an entry for a peer that has none. *)
Theorem close_before_open_leaks_peer now ct tm ib ob peer d :
  active_connections d = 0 -> active_peers d !! peer = None ->
  exists d', spec_calls Release
      [(now, CallSummary ct tm ib ob peer); (now, CallIncrConnection peer)] d = Done d'
    /\ active_connections d' = 0 /\ active_peers d' !! peer = Some 1.
Proof.
  intros H1 H2.
  assert (exists d1, absorb_all Release now (call_ops (CallSummary ct tm ib ob peer)) d = Done d1
    /\ active_connections d1 = 2 ^ 32 - 1 /\ active_peers d1 !! peer = None) as (d1 & E1 & A1 & P1).
  { unfold call_ops, summary_ops. eexists. split.
    - erewrite absorb_all_cons_done by (simpl; rewrite H1; reflexivity).
      erewrite absorb_all_cons_done by (simpl; rewrite H2; reflexivity). reflexivity.
    - by split. }
  rewrite (spec_calls_cons_done _ _ _ _ _ _ E1). simpl. rewrite A1. simpl. rewrite P1. simpl.
  eexists. split; [done|]. simpl. by rewrite lookup_insert_eq.
Qed.
End Illegal.

(** ** Witnesses *)

Definition example_peer : SocketAddr := SocketV4 (Ipv4 127 0 0 1) 8080.
Definition other_peer : SocketAddr := SocketV4 (Ipv4 10 0 0 7) 51234.
Definition example_data : MetricData :=
  with_protocol HTTP2 (with_status Normal (MetricData_default 0)).

(** The trace of the repository's [test_new_metric]. *)
Definition test_new_metric_calls : list (Z * MetricCall) :=
  replicate 10 (0, CallIncrConnection example_peer)
  ++ replicate 3 (0, CallAddFailures example_peer).

Example test_new_metric `{F : F64} :
  exists d, spec_calls Debug test_new_metric_calls
      (with_protocol HTTP2 (with_status Normal (MetricData_default 0))) = Done d
    /\ active_connections d = 7 /\ failures d = 3 /\ size (active_peers d) = 1%nat.
Proof. eexists. split; [vm_compute; reflexivity|]. repeat split. Qed.

Lemma metric_refines_record_witness :
  exists (d : MetricData) (m m' : @Metric RF64 TwoCopy.two_copy) bm,
    active_connections d = 1 /\ failures d = 1 /\ active_peers d = {[ other_peer := 1 ]} /\
    metric_new Release 0 1 "b" "a" "d" Normal HTTP2 = Done m /\
    metric_calls Release [(2, CallSetStatus Closed); (3, CallIncrConnection example_peer);
      (4, CallIncrConnection other_peer); (5, CallAddFailures example_peer)] m = Done m' /\
    metric_get m' = Some bm /\ bm_backend_name bm = "b" /\ bm_domain bm = "d" /\ bm_address bm = "a" /\
    bm_metric bm ≡ d /\ get_status m' = status d.
Proof.
  pose (d := match effects Release [(2, CallSetStatus Closed); (3, CallIncrConnection example_peer);
      (4, CallIncrConnection other_peer); (5, CallAddFailures example_peer)] (unused 0 Normal HTTP2) with
    Done d => d | Panic => unused 0 Normal HTTP2 end).
  destruct (metric_refines_record (LR := TwoCopy.two_copy) Release 0 1 "b" "a" "d" Normal HTTP2
    [(2, CallSetStatus Closed); (3, CallIncrConnection example_peer);
     (4, CallIncrConnection other_peer); (5, CallAddFailures example_peer)] d) as (m & m' & bm & H); [reflexivity|].
  exists d, m, m', bm. split; [reflexivity|]. split; [reflexivity|]. split; [vm_compute; reflexivity|]. exact H.
Defined.

Lemma connection_accounting_witness :
  exists d, spec_calls Debug
      [(1, CallIncrConnection example_peer); (2, CallIncrConnection other_peer);
       (3, CallSummary 5 6 7 8 example_peer)] example_data = Done d
    /\ active_connections d = 1
    /\ forall peer, active_peers d !! peer = peer_entry peer [other_peer].
Proof.
  apply (connection_accounting Debug 0 Normal HTTP2
    [(1, CallIncrConnection example_peer); (2, CallIncrConnection other_peer);
     (3, CallSummary 5 6 7 8 example_peer)] [other_peer]); reflexivity.
Defined.

Lemma totals_monotone_witness :
  exists d', absorb_all Debug 0 (call_ops (CallSummary 1 2 3 4 example_peer))
      (with_active 1 example_data) = Done d' /\
    (totals_ok d' /\ total_incoming_bytes (with_active 1 example_data) <= total_incoming_bytes d'
     /\ total_outgoing_bytes (with_active 1 example_data) <= total_outgoing_bytes d').
Proof.
  eexists. split; [reflexivity|].
  eapply (totals_monotone Debug 0 (CallSummary 1 2 3 4 example_peer) (with_active 1 example_data));
    [..|reflexivity]; unfold totals_ok, call_bytes_ok, in_width; simpl; lia.
Defined.

Lemma close_before_open_leaks_peer_witness :
  exists d', spec_calls Release
      [(0, CallSummary 1 2 3 4 example_peer); (0, CallIncrConnection example_peer)] example_data = Done d'
    /\ active_connections d' = 0 /\ active_peers d' !! example_peer = Some 1.
Proof. apply close_before_open_leaks_peer; reflexivity. Defined.
