(* ===== verification/BackendConfig.v ===== *)
(** * Backend configuration ([client/src/backends.rs], up to [Backend])

    The tables of the configuration file with their defaults, the QUIC
    transport parameters computed from them, and [build_client], which turns a
    table into a client configuration.  [http], [rustls] names and [quinn]'s
    idle timeout are the class [ClientLib]. *)

From S2P Require Import Prelude NetAddr LibMetric Tls.

(** ** The file tables *)

Inductive QuicCongestionFactory := Cubic | Bbr.

Record QuicFileConfig := {
  max_idle_timeout : option Z;
  q_keep_alive_interval : option Z;
  ipv4_only : option bool;
  use_0rtt : option bool;
  (** ms *)
  expected_rtt : Z;
  (** bytes/s *)
  max_stream_bandwidth : Z;
  congestion : QuicCongestionFactory;
}.

Definition default_quic_file_config : QuicFileConfig := {|
  max_idle_timeout := None;
  q_keep_alive_interval := None;
  ipv4_only := None;
  use_0rtt := None;
  expected_rtt := 100;
  max_stream_bandwidth := 12500 * 1000;
  congestion := Cubic;
|}.

Record H2FileConfig := {
  keep_alive_interval : Z;
  keep_alive_timeout : Z;
  keep_alive_while_idle : bool;
  initial_conn_window_size : Z;
  initial_stream_window_size : Z;
  max_frame_size : Z;
  max_send_buffer_size : Z;
  adaptive_window : bool;
}.

Definition h2_default_conn_window : Z := 1024 * 1024 * 5.
Definition h2_default_stream_window : Z := 1024 * 1024 * 2.
Definition h2_default_max_frame_size : Z := 1024 * 16.
Definition h2_default_max_send_buf_size : Z := 1024 * 1024.

Definition default_h2_file_config : H2FileConfig := {|
  keep_alive_interval := 10;
  keep_alive_timeout := 20;
  keep_alive_while_idle := false;
  initial_conn_window_size := h2_default_conn_window;
  initial_stream_window_size := h2_default_stream_window;
  max_frame_size := h2_default_max_frame_size;
  max_send_buffer_size := h2_default_max_send_buf_size;
  adaptive_window := false;
|}.

Definition default_retry_timeout : Z := 10.
Definition default_max_retries : Z := 10.

Record FileBackendConfig := {
  fb_status : option BackendStatus;
  fb_protocol : BackendProtocol;
  fb_address : string;
  fb_retry_timeout : Z;
  fb_max_retries : Z;
  cacert : option string;
  client_key : string;
  client_cert : string;
  http2 : H2FileConfig;
  quic : QuicFileConfig;
}.

Definition with_fb_protocol (p : BackendProtocol) (c : FileBackendConfig) : FileBackendConfig := {|
  fb_status := fb_status c; fb_protocol := p; fb_address := fb_address c;
  fb_retry_timeout := fb_retry_timeout c; fb_max_retries := fb_max_retries c;
  cacert := cacert c; client_key := client_key c; client_cert := client_cert c;
  http2 := http2 c; quic := quic c;
|}.

(** ** What a client is built from *)

(** [rustls::ServerName] *)
Inductive ServerName := DnsName (name : string) | IpAddress (ip : IpAddr).

Class ClientLib := {
  Uri : Set;
  parse_uri : string -> option Uri;
  uri_host : Uri -> option string;
  server_name_try_from : string -> option ServerName;
  (** [{:?}] of a server name, [to_string] of an address *)
  debug_server_name : ServerName -> string;
  show_ip : IpAddr -> string;
  (** [quinn::IdleTimeout::try_from(Duration::from_secs(s))] *)
  idle_timeout : Z -> option Z;
}.

(** [quinn::TransportConfig], as far as the code sets it; times in ms. *)
Record TransportConfig := {
  stream_receive_window : Z;
  send_window : Z;
  initial_rtt : Z;
  datagram_receive_buffer_size : Z;
  congestion_controller : QuicCongestionFactory;
  t_max_idle_timeout : option Z;
  t_keep_alive_interval : option Z;
}.

Section Builders.
Context `{CL : ClientLib} (p : profile).

(** [connector.rs]: the two connection configurations.  The cache
    [last_addrs] of [QuicConnConfig] is state of the client. *)
Record QuicConnConfig := {
  qc_use_0rtt : bool;
  quinn_config : TransportConfig * ClientConfig;
  server_name : string;
  qc_remote_address : string;
  qc_ipv4_only : bool;
}.

(** The fields the builder of [hyper] is given. *)
Record H2Builder := {
  b_keep_alive_interval : Z;
  b_keep_alive_timeout : Z;
  b_keep_alive_while_idle : bool;
  b_initial_connection_window_size : Z;
  b_initial_stream_window_size : Z;
  b_max_frame_size : Z;
  b_max_send_buf_size : Z;
  b_adaptive_window : bool;
}.

Record H2ConnConfig := {
  h2_tls : ClientConfig;
  h2_domain : ServerName;
  h2_remote_address : string;
  h2_remote_uri : Uri;
  connect_time : Z;
  h2_builder : H2Builder;
}.

Inductive MixConfig := H2Config (c : H2ConnConfig) | QuicConfig (c : QuicConnConfig).

(** [QuicFileConfig::init_quic_transport_config] *)
Definition init_quic_transport_config (self : QuicFileConfig) : outcome TransportConfig :=
  stream_rwnd ← umul p 32 (max_stream_bandwidth self / 1000) (expected_rtt self);
  send_window ← umul p 32 8 stream_rwnd;
  initial_rtt ← umul p 32 (expected_rtt self) 3;
  Done {| stream_receive_window := stream_rwnd;
          send_window := send_window;
          initial_rtt := initial_rtt;
          datagram_receive_buffer_size := stream_rwnd;
          congestion_controller := congestion self;
          t_max_idle_timeout := None;
          t_keep_alive_interval := None |}.

(** [and_then(|x| if x == 0 { None } else { Some(x) })] *)
Definition non_zero (x : option Z) : option Z :=
  x ← x; if decide (x = 0) then None else Some x.

Definition quic_new_builder (self : QuicFileConfig) (tls_config : ClientConfig)
    (domain : ServerName) (address : string) : outcome (result string QuicConnConfig) :=
  transport_config ← init_quic_transport_config self;
  let idle : result string (option Z) :=
    match non_zero (max_idle_timeout self) with
    | None => Ok None
    | Some s => match idle_timeout s with Some t => Ok (Some t) | None => Err "value exceeds bounds" end
    end in
  Done (idle ← idle;
    let transport_config :=
      {| stream_receive_window := stream_receive_window transport_config;
         send_window := send_window transport_config;
         initial_rtt := initial_rtt transport_config;
         datagram_receive_buffer_size := datagram_receive_buffer_size transport_config;
         congestion_controller := congestion_controller transport_config;
         t_max_idle_timeout := idle;
         t_keep_alive_interval := Z.mul 1000 <$> non_zero (q_keep_alive_interval self) |} in
    let tls_config :=
      {| root_store := root_store tls_config; client_certs := client_certs tls_config;
         client_auth_key := client_auth_key tls_config;
         enable_early_data := true; alpn_protocols := [QUIC_ALPN] |} in
    let server_name := match domain with
      | DnsName serve_name => serve_name
      | IpAddress serve_name => show_ip serve_name
      end in
    Ok {| qc_use_0rtt := default true (use_0rtt self);
          quinn_config := (transport_config, tls_config);
          server_name := server_name;
          qc_remote_address := address;
          qc_ipv4_only := default false (ipv4_only self) |}).

(** [H2FileConfig::new_builder] with [H2ConnConfig::new] *)
Definition h2_new_builder (self : H2FileConfig) (tls_config : ClientConfig)
    (domain : ServerName) (address : string) : result string H2ConnConfig :=
  let h2builder :=
    {| b_keep_alive_interval := keep_alive_interval self;
       b_keep_alive_timeout := keep_alive_timeout self;
       b_keep_alive_while_idle := keep_alive_while_idle self;
       b_initial_connection_window_size := initial_conn_window_size self;
       b_initial_stream_window_size := initial_stream_window_size self;
       b_max_frame_size := max_frame_size self;
       b_max_send_buf_size := max_send_buffer_size self;
       b_adaptive_window := adaptive_window self |} in
  match parse_uri address with
  | Some remote_uri =>
      Ok {| h2_tls := tls_config; h2_domain := domain; h2_remote_address := address;
            h2_remote_uri := remote_uri; connect_time := 5; h2_builder := h2builder |}
  | None => Err "Could not parse remote address into uri"
  end.

Definition parse_domain (address : string) : result string ServerName :=
  match parse_uri ("http://" +:+ address)%string with
  | None => Err ("cannot parse authority, got wrong address: " +:+ address)%string
  | Some uri =>
      match uri_host uri with
      | None => Err ("cannot parse host, got wrong address: " +:+ address)%string
      | Some host =>
          match server_name_try_from host with
          | None => Err ("cannot parse server name, got wrong address: " +:+ address)%string
          | Some domain => Ok domain
          end
      end
  end.

(** [FileBackendConfig::build_client] with the files as they are now. *)
Definition build_client `{TL : TlsLib} (fs : FileSystem) (self : FileBackendConfig)
    : outcome (result string (MixConfig * string)) :=
  match parse_domain (fb_address self) with
  | Err e => Done (Err e)
  | Ok domain =>
      match context "Could not build tls config from backend file config"
              (build_tls_client_config fs (cacert self) (client_cert self) (client_key self)) with
      | Err e => Done (Err e)
      | Ok tls_config =>
          let finish (r : result string MixConfig) : result string (MixConfig * string) :=
            client ← r; Ok (client, debug_server_name domain) in
          match fb_protocol self with
          | HTTP2 =>
              Done (finish (client ← h2_new_builder (http2 self) tls_config domain (fb_address self);
                            Ok (H2Config client)))
          | Quic =>
              r ← quic_new_builder (quic self) tls_config domain (fb_address self);
              Done (finish (client ← r; Ok (QuicConfig client)))
          end
      end
  end.

(** The variant of a client: [MixClient::H2] or [MixClient::Quic]. *)
Definition config_protocol (c : MixConfig) : BackendProtocol :=
  match c with H2Config _ => HTTP2 | QuicConfig _ => Quic end.

Definition config_address (c : MixConfig) : string :=
  match c with H2Config c => h2_remote_address c | QuicConfig c => qc_remote_address c end.

Lemma build_client_protocol `{TL : TlsLib} fs self c dom :
  build_client fs self = Done (Ok (c, dom)) -> config_protocol c = fb_protocol self.
Proof.
  unfold build_client. destruct (parse_domain (fb_address self)); [|done].
  destruct (build_tls_client_config _ _ _ _) as [tls|] eqn:E2; [|done]. cbn.
  destruct (fb_protocol self).
  - unfold h2_new_builder. destruct (parse_uri (fb_address self)); cbn; [|done]. by intros [= <- _].
  - unfold quic_new_builder. destruct (init_quic_transport_config (quic self)); cbn; [|done].
    destruct (non_zero (max_idle_timeout (quic self))) as [s|]; [destruct (idle_timeout s)|]; cbn; try done;
      intros ?; by simplify_eq/=.
Qed.

(** A client built from a table speaks the table's protocol to the table's
    address, presents the table's certificate, and over QUIC offers early
    data with the [h3] protocol name. *)
Theorem build_client_matches `{TL : TlsLib} fs self c dom :
  build_client fs self = Done (Ok (c, dom)) ->
  config_protocol c = fb_protocol self /\ config_address c = fb_address self
  /\ (exists name, parse_domain (fb_address self) = Ok name /\ dom = debug_server_name name)
  /\ exists tls, build_tls_client_config fs (cacert self) (client_cert self) (client_key self) = Ok tls
    /\ match c with
       | H2Config h => h2_tls h = tls
       | QuicConfig q => root_store (quinn_config q).2 = root_store tls
           /\ client_certs (quinn_config q).2 = client_certs tls
           /\ enable_early_data (quinn_config q).2 = true
           /\ alpn_protocols (quinn_config q).2 = ["h3"]
       end.
Proof.
  unfold build_client. destruct (parse_domain (fb_address self)) as [name|] eqn:E1; [|done].
  destruct (build_tls_client_config _ _ _ _) as [tls|] eqn:E2; [|done]. cbn.
  destruct (fb_protocol self).
  - unfold h2_new_builder. destruct (parse_uri (fb_address self)); cbn; [|done].
    intros [= <- <-]. simpl. repeat split; eauto.
  - unfold quic_new_builder. destruct (init_quic_transport_config (quic self)); cbn; [|done].
    destruct (non_zero (max_idle_timeout (quic self))) as [s|]; [destruct (idle_timeout s)|]; cbn; try done;
      intros ?; simplify_eq/=; repeat split; eauto 6.
Qed.

Definition quic_file_ok (self : QuicFileConfig) : Prop :=
  in_width 32 (expected_rtt self) /\ in_width 32 (max_stream_bandwidth self).

(** C33: The transport windows: when eight bandwidth-delay products and three
    round-trip times fit 32 bits, both build profiles compute them exactly;
    in a debug build anything larger panics while the backend is built. *)
Theorem quic_transport_windows self :
  quic_file_ok self ->
  let bdp := max_stream_bandwidth self / 1000 * expected_rtt self in
  if decide (8 * bdp < 2 ^ 32 /\ 3 * expected_rtt self < 2 ^ 32)
  then exists t, init_quic_transport_config self = Done t
         /\ stream_receive_window t = bdp /\ send_window t = 8 * bdp
         /\ datagram_receive_buffer_size t = bdp /\ initial_rtt t = 3 * expected_rtt self
  else p = Debug -> init_quic_transport_config self = Panic.
Proof.
  intros [[R0 R1] [B0 B1]] bdp. unfold init_quic_transport_config, umul. fold bdp.
  assert (0 <= max_stream_bandwidth self / 1000) by (apply Z.div_pos; lia).
  assert (0 <= bdp) by (apply Z.mul_nonneg_nonneg; lia). clearbody bdp.
  case_decide as D.
  - rewrite (fit_ok p 32 bdp) by (unfold in_width; lia). cbn [mbind outcome_bind].
    rewrite (fit_ok p 32 (8 * bdp)) by (unfold in_width; lia). cbn [mbind outcome_bind].
    rewrite fit_ok by (unfold in_width; lia). cbn [mbind outcome_bind].
    eexists. split; [done|]. simpl. lia.
  - intros Hp. rewrite Hp. destruct (decide (bdp < 2 ^ 32)) as [D1|D1];
      [rewrite (fit_ok Debug 32 bdp) by (unfold in_width; lia)|by rewrite (fit_debug_panic 32 bdp) by (unfold in_width; lia)].
    cbn [mbind outcome_bind]. destruct (decide (8 * bdp < 2 ^ 32)) as [D2|D2];
      [rewrite (fit_ok Debug 32 (8 * bdp)) by (unfold in_width; lia)|by rewrite (fit_debug_panic 32 (8 * bdp)) by (unfold in_width; lia)].
    cbn [mbind outcome_bind]. by rewrite (fit_debug_panic 32 (expected_rtt self * 3)) by (unfold in_width; lia).
Qed.
End Builders.

(** ** The wrapped window of a release build *)

Definition gigabit_link : QuicFileConfig := {|
  max_idle_timeout := None; q_keep_alive_interval := None; ipv4_only := None; use_0rtt := None;
  expected_rtt := 128; max_stream_bandwidth := 4194304000; congestion := Bbr;
|}.

(** With a bandwidth of 4.19 GB/s and a round-trip time of 128 ms, both legal
    values of the table, a release build sets the send window to zero: the
    connection could never send. *)
Theorem send_window_wraps_to_zero :
  quic_file_ok gigabit_link /\
  exists t, init_quic_transport_config Release gigabit_link = Done t
    /\ stream_receive_window t = 2 ^ 29 /\ send_window t = 0.
Proof.
  split; [unfold quic_file_ok, in_width; simpl; lia|].
  eexists. split; [vm_compute; reflexivity|]. done.
Qed.

(** ** A library for the witnesses *)

#[export] Instance plain_lib : ClientLib := {|
  Uri := string;
  parse_uri := fun s => match s with EmptyString => None | _ => Some s end;
  uri_host := fun s => Some (str_drop 7 s);
  server_name_try_from := fun s => Some (DnsName s);
  debug_server_name := fun n => match n with DnsName s => s | IpAddress _ => "ip" end;
  show_ip := fun _ => "ip";
  idle_timeout := Some;
|}.

Definition example_table (p : BackendProtocol) : FileBackendConfig := {|
  fb_status := None; fb_protocol := p; fb_address := "proxy.example:8443";
  fb_retry_timeout := default_retry_timeout; fb_max_retries := default_max_retries;
  cacert := Some "ca.pem"; client_key := "key.pem"; client_cert := "cert.pem";
  http2 := default_h2_file_config; quic := default_quic_file_config;
|}.

Lemma build_client_matches_witness :
  match build_client Debug example_fs (example_table Quic) with
  | Done (Ok (c, dom)) => config_protocol c = Quic /\ config_address c = "proxy.example:8443"
  | _ => False
  end.
Proof.
  destruct (build_client Debug example_fs (example_table Quic)) as [[[c dom]|]|] eqn:E;
    [|vm_compute in E; discriminate E|vm_compute in E; discriminate E].
  destruct (build_client_matches Debug example_fs (example_table Quic) c dom E) as (H1 & H2 & _).
  split; [exact H1|exact H2].
Defined.

Lemma quic_transport_windows_witness :
  exists t, init_quic_transport_config Debug default_quic_file_config = Done t
    /\ stream_receive_window t = 1250000 /\ send_window t = 10000000
    /\ datagram_receive_buffer_size t = 1250000 /\ initial_rtt t = 300.
Proof.
  assert (H : quic_file_ok default_quic_file_config) by (unfold quic_file_ok, in_width; simpl; lia).
  exact (quic_transport_windows Debug default_quic_file_config H).
Defined.
