(* ===== verification/Peer.v ===== *)
(** * Peers and host rules

    [PeerInfo] of [client/src/metric.rs] (host, port index, rule) and
    [HostRuler] of [client/src/config.rs], which attaches a rule to a peer. *)

From S2P Require Import Prelude NetAddr LibProxy TomlConfig.

(** ** Host rules ([config.rs]) *)

Record HostRuleSection := {
  rewrite : option string;
  backend : option string;
  direct : bool;
}.

Definition default_is_not_direct : bool := false.

Inductive HostRules :=
  | RuleUnknown
  | NoRule
  | GotRule (rule : HostRuleSection).

(** [BTreeMap<String, HostRuleSection>] *)
Record HostRuler := { sections : gmap string HostRuleSection }.

(** A section without any directive. *)
Definition section_empty (sec : HostRuleSection) : bool :=
  bool_decide (rewrite sec = None) && bool_decide (backend sec = None) && negb (direct sec).

(** ** [HostPortIndex] and [PeerInfo] *)

Inductive HostPortIndex :=
  | Default
  | NonDafault (i : nat).

Definition DEFAULT_PORT : string := "80".

Definition host_port_index_new (host : string) : HostPortIndex :=
  match rfind ":" host with
  | Some i => NonDafault i
  | None => Default
  end.

Record PeerInfo := {
  host : string;
  addr : SocketAddr;
  port_index : HostPortIndex;
  rule : HostRules;
}.

Definition peer_new (h : string) (a : SocketAddr) : PeerInfo :=
  {| host := h; addr := a; port_index := host_port_index_new h; rule := RuleUnknown |}.

Definition get_hostname (self : PeerInfo) : string :=
  match port_index self with
  | NonDafault i => str_take i (host self)
  | Default => host self
  end.

Definition get_port_str (self : PeerInfo) : string :=
  match port_index self with
  | NonDafault i => str_drop (i + 1) (host self)
  | Default => DEFAULT_PORT
  end.

Definition get_valid_host (self : PeerInfo) : ConnectHeadBuf :=
  match port_index self with
  | NonDafault _ => head_from_str (host self)
  | Default =>
      head_from_bytes (host self +:+ String ":" (get_port_str self))%string
  end.

Definition get_addr (self : PeerInfo) : SocketAddr := addr self.

Definition set_rule (r : HostRules) (self : PeerInfo) : PeerInfo :=
  {| host := host self; addr := addr self; port_index := port_index self; rule := r |}.

Definition get_rule (self : PeerInfo) : HostRules := rule self.

Definition get_host_by_rule (self : PeerInfo) : ConnectHeadBuf :=
  match get_rule self with
  | GotRule {| rewrite := Some h |} =>
      head_from_bytes (h +:+ String ":" (get_port_str self))%string
  | _ => get_valid_host self
  end.

Inductive PeerBackendRule :=
  | PeerNoRule
  | PeerDirect
  | PeerGotBackend (backend_name : string).

Definition get_backend_name_by_rule (self : PeerInfo) : PeerBackendRule :=
  match get_rule self with
  | RuleUnknown | NoRule => PeerNoRule
  | GotRule r =>
      if direct r then PeerDirect
      else match backend r with
           | Some backend_name => PeerGotBackend backend_name
           | None => PeerNoRule
           end
  end.

(** ** [HostRuler] *)

Section HostRuler.
(** [toml::from_str] into the map of sections. *)
Context (toml_from_str : string -> result string (gmap string HostRuleSection)).

(** [HostRuler::new]: sections without a directive are dropped, and a file
    without any is no ruler at all. *)
Definition host_ruler_new (host_file : string) : result string (option HostRuler) :=
  this ← result_map_err (fun _ => "Failed to parse host rule toml"%string) (load_from_read toml_from_str host_file);
  let map := filter (fun kv => section_empty kv.2 = false) this in
  if decide (map = ∅) then Ok None else Ok (Some {| sections := map |}).
End HostRuler.

Definition find_rule (self : HostRuler) (peer : PeerInfo) : PeerInfo :=
  match get_rule peer with
  | NoRule => peer
  | _ =>
      set_rule
        (match sections self !! get_hostname peer with
         | Some r => GotRule r
         | None => NoRule
         end) peer
  end.

(** [Config::find_rule_for_peer] *)
Definition find_rule_for_peer (host_rule : option HostRuler) (peer : PeerInfo) : PeerInfo :=
  match host_rule with Some h => find_rule h peer | None => peer end.

(** ** Properties of [PeerInfo] *)

(** [peer_new] is the only constructor in the program. *)
Definition peer_ok (self : PeerInfo) : Prop :=
  port_index self = host_port_index_new (host self).

Lemma peer_new_ok h a : peer_ok (peer_new h a).
Proof. done. Qed.

Lemma hostname_port self : peer_ok self ->
  (str_elem ":" (host self) ->
     host self = (get_hostname self +:+ String ":" (get_port_str self))%string
     /\ ~ str_elem ":" (get_port_str self))
  /\ (~ str_elem ":" (host self) ->
     get_hostname self = host self /\ get_port_str self = DEFAULT_PORT).
Proof.
  unfold peer_ok, host_port_index_new, get_hostname, get_port_str. intros ->.
  destruct (rfind ":" (host self)) as [i|] eqn:E.
  - apply rfind_Some in E as [H1 H2]. rewrite Nat.add_1_r. split; [done|].
    intros H. destruct H. rewrite H1. apply str_elem_app. by right; left.
  - apply rfind_None in E. by split.
Qed.

Lemma colon_ascii : is_ascii_byte ":" = true.
Proof. reflexivity. Qed.

Lemma port_valid self :
  peer_ok self -> utf8_valid (host self) = true -> utf8_valid (get_port_str self) = true.
Proof.
  intros Hok Hv. destruct (hostname_port self Hok) as [H1 H2].
  destruct (rfind ":" (host self)) as [i|] eqn:E.
  - destruct H1 as [H1 _].
    { apply rfind_Some in E as [-> _]. apply str_elem_app. by right; left. }
    by eapply (utf8_valid_split _ _ colon_ascii Hv).
  - apply rfind_None in E. by destruct (H2 E) as [_ ->].
Qed.

Lemma head_from_bytes_str s : head_from_bytes s = head_from_str s.
Proof. done. Qed.

Lemma as_str_join self h :
  peer_ok self -> utf8_valid (host self) = true -> utf8_valid h = true ->
  head_as_str (head_from_bytes (h +:+ String ":" (get_port_str self))%string)
  = Done (h +:+ String ":" (get_port_str self))%string.
Proof.
  intros Hok Hv Hh. rewrite head_from_bytes_str. apply head_as_str_from.
  apply utf8_valid_app; [done|]. by apply port_valid.
Qed.

(** The host sent to a backend: [get_valid_host] is always the host name, a
    colon and the port, with port 80 for a host without a colon, and a host
    that has a colon is sent unchanged. *)
Theorem valid_host_form self :
  peer_ok self -> utf8_valid (host self) = true ->
  head_as_str (get_valid_host self)
    = Done (get_hostname self +:+ String ":" (get_port_str self))%string
  /\ (str_elem ":" (host self) -> head_as_str (get_valid_host self) = Done (host self))
  /\ (~ str_elem ":" (host self) ->
        head_as_str (get_valid_host self) = Done (host self +:+ ":80")%string).
Proof.
  intros Hok Hv. destruct (hostname_port self Hok) as [H1 H2].
  assert (Hd : str_elem ":" (host self) \/ ~ str_elem ":" (host self)).
  { destruct (rfind ":" (host self)) as [i|] eqn:E; [|right; by apply rfind_None].
    left. apply rfind_Some in E as [-> _]. apply str_elem_app. by right; left. }
  destruct Hd as [Hc|Hc].
  - destruct (H1 Hc) as [H3 _].
    assert (head_as_str (get_valid_host self) = Done (host self)) as ->.
    { unfold get_valid_host. destruct (port_index self) eqn:E; [|by apply head_as_str_from].
      unfold peer_ok, host_port_index_new in Hok. rewrite E in Hok.
      destruct (rfind _ _) eqn:E2; [done|]. by apply rfind_None in E2. }
    split; [by rewrite H3 at 1|]. by split.
  - destruct (H2 Hc) as [H3 H4].
    assert (head_as_str (get_valid_host self) = Done (host self +:+ ":80")%string) as ->.
    { unfold get_valid_host. pose proof Hok as Hi.
      unfold peer_ok, host_port_index_new in Hi. rewrite (proj2 (rfind_None _ _) Hc) in Hi.
      rewrite Hi, as_str_join by done. by rewrite H4. }
    rewrite H3, H4. by split.
Qed.

(** C19: A rewriting rule replaces the host name and keeps the port; without one
    the valid host is used. *)
Theorem host_by_rule self :
  peer_ok self -> utf8_valid (host self) = true ->
  match rule self with
  | GotRule r =>
      match rewrite r with
      | Some h => utf8_valid h = true ->
          head_as_str (get_host_by_rule self) = Done (h +:+ String ":" (get_port_str self))%string
      | None => get_host_by_rule self = get_valid_host self
      end
  | _ => get_host_by_rule self = get_valid_host self
  end.
Proof.
  intros Hok Hv. unfold get_host_by_rule, get_rule.
  destruct (rule self) as [| |[[h|] b d]]; simpl; try done.
  intros Hh. by apply as_str_join.
Qed.

(** The backend choice: [direct] wins over a named backend, and only a section
    naming a backend selects one. *)
Theorem backend_name_by_rule_spec self :
  match get_backend_name_by_rule self with
  | PeerDirect => exists r, rule self = GotRule r /\ direct r = true
  | PeerGotBackend n => exists r, rule self = GotRule r /\ direct r = false /\ backend r = Some n
  | PeerNoRule => forall r, rule self = GotRule r -> direct r = false /\ backend r = None
  end.
Proof.
  unfold get_backend_name_by_rule, get_rule.
  destruct (rule self) as [| |[rw [b|] []]] eqn:E; simpl; try done;
    try (eexists; split; [reflexivity|done]).
  by intros r [= <-].
Qed.

(** ** Properties of the host ruler *)

(** [HostRuler::new] keeps exactly the sections with a directive, and returns
    a ruler exactly when there is one. *)
Theorem host_ruler_new_spec toml_from_str file m :
  utf8_valid file = true -> toml_from_str file = Ok m ->
  match host_ruler_new toml_from_str file with
  | Ok (Some r) => sections r <> ∅ /\
      forall h sec, sections r !! h = Some sec <-> m !! h = Some sec /\ section_empty sec = false
  | Ok None => forall h sec, m !! h = Some sec -> section_empty sec = true
  | Err _ => False
  end.
Proof.
  intros Hv E. unfold host_ruler_new, load_from_read, read_to_string, from_utf8. rewrite Hv. cbn. rewrite E. cbn. case_decide as C.
  - intros h sec Hm. destruct (section_empty sec) eqn:Es; [done|].
    assert (filter (fun kv : string * HostRuleSection => section_empty kv.2 = false) m !! h = Some sec) as Hf
      by (by apply map_lookup_filter_Some).
    by rewrite C, lookup_empty in Hf.
  - split; [done|]. intros h sec. apply map_lookup_filter_Some.
Qed.

Lemma find_rule_eq r peer :
  get_rule peer <> NoRule ->
  find_rule r peer =
    set_rule (match sections r !! get_hostname peer with Some s => GotRule s | None => NoRule end) peer.
Proof. unfold find_rule. by destruct (get_rule peer). Qed.

(** [find_rule] looks the host name up, whatever the port, and is idempotent:
    a peer that has been through it is left unchanged. *)
Theorem find_rule_spec r peer :
  get_rule peer <> NoRule ->
  get_rule (find_rule r peer) =
    match sections r !! get_hostname peer with Some s => GotRule s | None => NoRule end
  /\ host (find_rule r peer) = host peer /\ addr (find_rule r peer) = addr peer
  /\ port_index (find_rule r peer) = port_index peer
  /\ find_rule r (find_rule r peer) = find_rule r peer.
Proof.
  intros Hr. rewrite (find_rule_eq r peer Hr). repeat split.
  destruct (sections r !! get_hostname peer) as [s|] eqn:E; [|done].
  unfold find_rule. simpl. change (get_hostname (set_rule _ peer)) with (get_hostname peer).
  by rewrite E.
Qed.

(** Two peers for the same host name get the same rule, whatever the port:
    the rule file cannot distinguish ports. *)
Corollary find_rule_port_independent r p1 p2 :
  get_rule p1 = RuleUnknown -> get_rule p2 = RuleUnknown ->
  get_hostname p1 = get_hostname p2 ->
  get_rule (find_rule r p1) = get_rule (find_rule r p2).
Proof. intros H1 H2 H3. unfold find_rule. by rewrite H1, H2, H3. Qed.

(** A bracketed IPv6 host without a port contains colons, so its last group is
    taken for the port and no default port is added. *)
Theorem ipv6_host_without_port a :
  get_hostname (peer_new "[2001:db8::7]" a) = "[2001:db8:"
  /\ get_port_str (peer_new "[2001:db8::7]" a) = "7]"
  /\ head_as_str (get_valid_host (peer_new "[2001:db8::7]" a)) = Done "[2001:db8::7]".
Proof. repeat split; reflexivity. Qed.

(** ** Witnesses *)

Definition local8080 : SocketAddr := SocketV4 (Ipv4 127 0 0 1) 8080.

Lemma valid_host_form_witness :
  head_as_str (get_valid_host (peer_new "example.com" local8080)) = Done "example.com:80"
  /\ head_as_str (get_valid_host (peer_new "example.com:8080" local8080)) = Done "example.com:8080".
Proof.
  split.
  - apply (valid_host_form (peer_new "example.com" local8080)); [reflexivity..|].
    simpl. intuition discriminate.
  - apply (valid_host_form (peer_new "example.com:8080" local8080));
      [reflexivity..|]. simpl. tauto.
Defined.

Definition rewrite_rule : HostRuleSection :=
  {| rewrite := Some "hello.com"; backend := Some "local1"; direct := false |}.
Definition rewritten_peer : PeerInfo :=
  set_rule (GotRule rewrite_rule) (peer_new "example.com:8080" local8080).

Lemma host_by_rule_witness :
  head_as_str (get_host_by_rule rewritten_peer) = Done "hello.com:8080".
Proof. apply (host_by_rule rewritten_peer); reflexivity. Defined.

Definition example_sections : gmap string HostRuleSection :=
  <["example.com" := rewrite_rule]> {["world" := {| rewrite := None; backend := None; direct := false |}]}.

Lemma host_ruler_new_spec_witness :
  match host_ruler_new (fun _ => Ok example_sections) "file" with
  | Ok (Some r) => sections r <> ∅ /\
      forall h sec, sections r !! h = Some sec <->
        example_sections !! h = Some sec /\ section_empty sec = false
  | Ok None => forall h sec, example_sections !! h = Some sec -> section_empty sec = true
  | Err _ => False
  end.
Proof. apply host_ruler_new_spec; reflexivity. Defined.

Definition example_ruler : HostRuler := {| sections := {["example.com" := rewrite_rule]} |}.

Lemma find_rule_spec_witness :
  get_rule (find_rule example_ruler (peer_new "example.com:8080" local8080)) = GotRule rewrite_rule
  /\ find_rule example_ruler (find_rule example_ruler (peer_new "example.com:8080" local8080))
     = find_rule example_ruler (peer_new "example.com:8080" local8080).
Proof.
  destruct (find_rule_spec example_ruler (peer_new "example.com:8080" local8080)) as (H1 & _ & _ & _ & H2);
    [discriminate|]. split; [rewrite H1; reflexivity|exact H2].
Defined.
