(* ===== verification/Balance.v ===== *)
(** * Load balancing ([client/src/balance.rs])

    The five algorithms behind the [LoadBalancingAlgorithm] trait, the choice
    of one from the configuration ([populate_load_balance] in [config.rs]),
    and the interface [Balancer] the backend selection is proved against. *)

From Stdlib Require Import Reals Lra.
From S2P Require Import Prelude NetAddr LibMetric Peer.

Inductive Balance := RoundRobin | Random | LeastLoadedTime | UriHash | Frist.

(** [rename_all = "snake_case"] *)
Definition balance_from_str (s : string) : option Balance :=
  if decide (s = "round_robin") then Some RoundRobin
  else if decide (s = "random") then Some Random
  else if decide (s = "least_loaded_time") then Some LeastLoadedTime
  else if decide (s = "uri_hash") then Some UriHash
  else if decide (s = "frist") then Some Frist
  else None.

(** ** The interface *)

(** One algorithm with its state over items of type [T]: the next item for a
    peer and the new state.  [bal_env] is what a call reads besides its
    arguments (the random generator, the costs at this instant); [Panic] is a
    panicking call. *)
Class Balancer (T : Type) := {
  bal_state : Type;
  bal_env : Type;
  bal_next : bal_env -> bal_state -> list T -> PeerInfo -> outcome (option T * bal_state);
  (** only items offered are returned *)
  bal_member : forall e s items info x s',
    bal_next e s items info = Done (Some x, s') -> x ∈ items;
}.

(** ** The algorithms *)
Section Algorithms.
Context {T : Type}.

(** [Frist]: [items.first().cloned()] *)
Definition frist_next (items : list T) : option T := head items.

(** [RoundRobin]: the index lives under a mutex; [%] panics on zero. *)
Definition round_robin_next (next_item_index : nat) (items : list T)
    : outcome (option T * nat) :=
  let next_backend_id := next_item_index in
  let backend := items !! next_backend_id in
  if decide (length items = 0%nat) then Panic
  else Done (backend, ((next_backend_id + 1) mod length items)%nat).

(** [Random]: [items.choose(&mut thread_rng())]; [pick] is the generator. *)
Definition random_next (pick : nat) (items : list T) : option T :=
  if decide (length items = 0%nat) then None else items !! (pick mod length items)%nat.

(** [LeastLoadedTime]: the loop over the backends with the best so far in
    [b]; [cost] is [backend.metric.get_peak_ewma()]. *)
Section LeastLoaded.
Context `{F : F64} (cost : T -> outcome f64).

Fixpoint least_loaded_loop (b : option (f64 * T)) (backends : list T)
    : outcome (option (f64 * T)) :=
  match backends with
  | [] => Done b
  | backend :: backends =>
      c ← cost backend;
      least_loaded_loop
        (match b with
         | None => Some (c, backend)
         | Some (cost_t, bk) =>
             if fleb cost_t c then Some (cost_t, bk) else Some (c, backend)
         end) backends
  end.

Definition least_loaded_next (backends : list T) : outcome (option T) :=
  b ← least_loaded_loop None backends; Done (option_map snd b).
End LeastLoaded.

(** [UriHash]: [ring_get] is the consistent-hash ring of the [hashring]
    crate.  The loop runs [0..=items.len()], that is [len + 1] times. *)
Section UriHash.
Context (ring_get : string -> option nat).

(** [None] when the loop ends without returning. *)
Fixpoint uri_hash_loop (n bid : nat) (items : list T) : outcome (option T) :=
  match n with
  | O => Done None
  | S n =>
      match items !! bid with
      | Some item => Done (Some item)
      | None =>
          if decide (length items = 0%nat) then Panic
          else uri_hash_loop n ((bid + 1) mod length items)%nat items
      end
  end.

Definition uri_hash_next (items : list T) (info : PeerInfo) : outcome (option T) :=
  match ring_get (get_hostname info) with
  | Some backend_id =>
      r ← uri_hash_loop (length items + 1) backend_id items;
      match r with Some item => Done (Some item) | None => Done (items !! 0%nat) end
  | None => Done (items !! 0%nat)
  end.
End UriHash.
End Algorithms.

(** ** [populate_load_balance] and dispatch *)

(** The [hashring] crate. *)
Class HashRing := {
  Ring : Type;
  ring_new : Ring;
  ring_add : nat -> Ring -> Ring;
  ring_get : Ring -> string -> option nat;
}.

Section Dispatch.
Context {T : Type} `{F : F64} `{HR : HashRing}.

(** The [Box<dyn LoadBalancingAlgorithm>] with the state of each case. *)
Inductive BalanceState :=
  | StRoundRobin (next_item_index : nat)
  | StRandom
  | StLeastLoadedTime
  | StUriHash (ring : Ring)
  | StFrist.

Definition populate_load_balance (balance : Balance) (backends_len : nat) : BalanceState :=
  match balance with
  | RoundRobin => StRoundRobin 0
  | Random => StRandom
  | LeastLoadedTime => StLeastLoadedTime
  | UriHash => StUriHash (foldl (fun r i => ring_add i r) ring_new (seq 0 backends_len))
  | Frist => StFrist
  end.

Definition balance_next (pick : nat) (cost : T -> outcome f64) (b : BalanceState)
    (items : list T) (info : PeerInfo) : outcome (option T * BalanceState) :=
  match b with
  | StRoundRobin i => '(x, i) ← round_robin_next i items; Done (x, StRoundRobin i)
  | StRandom => Done (random_next pick items, b)
  | StLeastLoadedTime => x ← least_loaded_next cost items; Done (x, b)
  | StUriHash ring => x ← uri_hash_next (ring_get ring) items info; Done (x, b)
  | StFrist => Done (frist_next items, b)
  end.
End Dispatch.

(** ** Round robin *)

Section RoundRobinSpec.
Context {T : Type}.
Implicit Types items : list T.

(** [n] consecutive calls on the same list. *)
Fixpoint round_robin_run (n i : nat) items : outcome (list (option T) * nat) :=
  match n with
  | O => Done ([], i)
  | S n =>
      '(x, i) ← round_robin_next i items;
      '(xs, i) ← round_robin_run n i items;
      Done (x :: xs, i)
  end.

Lemma round_robin_run_app n m i items :
  round_robin_run (n + m) i items =
    ('(xs, i) ← round_robin_run n i items;
     '(ys, i) ← round_robin_run m i items; Done (xs ++ ys, i)).
Proof.
  revert i; induction n as [|n IH]; intros i; cbn.
  - by destruct (round_robin_run m i items) as [[]|].
  - destruct (round_robin_next i items) as [[x j]|]; cbn; [|done].
    rewrite IH. destruct (round_robin_run n j items) as [[xs k]|]; cbn; [|done].
    by destruct (round_robin_run m k items) as [[]|].
Qed.

(** From index [i], [k] calls within the list return the next [k] items. *)
Lemma round_robin_segment k i items :
  (0 < k)%nat -> (i + k <= length items)%nat ->
  round_robin_run k i items =
    Done (Some <$> take k (drop i items), ((i + k) mod length items)%nat).
Proof.
  revert i; induction k as [|k IH]; intros i Hk Hi; [lia|].
  destruct (lookup_lt_is_Some_2 items i) as [x Hx]; [lia|].
  cbn [round_robin_run]. unfold round_robin_next at 1.
  rewrite decide_False, Hx by lia. cbn.
  rewrite (drop_S _ _ _ Hx). cbn.
  destruct (decide (k = 0%nat)) as [->|Hk0].
  - cbn. by rewrite take_0.
  - rewrite Nat.mod_small by lia. rewrite IH by lia. cbn.
    replace (i + 1)%nat with (S i) by lia.
    by replace (S i + k)%nat with (i + S k)%nat by lia.
Qed.

(** C21: Fairness: on an unchanged list of [n] items, [n] consecutive calls return
    every item exactly once, in list order starting at the current index,
    and end at the same index. *)
Theorem round_robin_fair i items :
  (i < length items)%nat ->
  round_robin_run (length items) i items = Done (Some <$> (drop i items ++ take i items), i).
Proof.
  intros Hi. replace (length items) with (length items - i + i)%nat at 1 by lia.
  rewrite round_robin_run_app, round_robin_segment by lia. cbn.
  replace (i + (length items - i))%nat with (length items) by lia.
  rewrite Nat.Div0.mod_same.
  rewrite (take_ge (drop i items)) by (rewrite length_drop; lia).
  destruct (decide (i = 0%nat)) as [->|H0].
  - cbn. by rewrite take_0, !app_nil_r.
  - rewrite round_robin_segment by lia. cbn.
    by rewrite fmap_app, drop_0, Nat.mod_small by lia.
Qed.

(** The index is not adapted to the list it is used on: when fewer backends
    are available than before, the call returns nothing although the list is
    not empty, and only the next call returns an item. *)
Theorem round_robin_stale_index i items :
  (0 < length items <= i)%nat ->
  exists j, round_robin_next i items = Done (None, j) /\ (j < length items)%nat
    /\ exists x k, round_robin_next j items = Done (Some x, k).
Proof.
  intros Hi. assert (Hj : ((i + 1) mod length items < length items)%nat)
    by (apply Nat.mod_upper_bound; lia).
  exists ((i + 1) mod length items)%nat. unfold round_robin_next.
  rewrite !decide_False by lia. rewrite (lookup_ge_None_2 items i) by lia.
  split; [done|]. split; [done|].
  destruct (lookup_lt_is_Some_2 items _ Hj) as [x Hx]. rewrite Hx. eauto.
Qed.
End RoundRobinSpec.

(** ** Least loaded time *)

Section LeastLoadedSpec.
Context {T : Type} `{F : F64}.

(** The comparison is a total preorder: no cost is a NaN. *)
Class TotalCost (P : f64 -> Prop) : Prop := {
  fleb_total : forall a b, P a -> P b -> fleb a b = false -> fleb b a = true;
  fleb_trans : forall a b c, P a -> P b -> P c ->
    fleb a b = true -> fleb b c = true -> fleb a c = true;
  fleb_refl : forall a, P a -> fleb a a = true;
}.

Context (c : T -> f64) (P : f64 -> Prop) `{!TotalCost P}.

Lemma least_loaded_loop_spec best backends :
  P (c best) -> (forall x, x ∈ backends -> P (c x)) ->
  exists x, least_loaded_loop (fun y => Done (c y)) (Some (c best, best)) backends
      = Done (Some (c x, x))
    /\ P (c x) /\ x ∈ best :: backends
    /\ (forall y, y ∈ best :: backends -> fleb (c x) (c y) = true)
    /\ exists l1 l2, best :: backends = l1 ++ x :: l2
         /\ forall y, y ∈ l1 -> fleb (c y) (c x) = false.
Proof.
  revert best; induction backends as [|b backends IH]; intros best Hb HP; simpl.
  - exists best. split; [done|]. split; [done|]. split; [set_solver|].
    split; [intros y Hy; apply list_elem_of_singleton in Hy as ->; by apply fleb_refl|].
    exists [], []. split; [done|]. intros y Hy. by apply not_elem_of_nil in Hy.
  - assert (Pb : P (c b)) by (apply HP; set_solver).
    assert (HP' : forall x, x ∈ backends -> P (c x)) by (intros; apply HP; set_solver).
    destruct (fleb (c best) (c b)) eqn:E; simpl.
    + destruct (IH best Hb HP') as (x & E1 & Px & Hx & Hmin & l1 & l2 & Hl & Hf).
      exists x. split; [done|]. split; [done|]. split; [set_solver|].
      assert (Hxb : fleb (c x) (c b) = true).
      { apply (fleb_trans (c x) (c best) (c b)); try done. apply Hmin. set_solver. }
      split. { intros y Hy. rewrite !elem_of_cons in Hy.
        destruct Hy as [->|[->|Hy]]; [apply Hmin; set_solver|done|apply Hmin; set_solver]. }
      destruct l1 as [|z l1]; simplify_eq/=.
      * exists [], (b :: l2). split; [done|]. intros y Hy. by apply not_elem_of_nil in Hy.
      * exists (z :: b :: l1), l2. split; [done|]. intros y Hy. rewrite !elem_of_cons in Hy.
        destruct Hy as [->|[->|Hy]]; [apply Hf; set_solver| |apply Hf; set_solver].
        destruct (fleb (c b) (c x)) eqn:Ebx; [|done].
        rewrite <- (Hf z) by set_solver. symmetry. by apply (fleb_trans (c z) (c b) (c x)).
    + destruct (IH b Pb HP') as (x & E1 & Px & Hx & Hmin & l1 & l2 & Hl & Hf).
      exists x. split; [done|]. split; [done|]. split; [set_solver|].
      assert (Hbb : fleb (c b) (c best) = true) by (by apply fleb_total).
      split. { intros y Hy. rewrite !elem_of_cons in Hy.
        destruct Hy as [->|Hy]; [|apply Hmin; set_solver].
        apply (fleb_trans (c x) (c b) (c best)); try done. apply Hmin. set_solver. }
      exists (best :: l1), l2. split; [simpl; by f_equal|]. intros y Hy.
      rewrite elem_of_cons in Hy. destruct Hy as [->|Hy]; [|by apply Hf].
      destruct (fleb (c best) (c x)) eqn:Ebx; [|done].
      rewrite <- E. symmetry. apply (fleb_trans (c best) (c x) (c b)); try done. apply Hmin. set_solver.
Qed.

(** C22: The least-loaded algorithm returns a backend of minimal cost, the first
    of them in list order, and nothing only for the empty list. *)
Theorem least_loaded_min backends :
  (forall x, x ∈ backends -> P (c x)) ->
  match backends with
  | [] => least_loaded_next (fun y => Done (c y)) backends = Done None
  | _ => exists x, least_loaded_next (fun y => Done (c y)) backends = Done (Some x)
      /\ (forall y, y ∈ backends -> fleb (c x) (c y) = true)
      /\ exists l1 l2, backends = l1 ++ x :: l2
           /\ forall y, y ∈ l1 -> fleb (c y) (c x) = false
  end.
Proof.
  intros HP. destruct backends as [|b backends]; [done|].
  destruct (least_loaded_loop_spec b backends) as (x & E & _ & _ & Hmin & Hl).
  { apply HP. set_solver. }
  { intros x Hx. apply HP. set_solver. }
  exists x. unfold least_loaded_next. cbn. rewrite E. by repeat split.
Qed.
End LeastLoadedSpec.

#[export] Instance RF64_total : TotalCost (F := RF64) (fun _ => True).
Proof.
  split; simpl; unfold Rleb; intros; repeat case_match; try done; lra.
Qed.

(** ** Uri hash *)

Section UriHashSpec.
Context {T : Type} (ring_get : string -> option nat).
Implicit Types items : list T.

Lemma uri_hash_loop_spec n bid items :
  (0 < length items)%nat -> (2 <= n)%nat ->
  exists j x, uri_hash_loop n bid items = Done (Some x) /\ items !! j = Some x
    /\ j = (if decide (bid < length items)%nat then bid else (bid + 1) mod length items)%nat.
Proof.
  intros Hl Hn. destruct n as [|[|n]]; [lia..|]. cbn [uri_hash_loop].
  destruct (decide (bid < length items)%nat) as [C|C].
  - destruct (lookup_lt_is_Some_2 items bid C) as [x Hx]. rewrite Hx. eauto.
  - rewrite (lookup_ge_None_2 items bid) by lia. rewrite decide_False by lia.
    assert (Hj : ((bid + 1) mod length items < length items)%nat)
      by (apply Nat.mod_upper_bound; lia).
    destruct (lookup_lt_is_Some_2 items _ Hj) as [x Hx]. rewrite Hx. eauto.
Qed.

Lemma uri_hash_next_spec items info :
  (0 < length items)%nat ->
  exists j x, uri_hash_next ring_get items info = Done (Some x) /\ items !! j = Some x
    /\ j = match ring_get (get_hostname info) with
           | Some bid => (if decide (bid < length items)%nat then bid
                          else (bid + 1) mod length items)%nat
           | None => 0%nat
           end.
Proof.
  intros Hl. unfold uri_hash_next. destruct (ring_get (get_hostname info)) as [bid|].
  - destruct (uri_hash_loop_spec (length items + 1) bid items) as (j & x & E & Hx & Hj); [lia..|].
    exists j, x. rewrite E. by repeat split.
  - destruct (lookup_lt_is_Some_2 items 0 Hl) as [x Hx]. exists 0%nat, x. by rewrite Hx.
Qed.
(** C23: On a non-empty list the URI hash always returns an item, within two
    rounds of its loop: the ring's item when its index is in range, the next
    index modulo the length otherwise, the first item for an empty ring.
    The result depends only on the host name and the list. *)
Theorem uri_hash_total items info :
  (0 < length items)%nat ->
  exists j x, uri_hash_next ring_get items info = Done (Some x) /\ items !! j = Some x
    /\ j = match ring_get (get_hostname info) with
           | Some bid => (if decide (bid < length items)%nat then bid
                          else (bid + 1) mod length items)%nat
           | None => 0%nat
           end.
Proof. apply uri_hash_next_spec. Qed.
End UriHashSpec.

(** ** All algorithms return an item of the list *)

Section Member.
Context {T : Type} `{F : F64} `{HR : HashRing}.

Lemma least_loaded_loop_member (cost : T -> outcome f64) b backends c x :
  least_loaded_loop cost b backends = Done (Some (c, x)) ->
  x ∈ backends \/ (exists c0, b = Some (c0, x)).
Proof.
  revert b; induction backends as [|y backends IH]; intros b; cbn.
  - intros [= ->]. eauto.
  - destruct (cost y) as [cy|]; cbn; [|done]. intros E. apply IH in E as [E|[c0 E]]; [set_solver|].
    destruct b as [[ct bk]|]; [destruct (fleb ct cy)|]; simplify_eq; try set_solver; eauto.
Qed.

Lemma uri_hash_loop_member n bid (items : list T) x :
  uri_hash_loop n bid items = Done (Some x) -> x ∈ items.
Proof.
  revert bid; induction n as [|n IH]; intros bid; simpl; [done|].
  destruct (items !! bid) as [y|] eqn:E; [intros [= <-]; by eapply list_elem_of_lookup_2|].
  case_decide; [done|apply IH].
Qed.

Lemma balance_next_member pick cost b (items : list T) info x b' :
  balance_next pick cost b items info = Done (Some x, b') -> x ∈ items.
Proof.
  destruct b as [i| | |ring|]; cbn.
  - unfold round_robin_next. case_decide; cbn; [done|]. intros [= E _].
    by eapply list_elem_of_lookup_2.
  - unfold random_next. case_decide; [done|]. intros [= E _]. by eapply list_elem_of_lookup_2.
  - unfold least_loaded_next.
    destruct (least_loaded_loop cost None items) as [[[c y]|]|] eqn:E; cbn; try done.
    intros [= <- _]. apply least_loaded_loop_member in E as [?|[? ?]]; done.
  - unfold uri_hash_next. destruct (ring_get ring (get_hostname info)) as [bid|]; cbn.
    + destruct (uri_hash_loop _ bid items) as [[y|]|] eqn:E; cbn; try done.
      * intros [= <- _]. by eapply uri_hash_loop_member.
      * intros [= E2 _]. by eapply list_elem_of_lookup_2.
    + intros [= E _]. by eapply list_elem_of_lookup_2.
  - unfold frist_next. destruct items; [done|]. intros [= <- _]. set_solver.
Qed.

Lemma least_loaded_loop_done (cost : T -> outcome f64) b bs :
  (forall x, x ∈ bs -> is_done (cost x)) ->
  exists o, least_loaded_loop cost b bs = Done o /\ (b <> None \/ bs <> [] -> o <> None).
Proof.
  revert b; induction bs as [|y bs IH]; intros b Hc; cbn.
  { exists b. split; [done|]. naive_solver. }
  destruct (Hc y) as [cy ->]; [set_solver|]. cbn.
  edestruct IH as (o & E & Ho); [|exists o; split; [exact E|]]; [set_solver|].
  intros _. apply Ho. left. destruct b as [[? ?]|]; [case_match|]; done.
Qed.

(** On a non-empty list no algorithm panics. *)
Lemma balance_next_done pick cost b (items : list T) info :
  items <> [] -> (forall x, x ∈ items -> is_done (cost x)) ->
  is_done (balance_next pick cost b items info).
Proof.
  intros Hi Hc. assert (Hl : (0 < length items)%nat) by (destruct items; [done|simpl; lia]).
  destruct b as [i| | |ring|]; cbn; try (by eexists).
  - unfold round_robin_next. rewrite decide_False by lia. cbn. by eexists.
  - unfold least_loaded_next.
    destruct (least_loaded_loop_done cost None items Hc) as (o & -> & _). cbn. by eexists.
  - destruct (uri_hash_next_spec (ring_get ring) items info Hl) as (j & x & -> & _). cbn. by eexists.
Qed.

#[export] Instance config_balancer : Balancer T := {|
  bal_state := BalanceState;
  bal_env := nat * (T -> outcome f64);
  bal_next := fun e => balance_next e.1 e.2;
  bal_member := fun e => balance_next_member e.1 e.2;
|}.

(** Only the round robin can come back empty-handed from a non-empty list. *)
Lemma balance_next_some pick cost b (items : list T) info :
  (0 < length items)%nat -> (forall x, x ∈ items -> is_done (cost x)) ->
  match b with
  | StRoundRobin i => (i < length items)%nat
  | _ => True
  end ->
  exists x b', balance_next pick cost b items info = Done (Some x, b') /\ x ∈ items.
Proof.
  intros Hl Hc Hb.
  cut (exists x b', balance_next pick cost b items info = Done (Some x, b')).
  { intros (x & b' & E). exists x, b'. split; [done|]. by eapply balance_next_member. }
  destruct b as [i| | |ring|]; cbn.
  - unfold round_robin_next. rewrite decide_False by lia.
    destruct (lookup_lt_is_Some_2 items i Hb) as [x ->]. cbn. eauto.
  - unfold random_next. rewrite decide_False by lia.
    destruct (lookup_lt_is_Some_2 items (pick mod length items)%nat) as [x ->]; [|eauto].
    apply Nat.mod_upper_bound. lia.
  - unfold least_loaded_next.
    destruct (least_loaded_loop_done cost None items Hc) as (o & -> & Ho). cbn.
    destruct o as [[c x]|]; [cbn; eauto|]. destruct Ho; [right; intros ->; simpl in Hl; lia|done].
  - destruct (uri_hash_next_spec (ring_get ring) items info Hl) as (j & x & -> & _). cbn. eauto.
  - unfold frist_next. destruct items; [simpl in *; lia|]. cbn. eauto.
Qed.

(** C20: Only the round robin can come back empty-handed from a non-empty list. *)
Theorem balance_available pick cost b (items : list T) info :
  (0 < length items)%nat -> (forall x, x ∈ items -> is_done (cost x)) ->
  match b with
  | StRoundRobin i => (i < length items)%nat
  | _ => True
  end ->
  exists x b', balance_next pick cost b items info = Done (Some x, b') /\ x ∈ items.
Proof. apply balance_next_some. Qed.
End Member.

(** ** A wrapped connection counter beats every idle backend

    [reset] during a connection leaves [active_connections] at [u32::MAX] in a
    release build (see [Metric.reset_then_close_underflows]); the cost is then
    zero and the least-loaded algorithm picks that backend. *)
Theorem wrapped_counter_cost_zero now (e : PeakEWMA (F := RF64)) :
  ewma_get (F := RF64) Release now (2 ^ 32 - 1) e = Done 0%R.
Proof.
  unfold ewma_get, uadd. rewrite fit_release.
  change ((2 ^ 32 - 1 + 1) mod 2 ^ 32) with 0. cbn. f_equal. lra.
Qed.

(** ** Witnesses *)

Definition no_info : PeerInfo := peer_new "example.com:443" (SocketV4 (Ipv4 127 0 0 1) 8080).

Lemma round_robin_fair_witness :
  round_robin_run 3 1 ["a"; "b"; "c"] = Done ([Some "b"; Some "c"; Some "a"], 1%nat).
Proof. apply (round_robin_fair 1 ["a"; "b"; "c"]). simpl. lia. Defined.

Lemma round_robin_stale_index_witness :
  exists j, round_robin_next 2 ["a"; "b"] = Done (None, j) /\ (j < 2)%nat
    /\ exists x k, round_robin_next j ["a"; "b"] = Done (Some x, k).
Proof. apply (round_robin_stale_index 2 ["a"; "b"]). simpl. lia. Defined.

Lemma least_loaded_min_witness :
  exists x, least_loaded_next (fun y => Done (IZR y)) [3; 1; 2; 1] = Done (Some x)
    /\ (forall y, y ∈ [3; 1; 2; 1] -> fleb (IZR x) (IZR y) = true)
    /\ exists l1 l2, [3; 1; 2; 1] = l1 ++ x :: l2
         /\ forall y, y ∈ l1 -> fleb (IZR y) (IZR x) = false.
Proof. apply (least_loaded_min (F := RF64) IZR (fun _ => True) [3; 1; 2; 1]). done. Defined.

Lemma uri_hash_total_witness :
  exists j x, uri_hash_next (fun _ => Some 5%nat) ["a"; "b"; "c"; "d"] no_info = Done (Some x)
    /\ ["a"; "b"; "c"; "d"] !! j = Some x /\ j = 2%nat.
Proof. apply (uri_hash_total (fun _ => Some 5%nat) ["a"; "b"; "c"; "d"] no_info). simpl. lia. Defined.

(** A ring for the witnesses: the ids in order, every name at the first. *)
Definition list_ring : HashRing := {|
  Ring := list nat;
  ring_new := [];
  ring_add := fun i r => r ++ [i];
  ring_get := fun r _ => head r;
|}.

Lemma balance_available_witness :
  exists x b', balance_next (HR := list_ring) (F := RF64) 0 (fun _ => Done (0%R : @f64 RF64))
      (populate_load_balance UriHash 3) ["a"; "b"] no_info = Done (Some x, b') /\ x ∈ ["a"; "b"].
Proof.
  apply (balance_available (HR := list_ring) 0 (fun _ => Done (0%R : @f64 RF64))); [simpl; lia| |done].
  intros x _. by eexists.
Defined.
