(* ===== verification/World.v ===== *)
(** * The shared state of a client process and programs over it

    The client's tasks share the backends (each under a [tokio] RwLock), the
    backends' clients (each with a [tokio] Mutex), the cancellation tokens and
    the balancer.  [World] is that store, with the identities the [Arc]s have;
    [op] is one atomic access to it or one request to the network; [prog] is
    an async function: a tree of operations, with the code's unbounded loops as
    calls of a [label] whose body is unfolded lazily.  Nothing is executed
    between two operations that another task could observe, so interleaving
    tasks at operations loses no behaviour. *)

From S2P Require Import Prelude NetAddr LibProxy LibMetric Metric Tls BackendConfig Peer Balance.

(** ** Identities and small data *)

(** Index of a backend in [Config::backends], identity of an
    [Arc<MixClient>], of a [CancellationToken], of a connection. *)
Notation backend_id := nat (only parsing).
Notation client_id := nat (only parsing).
Notation token_id := nat (only parsing).
Notation conn_id := nat (only parsing).

(** [connector.rs]: [ClientState]; the send handle is named by its
    connection. *)
Inductive ClientState :=
  | Poisoned
  | NotConnected
  | Connected (conn : conn_id).

Inductive BidiStream := BidiH2 (conn : conn_id) | BidiQuic (conn : conn_id) | Alive.

Inductive QuicStreamState := SInit | SWrite (buf : ConnectHeadBuf) | SRead.

(** One poll of a fresh [write_all]: all written, or [n] bytes accepted before
    it would block, or an error. *)
Inductive WritePoll := WReady | WPending (n : nat) | WErr (e : string).

(** [tokio::time::timeout] around [TcpStream::connect] *)
Inductive TimedConnect := TcpOk | TcpErr (e : string) | TcpTimeout.

(** The tasks the program spawns or runs. *)
Inductive job :=
  | JRetry (b : backend_id)
  | JIncr (b : backend_id) (peer : SocketAddr)
  | JDirect (peer : PeerInfo)
  | JConnect (peer : PeerInfo)
  | JForward (peer : PeerInfo)
  | JApi (req : MetricApiReq).

(** The tasks that start from outside: an incoming connection or request. *)
Definition external (j : job) : bool :=
  match j with
  | JConnect _ | JForward _ | JApi _ => true
  | JRetry _ | JIncr _ _ | JDirect _ => false
  end.

(** The boxed future [new_stream_fut] returns: [config.new_stream(client,
    host)], not yet polled. *)
Record StreamFut := { sf_client : client_id; sf_conn : conn_id; sf_host : option ConnectHeadBuf }.

(** Entry points of the unbounded loops; [LSel t l] is [l] under [select!] with
    the token [t]. *)
Inductive label :=
  | LStream (c : client_id) (host : option ConnectHeadBuf)
  | LQuicPoll (conn : conn_id) (host : ConnectHeadBuf) (st : QuicStreamState)
  | LRetry (b : backend_id) (period n : Z)
  | LHandle (peer : PeerInfo)
  | LSel (t : token_id) (l : label).

Fixpoint lresp (l : label) : Type :=
  match l with
  | LStream _ _ => result string StreamFut
  | LQuicPoll _ _ _ => result string unit
  | LRetry _ _ _ => unit
  | LHandle _ => option (BidiStream * Z * backend_id)
  | LSel _ l => option (lresp l)
  end.

Section World.
Context `{F : F64} `{CL : ClientLib} `{HR : HashRing}.

(** ** Requests to code outside the repository *)
Inductive NetOp :=
  | TcpConnect (remote_address : string) (connect_time : Z)
  | SetNodelay
  | TlsConnect (domain : ServerName)
  | H2Handshake (builder : H2Builder)
  | LookupHost (remote_address : string)
  | QuicEndpoint (endpoint_addr : SocketAddr)
  | QuicConnect (remote_addr : SocketAddr) (server_name : string)
  | Into0rtt
  | AwaitConnecting
  | IsFinished (conn : conn_id)
  | Abort (conn : conn_id)
  | H2Request (uri : Uri)
  | H2PollReady (conn : conn_id)
  | H2SendRequest (conn : conn_id)
  | H2WriteAll (conn : conn_id) (buf : string)
  | QuicOpenBi (conn : conn_id)
  | QuicPollWrite (conn : conn_id) (buf : string)
  | QuicReadChunk (conn : conn_id) (max : nat)
  | CopyBidirectional (outbound : BidiStream)
  | Tick (period : Z)
  | DirectConnect (host : string)
  | DirectCopy
  | ClientRequest
  | SendResponse (body : string).

Definition net_resp (q : NetOp) : Type :=
  match q with
  | TcpConnect _ _ => TimedConnect
  | SetNodelay | TlsConnect _ | QuicEndpoint _ | QuicConnect _ _ => result string unit
  | H2Handshake _ => result string conn_id
  | LookupHost _ => result string (list SocketAddr)
  | Into0rtt => option conn_id
  | AwaitConnecting => result string conn_id
  | IsFinished _ => bool
  | Abort _ | Tick _ => unit
  | H2Request _ | H2PollReady _ | H2SendRequest _ | H2WriteAll _ _ => result string unit
  | QuicOpenBi _ => result string unit
  | QuicPollWrite _ _ => WritePoll
  | QuicReadChunk _ _ => result string (option string)
  | CopyBidirectional _ => result string (Z * Z)
  | DirectConnect _ | DirectCopy => result string unit
  | ClientRequest => result string string
  | SendResponse _ => bool
  end.

(** ** The store *)

(** [backends.rs]: [Backend] without its metric. *)
Record Backend := {
  retry_timeout : Z;
  max_retries : Z;
  client : client_id;
  retrying : bool;
  cancellation_token : token_id;
  file_backend_config : FileBackendConfig;
}.

(** [ConfigBackend]: the locked backend, and its metric, which the two
    handles share. *)
Record BackendCell := {
  be_name : string;
  be_address : string;
  be_domain : string;
  be_backend : Backend;
  be_metric : MetricData;
  be_readers : nat;
  be_writer : bool;
}.

(** [MixClient] with the state of its [Client]. *)
Record ClientCell := {
  cl_config : MixConfig;
  cl_last_addrs : option (SocketAddr * SocketAddr);
  cl_locked : bool;
  cl_state : ClientState;
}.

Record World := {
  w_backends : list BackendCell;
  w_clients : list ClientCell;
  (** cancelled or not *)
  w_tokens : list bool;
  w_balance : BalanceState;
}.

Definition with_backends bs w : World :=
  {| w_backends := bs; w_clients := w_clients w; w_tokens := w_tokens w; w_balance := w_balance w |}.
Definition with_clients cs w : World :=
  {| w_backends := w_backends w; w_clients := cs; w_tokens := w_tokens w; w_balance := w_balance w |}.
Definition with_tokens ts w : World :=
  {| w_backends := w_backends w; w_clients := w_clients w; w_tokens := ts; w_balance := w_balance w |}.
Definition with_balance b w : World :=
  {| w_backends := w_backends w; w_clients := w_clients w; w_tokens := w_tokens w; w_balance := b |}.

Definition cell_backend (f : Backend -> Backend) (c : BackendCell) : BackendCell :=
  {| be_name := be_name c; be_address := be_address c; be_domain := be_domain c;
     be_backend := f (be_backend c); be_metric := be_metric c;
     be_readers := be_readers c; be_writer := be_writer c |}.
Definition cell_metric (m : MetricData) (c : BackendCell) : BackendCell :=
  {| be_name := be_name c; be_address := be_address c; be_domain := be_domain c;
     be_backend := be_backend c; be_metric := m;
     be_readers := be_readers c; be_writer := be_writer c |}.
Definition cell_lock (r : nat) (wr : bool) (c : BackendCell) : BackendCell :=
  {| be_name := be_name c; be_address := be_address c; be_domain := be_domain c;
     be_backend := be_backend c; be_metric := be_metric c;
     be_readers := r; be_writer := wr |}.

Definition set_config cfg (b : Backend) : Backend :=
  {| retry_timeout := retry_timeout b; max_retries := max_retries b; client := client b;
     retrying := retrying b; cancellation_token := cancellation_token b;
     file_backend_config := cfg |}.
Definition set_client c (b : Backend) : Backend :=
  {| retry_timeout := retry_timeout b; max_retries := max_retries b; client := c;
     retrying := retrying b; cancellation_token := cancellation_token b;
     file_backend_config := file_backend_config b |}.
Definition set_token t (b : Backend) : Backend :=
  {| retry_timeout := retry_timeout b; max_retries := max_retries b; client := client b;
     retrying := retrying b; cancellation_token := t;
     file_backend_config := file_backend_config b |}.
Definition set_retrying r (b : Backend) : Backend :=
  {| retry_timeout := retry_timeout b; max_retries := max_retries b; client := client b;
     retrying := r; cancellation_token := cancellation_token b;
     file_backend_config := file_backend_config b |}.

Definition client_lock (l : bool) (c : ClientCell) : ClientCell :=
  {| cl_config := cl_config c; cl_last_addrs := cl_last_addrs c; cl_locked := l;
     cl_state := cl_state c |}.
Definition client_state (s : ClientState) (c : ClientCell) : ClientCell :=
  {| cl_config := cl_config c; cl_last_addrs := cl_last_addrs c; cl_locked := cl_locked c;
     cl_state := s |}.
Definition client_addrs (a : SocketAddr * SocketAddr) (c : ClientCell) : ClientCell :=
  {| cl_config := cl_config c; cl_last_addrs := Some a; cl_locked := cl_locked c;
     cl_state := cl_state c |}.

(** ** Operations *)
Inductive op :=
  | ReadLock (b : backend_id) | ReadUnlock (b : backend_id)
  | WriteLock (b : backend_id) | WriteUnlock (b : backend_id)
  | NumBackends
  | BackendName (b : backend_id)
  | GetStatus (b : backend_id)
  | GetMetric (b : backend_id)
  | CallMetric (b : backend_id) (c : MetricCall)
  | GetFields (b : backend_id)
  | SetConfig (b : backend_id) (c : FileBackendConfig)
  | SetClient (b : backend_id) (c : client_id)
  | SetToken (b : backend_id) (t : token_id)
  | LoadRetrying (b : backend_id) | StoreRetrying (b : backend_id) (v : bool)
  | NewToken | CancelToken (t : token_id)
  | NewClient (c : MixConfig)
  | GetConfig (c : client_id)
  | LockInner (c : client_id) | UnlockInner (c : client_id)
  | GetState (c : client_id) | SetState (c : client_id) (s : ClientState)
  | GetLastAddrs (c : client_id) | SetLastAddrs (c : client_id) (a : SocketAddr * SocketAddr)
  | ReadFs
  | BalanceNext (items : list backend_id) (info : PeerInfo)
  | Spawn (j : job)
  | Now
  (** [unreachable!()] *)
  | Unreachable
  | Net (q : NetOp)
  | OrCancel (t : token_id) (o : op).

Fixpoint resp (o : op) : Type :=
  match o with
  | NumBackends => nat
  | BackendName _ => string
  | GetStatus _ => BackendStatus
  | GetMetric _ => BackendMetric
  | GetFields _ => Backend
  | LoadRetrying _ => bool
  | NewToken => token_id
  | NewClient _ => client_id
  | GetConfig _ => MixConfig
  | GetState _ => ClientState
  | GetLastAddrs _ => option (SocketAddr * SocketAddr)
  | ReadFs => FileSystem
  | BalanceNext _ _ => option backend_id
  | Now => Z
  | Net q => net_resp q
  | OrCancel _ o => option (resp o)
  | _ => unit
  end.

(** What one step takes from outside: the clock, the random generator, which
    branch [select!] takes when the token is cancelled, the files, and the
    network's answers ([None] while the request is pending). *)
Record Env := {
  e_now : Z;
  e_pick : nat;
  e_cancel : bool;
  e_fs : FileSystem;
  e_net : forall q, option (net_resp q);
}.

Definition on_backend (b : backend_id) (w : World) (f : BackendCell -> option BackendCell)
    : option World :=
  c ← w_backends w !! b; c' ← f c; Some (with_backends (<[b := c']> (w_backends w)) w).
Definition on_client (c : client_id) (w : World) (f : ClientCell -> option ClientCell)
    : option World :=
  x ← w_clients w !! c; x' ← f x; Some (with_clients (<[c := x']> (w_clients w)) w).

Definition done_unit (w : option World) : option (unit * World * list job) :=
  w ← w; Some (tt, w, []).

(** The cost the least-loaded balancer reads for a backend. *)
Definition backend_cost (now : Z) (w : World) (b : backend_id) : outcome f64 :=
  match w_backends w !! b with
  | Some c => ewma_get Release now (active_connections (be_metric c)) (peak_ewma (be_metric c))
  | None => Panic
  end.

Definition is_cancelled (t : token_id) (w : World) : bool := default false (w_tokens w !! t).

(** One operation; [None] when it has to wait.  A RwLock or Mutex is granted to
    anyone it fits, in any order: this includes all that [tokio]'s fair locks do,
    and more, so what holds of all reachable states here holds there.  [Fair]
    adds the queues, where it matters that a task may have to wait.  To abort a
    connection's task has no effect on the store: what becomes of the connection
    is told by the later answers to [IsFinished]. *)
Fixpoint op_eval (e : Env) (o : op) (w : World) : option (resp o * World * list job) :=
  match o return option (resp o * World * list job) with
  | ReadLock b => done_unit (on_backend b w (fun c =>
      if be_writer c then None else Some (cell_lock (S (be_readers c)) false c)))
  | ReadUnlock b => done_unit (on_backend b w (fun c =>
      Some (cell_lock (pred (be_readers c)) (be_writer c) c)))
  | WriteLock b => done_unit (on_backend b w (fun c =>
      if be_writer c then None
      else if decide (be_readers c = 0%nat) then Some (cell_lock 0 true c) else None))
  | WriteUnlock b => done_unit (on_backend b w (fun c => Some (cell_lock (be_readers c) false c)))
  | NumBackends => Some (length (w_backends w), w, [])
  | BackendName b => c ← w_backends w !! b; Some (be_name c, w, [])
  | GetStatus b => c ← w_backends w !! b; Some (status (be_metric c), w, [])
  | GetMetric b => c ← w_backends w !! b;
      Some ({| bm_backend_name := be_name c; bm_domain := be_domain c;
               bm_address := be_address c; bm_metric := be_metric c |}, w, [])
  | CallMetric b call => done_unit (on_backend b w (fun c =>
      match absorb_all Release (e_now e) (call_ops call) (be_metric c) with
      | Done m => Some (cell_metric m c)
      | Panic => None
      end))
  | GetFields b => c ← w_backends w !! b; Some (be_backend c, w, [])
  | SetConfig b x => done_unit (on_backend b w (fun c => Some (cell_backend (set_config x) c)))
  | SetClient b x => done_unit (on_backend b w (fun c => Some (cell_backend (set_client x) c)))
  | SetToken b x => done_unit (on_backend b w (fun c => Some (cell_backend (set_token x) c)))
  | LoadRetrying b => c ← w_backends w !! b; Some (retrying (be_backend c), w, [])
  | StoreRetrying b v =>
      done_unit (on_backend b w (fun c => Some (cell_backend (set_retrying v) c)))
  | NewToken => Some (length (w_tokens w), with_tokens (w_tokens w ++ [false]) w, [])
  | CancelToken t => Some (tt, with_tokens (<[t := true]> (w_tokens w)) w, [])
  | NewClient cfg => Some (length (w_clients w),
      with_clients (w_clients w ++ [{| cl_config := cfg; cl_last_addrs := None;
                                       cl_locked := false; cl_state := NotConnected |}]) w, [])
  | GetConfig c => x ← w_clients w !! c; Some (cl_config x, w, [])
  | LockInner c => done_unit (on_client c w (fun x =>
      if cl_locked x then None else Some (client_lock true x)))
  | UnlockInner c => done_unit (on_client c w (fun x => Some (client_lock false x)))
  | GetState c => x ← w_clients w !! c; Some (cl_state x, w, [])
  | SetState c s => done_unit (on_client c w (fun x => Some (client_state s x)))
  | GetLastAddrs c => x ← w_clients w !! c; Some (cl_last_addrs x, w, [])
  | SetLastAddrs c a => done_unit (on_client c w (fun x => Some (client_addrs a x)))
  | ReadFs => Some (e_fs e, w, [])
  | BalanceNext items info =>
      match balance_next (e_pick e) (backend_cost (e_now e) w) (w_balance w) items info with
      | Done (r, b) => Some (r, with_balance b w, [])
      | Panic => None
      end
  | Spawn j => Some (tt, w, [j])
  | Now => Some (e_now e, w, [])
  | Unreachable => None
  | Net q => r ← e_net e q; Some (r, w, [])
  | OrCancel t o =>
      if is_cancelled t w && e_cancel e then Some (None, w, [])
      else '(r, w, js) ← op_eval e o w; Some (Some r, w, js)
  end.

Lemma on_backend_Some b (w : World) f w' :
  on_backend b w f = Some w' -> exists c c', w_backends w !! b = Some c /\ f c = Some c'
    /\ w' = with_backends (<[b := c']> (w_backends w)) w.
Proof.
  unfold on_backend. destruct (w_backends w !! b) as [c|] eqn:E; [|done]. cbn.
  destruct (f c) as [c'|] eqn:E2; [|done]. cbn. intros [= <-]. eauto 6.
Qed.

Lemma on_client_Some b (w : World) f w' :
  on_client b w f = Some w' -> exists c c', w_clients w !! b = Some c /\ f c = Some c'
    /\ w' = with_clients (<[b := c']> (w_clients w)) w.
Proof.
  unfold on_client. destruct (w_clients w !! b) as [c|] eqn:E; [|done]. cbn.
  destruct (f c) as [c'|] eqn:E2; [|done]. cbn. intros [= <-]. eauto 6.
Qed.

Lemma done_unit_Some o r (w : World) js :
  done_unit o = Some (r, w, js) -> o = Some w /\ js = [].
Proof. unfold done_unit. destruct o; [|done]. by intros [= _ <- <-]. Qed.

(** ** Programs *)
Inductive prog (A : Type) : Type :=
  | Ret (a : A)
  | Vis (o : op) (k : resp o -> prog A)
  | Call (l : label) (k : lresp l -> prog A).
Arguments Ret {A} a.
Arguments Vis {A} o k.
Arguments Call {A} l k.

Fixpoint pbind {A B} (p : prog A) (f : A -> prog B) : prog B :=
  match p with
  | Ret a => f a
  | Vis o k => Vis o (fun r => pbind (k r) f)
  | Call l k => Call l (fun r => pbind (k r) f)
  end.

#[export] Instance prog_ret : MRet prog := fun _ a => Ret a.
#[export] Instance prog_bind : MBind prog := fun _ _ f p => pbind p f.

(** The [?] operator of an async function. *)
Definition try_bind {A B} (p : prog (result string A)) (f : A -> prog (result string B))
    : prog (result string B) :=
  pbind p (fun r => match r with Ok a => f a | Err e => Ret (Err e) end).

(** [.context(msg)] and [.map_err(..)] on an async result *)
Definition map_errp {A} (f : string -> string) (p : prog (result string A))
    : prog (result string A) :=
  pbind p (fun r => Ret (result_map_err f r)).

Definition do (o : op) : prog (resp o) := Vis o Ret.
Definition net (q : NetOp) : prog (net_resp q) := Vis (Net q) Ret.
Definition call (l : label) : prog (lresp l) := Call l Ret.

(** [tokio::select! { r = p => Some(r), _ = token.cancelled() => None }]: at
    every operation of [p] the cancellation may win once the token is
    cancelled; dropping [p] drops the inner guards it holds. *)
Definition held_after (o : op) (held : list client_id) : list client_id :=
  match o with
  | LockInner c => c :: held
  | UnlockInner c => filter (fun c' => c' <> c) held
  | _ => held
  end.

Fixpoint release {A} (held : list client_id) (a : A) : prog A :=
  match held with
  | [] => Ret a
  | c :: held => Vis (UnlockInner c) (fun _ => release held a)
  end.

Fixpoint select_cancel {A} (t : token_id) (held : list client_id) (p : prog A) : prog (option A) :=
  match p with
  | Ret a => Ret (Some a)
  | Vis o k => Vis (OrCancel t o) (fun r =>
      match r with
      | Some r => select_cancel t (held_after o held) (k r)
      | None => release held None
      end)
  | Call l k => Call (LSel t l) (fun r =>
      match r with
      | Some r => select_cancel t held (k r)
      | None => release held None
      end)
  end.

(** ** Execution *)
Section Steps.
(** The loop bodies and the tasks of the whole program. *)
Context (body : forall l, prog (lresp l)) (job_prog : job -> prog unit).

Definition step_prog {A} (e : Env) (p : prog A) (w : World)
    : option (prog A * World * list job) :=
  match p with
  | Ret _ => None
  | Vis o k => '(r, w, js) ← op_eval e o w; Some (k r, w, js)
  | Call l k => Some (pbind (body l) k, w, [])
  end.

(** [n] steps of one task alone, answered by [ω]. *)
Fixpoint exec {A} (n : nat) (ω : nat -> Env) (p : prog A) (w : World)
    : option (prog A * World * list job) :=
  match n with
  | O => Some (p, w, [])
  | S n =>
      '(p, w, js) ← step_prog (ω 0%nat) p w;
      '(p, w, js') ← exec n (fun i => ω (S i)) p w;
      Some (p, w, js ++ js')
  end.

(** All tasks, each with the job it runs. *)
Record Pool := { p_tasks : list (job * prog unit); p_world : World }.

Definition spawn_all (js : list job) : list (job * prog unit) :=
  (fun j => (j, job_prog j)) <$> js.

Definition step_task (i : nat) (e : Env) (s : Pool) : option Pool :=
  '(j, p) ← p_tasks s !! i;
  '(p, w, js) ← step_prog e p (p_world s);
  Some {| p_tasks := <[i := (j, p)]> (p_tasks s) ++ spawn_all js; p_world := w |}.

(** A task takes a step, or the outside starts one. *)
Inductive event := Run (i : nat) (e : Env) | Arrive (j : job).

Definition step_pool (ev : event) (s : Pool) : option Pool :=
  match ev with
  | Run i e => step_task i e s
  | Arrive j =>
      if external j
      then Some {| p_tasks := p_tasks s ++ [(j, job_prog j)]; p_world := p_world s |}
      else None
  end.

Fixpoint run_pool (evs : list event) (s : Pool) : option Pool :=
  match evs with
  | [] => Some s
  | ev :: evs => s ← step_pool ev s; run_pool evs s
  end.

Inductive reachable (s0 : Pool) : Pool -> Prop :=
  | reach_init : reachable s0 s0
  | reach_step s ev s' : reachable s0 s -> step_pool ev s = Some s' -> reachable s0 s'.

Lemma run_reachable s0 evs s s' :
  reachable s0 s -> run_pool evs s = Some s' -> reachable s0 s'.
Proof.
  revert s; induction evs as [|ev evs IH]; intros s Hr; simpl; [by intros [= <-]|].
  destruct (step_pool ev s) as [s1|] eqn:E; [|done]. cbn. apply IH. by eapply reach_step.
Qed.
End Steps.
End World.

Arguments Ret {_ _ A} a.
Arguments Vis {_ _ A} o k.
Arguments Call {_ _ A} l k.

Notation "x ←? p ; k" := (try_bind p (fun x => k))
  (at level 20, p at level 100, k at level 200, only parsing) : stdpp_scope.

(** Normalise an equation [op_eval e o w = Some _] of a known operation. *)
Ltac op_inv H :=
  cbn [op_eval] in H;
  first
    [ apply done_unit_Some in H as [H ->];
      first [ apply on_backend_Some in H as (?c & ?c' & ?Hc & ?Hf & ->)
            | apply on_client_Some in H as (?c & ?c' & ?Hc & ?Hf & ->) ]
    | idtac ].
