(* ===== verification/Connector.v ===== *)
(** * Connections to a server ([client/src/connector.rs])

    A [MixClient] is a multiplexed connection, over HTTP/2 or QUIC, that is
    established on demand: [new_stream_fut] connects when needed under the
    client's lock and returns the request for a stream, which is run without
    the lock. *)

From S2P Require Import Prelude NetAddr LibProxy LibMetric Metric Tls BackendConfig Peer Balance World.

Section Connector.
Context `{F : F64} `{CL : ClientLib}.

Definition UNSPECIFIED_V4 : SocketAddr := SocketV4 (Ipv4 0 0 0 0) 0.
Definition UNSPECIFIED_V6 : SocketAddr := SocketV6 (Ipv6 (replicate 8 0)) 0 0 0.

(** ** [QuicConnConfig] *)

Definition quic_try_connect (cfg : QuicConnConfig) (remote_addr endpoint_addr : SocketAddr)
    : prog (result string conn_id) :=
  _ ←? net (QuicEndpoint endpoint_addr);
  _ ←? net (QuicConnect remote_addr (server_name cfg));
  if qc_use_0rtt cfg then
    r ← net Into0rtt;
    match r with
    | Some conn => Ret (Ok conn)
    | None => net AwaitConnecting
    end
  else net AwaitConnecting.

(** The address to bind for a remote address; [None] is [continue]. *)
Definition endpoint_for (cfg : QuicConnConfig) (remote_addr : SocketAddr) : option SocketAddr :=
  match remote_addr with
  | SocketV4 _ _ => Some UNSPECIFIED_V4
  | SocketV6 _ _ _ _ => if qc_ipv4_only cfg then None else Some UNSPECIFIED_V6
  end.

(** The loop of [connect_addr] over the resolved addresses. *)
Fixpoint connect_loop (c : client_id) (cfg : QuicConnConfig) (last_err : option string)
    (addrs : list SocketAddr) : prog (result string conn_id) :=
  match addrs with
  | [] => Ret (Err (default "could not resolve to any address" last_err))
  | remote_addr :: addrs =>
      match endpoint_for cfg remote_addr with
      | None => connect_loop c cfg last_err addrs
      | Some endpoint_addr =>
          r ← quic_try_connect cfg remote_addr endpoint_addr;
          match r with
          | Ok conn => _ ← do (SetLastAddrs c (remote_addr, endpoint_addr)); Ret (Ok conn)
          | Err err => connect_loop c cfg (Some err) addrs
          end
      end
  end.

Definition connect_addr (c : client_id) (cfg : QuicConnConfig) : prog (result string conn_id) :=
  addrs ←? net (LookupHost (qc_remote_address cfg));
  connect_loop c cfg None addrs.

Definition quic_new_connection (c : client_id) (cfg : QuicConnConfig)
    : prog (result string conn_id) :=
  last_addrs ← do (GetLastAddrs c);
  match last_addrs with
  | Some (remote_addr, endpoint_addr) => quic_try_connect cfg remote_addr endpoint_addr
  | None => connect_addr c cfg
  end.

(** One turn of the loop inside [poll_fn]: every poll of the write state
    writes a fresh [write_all] of the whole buffer. *)
Definition quic_poll_body (conn : conn_id) (host : ConnectHeadBuf) (state : QuicStreamState)
    : prog (result string unit) :=
  match state with
  | SInit => call (LQuicPoll conn host (SWrite host))
  | SWrite buf =>
      r ← net (QuicPollWrite conn (head_as_ref buf));
      match r with
      | WReady => call (LQuicPoll conn host SRead)
      | WPending _ => call (LQuicPoll conn host (SWrite buf))
      | WErr e => Ret (Err e)
      end
  | SRead =>
      r ← net (QuicReadChunk conn 2);
      match r with Ok _ => Ret (Ok tt) | Err e => Ret (Err e) end
  end.

Definition quic_new_stream (conn : conn_id) (host : option ConnectHeadBuf)
    : prog (result string BidiStream) :=
  match host with
  | Some host =>
      _ ←? map_errp (fun e => "failed to open stream: " +:+ e)%string (net (QuicOpenBi conn));
      _ ←? call (LQuicPoll conn host SInit);
      Ret (Ok (BidiQuic conn))
  | None => Ret (Ok Alive)
  end.

(** ** [H2ConnConfig] *)

Definition h2_new_stream (cfg : H2ConnConfig) (conn : conn_id) (host : option ConnectHeadBuf)
    : prog (result string BidiStream) :=
  _ ←? map_errp (fun _ => "failed to build CONNECT method reqest") (net (H2Request (h2_remote_uri cfg)));
  _ ←? net (H2PollReady conn);
  _ ←? map_errp (fun _ => "failed to upgrade CONNECT request") (net (H2SendRequest conn));
  match host with
  | Some host =>
      _ ←? net (H2WriteAll conn (head_as_ref host));
      Ret (Ok (BidiH2 conn))
  | None => Ret (Ok Alive)
  end.

Definition h2_new_connection (cfg : H2ConnConfig) : prog (result string conn_id) :=
  r ← net (TcpConnect (h2_remote_address cfg) (connect_time cfg));
  match r with
  | TcpErr e => Ret (Err ("Fail to connect remote: " +:+ e)%string)
  | TcpTimeout => Ret (Err "connect remote timeout: Elapsed(())")
  | TcpOk =>
      _ ←? net SetNodelay;
      _ ←? map_errp (fun _ => "Could not perform tls handshake") (net (TlsConnect (h2_domain cfg)));
      map_errp (fun _ => "http2 handshake failure") (net (H2Handshake (h2_builder cfg)))
  end.

(** ** [Client] and [MixClient] *)

Definition new_connection (c : client_id) : prog (result string conn_id) :=
  cfg ← do (GetConfig c);
  match cfg with
  | H2Config cfg => h2_new_connection cfg
  | QuicConfig cfg => quic_new_connection c cfg
  end.

(** Running the boxed future. *)
Definition new_stream (f : StreamFut) : prog (result string BidiStream) :=
  cfg ← do (GetConfig (sf_client f));
  match cfg with
  | H2Config cfg => h2_new_stream cfg (sf_conn f) (sf_host f)
  | QuicConfig _ => quic_new_stream (sf_conn f) (sf_host f)
  end.

Definition client_reset_client (c : client_id) : prog unit :=
  _ ← do (LockInner c);
  inner ← do (GetState c);
  match inner with
  | Connected conn =>
      _ ← net (Abort conn);
      _ ← do (SetState c NotConnected);
      do (UnlockInner c)
  | NotConnected => do (UnlockInner c)
  | Poisoned =>
      _ ← do (SetState c NotConnected);
      do (UnlockInner c)
  end.

(** One turn of the loop of [new_stream_fut], under the lock. *)
Definition stream_body (c : client_id) (host : option ConnectHeadBuf)
    : prog (result string StreamFut) :=
  inner_guard ← do (GetState c);
  match inner_guard with
  | Poisoned => Ret (Err "connection is poisoned")
  | Connected conn =>
      fin ← net (IsFinished conn);
      if fin : bool then
        _ ← do (SetState c NotConnected);
        call (LStream c host)
      else Ret (Ok {| sf_client := c; sf_conn := conn; sf_host := host |})
  | NotConnected =>
      r ← new_connection c;
      match r with
      | Err err => _ ← do (SetState c Poisoned); Ret (Err err)
      | Ok conn => _ ← do (SetState c (Connected conn)); call (LStream c host)
      end
  end.

Definition new_stream_fut (c : client_id) (host : option ConnectHeadBuf)
    : prog (result string StreamFut) :=
  _ ← do (LockInner c);
  r ← call (LStream c host);
  _ ← do (UnlockInner c);
  Ret r.
End Connector.
