(* ===== verification/Backend.v ===== *)
(** * A backend ([client/src/backends.rs], [Backend])

    The operations run while the caller holds the backend's RwLock, which is
    where the callers take it. *)

From S2P Require Import Prelude NetAddr LibProxy LibMetric Metric Tls BackendConfig Peer Balance World Connector.

Inductive ControlFlow := Continue | Break.

Section Backend.
Context `{F : F64} `{CL : ClientLib} `{TL : TlsLib}.

(** [Backend::new] with its [Metric::new]; the cell a backend starts as. *)
Definition backend_new (now : Z) (fs : FileSystem) (backend_name : string)
    (file_backend_config : FileBackendConfig) (client cancellation_token : nat)
    : outcome (result string (BackendCell * ClientCell)) :=
  r ← build_client Release fs file_backend_config;
  Done ('(mix, dom) ← context "Could not build client from backend file" r;
    let s := default Normal (fb_status file_backend_config) in
    Ok ({| be_name := backend_name;
           be_address := fb_address file_backend_config;
           be_domain := dom;
           be_backend := {| retry_timeout := fb_retry_timeout file_backend_config;
                            max_retries := fb_max_retries file_backend_config;
                            client := client;
                            retrying := false;
                            cancellation_token := cancellation_token;
                            file_backend_config := file_backend_config |};
           be_metric := with_protocol (fb_protocol file_backend_config)
                          (with_status s (MetricData_default now));
           be_readers := 0; be_writer := false |},
        {| cl_config := mix; cl_last_addrs := None; cl_locked := false;
           cl_state := NotConnected |})).

Definition set_backend_status (b : backend_id) (s : BackendStatus) : prog unit :=
  do (CallMetric b (CallSetStatus s)).

Definition cancel (b : backend_id) : prog unit :=
  self ← do (GetFields b); do (CancelToken (cancellation_token self)).

Definition renew_cancellation_token (b : backend_id) : prog unit :=
  t ← do NewToken;
  _ ← do (SetToken b t);
  do (StoreRetrying b false).

Definition reset_client (b : backend_id) : prog unit :=
  self ← do (GetFields b);
  _ ← client_reset_client (client self);
  do (CallMetric b CallReset).

Definition next_protocol (p : BackendProtocol) : BackendProtocol :=
  match p with HTTP2 => Quic | Quic => HTTP2 end.

Definition switch_protocol (b : backend_id) : prog (result string unit) :=
  self ← do (GetFields b);
  let next_proto := next_protocol (fb_protocol (file_backend_config self)) in
  let cfg := with_fb_protocol next_proto (file_backend_config self) in
  _ ← do (SetConfig b cfg);
  fs ← do ReadFs;
  match build_client Release fs cfg with
  | Done (Ok (mix, _)) =>
      c ← do (NewClient mix);
      _ ← do (SetClient b c);
      _ ← renew_cancellation_token b;
      _ ← do (CallMetric b (CallSetProtocol next_proto));
      _ ← reset_client b;
      Ret (Ok tt)
  | Done (Err _) => Ret (Err "Could not build client from backend file")
  | Panic => do Unreachable ≫= fun _ => Ret (Err EmptyString)
  end.

Definition try_connect (b : backend_id) (host : option ConnectHeadBuf)
    : prog (result string BidiStream) :=
  self ← do (GetFields b);
  let fut := f ←? new_stream_fut (client self) host; new_stream f in
  r ← select_cancel (cancellation_token self) [] fut;
  match r with
  | Some stream => Ret stream
  | None => Ret (Err "try_connect is cancelled")
  end.

(** The attempt itself, once the [retrying] flag was found clear. *)
Definition retry_attempt (b : backend_id) : prog ControlFlow :=
  _ ← do (StoreRetrying b true);
  self ← do (GetFields b);
  _ ← client_reset_client (client self);
  r ← try_connect b None;
  match r with
  | Ok _ =>
      _ ← set_backend_status b Normal;
      _ ← do (StoreRetrying b false);
      Ret Break
  | Err err =>
      s ← do (GetStatus b);
      _ ← (if decide (s <> Closed) then set_backend_status b Closed else Ret tt);
      _ ← do (StoreRetrying b false);
      Ret Continue
  end.

Definition retry_connect (b : backend_id) : prog ControlFlow :=
  s ← do (GetStatus b);
  match s with
  | Normal => Ret Break
  | ForceClosed => Ret Break
  | Closed | Unknown =>
      retrying ← do (LoadRetrying b);
      if retrying : bool then Ret Break else retry_attempt b
  end.

(** [copy_bidirectional] of a tunnel: never reached for an [Alive] stream. *)
Definition copy_fut (outbound : BidiStream) : prog (result string (Z * Z)) :=
  match outbound with
  | BidiH2 _ | BidiQuic _ => net (CopyBidirectional outbound)
  | Alive => do Unreachable ≫= fun _ => Ret (Err EmptyString)
  end.

Definition transfer (b : backend_id) (outbound : BidiStream) (connection_time : Z)
    (peer_addr : SocketAddr) : prog (result string unit) :=
  start ← do Now;
  self ← do (GetFields b);
  count ← select_cancel (cancellation_token self) [] (copy_fut outbound);
  match count with
  | None => Ret (Err "tunnel is cancelled")
  | Some (Err e) => Ret (Err ("fail to transfer: " +:+ e)%string)
  | Some (Ok (from_client_bytes, from_server_bytes)) =>
      now ← do Now;
      _ ← do (CallMetric b (CallSummary connection_time (duration_since now start)
                from_client_bytes from_server_bytes peer_addr));
      Ret (Ok tt)
  end.
End Backend.
