(* ===== verification/Proxy.v ===== *)
(** * Backend selection and connection handling ([client/src/config.rs],
    [Config]; [client/src/proxy.rs])

    Choosing a backend for a peer, the loop that tries backends until one
    accepts the stream, the transfer with its accounting, and the retry task
    of a closed backend. *)

From S2P Require Import Prelude NetAddr LibProxy LibMetric Metric Tls BackendConfig Peer Balance World Connector Backend.

Inductive AvailableBackend :=
  | Direct
  | Block
  | NoBackend
  | GotBackend (b : backend_id).

Section Proxy.
Context `{F : F64} `{CL : ClientLib} `{TL : TlsLib}.

(** ** [Config::available_backends], [Config::next_available_backend] *)

(** The [filter_map] over the backends; statuses are read one by one. *)
Fixpoint available_loop (ids : list backend_id) : prog (list backend_id) :=
  match ids with
  | [] => Ret []
  | b :: ids =>
      s ← do (GetStatus b);
      rest ← available_loop ids;
      Ret (if decide (s = Normal) then b :: rest else rest)
  end.

Definition available_backends : prog (list backend_id) :=
  n ← do NumBackends;
  available_loop (seq 0 n).

(** The search for a backend by name. *)
Fixpoint named_backend (spec_backend_name : string) (ids : list backend_id)
    : prog AvailableBackend :=
  match ids with
  | [] => Ret Block
  | b :: ids =>
      name ← do (BackendName b);
      if decide (name = spec_backend_name) then
        _ ← do (ReadLock b);
        s ← do (GetStatus b);
        _ ← do (ReadUnlock b);
        Ret (if decide (s = Normal) then GotBackend b else Block)
      else named_backend spec_backend_name ids
  end.

Definition next_available_backend (peer : PeerInfo) : prog AvailableBackend :=
  match get_backend_name_by_rule peer with
  | PeerGotBackend spec_backend_name =>
      n ← do NumBackends;
      named_backend spec_backend_name (seq 0 n)
  | PeerDirect => Ret Direct
  | PeerNoRule =>
      backends ← available_backends;
      match backends with
      | [] => Ret NoBackend
      | [b] => Ret (GotBackend b)
      | _ =>
          r ← do (BalanceNext backends peer);
          Ret (match r with Some b => GotBackend b | None => NoBackend end)
      end
  end.

(** ** [retry_forever] *)

(** [tokio::time::interval] panics on a zero period: the task ends and drops
    its guard.  A maximum of zero tries means [u32::MAX]. *)
Definition retry_forever (b : backend_id) : prog unit :=
  _ ← do (ReadLock b);
  self ← do (GetFields b);
  _ ← do (ReadUnlock b);
  if decide (retry_timeout self = 0) then Ret tt
  else
    let n := if decide (max_retries self = 0) then 2 ^ 32 - 1 else max_retries self in
    call (LRetry b (retry_timeout self) n).

(** The body of [for _ in 0..max_retries]; [n] turns are left. *)
Definition retry_body (b : backend_id) (period n : Z) : prog unit :=
  if decide (n <= 0) then Ret tt
  else
    _ ← net (Tick period);
    _ ← do (ReadLock b);
    r ← retry_connect b;
    _ ← do (ReadUnlock b);
    match r with
    | Continue => call (LRetry b period (n - 1))
    | Break => Ret tt
    end.

(** ** [handle_connection] *)

(** One turn of the loop that looks for a backend; [None] when the handler
    returns from inside the loop. *)
Definition handle_body (peer : PeerInfo) : prog (option (BidiStream * Z * backend_id)) :=
  a ← next_available_backend peer;
  match a with
  | Block => Ret None
  | NoBackend => Ret None
  | Direct => _ ← do (Spawn (JDirect peer)); Ret None
  | GotBackend b =>
      _ ← do (ReadLock b);
      start ← do Now;
      let host := get_host_by_rule peer in
      r ← try_connect b (Some host);
      match r with
      | Ok outbound =>
          now ← do Now;
          _ ← do (ReadUnlock b);
          Ret (Some (outbound, duration_since now start, b))
      | Err _ =>
          _ ← set_backend_status b Closed;
          _ ← do (Spawn (JRetry b));
          _ ← do (ReadUnlock b);
          call (LHandle peer)
      end
  end.

(** The rest of the connect case, once a backend accepted the stream. *)
Definition handle_transfer (peer : PeerInfo) (outbound : BidiStream) (connection_time : Z)
    (b : backend_id) : prog (result string unit) :=
  _ ← do (ReadLock b);
  let peer_addr := get_addr peer in
  _ ← do (Spawn (JIncr b peer_addr));
  r ← transfer b outbound connection_time peer_addr;
  match r with
  | Err err =>
      _ ← do (CallMetric b (CallAddFailures peer_addr));
      _ ← do (ReadUnlock b);
      Ret (Err err)
  | Ok _ =>
      _ ← do (ReadUnlock b);
      Ret (Ok tt)
  end.

Definition handle_connect (host_rule : option HostRuler) (peer : PeerInfo)
    : prog (result string unit) :=
  let peer := find_rule_for_peer host_rule peer in
  r ← call (LHandle peer);
  match r with
  | None => Ret (Ok tt)
  | Some (outbound, connection_time, b) => handle_transfer peer outbound connection_time b
  end.

(** The [NonConnectMethod] case: forward through the proxy itself. *)
Definition handle_forward : prog (result string unit) :=
  r ← net ClientRequest;
  let res := match r with Ok res => res | Err e => e end in
  _ ← net (SendResponse res);
  Ret (Ok tt).

Definition direct_connection (peer : PeerInfo) : prog (result string unit) :=
  match head_as_str (get_host_by_rule peer) with
  | Panic => Ret (Err EmptyString)
  | Done host =>
      _ ←? net (DirectConnect host);
      net DirectCopy
  end.

Definition incr_task (b : backend_id) (peer : SocketAddr) : prog unit :=
  do (CallMetric b (CallIncrConnection peer)).
End Proxy.

(** ** [listen_incoming_connection]: what a request becomes *)

(** The parts of a request the service looks at. *)
Record Request := { authority : option string; method_connect : bool }.

Inductive ServiceAction :=
  (** [400 Bad Request] at once *)
  | BadRequest (body : string)
  (** empty [200], the tunnel starts after the upgrade *)
  | Upgrade (peer : PeerInfo)
  (** the response of the forwarding client *)
  | ForwardRequest (peer : PeerInfo).

Definition service (peer_addr : SocketAddr) (req : Request) : ServiceAction :=
  match authority req with
  | None => BadRequest "CONNECT must be to a socket address"
  | Some host =>
      let peer := peer_new host peer_addr in
      if method_connect req then Upgrade peer else ForwardRequest peer
  end.
