(* ===== verification/MetricApi.v ===== *)
(** * The metric API ([client/src/metric.rs], the service half)

    Requests of the terminal UI: list the backends, switch a backend's status
    or protocol, reset it. *)

From S2P Require Import Prelude NetAddr LibProxy LibMetric Metric Tls BackendConfig Peer Balance World Connector Backend Proxy.

(** A message of the socket; [B] is the type of encoded values. *)
Inductive WsMessage (B : Type) :=
  | WsBinary (req : B)
  | WsText | WsPing | WsPong | WsClose.
Arguments WsBinary {B} req.
Arguments WsText {B}.
Arguments WsPing {B}.
Arguments WsPong {B}.
Arguments WsClose {B}.

Section MetricApi.
Context `{F : F64} `{CL : ClientLib} `{TL : TlsLib}.

Definition no_backend : string := "no suck backends".

(** [find_backend_by_id]: [config.backends.get(backend_id)] *)
Definition find_backend_by_id (backend_id : nat) : prog (option nat) :=
  n ← do NumBackends;
  Ret (if decide (backend_id < n)%nat then Some backend_id else None).

Definition switch_backend_status (backend_id : nat) : prog (result string unit) :=
  backends ← find_backend_by_id backend_id;
  match backends with
  | Some b =>
      _ ← do (ReadLock b);
      _ ← cancel b;
      _ ← do (ReadUnlock b);
      _ ← do (ReadLock b);
      s ← do (GetStatus b);
      match s with
      | ForceClosed =>
          _ ← set_backend_status b Unknown;
          _ ← do (ReadUnlock b);
          _ ← do (WriteLock b);
          _ ← renew_cancellation_token b;
          _ ← do (WriteUnlock b);
          _ ← do (Spawn (JRetry b));
          Ret (Ok tt)
      | Normal | Closed | Unknown =>
          _ ← set_backend_status b ForceClosed;
          _ ← do (ReadUnlock b);
          Ret (Ok tt)
      end
  | None => Ret (Err no_backend)
  end.

Definition reset_backend (backend_id : nat) : prog (result string unit) :=
  backends ← find_backend_by_id backend_id;
  match backends with
  | Some b =>
      _ ← do (ReadLock b);
      _ ← cancel b;
      _ ← reset_client b;
      _ ← do (ReadUnlock b);
      _ ← do (WriteLock b);
      _ ← renew_cancellation_token b;
      _ ← do (WriteUnlock b);
      Ret (Ok tt)
  | None => Ret (Err no_backend)
  end.

Definition switch_backend_protocol (backend_id : nat) : prog (result string unit) :=
  backends ← find_backend_by_id backend_id;
  match backends with
  | Some b =>
      _ ← do (ReadLock b);
      _ ← cancel b;
      _ ← do (ReadUnlock b);
      _ ← do (WriteLock b);
      r ← switch_protocol b;
      _ ← do (WriteUnlock b);
      Ret r
  | None => Ret (Err no_backend)
  end.

Fixpoint metrics_loop (ids : list nat) : prog (list BackendMetric) :=
  match ids with
  | [] => Ret []
  | b :: ids => m ← do (GetMetric b); rest ← metrics_loop ids; Ret (m :: rest)
  end.

Definition get_all_backends : prog (list BackendMetric) :=
  n ← do NumBackends; metrics_loop (seq 0 n).

Definition api_reply (r : result string unit) (done : MetricApiResp) : MetricApiResp :=
  match r with Err e => RespError e | Ok _ => done end.

Definition backend_metric_switcher (req : MetricApiReq) : prog MetricApiResp :=
  match req with
  | ReqAllBackends => items ← get_all_backends; Ret (RespAllBackends items)
  | ReqSwitchBackendStatus backend_id =>
      r ← switch_backend_status backend_id; Ret (api_reply r RespSwitchBackendStatus)
  | ReqResetBackend backend_id =>
      r ← reset_backend backend_id; Ret (api_reply r RespResetBackend)
  | ReqSwitchBackendProtocol backend_id =>
      r ← switch_backend_protocol backend_id; Ret (api_reply r RespSwitchBackendProtocol)
  end.

(** ** [ws_handler] *)

(** What the receive loop does with a message: reply, [continue] or
    [return]. *)
Inductive WsTurn :=
  | WsReply (p : prog MetricApiResp)
  | WsContinue
  | WsReturn.

(** [decode] is [rmp_serde::from_slice]. *)
Definition ws_turn {B} (decode : B -> result string MetricApiReq) (msg : WsMessage B) : WsTurn :=
  match msg with
  | WsBinary req =>
      WsReply (match decode req with
               | Ok req => backend_metric_switcher req
               | Err e => Ret (RespError e)
               end)
  | WsText | WsPing | WsPong => WsContinue
  | WsClose => WsReturn
  end.

(** The receive loop over the messages of a socket.  The result is what is
    sent back. *)
Fixpoint ws_loop {B} (decode : B -> result string MetricApiReq) (msgs : list (WsMessage B))
    : prog (list MetricApiResp) :=
  match msgs with
  | [] => Ret []
  | msg :: msgs =>
      match ws_turn decode msg with
      | WsReply p => res ← p; rest ← ws_loop decode msgs; Ret (res :: rest)
      | WsContinue => ws_loop decode msgs
      | WsReturn => Ret []
      end
  end.
End MetricApi.
