(* ===== verification/Discipline.v ===== *)
(** * Lock discipline: a typestate for tasks

    [safe K h p Q] says that a task holding the locks [h], started where at
    least the identities [K] exist, respects the discipline on every path of
    [p] and ends in [Q]: a RwLock is only requested by a task that holds no
    lock at all, an inner mutex only by one that holds none, the fields of a
    backend are read under its lock and written under the write lock, the state
    of a client is used under its mutex, and [unreachable!()] is not reached. *)

From S2P Require Import Prelude NetAddr LibProxy LibMetric Metric Tls BackendConfig Peer Balance World.

(** The identities that exist: numbers of backends, clients and tokens. *)
Record Known := { k_b : nat; k_c : nat; k_t : nat }.

Definition kle (K K' : Known) : Prop :=
  k_b K = k_b K' /\ (k_c K <= k_c K')%nat /\ (k_t K <= k_t K')%nat.

#[export] Instance kle_preorder : PreOrder kle.
Proof. split; [by intros K|]. intros K1 K2 K3 (? & ? & ?) (? & ? & ?). unfold kle. lia. Qed.

(** The locks of one task: a RwLock with its mode ([true] for writing) and an
    inner mutex. *)
Record Held := { h_lock : option (nat * bool); h_inner : option nat }.

#[export] Instance Held_eq : EqDecision Held.
Proof. solve_decision. Defined.

Definition free : Held := {| h_lock := None; h_inner := None |}.

Definition with_inner (c : option nat) (h : Held) : Held :=
  {| h_lock := h_lock h; h_inner := c |}.

Section Discipline.
Context `{F : F64} `{CL : ClientLib}.
Implicit Types (K : Known) (h : Held) (o : op).

Definition job_ok K (j : job) : Prop :=
  match j with JRetry b | JIncr b _ => (b < k_b K)%nat | _ => True end.

Fixpoint op_pre K h o : Prop :=
  match o with
  | ReadLock b | WriteLock b => (b < k_b K)%nat /\ h = free
  | ReadUnlock b => h_lock h = Some (b, false)
  | WriteUnlock b => h_lock h = Some (b, true)
  | BackendName b | GetStatus b | GetMetric b | CallMetric b _ => (b < k_b K)%nat
  | GetFields b | LoadRetrying b | StoreRetrying b _ => exists m, h_lock h = Some (b, m)
  | SetConfig b _ => h_lock h = Some (b, true)
  | SetClient b c => h_lock h = Some (b, true) /\ (c < k_c K)%nat
  | SetToken b t => h_lock h = Some (b, true) /\ (t < k_t K)%nat
  | CancelToken t => (t < k_t K)%nat
  | GetConfig c | GetLastAddrs c | SetLastAddrs c _ => (c < k_c K)%nat
  | LockInner c => (c < k_c K)%nat /\ h_inner h = None
  | UnlockInner c | GetState c | SetState c _ => h_inner h = Some c
  | BalanceNext items _ => items <> [] /\ Forall (fun b => b < k_b K)%nat items
  | Spawn j => job_ok K j
  | NumBackends | NewToken | NewClient _ | ReadFs | Now | Net _ => True
  | Unreachable => False
  | OrCancel _ o => op_pre K h o
  end.

Fixpoint held_post h o : resp o -> Held :=
  match o return resp o -> Held with
  | ReadLock b => fun _ => {| h_lock := Some (b, false); h_inner := h_inner h |}
  | WriteLock b => fun _ => {| h_lock := Some (b, true); h_inner := h_inner h |}
  | ReadUnlock _ | WriteUnlock _ => fun _ => {| h_lock := None; h_inner := h_inner h |}
  | LockInner c => fun _ => with_inner (Some c) h
  | UnlockInner _ => fun _ => with_inner None h
  | OrCancel _ o => fun r => match r with Some r => held_post h o r | None => h end
  | _ => fun _ => h
  end.

(** What a result says about the identities that exist afterwards. *)
Fixpoint resp_ok K o : resp o -> Prop :=
  match o return resp o -> Prop with
  | NumBackends => fun n => n = k_b K
  | GetFields _ => fun b => (client b < k_c K)%nat /\ (cancellation_token b < k_t K)%nat
  | NewToken => fun t => (t < k_t K)%nat
  | NewClient _ => fun c => (c < k_c K)%nat
  | BalanceNext items _ => fun r => match r with Some b => b ∈ items | None => True end
  | OrCancel _ o => fun r => match r with Some r => resp_ok K o r | None => True end
  | _ => fun _ => True
  end.

Fixpoint lpre K h (l : label) : Prop :=
  match l with
  | LStream c _ => (c < k_c K)%nat /\ h_inner h = Some c
  | LQuicPoll _ _ _ => True
  | LRetry b _ _ => (b < k_b K)%nat /\ h = free
  | LHandle _ => h = free
  | LSel _ l => lpre K h l /\
      match l with LStream _ _ | LQuicPoll _ _ _ => True | _ => False end
  end.

Fixpoint lpost K (l : label) : lresp l -> Prop :=
  match l return lresp l -> Prop with
  | LStream c host => fun r =>
      match r with Ok f => sf_client f = c /\ sf_host f = host | Err _ => True end
  | LQuicPoll _ _ _ => fun _ => True
  | LRetry _ _ _ => fun _ => True
  | LHandle _ => fun r =>
      match r with Some (outbound, _, b) => outbound <> Alive /\ (b < k_b K)%nat | None => True end
  | LSel _ l => fun r => match r with Some r => lpost K l r | None => True end
  end.

Fixpoint safe {A} K h (p : prog A) (Q : Known -> Held -> A -> Prop) : Prop :=
  match p with
  | Ret a => Q K h a
  | Vis o k => op_pre K h o /\
      forall K' r, kle K K' -> resp_ok K' o r -> safe K' (held_post h o r) (k r) Q
  | Call l k => lpre K h l /\
      forall K' r, kle K K' -> lpost K' l r -> safe K' h (k r) Q
  end.

(** ** Rules *)

Lemma op_pre_mono K K' h o : kle K K' -> op_pre K h o -> op_pre K' h o.
Proof.
  intros (E1 & E2 & E3). induction o; simpl; try done; rewrite ?E1; try (intuition lia).
  unfold job_ok. by rewrite E1.
Qed.

Lemma lpre_mono K K' h l : kle K K' -> lpre K h l -> lpre K' h l.
Proof. intros (E1 & E2 & E3). induction l; simpl; rewrite ?E1; intuition lia. Qed.

Definition stable {A} (Q : Known -> Held -> A -> Prop) : Prop :=
  forall K K' h a, kle K K' -> Q K h a -> Q K' h a.

Lemma safe_mono {A} K K' h (p : prog A) Q :
  stable Q -> kle K K' -> safe K h p Q -> safe K' h p Q.
Proof.
  intros HQ HK. revert K K' h HK; induction p as [a|o k IH|l k IH]; intros K K' h HK; simpl.
  - by apply HQ.
  - intros [H1 H2]. split; [by eapply op_pre_mono|]. intros K2 r HK2 Hr.
    apply H2; [by etrans|done].
  - intros [H1 H2]. split; [by eapply lpre_mono|]. intros K2 r HK2 Hr.
    apply H2; [by etrans|done].
Qed.

Lemma safe_conseq {A} K h (p : prog A) (Q Q' : Known -> Held -> A -> Prop) :
  safe K h p Q -> (forall K' h' a, kle K K' -> Q K' h' a -> Q' K' h' a) -> safe K h p Q'.
Proof.
  intros Hs HQ. revert K h Hs HQ; induction p as [a|o k IH|l k IH]; intros K h; simpl.
  - intros H HQ. by apply HQ.
  - intros [H1 H2] HQ. split; [done|]. intros K' r HK Hr. eapply IH; [by apply H2|].
    intros K2 h2 a HK2. apply HQ. by etrans.
  - intros [H1 H2] HQ. split; [done|]. intros K' r HK Hr. eapply IH; [by apply H2|].
    intros K2 h2 a HK2. apply HQ. by etrans.
Qed.

Lemma safe_bind {A B} K h (p : prog A) (f : A -> prog B) Q :
  safe K h p (fun K' h' a => safe K' h' (f a) Q) -> safe K h (pbind p f) Q.
Proof.
  revert K h; induction p as [a|o k IH|l k IH]; intros K h; simpl; [done| |].
  - intros [H1 H2]. split; [done|]. intros K' r HK Hr. by apply IH, H2.
  - intros [H1 H2]. split; [done|]. intros K' r HK Hr. by apply IH, H2.
Qed.

Lemma safe_call {A} K h l (k : lresp l -> prog A) Q :
  lpre K h l -> (forall K' r, kle K K' -> lpost K' l r -> safe K' h (k r) Q) ->
  safe K h (pbind (call l) k) Q.
Proof. by split. Qed.

(** ** [select!] *)

(** The operations a program under [select!] may use: no RwLock, no spawn. *)
Definition sel_op o : Prop :=
  match o with
  | ReadLock _ | ReadUnlock _ | WriteLock _ | WriteUnlock _ | Spawn _ | OrCancel _ _ => False
  | _ => True
  end.
Definition inner_op o : Prop :=
  match o with LockInner _ | UnlockInner _ => True | _ => False end.
Definition sel_label (l : label) : Prop :=
  match l with LStream _ _ | LQuicPoll _ _ _ => True | _ => False end.

Fixpoint all_ops {A} (P : op -> Prop) (L : label -> Prop) (p : prog A) : Prop :=
  match p with
  | Ret _ => True
  | Vis o k => P o /\ forall r, all_ops P L (k r)
  | Call l k => L l /\ forall r, all_ops P L (k r)
  end.

(** A program that uses no lock: the network and one client's addresses. *)
Definition plain_op (c : nat) o : Prop :=
  match o with
  | Net _ => True
  | GetConfig c' | GetLastAddrs c' | SetLastAddrs c' _ => c' = c
  | _ => False
  end.
Definition plain_label (l : label) : Prop :=
  match l with LQuicPoll _ _ _ => True | _ => False end.

Lemma safe_plain {A} c K h (p : prog A) :
  all_ops (plain_op c) plain_label p -> (c < k_c K)%nat ->
  safe K h p (fun K' h' _ => kle K K' /\ h' = h).
Proof.
  intros Ha Hc. cut (forall K0, kle K0 K -> safe K h p (fun K' h' _ => kle K0 K' /\ h' = h)); [intros H; by apply H|].
  revert K Hc; induction p as [a|o k IH|l k IH]; intros K Hc K0 HK0; simpl; [done| |].
  - destruct Ha as [Ho Ha]. split; [destruct o; simpl in *; try done; by subst|].
    intros K' r HK _. assert (held_post h o r = h) as -> by (by destruct o).
    apply IH; [done|destruct HK; lia|by etrans].
  - destruct Ha as [Hl Ha]. split; [by destruct l|]. intros K' r HK _.
    apply IH; [done|destruct HK; lia|by etrans].
Qed.

Lemma all_ops_weaken {A} (P P' : op -> Prop) (L L' : label -> Prop) (p : prog A) :
  (forall o, P o -> P' o) -> (forall l, L l -> L' l) -> all_ops P L p -> all_ops P' L' p.
Proof. induction p; simpl; naive_solver. Qed.

Lemma all_ops_bind {A B} P L (p : prog A) (f : A -> prog B) :
  all_ops P L p -> (forall a, all_ops P L (f a)) -> all_ops P L (pbind p f).
Proof. induction p; simpl; naive_solver. Qed.

Lemma held_post_sel h o r : sel_op o -> ~ inner_op o -> held_post h o r = h.
Proof. by destruct o. Qed.

Lemma held_after_sel o held : ~ inner_op o -> held_after o held = held.
Proof. destruct o; simpl; intros H; done || (by destruct H). Qed.

(** A selected program that takes no inner lock leaves the locks alone. *)
Lemma safe_select_plain {A} t K h (p : prog A) Q :
  all_ops (fun o => sel_op o /\ ~ inner_op o) sel_label p ->
  safe K h p Q ->
  safe K h (select_cancel t [] p)
    (fun K h' r => match r with Some a => Q K h' a | None => h' = h end).
Proof.
  revert K h; induction p as [a|o k IH|l k IH]; intros K h; simpl; [done| |].
  - intros [[Ho Hi] Ha] [H1 H2]. split; [done|]. intros K' [r|] HK Hr; [|done].
    rewrite held_after_sel by done. rewrite held_post_sel in * by done.
    specialize (H2 K' r HK Hr). rewrite held_post_sel in H2 by done. by apply IH.
  - intros [Hl Ha] [H1 H2]. split; [by split|]. intros K' [r|] HK Hr; [|done]. by apply IH, H2.
Qed.

(** In general the inner lock taken inside is dropped with the future. *)
Lemma safe_select {A} t K h (p : prog A) Q :
  all_ops sel_op sel_label p -> h_inner h = None -> safe K h p Q ->
  safe K h (select_cancel t [] p)
    (fun K h' r => match r with Some a => Q K h' a | None => h' = h end).
Proof.
  intros Ha Hn. cut (forall held K h', all_ops sel_op sel_label p ->
    h_lock h' = h_lock h -> held = match h_inner h' with Some c => [c] | None => [] end ->
    safe K h' p Q ->
    safe K h' (select_cancel t held p)
      (fun K h' r => match r with Some a => Q K h' a | None => h' = h end)).
  { intros Hc Hs. apply Hc; try done. by rewrite Hn. }
  assert (Hrel : forall held K h', h_lock h' = h_lock h ->
    held = match h_inner h' with Some c => [c] | None => [] end ->
    safe K h' (release held (@None A))
      (fun K h' r => match r with Some a => Q K h' a | None => h' = h end)).
  { intros held K0 h' Hlk ->. destruct h as [hl hi], h' as [hl' [c|]]; simpl in *; subst.
    - split; [done|]. intros K' [] _ _. done.
    - done. }
  clear Ha K. induction p as [a|o k IH|l k IH]; intros held K h' Ha Hlk Hh; simpl; [done| |].
  - destruct Ha as [Ho Ha]. intros [H1 H2]. split; [done|].
    intros K' [r|] HK Hr; [|by apply Hrel]. specialize (H2 K' r HK Hr).
    assert (Hlk' : h_lock (held_post h' o r) = h_lock h) by (by destruct o).
    apply IH; [done|done| |done]. subst held.
    destruct o; simpl in *; try done.
    + by destruct H1 as [_ ->].
    + rewrite H1. by rewrite filter_cons_False by (intros []; done).
  - destruct Ha as [Hl Ha]. intros [H1 H2]. split; [by split|].
    intros K' [r|] HK Hr; [|by apply Hrel]. by apply IH; [..|apply H2].
Qed.
End Discipline.

(** Expose the first operation of a program. *)
Ltac next :=
  cbn [mbind prog_bind pbind do net call held_post try_bind map_errp mret prog_ret result_map_err].

(** Composition with a lemma about the first part. *)
Ltac safe_use lem :=
  next; eapply safe_bind, safe_conseq; [eapply lem|cbv beta].
