(* ===== verification/System.v ===== *)
(** * The client process

    Ties the loop bodies and the spawned tasks of the components together:
    [body] is the code a label stands for, [job_prog] the task a job runs. *)

From S2P Require Import Prelude NetAddr LibProxy LibMetric Metric Tls BackendConfig Peer Balance World Connector Backend Proxy MetricApi.

Section System.
Context `{F : F64} `{CL : ClientLib} `{HR : HashRing} `{TL : TlsLib}.
Context (host_rule : option HostRuler).

Fixpoint body (l : label) : prog (lresp l) :=
  match l with
  | LStream c host => stream_body c host
  | LQuicPoll conn host state => quic_poll_body conn host state
  | LRetry b period n => retry_body b period n
  | LHandle peer => handle_body peer
  | LSel t l => select_cancel t [] (body l)
  end.

(** A task ignores the result of its handler. *)
Definition detach {A} (p : prog A) : prog unit := pbind p (fun _ => Ret tt).

Definition job_prog (j : job) : prog unit :=
  match j with
  | JRetry b => retry_forever b
  | JIncr b peer => incr_task b peer
  | JDirect peer => detach (direct_connection peer)
  | JConnect peer => detach (handle_connect host_rule peer)
  | JForward _ => detach handle_forward
  | JApi req => detach (backend_metric_switcher req)
  end.
End System.
