(* ===== verification/Run.v ===== *)
(** * A task running alone: total correctness

    [wp E n p Q w js] says that [p], run alone from the store [w] in
    environments that satisfy [E], terminates without waiting and ends in [Q],
    unfolding its loops at most [n] deep.  [wp_exec] relates it to the steps of
    [World.exec]. *)

From Stdlib Require Import FunctionalExtensionality.
From S2P Require Import Prelude NetAddr LibProxy LibMetric Metric Tls BackendConfig Peer Balance World Connector Backend Proxy MetricApi System.

Section Run.
Context `{F : F64} `{CL : ClientLib} `{HR : HashRing}.
Context (body : forall l, prog (lresp l)).
(** What is assumed of every environment. *)
Context (E : Env -> Prop).

(** What holds of a result, the store and the jobs spawned so far. *)
Definition Post (A : Type) := A -> World -> list job -> Prop.

Fixpoint wp (n : nat) {A} (p : prog A) (Q : Post A) (w : World) (js : list job) {struct n} : Prop :=
  (fix go {A} (p : prog A) (Q : Post A) (w : World) (js : list job) {struct p} : Prop :=
    match p with
    | Ret a => Q a w js
    | Vis o k => forall e, E e ->
        match op_eval e o w with
        | Some (r, w', js') => go (k r) Q w' (js ++ js')
        | None => False
        end
    | Call l k =>
        match n with
        | O => False
        | S n => wp n (body l) (fun r w js => go (k r) Q w js) w js
        end
    end) A p Q w js.

Lemma wp_ret n {A} (a : A) Q w js : Q a w js -> wp n (Ret a) Q w js.
Proof. by destruct n. Qed.

Lemma wp_vis n {A} o (k : resp o -> prog A) Q w js :
  (forall e, E e -> exists r w' js', op_eval e o w = Some (r, w', js') /\ wp n (k r) Q w' (js ++ js')) ->
  wp n (Vis o k) Q w js.
Proof.
  intros H. destruct n; simpl; intros e He; destruct (H e He) as (r & w' & js' & -> & Hk); exact Hk.
Qed.

Lemma wp_vis_inv n {A} o (k : resp o -> prog A) Q w js e :
  wp n (Vis o k) Q w js -> E e ->
  exists r w' js', op_eval e o w = Some (r, w', js') /\ wp n (k r) Q w' (js ++ js').
Proof.
  intros H He. destruct n; simpl in H; specialize (H e He);
    destruct (op_eval e o w) as [[[r w'] js']|]; try done; by exists r, w', js'.
Qed.

Lemma wp_call n {A} l (k : lresp l -> prog A) Q w js :
  wp n (body l) (fun r w js => wp (S n) (k r) Q w js) w js -> wp (S n) (Call l k) Q w js.
Proof. done. Qed.

Lemma wp_conseq n {A} (p : prog A) (Q Q' : Post A) w js :
  wp n p Q w js -> (forall a w js, Q a w js -> Q' a w js) -> wp n p Q' w js.
Proof.
  revert A p Q Q' w js; induction n as [|n IHn]; intros A p; induction p as [a|o k IH|l k IH];
    intros Q Q' w js H HQ; try (by apply HQ); try done.
  - apply wp_vis. intros e He. destruct (wp_vis_inv _ _ _ _ _ _ e H He) as (r & w' & js' & E1 & H1).
    exists r, w', js'. split; [done|]. by apply (IH r Q).
  - apply wp_vis. intros e He. destruct (wp_vis_inv _ _ _ _ _ _ e H He) as (r & w' & js' & E1 & H1).
    exists r, w', js'. split; [done|]. by apply (IH r Q).
  - apply wp_call. apply (IHn _ _ (fun r w js => wp (S n) (k r) Q w js)); [exact H|].
    intros r w' js' Hr. by apply (IH r Q).
Qed.

Lemma wp_bind n {A B} (p : prog A) (f : A -> prog B) Q w js :
  wp n p (fun a w js => wp n (f a) Q w js) w js -> wp n (pbind p f) Q w js.
Proof.
  revert w js; induction p as [a|o k IH|l k IH]; intros w js H.
  - by destruct n.
  - cbn [pbind]. apply wp_vis. intros e He.
    destruct (wp_vis_inv _ _ _ _ _ _ e H He) as (r & w' & js' & E1 & H1).
    exists r, w', js'. split; [done|]. by apply IH.
  - cbn [pbind]. destruct n as [|n]; [done|]. apply wp_call.
    apply (wp_conseq n _ (fun r w js => wp (S n) (k r) (fun a w js => wp (S n) (f a) Q w js) w js)); [exact H|].
    intros r w' js' Hr. by apply IH.
Qed.

(** ** Adequacy *)

Lemma exec_app {A} m1 m2 ω (p : prog A) w :
  exec body (m1 + m2) ω p w =
    ('(p, w, js) ← exec body m1 ω p w;
     '(p, w, js') ← exec body m2 (fun i => ω (m1 + i)%nat) p w; Some (p, w, js ++ js')).
Proof.
  revert ω p w; induction m1 as [|m1 IH]; intros ω p w; simpl.
  - by destruct (exec body m2 ω p w) as [[[? ?] ?]|].
  - destruct (step_prog body (ω 0%nat) p w) as [[[p1 w1] js1]|]; cbn; [|done].
    rewrite IH. destruct (exec body m1 (fun i => ω (S i)) p1 w1) as [[[p2 w2] js2]|]; cbn; [|done].
    destruct (exec body m2 _ p2 w2) as [[[p3 w3] js3]|]; cbn; [|done]. by rewrite app_assoc.
Qed.

Lemma pbind_assoc {A B C} (p : prog A) (f : A -> prog B) (g : B -> prog C) :
  pbind (pbind p f) g = pbind p (fun a => pbind (f a) g).
Proof.
  induction p as [a|o k IH|l k IH]; [done| |]; cbn; f_equal; extensionality r; apply IH.
Qed.

Lemma exec_bind {A B} m ω (p : prog A) (f : A -> prog B) w a w' js :
  exec body m ω p w = Some (Ret a, w', js) -> exec body m ω (pbind p f) w = Some (f a, w', js).
Proof.
  revert ω p w js; induction m as [|m IH]; intros ω p w js; simpl; [by intros [= -> <- <-]|].
  destruct p as [x|o k|l k]; simpl; [done| |].
  - destruct (op_eval (ω 0%nat) o w) as [[[r w1] js1]|]; cbn; [|done].
    destruct (exec body m _ (k r) w1) as [[[p2 w2] js2]|] eqn:E2; cbn; [|done].
    intros [= -> -> <-]. rewrite (IH _ _ _ _ E2). done.
  - rewrite <- pbind_assoc. destruct (exec body m _ (pbind (body l) k) w) as [[[p2 w2] js2]|] eqn:E2; cbn; [|done].
    intros [= -> -> <-]. by rewrite (IH _ _ _ _ E2).
Qed.

(** A program that is total under [wp] terminates, in every environment the
    assumption allows, in a state [Q] describes. *)
Theorem wp_exec n {A} (p : prog A) Q w js ω :
  wp n p Q w js -> (forall i, E (ω i)) ->
  exists m a w' js', exec body m ω p w = Some (Ret a, w', js') /\ Q a w' (js ++ js').
Proof.
  revert A p Q w js ω; induction n as [|n IHn]; intros A p; induction p as [a|o k IH|l k IH];
    intros Q w js ω H Hω; try done.
  1, 3: exists 0%nat, a, w, []; by rewrite app_nil_r.
  1, 2: destruct (wp_vis_inv _ _ _ _ _ _ (ω 0%nat) H (Hω 0%nat)) as (r & w1 & js1 & E1 & H1);
    destruct (IH r Q w1 (js ++ js1) (fun i => ω (S i)) H1) as (m & a & w' & js' & E2 & HQ); [done|];
    exists (S m), a, w', (js1 ++ js'); split; [|by rewrite app_assoc];
    cbn; rewrite E1; cbn; by rewrite E2.
  destruct (IHn _ (body l) (fun r w js => wp (S n) (k r) Q w js) w js (fun i => ω (S i)) H)
    as (m1 & r & w1 & js1 & E1 & H1); [done|].
  destruct (IH r Q w1 (js ++ js1) (fun i => ω (S m1 + i)%nat) H1) as (m2 & a & w' & js' & E2 & HQ); [done|].
  exists (S (m1 + m2)), a, w', (js1 ++ js'). split; [|by rewrite app_assoc].
  cbn [exec step_prog]. cbn. rewrite exec_app, (exec_bind _ _ _ _ _ _ _ _ E1). cbn.
  assert (exec body m2 (fun i => ω (S (m1 + i))) (k r) w1 = Some (Ret a, w', js')) as -> by exact E2.
  done.
Qed.
End Run.

#[global] Arguments wp : simpl never.
