(* ===== verification/Example.v ===== *)
(** * A small concrete process

    Two backends over exact integer arithmetic and simple stand-ins for the
    libraries, and environments in which the network answers: the inputs of
    the witnesses and scenarios. *)

From S2P Require Import Prelude NetAddr LibProxy LibMetric Metric Tls BackendConfig Peer Balance World Connector Backend Proxy MetricApi System.

(** Costs on integers, enough to run the balancers. *)
Definition ZF64 : F64 := {|
  f64 := Z;
  f64_of_Z := fun z => z;
  fadd := Z.add; fsub := Z.sub; fmul := Z.mul; fdiv := Z.div;
  fexp := fun _ => 1;
  fgtb := Z.gtb; fleb := Z.leb;
|}.

#[export] Existing Instance ZF64 | 0.
#[export] Existing Instance list_ring | 0.

Definition example_tls : ClientConfig := {|
  root_store := WebpkiRoots; client_certs := ["cert"]; client_auth_key := "key";
  enable_early_data := false; alpn_protocols := [];
|}.

Definition example_h2 : MixConfig := H2Config {|
  h2_tls := example_tls; h2_domain := DnsName "proxy.example";
  h2_remote_address := "proxy.example:8443"; h2_remote_uri := "proxy.example:8443" : @Uri plain_lib;
  connect_time := 5;
  h2_builder := {| b_keep_alive_interval := 10; b_keep_alive_timeout := 20;
    b_keep_alive_while_idle := false; b_initial_connection_window_size := h2_default_conn_window;
    b_initial_stream_window_size := h2_default_stream_window;
    b_max_frame_size := h2_default_max_frame_size;
    b_max_send_buf_size := h2_default_max_send_buf_size; b_adaptive_window := false |};
|}.

(** Backend [i] of a process: client [i], token [i]. *)
Definition example_cell (i : nat) (name : string) (s : BackendStatus) : BackendCell := {|
  be_name := name; be_address := "proxy.example:8443"; be_domain := "proxy.example";
  be_backend := {| retry_timeout := 10; max_retries := 10; client := i; retrying := false;
                   cancellation_token := i; file_backend_config := example_table HTTP2 |};
  be_metric := with_protocol HTTP2 (with_status s (MetricData_default 0));
  be_readers := 0; be_writer := false;
|}.

Definition example_client : ClientCell :=
  {| cl_config := example_h2; cl_last_addrs := None; cl_locked := false; cl_state := NotConnected |}.

Definition example_world : World := {|
  w_backends := [example_cell 0 "one" Normal; example_cell 1 "two" Normal];
  w_clients := [example_client; example_client];
  w_tokens := [false; false];
  w_balance := populate_load_balance RoundRobin 2;
|}.

(** The network accepts everything; connection 7 is established. *)
Definition net_ok (q : NetOp) : net_resp q :=
  match q return net_resp q with
  | TcpConnect _ _ => TcpOk
  | SetNodelay | TlsConnect _ | QuicEndpoint _ | QuicConnect _ _ => Ok tt
  | H2Handshake _ => Ok 7%nat
  | LookupHost _ => Ok [SocketV4 (Ipv4 10 0 0 1) 8443]
  | Into0rtt => Some 7%nat
  | AwaitConnecting => Ok 7%nat
  | IsFinished _ => false
  | Abort _ | Tick _ => tt
  | H2Request _ | H2PollReady _ | H2SendRequest _ | H2WriteAll _ _ => Ok tt
  | QuicOpenBi _ => Ok tt
  | QuicPollWrite _ _ => WReady
  | QuicReadChunk _ _ => Ok (Some "OK")
  | CopyBidirectional _ => Ok (100, 200)
  | DirectConnect _ | DirectCopy => Ok tt
  | ClientRequest => Ok "body"
  | SendResponse _ => true
  end.

Definition env_ok (now : Z) : Env :=
  {| e_now := now; e_pick := 0; e_cancel := true; e_fs := example_fs;
     e_net := fun q => Some (net_ok q) |}.

(** The same, but no connection to a server is accepted. *)
Definition net_refused (q : NetOp) : net_resp q :=
  match q return net_resp q with
  | TcpConnect _ _ => TcpErr "refused"
  | q => net_ok q
  end.

Definition env_refused (now : Z) : Env :=
  {| e_now := now; e_pick := 0; e_cancel := true; e_fs := example_fs;
     e_net := fun q => Some (net_refused q) |}.

Definition example_start : Pool := {| p_tasks := []; p_world := example_world |}.

(** [n] steps of task [i] in the environment [e]. *)
Definition run_n (i n : nat) (e : Env) : list event := replicate n (Run i e).

Definition run_example (evs : list event) : option Pool :=
  run_pool body (job_prog None) evs example_start.

(** One task alone in a constant environment, until it ends. *)
Fixpoint run_to_end {A} (n : nat) (e : Env) (p : prog A) (w : World) : option (A * World * list job) :=
  match p with
  | Ret a => Some (a, w, [])
  | _ =>
      match n with
      | O => None
      | S n => '(p, w, js) ← step_prog body e p w; '(a, w, js') ← run_to_end n e p w; Some (a, w, js ++ js')
      end
  end.
