(* ===== verification/Locks.v ===== *)
(** * Every task respects the lock discipline

    The typestate of [Discipline] for each function of the components, and for
    every loop body and task of the process. *)

From S2P Require Import Prelude NetAddr LibProxy LibMetric Metric Tls BackendConfig Peer Balance World Connector Backend Proxy MetricApi Discipline System.

Section Locks.
Context `{F : F64} `{CL : ClientLib} `{HR : HashRing} `{TL : TlsLib}.
Implicit Types (K : Known) (h : Held).

(** ** [Connector] *)

Ltac plain := repeat first
  [ progress (intros; simpl) | split | done | apply all_ops_bind | case_match ].

Lemma plain_quic_try_connect c cfg a b :
  all_ops (plain_op c) plain_label (quic_try_connect cfg a b).
Proof. unfold quic_try_connect, try_bind, net. plain. Qed.

Lemma plain_connect_loop c cfg e addrs :
  all_ops (plain_op c) plain_label (connect_loop c cfg e addrs).
Proof.
  revert e; induction addrs as [|a addrs IH]; intros e; cbn [connect_loop]; [done|].
  destruct (endpoint_for cfg a); [|apply IH].
  apply all_ops_bind; [apply plain_quic_try_connect|]. intros [conn|err]; [by repeat split|apply IH].
Qed.

Lemma plain_new_connection c : all_ops (plain_op c) plain_label (new_connection c).
Proof.
  split; [done|]. intros [cfg|cfg].
  - unfold h2_new_connection, try_bind, map_errp, net. plain.
  - split; [done|]. intros [[ra ea]|]; [apply plain_quic_try_connect|].
    split; [done|]. intros [addrs|e]; [|done]. apply plain_connect_loop.
Qed.

Lemma plain_new_stream f : all_ops (plain_op (sf_client f)) plain_label (new_stream f).
Proof.
  split; [done|]. intros [cfg|cfg].
  - unfold h2_new_stream, try_bind, map_errp, net. plain.
  - unfold quic_new_stream, try_bind, map_errp, net, call. plain.
Qed.

(** A stream opened for a host is never the probe [Alive]. *)
Definition stream_ok (host : option ConnectHeadBuf) (r : result string BidiStream) : Prop :=
  match r with Ok s => host <> None -> s <> Alive | Err _ => True end.

Lemma safe_new_stream K h f :
  (sf_client f < k_c K)%nat ->
  safe K h (new_stream f) (fun K' h' r => h' = h /\ stream_ok (sf_host f) r).
Proof.
  intros Hc. split; [done|]. intros K1 [cfg|cfg] HK _; simpl.
  - unfold h2_new_stream, try_bind, map_errp, net. simpl.
    split; [done|]. intros K2 [[]|e] HK2 _; simpl; [|done].
    split; [done|]. intros K3 [[]|e'] HK3 _; simpl; [|done].
    split; [done|]. intros K4 [[]|e'] HK4 _; simpl; [|done].
    destruct (sf_host f) as [host|]; simpl; [|by split].
    split; [done|]. intros K5 [[]|e'] HK5 _; simpl; done.
  - unfold quic_new_stream. destruct (sf_host f) as [host|]; simpl; [|by split].
    unfold try_bind, map_errp, net, call. simpl.
    split; [done|]. intros K2 [[]|e] HK2 _; simpl; [|done].
    split; [done|]. intros K3 [[]|e'] HK3 _; simpl; done.
Qed.

Lemma safe_quic_poll_body K h conn host st :
  safe K h (quic_poll_body conn host st) (fun K' h' r => h' = h).
Proof.
  destruct st; simpl; [by split| |]; (split; [done|]); intros K1 r HK _; destruct r; simpl; done.
Qed.

Lemma safe_stream_body K h c host :
  (c < k_c K)%nat -> h_inner h = Some c ->
  safe K h (stream_body c host) (fun K' h' r => h' = h /\ lpost K' (LStream c host) r).
Proof.
  intros Hc Hi. split; [done|]. intros K1 s (_ & Hc1 & _) _. simpl held_post.
  destruct s as [| |conn]; [by split| |].
  - safe_use @safe_plain; [apply plain_new_connection|lia|]. intros K2 h2 r HK2 [(_ & Hc2 & _) ->].
    destruct r as [conn|err]; (split; [done|]); intros K3 [] (_ & Hc3 & _) _; simpl held_post.
    + split; [simpl; split; [lia|done]|]. intros K4 r HK4 Hr. by split.
    + by split.
  - split; [done|]. intros K2 fin (_ & Hc2 & _) _. simpl held_post. destruct fin; [|by repeat split].
    split; [done|]. intros K3 [] (_ & Hc3 & _) _. simpl held_post.
    split; [simpl; split; [lia|done]|]. intros K4 r HK4 Hr. by split.
Qed.

Lemma safe_client_reset_client K h c :
  (c < k_c K)%nat -> h_inner h = None ->
  safe K h (client_reset_client c) (fun K' h' _ => h' = h).
Proof.
  intros Hc Hi. assert (Hback : forall h1, h1 = with_inner (Some c) h -> with_inner None h1 = h).
  { intros h1 ->. destruct h. by simpl in *; subst. }
  split; [done|]. intros K1 [] _ _. split; [done|]. intros K2 s _ _.
  destruct s as [| |conn]; simpl held_post.
  - split; [done|]. intros K3 [] _ _. split; [done|]. intros K4 [] _ _. by apply Hback.
  - split; [done|]. intros K3 [] _ _. by apply Hback.
  - split; [done|]. intros K3 [] _ _. split; [done|]. intros K4 [] _ _.
    split; [done|]. intros K5 [] _ _. by apply Hback.
Qed.

Lemma safe_new_stream_fut K h c host :
  (c < k_c K)%nat -> h_inner h = None ->
  safe K h (new_stream_fut c host) (fun K' h' r => h' = h /\ lpost K' (LStream c host) r).
Proof.
  intros Hc Hi. split; [done|]. intros K1 [] (_ & Hc1 & _) _.
  apply safe_call; [simpl; split; [lia|done]|]. intros K2 r _ Hr.
  split; [done|]. intros K3 [] _ _. split; [|done]. destruct h. by simpl in *; subst.
Qed.

(** ** [Backend] *)

Lemma sel_fut c host :
  all_ops sel_op sel_label (f ←? new_stream_fut c host; new_stream f).
Proof.
  apply all_ops_bind.
  - split; [done|]. intros []. split; [done|]. intros r. by split.
  - intros [f|e]; [|done]. eapply all_ops_weaken; [..|apply plain_new_stream].
    + by intros [].
    + by intros [].
Qed.

Definition at_backend (b : nat) (m : bool) : Held := {| h_lock := Some (b, m); h_inner := None |}.

Lemma safe_try_connect K b m host :
  safe K (at_backend b m) (try_connect b host)
    (fun K' h' r => h' = at_backend b m /\ stream_ok host r).
Proof.
  split; [by exists m|]. intros K1 self HK [Hc Ht]. simpl held_post.
  safe_use @safe_select; [apply sel_fut|done| |].
  - safe_use @safe_new_stream_fut; [done|done|]. intros K2 h2 r (_ & HK2 & _) [-> Hr].
    
    destruct r as [f|e]; [|by instantiate (1 := fun K h r => h = at_backend b m /\ stream_ok host r)].
    destruct Hr as [Hf1 Hf2]. eapply safe_conseq; [apply safe_new_stream; lia|].
    intros K3 h3 r _ [-> Hr]. by rewrite <- Hf2.
  - intros K2 h2 [r|] _ Hr; simpl; [done|by subst].
Qed.

Lemma safe_retry_attempt K b m :
  (b < k_b K)%nat ->
  safe K (at_backend b m) (retry_attempt b) (fun K' h' _ => h' = at_backend b m).
Proof.
  intros Hb. unfold retry_attempt. next.
  split; [by exists m|]. intros K3 [] (Hb3 & _ & _) _.
  split; [by exists m|]. intros K4 self (Hb4 & _ & _) [Hc Ht].
  safe_use @safe_client_reset_client; [done|done|]. intros K5 h5 [] (Hb5 & _ & _) ->.
  safe_use @safe_try_connect. intros K6 h6 r (Hb6 & _ & _) [-> _].
  destruct r as [s|e]; (split; [simpl; lia|]).
  - intros K7 [] _ _. split; [by exists m|]. done.
  - intros K7 s (Hb7 & _ & _) _. case_decide.
    + split; [simpl; lia|]. intros K8 [] _ _. split; [by exists m|]. done.
    + split; [by exists m|]. done.
Qed.

Lemma safe_retry_connect K b m :
  (b < k_b K)%nat ->
  safe K (at_backend b m) (retry_connect b) (fun K' h' _ => h' = at_backend b m).
Proof.
  intros Hb. unfold retry_connect. split; [done|]. intros K1 s (Hb1 & _ & _) _.
  destruct s; [done|..|done]; (split; [by exists m|]); intros K2 [] (Hb2 & _ & _) _; try done;
    apply safe_retry_attempt; cbn; lia.
Qed.

Lemma safe_transfer K b m outbound ct peer :
  (b < k_b K)%nat -> outbound <> Alive ->
  safe K (at_backend b m) (transfer b outbound ct peer) (fun K' h' _ => h' = at_backend b m).
Proof.
  intros Hb Ho. split; [done|]. intros K1 start (Hb1 & _ & _) _.
  split; [by exists m|]. intros K2 self (Hb2 & _ & _) _. simpl held_post.
  safe_use @safe_select; [by destruct outbound|done| |].
  - instantiate (1 := fun K h _ => h = at_backend b m). by destruct outbound.
  - intros K3 h3 r (Hb3 & _ & _) Hr. assert (h3 = at_backend b m) as -> by (by destruct r).
    destruct r as [[[x y]|e]|]; [|done..]. split; [done|]. intros K4 now (Hb4 & _ & _) _.
    split; [simpl; lia|]. done.
Qed.

Lemma safe_cancel K b m :
  safe K (at_backend b m) (cancel b) (fun K' h' _ => h' = at_backend b m).
Proof. split; [by exists m|]. intros K1 self _ [_ Ht]. by split. Qed.

Lemma safe_renew K b :
  safe K (at_backend b true) (renew_cancellation_token b) (fun K' h' _ => h' = at_backend b true).
Proof.
  split; [done|]. intros K1 t _ Ht. split; [by split|]. intros K2 [] _ _. split; [by exists true|]. done.
Qed.

Lemma safe_reset_client K b m :
  (b < k_b K)%nat ->
  safe K (at_backend b m) (reset_client b) (fun K' h' _ => h' = at_backend b m).
Proof.
  intros Hb. split; [by exists m|]. intros K1 self (Hb1 & _ & _) [Hc _].
  safe_use @safe_client_reset_client; [done|done|]. intros K2 h2 [] (Hb2 & _ & _) ->.
  split; [simpl; lia|]. done.
Qed.

(** The release build computes the transport windows without a panic. *)
Lemma build_client_release fs cfg : build_client Release fs cfg <> Panic.
Proof.
  unfold build_client, quic_new_builder, init_quic_transport_config, umul.
  rewrite !fit_release. cbn [mbind outcome_bind]. rewrite !fit_release. cbn [mbind outcome_bind].
  by repeat case_match.
Qed.

Lemma safe_switch_protocol K b :
  (b < k_b K)%nat ->
  safe K (at_backend b true) (switch_protocol b) (fun K' h' _ => h' = at_backend b true).
Proof.
  intros Hb. split; [by exists true|]. intros K1 self (Hb1 & _ & _) _.
  split; [done|]. intros K2 [] (Hb2 & _ & _) _. split; [done|]. intros K3 fs (Hb3 & _ & _) _.
  next. case_match eqn:E; [|by apply build_client_release in E]. case_match; [|done]. case_match.
  next. split; [done|]. intros K4 c (Hb4 & _ & _) Hc. split; [by split|].
  intros K5 [] (Hb5 & _ & _) _. simpl held_post.
  safe_use @safe_renew. intros K6 h6 [] (Hb6 & _ & _) ->. split; [simpl; lia|].
  intros K7 [] (Hb7 & _ & _) _. simpl held_post.
  safe_use @safe_reset_client; [lia|]. by intros K8 h8 [] _ ->.
Qed.

(** ** [Proxy] *)

Lemma safe_available_loop K h ids :
  Forall (fun b => b < k_b K)%nat ids ->
  safe K h (available_loop ids) (fun K' h' r => h' = h /\ Forall (fun b => b < k_b K')%nat r).
Proof.
  revert K; induction ids as [|b ids IH]; intros K Hids; [by split|].
  apply Forall_cons_1 in Hids as [Hb Hids]. split; [done|]. intros K1 s (Hb1 & _ & _) _.
  rewrite Hb1 in Hb, Hids. safe_use IH; [done|].
  intros K2 h2 rest (Hb2 & _ & _) [-> Hr]. rewrite Hb2 in Hb. split; [done|].
  case_decide; [by constructor|done].
Qed.

Lemma seq_bound n : Forall (fun b => b < n)%nat (seq 0 n).
Proof. apply Forall_seq. lia. Qed.

Lemma safe_available_backends K h :
  safe K h available_backends (fun K' h' r => h' = h /\ Forall (fun b => b < k_b K')%nat r).
Proof. split; [done|]. intros K1 n _ ->. next. apply safe_available_loop, seq_bound. Qed.

(** A selected backend exists. *)
Definition avail_ok K (a : AvailableBackend) : Prop :=
  match a with GotBackend b => (b < k_b K)%nat | _ => True end.

Lemma safe_named_backend K name ids :
  Forall (fun b => b < k_b K)%nat ids ->
  safe K free (named_backend name ids) (fun K' h' r => h' = free /\ avail_ok K' r).
Proof.
  revert K; induction ids as [|b ids IH]; intros K Hids; [by split|].
  apply Forall_cons_1 in Hids as [Hb Hids]. split; [done|]. intros K1 n (Hb1 & _ & _) _.
  rewrite Hb1 in Hb, Hids. next. case_decide; [|by apply IH].
  split; [done|]. intros K2 [] (Hb2 & _ & _) _. split; [simpl; lia|].
  intros K3 s (Hb3 & _ & _) _. split; [done|]. intros K4 [] (Hb4 & _ & _) _. next.
  split; [done|]. case_decide; simpl; [lia|done].
Qed.

Lemma safe_next_available_backend K peer :
  safe K free (next_available_backend peer) (fun K' h' r => h' = free /\ avail_ok K' r).
Proof.
  unfold next_available_backend. destruct (get_backend_name_by_rule peer); [|done|].
  - safe_use safe_available_backends. intros K1 h1 r _ [-> Hr].
    destruct r as [|b [|b' r]]; [done|split; [done|by inversion Hr]|].
    split; [by split|]. intros K2 x (Hb2 & _ & _) Hx. split; [done|].
    destruct x as [x|]; [|done]. simpl. rewrite <- Hb2.
    apply (proj1 (list.Forall_forall _ _) Hr). exact Hx.
  - split; [done|]. intros K1 n _ ->. apply safe_named_backend, seq_bound.
Qed.

Lemma safe_retry_forever K b :
  (b < k_b K)%nat -> safe K free (retry_forever b) (fun K' h' _ => h' = free).
Proof.
  intros Hb. split; [done|]. intros K1 [] (Hb1 & _ & _) _. split; [by exists false|].
  intros K2 self (Hb2 & _ & _) _. split; [done|]. intros K3 [] (Hb3 & _ & _) _. next.
  case_decide; [done|]. split; [simpl; split; [lia|done]|]. done.
Qed.

Lemma safe_retry_body K b period n :
  (b < k_b K)%nat -> safe K free (retry_body b period n) (fun K' h' _ => h' = free).
Proof.
  intros Hb. unfold retry_body. case_decide; [done|].
  split; [done|]. intros K1 [] (Hb1 & _ & _) _. split; [simpl; split; [lia|done]|].
  intros K2 [] (Hb2 & _ & _) _. safe_use (safe_retry_connect K2 b false); [lia|].
  intros K3 h3 r (Hb3 & _ & _) ->. split; [done|]. intros K4 [] (Hb4 & _ & _) _.
  destruct r; [|done]. split; [simpl; split; [lia|done]|]. done.
Qed.

Lemma safe_handle_body K peer :
  safe K free (handle_body peer) (fun K' h' r => h' = free /\ lpost K' (LHandle peer) r).
Proof.
  unfold handle_body. safe_use safe_next_available_backend.
  intros K1 h1 a _ [-> Ha]. destruct a as [| | |b]; simpl in Ha; [|done..|].
  - split; [done|]. done.
  - split; [done|]. intros K2 [] (Hb2 & _ & _) _. split; [done|]. intros K3 start (Hb3 & _ & _) _.
    safe_use (safe_try_connect K3 b false). intros K4 h4 r (Hb4 & _ & _) [-> Hr].
    destruct r as [outbound|e].
    + split; [done|]. intros K5 now (Hb5 & _ & _) _. split; [done|].
      intros K6 [] (Hb6 & _ & _) _. simpl. split; [done|]. split; [by apply Hr|lia].
    + split; [simpl; lia|]. intros K5 [] (Hb5 & _ & _) _. split; [simpl; lia|].
      intros K6 [] (Hb6 & _ & _) _. split; [done|]. intros K7 [] _ _. split; [done|].
      intros K8 r8 _ Hr8. by split.
Qed.

Lemma safe_handle_transfer K peer outbound ct b :
  (b < k_b K)%nat -> outbound <> Alive ->
  safe K free (handle_transfer peer outbound ct b) (fun K' h' _ => h' = free).
Proof.
  intros Hb Ho. split; [done|]. intros K1 [] (Hb1 & _ & _) _. split; [simpl; lia|].
  intros K2 [] (Hb2 & _ & _) _. safe_use (safe_transfer K2 b false outbound); [lia|done|].
  intros K3 h3 r (Hb3 & _ & _) ->. destruct r as [[]|e].
  - split; [done|]. done.
  - split; [simpl; lia|]. intros K4 [] _ _. split; [done|]. done.
Qed.

Lemma safe_handle_connect K rules peer :
  safe K free (handle_connect rules peer) (fun K' h' _ => h' = free).
Proof.
  split; [done|]. intros K1 r _ Hr. destruct r as [[[outbound ct] b]|]; [|done].
  destruct Hr as [Ho Hb]. by apply safe_handle_transfer.
Qed.

(** ** [MetricApi] *)

Lemma safe_find K h id :
  safe K h (find_backend_by_id id) (fun K' h' r => h' = h /\
    match r with Some b => (b < k_b K')%nat | None => True end).
Proof. split; [done|]. intros K1 n _ ->. split; [done|]. by case_decide. Qed.

Lemma safe_switch_backend_status K id :
  safe K free (switch_backend_status id) (fun K' h' _ => h' = free).
Proof.
  unfold switch_backend_status. safe_use safe_find. intros K1 h1 [b|] _ [-> Hb]; [|done].
  split; [done|]. intros K2 [] (Hb2 & _ & _) _. safe_use (safe_cancel K2 b false).
  intros K3 h3 [] (Hb3 & _ & _) ->. split; [done|]. intros K4 [] (Hb4 & _ & _) _.
  split; [simpl; split; [lia|done]|]. intros K5 [] (Hb5 & _ & _) _. split; [simpl; lia|].
  intros K6 s (Hb6 & _ & _) _.
  assert (Hforce : safe K6 (at_backend b false)
    (_ ← set_backend_status b ForceClosed; _ ← do (ReadUnlock b); Ret (@Ok string _ tt))
    (fun K' h' _ => h' = free)).
  { split; [simpl; lia|]. intros K7 [] _ _. split; [done|]. done. }
  destruct s; [done..|]. split; [simpl; lia|]. intros K7 [] (Hb7 & _ & _) _. split; [done|].
  intros K8 [] (Hb8 & _ & _) _. split; [simpl; split; [lia|done]|]. intros K9 [] (Hb9 & _ & _) _.
  safe_use safe_renew. intros K10 h10 [] (Hb10 & _ & _) ->. split; [done|].
  intros K11 [] (Hb11 & _ & _) _. split; [simpl; lia|]. done.
Qed.

Lemma safe_reset_backend K id : safe K free (reset_backend id) (fun K' h' _ => h' = free).
Proof.
  unfold reset_backend. safe_use safe_find. intros K1 h1 [b|] _ [-> Hb]; [|done].
  split; [done|]. intros K2 [] (Hb2 & _ & _) _. safe_use (safe_cancel K2 b false).
  intros K3 h3 [] (Hb3 & _ & _) ->. safe_use (safe_reset_client K3 b false); [lia|].
  intros K4 h4 [] (Hb4 & _ & _) ->. split; [done|]. intros K5 [] (Hb5 & _ & _) _.
  split; [simpl; split; [lia|done]|]. intros K6 [] _ _.
  safe_use safe_renew. intros K7 h7 [] _ ->. split; [done|]. done.
Qed.

Lemma safe_switch_backend_protocol K id :
  safe K free (switch_backend_protocol id) (fun K' h' _ => h' = free).
Proof.
  unfold switch_backend_protocol. safe_use safe_find. intros K1 h1 [b|] _ [-> Hb]; [|done].
  split; [done|]. intros K2 [] (Hb2 & _ & _) _. safe_use (safe_cancel K2 b false).
  intros K3 h3 [] (Hb3 & _ & _) ->. split; [done|]. intros K4 [] (Hb4 & _ & _) _.
  split; [simpl; split; [lia|done]|]. intros K5 [] (Hb5 & _ & _) _.
  safe_use safe_switch_protocol; [lia|]. intros K6 h6 r _ ->. split; [done|]. done.
Qed.

Lemma safe_metrics_loop K ids :
  Forall (fun b => b < k_b K)%nat ids ->
  safe K free (metrics_loop ids) (fun K' h' _ => h' = free).
Proof.
  revert K; induction ids as [|b ids IH]; intros K Hids; [done|].
  apply Forall_cons_1 in Hids as [Hb Hids]. split; [done|]. intros K1 m (Hb1 & _ & _) _.
  rewrite Hb1 in Hids. safe_use IH; [done|]. by intros K2 h2 r _ ->.
Qed.

Lemma safe_backend_metric_switcher K req :
  safe K free (backend_metric_switcher req) (fun K' h' _ => h' = free).
Proof.
  destruct req; cbn [backend_metric_switcher].
  - safe_use safe_switch_backend_status. by intros K1 h1 r _ ->.
  - safe_use safe_switch_backend_protocol. by intros K1 h1 r _ ->.
  - safe_use safe_reset_backend. by intros K1 h1 r _ ->.
  - split; [done|]. intros K1 n _ ->. next. eapply safe_bind, safe_conseq.
    + apply safe_metrics_loop, seq_bound.
    + by intros K2 h2 r _ ->.
Qed.

(** ** Every label and every job *)

Lemma plain_no_lock c o : plain_op c o -> sel_op o /\ ~ inner_op o.
Proof. destruct o; simpl; intros H; try done; (split; [done|intros []]). Qed.

Lemma safe_body K h l :
  lpre K h l -> safe K h (body l) (fun K' h' r => h' = h /\ lpost K' l r).
Proof.
  revert K h; induction l as [c host|conn host st|b period n|peer|t l IH]; intros K h; cbn [body].
  - intros [Hc Hi]. by apply safe_stream_body.
  - intros _. eapply safe_conseq; [apply safe_quic_poll_body|]. by intros K' h' r _ ->.
  - intros [Hb ->]. eapply safe_conseq; [by apply safe_retry_body|]. by intros K' h' r _ ->.
  - intros Hh. simpl in Hh. subst h. apply safe_handle_body.
  - intros [Hp Hl]. eapply safe_conseq; [apply safe_select_plain; [|by apply IH]|].
    + destruct l; try done; cbn [body].
      * split; [by split; [|intros []]|]. intros s. next. destruct s as [| |conn]; [done| |].
        -- apply all_ops_bind.
           ++ apply (all_ops_weaken (plain_op c) _ plain_label _);
                [apply plain_no_lock|by intros []|apply plain_new_connection].
           ++ intros [conn|e]; (split; [by split; [|intros []]|]); intros []; [|done]. by split.
        -- split; [by split; [|intros []]|]. intros [|]; [|done].
           split; [by split; [|intros []]|]. intros []. by split.
      * destruct st; cbn [quic_poll_body]; [by split|..];
          (split; [by split; [|intros []]|]); intros []; try done; by split.
    + intros K' h' [r|] _ Hr; [|by subst]. exact Hr.
Qed.

Lemma safe_detach {A} K h (p : prog A) :
  safe K h p (fun K' h' _ => h' = free) -> safe K h (detach p) (fun K' h' _ => h' = free).
Proof. intros Hp. apply safe_bind. eapply safe_conseq; [done|]. by intros K' h' a _ ->. Qed.

Lemma safe_job rules K j :
  job_ok K j -> safe K free (job_prog rules j) (fun K' h' _ => h' = free).
Proof.
  destruct j as [b|b peer|peer|peer|peer|req]; cbn [job_ok job_prog]; intros Hj.
  - by apply safe_retry_forever.
  - split; [done|]. done.
  - apply safe_detach. unfold direct_connection. case_match; [|done].
    split; [done|]. intros K1 [[]|e] _ _; [|done]. split; [done|]. done.
  - apply safe_detach, safe_handle_connect.
  - apply safe_detach. split; [done|]. intros K1 r _ _. split; [done|]. done.
  - apply safe_detach, safe_backend_metric_switcher.
Qed.
End Locks.
