(* ===== verification/Safety.v ===== *)
(** * Safety of the task pool: locks and races

    Every pool the process can reach from a fresh store keeps the invariant
    [pool_inv]: each task respects the typestate of [Discipline], and the lock
    words of the store count exactly the tasks that hold them.  From it follow
    that no two tasks race on a backend's fields or on a client's state, and that
    [unreachable!()] is never executed.  [Fair] shows from it that the tasks never
    deadlock. *)

From S2P Require Import Prelude NetAddr LibProxy LibMetric Metric Tls BackendConfig Peer Balance World Connector Backend Proxy MetricApi Discipline System Example Locks.

(** ** Counting the holders of a lock *)

Definition count (P : Held -> Prop) `{forall h, Decision (P h)} (hs : list Held) : nat :=
  length (filter P hs).

Definition holds (b : nat) (m : bool) (h : Held) : Prop := h_lock h = Some (b, m).
Definition holds_inner (c : nat) (h : Held) : Prop := h_inner h = Some c.
#[export] Instance holds_dec b m h : Decision (holds b m h).
Proof. unfold holds. apply _. Defined.
#[export] Instance holds_inner_dec c h : Decision (holds_inner c h).
Proof. unfold holds_inner. apply _. Defined.

Definition b2n (P : Prop) `{Decision P} : nat := if decide P then 1%nat else 0%nat.

Section Count.
Context (P : Held -> Prop) `{forall h, Decision (P h)}.

Lemma count_cons h hs : count P (h :: hs) = (b2n (P h) + count P hs)%nat.
Proof. unfold count, b2n. rewrite filter_cons. by case_decide. Qed.

Lemma count_insert i h h' hs :
  hs !! i = Some h ->
  (count P (<[i := h']> hs) + b2n (P h) = count P hs + b2n (P h'))%nat.
Proof.
  revert i; induction hs as [|x hs IH]; intros [|i]; simpl; try done.
  - intros [= ->]. rewrite !count_cons. lia.
  - intros Hi. rewrite !count_cons. specialize (IH i Hi). lia.
Qed.

Lemma count_app hs hs' : count P (hs ++ hs') = (count P hs + count P hs')%nat.
Proof. induction hs as [|h hs IH]; [done|]. simpl. rewrite !count_cons, IH. lia. Qed.

Lemma count_free n : ~ P free -> count P (replicate n free) = 0%nat.
Proof.
  intros Hf. induction n as [|n IH]; [done|]. simpl. rewrite count_cons, IH.
  unfold b2n. by rewrite decide_False.
Qed.

Lemma count_pos hs : (0 < count P hs)%nat -> exists i h, hs !! i = Some h /\ P h.
Proof.
  induction hs as [|h hs IH]; [unfold count; simpl; lia|]. rewrite count_cons. unfold b2n.
  case_decide as D; [by exists 0%nat, h|]. intros Hc. destruct IH as (i & h' & Hi & Hh); [lia|].
  by exists (S i), h'.
Qed.

Lemma count_lookup hs i h : hs !! i = Some h -> P h -> (0 < count P hs)%nat.
Proof.
  revert i; induction hs as [|x hs IH]; intros [|i]; simpl; try done; rewrite count_cons.
  - intros [= ->] HP. unfold b2n. rewrite decide_True by done. lia.
  - intros Hi HP. specialize (IH i Hi HP). lia.
Qed.

Lemma count_two hs i j h h' :
  i <> j -> hs !! i = Some h -> hs !! j = Some h' -> P h -> P h' -> (2 <= count P hs)%nat.
Proof.
  revert i j; induction hs as [|x hs IH]; intros [|i] [|j] Hij; simpl; try done; rewrite count_cons.
  - intros [= ->] Hj H1 H2. pose proof (count_lookup _ _ _ Hj H2).
    unfold b2n. rewrite decide_True by done. lia.
  - intros Hi [= ->] H1 H2. pose proof (count_lookup _ _ _ Hi H1).
    unfold b2n. rewrite decide_True by done. lia.
  - intros Hi Hj H1 H2. assert (i <> j) by congruence. specialize (IH i j). lia || naive_solver lia.
Qed.
End Count.

(** ** The lock words of the store *)

(** Readers and writer of each backend, inner lock of each client. *)
Record Words := { rws : list (nat * bool); inners : list bool }.

Definition held_valid (v : Words) (h : Held) : Prop :=
  (forall b m, h_lock h = Some (b, m) -> (b < length (rws v))%nat)
  /\ (forall c, h_inner h = Some c -> (c < length (inners v))%nat).

Record words_ok (v : Words) (hs : list Held) : Prop := {
  wo_rw : forall b r wr, rws v !! b = Some (r, wr) ->
    r = count (holds b false) hs /\ Nat.b2n wr = count (holds b true) hs
    /\ (wr = true -> r = 0%nat);
  wo_inner : forall c l, inners v !! c = Some l -> Nat.b2n l = count (holds_inner c) hs;
  wo_valid : Forall (held_valid v) hs;
}.

(** How the words change when a task's held locks go from [h] to [h']. *)
Inductive word_step (v : Words) (h : Held) : Words -> Held -> Prop :=
  | ws_same : word_step v h v h
  | ws_client : word_step v h {| rws := rws v; inners := inners v ++ [false] |} h
  | ws_read b r : rws v !! b = Some (r, false) -> h = free ->
      word_step v h {| rws := <[b := (S r, false)]> (rws v); inners := inners v |}
        {| h_lock := Some (b, false); h_inner := h_inner h |}
  | ws_unread b r wr : rws v !! b = Some (r, wr) -> h_lock h = Some (b, false) ->
      word_step v h {| rws := <[b := (pred r, wr)]> (rws v); inners := inners v |}
        {| h_lock := None; h_inner := h_inner h |}
  | ws_write b : rws v !! b = Some (0%nat, false) -> h = free ->
      word_step v h {| rws := <[b := (0%nat, true)]> (rws v); inners := inners v |}
        {| h_lock := Some (b, true); h_inner := h_inner h |}
  | ws_unwrite b r wr : rws v !! b = Some (r, wr) -> h_lock h = Some (b, true) ->
      word_step v h {| rws := <[b := (r, false)]> (rws v); inners := inners v |}
        {| h_lock := None; h_inner := h_inner h |}
  | ws_lock c : inners v !! c = Some false -> h_inner h = None ->
      word_step v h {| rws := rws v; inners := <[c := true]> (inners v) |} (with_inner (Some c) h)
  | ws_unlock c l : inners v !! c = Some l -> h_inner h = Some c ->
      word_step v h {| rws := rws v; inners := <[c := false]> (inners v) |} (with_inner None h).

Lemma b2n_eq (P : Prop) `{Decision P} : (b2n P = 1%nat /\ P) \/ (b2n P = 0%nat /\ ~ P).
Proof. unfold b2n. case_decide; auto. Qed.

(** Facts about the counts of [holds] for held values with known locks. *)
Lemma holds_b2n b m h :
  b2n (holds b m h) = match h_lock h with
    | Some (b', m') => if decide (b = b') then if decide (m = m') then 1 else 0 else 0
    | None => 0 end%nat.
Proof.
  destruct (b2n_eq (holds b m h)) as [[-> Hh]|[-> Hh]]; unfold holds in Hh.
  - rewrite Hh. by rewrite !decide_True.
  - destruct (h_lock h) as [[b' m']|]; [|done]. repeat case_decide; by subst.
Qed.

Lemma holds_inner_b2n c h :
  b2n (holds_inner c h) = match h_inner h with
    | Some c' => if decide (c = c') then 1 else 0 | None => 0 end%nat.
Proof.
  destruct (b2n_eq (holds_inner c h)) as [[-> Hh]|[-> Hh]]; unfold holds_inner in Hh.
  - rewrite Hh. by rewrite decide_True.
  - destruct (h_inner h) as [c'|]; [|done]. case_decide; by subst.
Qed.

Lemma word_step_ok v hs i h v' h' :
  words_ok v hs -> hs !! i = Some h -> word_step v h v' h' ->
  words_ok v' (<[i := h']> hs).
Proof.
  intros [Hrw Hin Hva] Hi Hstep.
  assert (Hvh : held_valid v h) by (apply (proj1 (list.Forall_forall _ _) Hva); by eapply list_elem_of_lookup_2).
  assert (Hcr : forall b m, (count (holds b m) (<[i := h']> hs) + b2n (holds b m h)
    = count (holds b m) hs + b2n (holds b m h'))%nat) by (intros; by apply count_insert).
  assert (Hci : forall c, (count (holds_inner c) (<[i := h']> hs) + b2n (holds_inner c h)
    = count (holds_inner c) hs + b2n (holds_inner c h'))%nat) by (intros; by apply count_insert).
  setoid_rewrite holds_b2n in Hcr. setoid_rewrite holds_inner_b2n in Hci.
  split.
  - intros b0 r0 wr0 Hb. pose proof (Hcr b0 false) as C1. pose proof (Hcr b0 true) as C2. clear Hcr Hci.
    destruct Hstep as [| |b r Hr ->|b r wr Hr Hl|b Hr ->|b r wr Hr Hl|c Hc Hl|c l Hc Hl]; simpl in *;
      try (destruct (Hrw b0 r0 wr0 Hb) as (? & ? & ?); repeat split; [lia..|done]).
    all: apply list_lookup_insert_Some in Hb as [(-> & [= <- <-] & Hlt)|[Hne Hb]];
      [destruct (Hrw _ _ _ Hr) as (R1 & R2 & R3)|destruct (Hrw b0 r0 wr0 Hb) as (R1 & R2 & R3)];
      try rewrite Hl in *; repeat case_decide; try done.
    all: split_and!; intros; try discriminate; try (specialize (R3 ltac:(assumption)));
      try (destruct wr; simpl in *; lia); simpl in *; lia.
  - intros c0 l0 Hc0. specialize (Hci c0). clear Hcr.
    destruct Hstep as [| |b r Hr ->|b r wr Hr Hl|b Hr ->|b r wr Hr Hl|c Hc Hl|c l Hc Hl]; simpl in *;
      try (specialize (Hin c0 l0 Hc0); lia).
    + apply lookup_app_Some in Hc0 as [Hc0|[Hge Hc0]]; [specialize (Hin c0 l0 Hc0); lia|].
      apply list_lookup_singleton_Some in Hc0 as [H0 <-]. simpl.
      destruct (decide (count (holds_inner c0) (<[i:=h]> hs) = 0%nat)) as [|Hpos]; [lia|].
      destruct (count_pos (holds_inner c0) (<[i:=h]> hs)) as (j & x & Hj & Hx); [lia|].
      rewrite list_insert_id in Hj by done. apply list_elem_of_lookup_2 in Hj.
      destruct (proj1 (list.Forall_forall _ _) Hva x Hj) as [_ Hv]. specialize (Hv c0 Hx). lia.
    + apply list_lookup_insert_Some in Hc0 as [(-> & <- & Hlt)|[Hne Hc0]].
      * specialize (Hin _ _ Hc). rewrite Hl in Hci. rewrite decide_True in Hci by done. simpl in *. lia.
      * specialize (Hin _ _ Hc0). rewrite Hl in Hci. rewrite decide_False in Hci by done. lia.
    + apply list_lookup_insert_Some in Hc0 as [(-> & <- & Hlt)|[Hne Hc0]].
      * specialize (Hin _ _ Hc). rewrite Hl in Hci. rewrite decide_True in Hci by done.
        destruct l; simpl in *; lia.
      * specialize (Hin _ _ Hc0). rewrite Hl in Hci. rewrite decide_False in Hci by done. lia.
  - assert (Hmono : Forall (held_valid v') hs).
    { eapply Forall_impl; [|exact Hva]. intros x [V1 V2]. unfold held_valid.
      destruct Hstep; simpl; rewrite ?length_insert, ?length_app; split; intros;
        try (by eapply V1); try (specialize (V2 _ ltac:(eassumption)); simpl; lia). }
    apply Forall_insert; [done|]. destruct Hvh as [V1 V2].
    destruct Hstep as [| |b r Hr ->|b r wr Hr Hl|b Hr ->|b r wr Hr Hl|c Hc Hl|c l Hc Hl];
      unfold held_valid in *; simpl in *; rewrite ?length_insert, ?length_app; split; intros;
      simplify_eq; try (by eapply V1); try (specialize (V2 _ ltac:(eassumption)); simpl; lia);
      by eapply lookup_lt_Some.
Qed.

(** ** One operation *)

Section Ops.
Context `{F : F64} `{CL : ClientLib} `{HR : HashRing}.
Implicit Types (w : World) (h : Held).

Definition known w : Known :=
  {| k_b := length (w_backends w); k_c := length (w_clients w); k_t := length (w_tokens w) |}.

Definition words w : Words :=
  {| rws := (fun c => (be_readers c, be_writer c)) <$> w_backends w;
     inners := cl_locked <$> w_clients w |}.

Definition ids_ok w : Prop :=
  forall b c, w_backends w !! b = Some c ->
    (client (be_backend c) < length (w_clients w))%nat
    /\ (cancellation_token (be_backend c) < length (w_tokens w))%nat.

Lemma words_backend b c c' w :
  w_backends w !! b = Some c ->
  words (with_backends (<[b := c']> (w_backends w)) w)
    = {| rws := <[b := (be_readers c', be_writer c')]> (rws (words w)); inners := inners (words w) |}.
Proof. intros Hc. unfold words. simpl. by rewrite list_fmap_insert. Qed.

Lemma words_client b c c' w :
  w_clients w !! b = Some c ->
  words (with_clients (<[b := c']> (w_clients w)) w)
    = {| rws := rws (words w); inners := <[b := cl_locked c']> (inners (words w)) |}.
Proof. intros Hc. unfold words. simpl. by rewrite list_fmap_insert. Qed.

Lemma rws_lookup b c w :
  w_backends w !! b = Some c -> rws (words w) !! b = Some (be_readers c, be_writer c).
Proof. intros Hc. simpl. by rewrite list_lookup_fmap, Hc. Qed.

Lemma inners_lookup b c w :
  w_clients w !! b = Some c -> inners (words w) !! b = Some (cl_locked c).
Proof. intros Hc. simpl. by rewrite list_lookup_fmap, Hc. Qed.

(** An update that keeps the lock words. *)
Lemma words_backend_same b c c' w :
  w_backends w !! b = Some c -> be_readers c' = be_readers c -> be_writer c' = be_writer c ->
  words (with_backends (<[b := c']> (w_backends w)) w) = words w.
Proof.
  intros Hc H1 H2. rewrite (words_backend _ _ _ _ Hc), H1, H2.
  rewrite list_insert_id; [by destruct (words w)|]. by apply rws_lookup.
Qed.

Lemma words_client_same b c c' w :
  w_clients w !! b = Some c -> cl_locked c' = cl_locked c ->
  words (with_clients (<[b := c']> (w_clients w)) w) = words w.
Proof.
  intros Hc H1. rewrite (words_client _ _ _ _ Hc), H1.
  rewrite list_insert_id; [by destruct (words w)|]. by apply inners_lookup.
Qed.

Lemma op_words e K h o w r w' js :
  op_eval e o w = Some (r, w', js) -> op_pre K h o ->
  word_step (words w) h (words w') (held_post h o r).
Proof.
  revert r w' js; induction o; intros r w' js H Hp; op_inv H; simpl in Hp; cbn [held_post].
  all: try (destruct (w_backends w !! b); cbn in H; [|done]; injection H as <- <- <-; by constructor).
  all: try (destruct (w_clients w !! c); cbn in H; [|done]; injection H as <- <- <-; by constructor).
  all: try (injection H as <- <- <-; by constructor).
  all: try (injection Hf as <-; rewrite (words_backend_same _ _ _ _ Hc) by done; by constructor).
  all: try (injection Hf as <-; rewrite (words_client_same _ _ _ _ Hc) by done; by constructor).
  - destruct (be_writer c) eqn:Ew; [done|]. injection Hf as <-.
    rewrite (words_backend _ _ _ _ Hc). cbn [be_readers be_writer cell_lock]. destruct Hp as [_ Hh]. apply ws_read; [|done].
    rewrite <- Ew. by apply rws_lookup.
  - injection Hf as <-. rewrite (words_backend _ _ _ _ Hc). cbn [be_readers be_writer cell_lock]. eapply ws_unread; [|done].
    by apply rws_lookup.
  - destruct (be_writer c) eqn:Ew; [done|]. case_decide as Er; [|done]. injection Hf as <-.
    rewrite (words_backend _ _ _ _ Hc). cbn [be_readers be_writer cell_lock]. destruct Hp as [_ Hh]. apply ws_write; [|done].
    rewrite <- Ew, <- Er. by apply rws_lookup.
  - injection Hf as <-. rewrite (words_backend _ _ _ _ Hc). cbn [be_readers be_writer cell_lock]. eapply ws_unwrite; [|done].
    by apply rws_lookup.
  - case_match; [|done]. injection Hf as <-.
    rewrite (words_backend_same _ _ _ _ Hc) by done. constructor.
  - injection H as <- <- <-. unfold words. simpl. rewrite fmap_app. apply ws_client.
  - destruct (cl_locked c0) eqn:El; [done|]. injection Hf as <-.
    rewrite (words_client _ _ _ _ Hc). cbn [cl_locked client_lock]. destruct Hp as [_ Hh]. apply ws_lock; [|done].
    rewrite <- El. by apply inners_lookup.
  - injection Hf as <-. rewrite (words_client _ _ _ _ Hc). cbn [cl_locked client_lock]. eapply ws_unlock; [|done].
    by apply inners_lookup.
  - destruct (balance_next _ _ _ _ _) as [[x b]|]; [|done]. injection H as <- <- <-. constructor.
  - done.
  - destruct (e_net e q); [|done]. injection H as <- <- <-. constructor.
  - case_match; [injection H as <- <- <-; constructor|].
    destruct (op_eval e o w) as [[[r0 w0] js0]|] eqn:E; [|done]. injection H as <- <- <-.
    by eapply IHo.
Qed.

(** An update of a backend that keeps valid identities. *)
Lemma ids_backend b c c' w :
  ids_ok w -> w_backends w !! b = Some c ->
  (client (be_backend c') < length (w_clients w))%nat ->
  (cancellation_token (be_backend c') < length (w_tokens w))%nat ->
  ids_ok (with_backends (<[b := c']> (w_backends w)) w).
Proof.
  intros Hw Hc H1 H2 b0 c0. simpl. intros H0.
  apply list_lookup_insert_Some in H0 as [(-> & <- & _)|[_ H0]]; [done|by eapply Hw].
Qed.

Lemma known_backends bs w : length bs = length (w_backends w) -> known (with_backends bs w) = known w.
Proof. unfold known. simpl. by intros ->. Qed.

Lemma known_clients cs w : length cs = length (w_clients w) -> known (with_clients cs w) = known w.
Proof. unfold known. simpl. by intros ->. Qed.

Lemma op_ids e h o w r w' js :
  op_eval e o w = Some (r, w', js) -> op_pre (known w) h o -> ids_ok w ->
  kle (known w) (known w') /\ resp_ok (known w') o r /\ ids_ok w'
  /\ Forall (job_ok (known w')) js.
Proof.
  revert r w' js; induction o; intros r w' js H Hp Hw; op_inv H; simpl in Hp; cbn [resp_ok].
  all: try (destruct (w_backends w !! b) as [bc|] eqn:Hb; cbn in H; [|done]; injection H as <- <- <-;
    split; [reflexivity|]; split; [first [exact (Hw _ _ Hb)|done]|]; by split).
  all: try (destruct (w_clients w !! c) as [cc|] eqn:Hb; cbn in H; [|done]; injection H as <- <- <-;
    split; [reflexivity|]; split; [done|]; split; [done|];
    first [apply Forall_nil_2|apply Forall_cons_2; [exact Hp|apply Forall_nil_2]]).
  all: try (injection H as <- <- <-; split; [reflexivity|]; split; [done|]; split; [done|];
    first [apply Forall_nil_2|apply Forall_cons_2; [exact Hp|apply Forall_nil_2]]).
  all: try (rewrite known_backends by (by rewrite length_insert)).
  all: try (rewrite known_clients by (by rewrite length_insert)).
  all: try (split; [reflexivity|]; split; [done|]; split; [|done]; eapply ids_backend; [done..| |];
    repeat case_match; simplify_eq; simpl;
    first [exact (proj1 (Hw _ _ Hc))|exact (proj2 (Hw _ _ Hc))|exact (proj2 Hp)]).
  all: try (split; [reflexivity|]; split; [done|]; split; [|done]; intros b0 bc Hbc;
    simpl in *; rewrite length_insert; by eapply Hw).
  - injection H as <- <- <-.
    split; [unfold kle; simpl; rewrite length_app; simpl; lia|].
    split; [simpl; rewrite length_app; simpl; lia|]. split; [|done]. intros b0 bc Hbc. simpl in *. rewrite length_app. simpl.
    destruct (Hw b0 bc Hbc). lia.
  - injection H as <- <- <-. split; [unfold kle; simpl; rewrite length_insert; lia|].
    split; [done|]. split; [|done]. intros b0 bc Hbc. simpl in *. rewrite length_insert. by eapply Hw.
  - injection H as <- <- <-.
    split; [unfold kle; simpl; rewrite length_app; simpl; lia|].
    split; [simpl; rewrite length_app; simpl; lia|]. split; [|done]. intros b0 bc Hbc. simpl in *. rewrite length_app. simpl.
    destruct (Hw b0 bc Hbc). lia.
  - destruct (balance_next _ _ _ _ _) as [[x b]|] eqn:E; [|done]. injection H as <- <- <-.
    split; [reflexivity|]. split; [|by split]. destruct x; [|done]. by eapply balance_next_member.
  - done.
  - destruct (e_net e q); [|done]. injection H as <- <- <-. split; [reflexivity|]. split; [done|]. split; [done|apply Forall_nil_2].
  - case_match; [injection H as <- <- <-; split; [reflexivity|]; split; [done|]; split; [done|apply Forall_nil_2]|].
    destruct (op_eval e o w) as [[[r0 w0] js0]|] eqn:E; [|done]. injection H as <- <- <-.
    by apply IHo.
Qed.

(** ** Waiting *)

(** The operation under any [select!]. *)
Fixpoint base (o : op) : op := match o with OrCancel _ o => base o | o => o end.

(** [o] has to wait for a lock. *)
Definition waits (o : op) w : Prop :=
  match base o with
  | ReadLock b => exists c, w_backends w !! b = Some c /\ be_writer c = true
  | WriteLock b => exists c, w_backends w !! b = Some c
      /\ (be_writer c = true \/ be_readers c <> 0%nat)
  | LockInner c => exists x, w_clients w !! c = Some x /\ cl_locked x = true
  | _ => False
  end.

Lemma on_backend_done b w f c :
  w_backends w !! b = Some c -> is_Some (f c) -> is_Some (done_unit (on_backend b w f)).
Proof. intros Hc [c' Hf]. unfold on_backend. rewrite Hc. cbn. rewrite Hf. by eexists. Qed.

Lemma on_client_done b w f c :
  w_clients w !! b = Some c -> is_Some (f c) -> is_Some (done_unit (on_client b w f)).
Proof. intros Hc [c' Hf]. unfold on_client. rewrite Hc. cbn. rewrite Hf. by eexists. Qed.

Lemma backend_cost_done now w b : (b < length (w_backends w))%nat -> is_done (backend_cost now w b).
Proof.
  intros Hb. apply lookup_lt_is_Some_2 in Hb as [c Hc]. unfold backend_cost. rewrite Hc.
  unfold ewma_get, uadd. rewrite fit_release. by eexists.
Qed.

(** The network answers every request. *)
Definition answers (e : Env) : Prop := forall q, is_Some (e_net e q).

(** An operation a disciplined task is about to execute either waits for a
    lock or can be executed. *)
Lemma op_progress e w h o :
  answers e -> op_pre (known w) h o -> held_valid (words w) h -> ~ waits o w ->
  is_Some (op_eval e o w).
Proof.
  intros He Hp [Hv1 Hv2]. unfold waits.
  assert (Hbe : forall b, (b < length (w_backends w))%nat -> exists c, w_backends w !! b = Some c).
  { intros b Hb. by apply lookup_lt_is_Some_2. }
  assert (Hcl : forall c, (c < length (w_clients w))%nat -> exists x, w_clients w !! c = Some x).
  { intros c Hc. by apply lookup_lt_is_Some_2. }
  unfold words in Hv1, Hv2. cbn [rws inners] in Hv1, Hv2.
  setoid_rewrite length_fmap in Hv1. setoid_rewrite length_fmap in Hv2.
  assert (Hbl : forall b, (exists m, h_lock h = Some (b, m)) -> exists c, w_backends w !! b = Some c).
  { intros b [m Hm]. by eapply Hbe, Hv1. }
  induction o; cbn [op_eval base]; simpl in Hp; intros Hw; try (by destruct Hp); try (by eexists);
    try (destruct (Hbe b Hp) as [c0 Hc0]; rewrite ?Hc0; first [by eexists|idtac]);
    try (destruct (Hcl c Hp) as [c0 Hc0]; rewrite ?Hc0; first [by eexists|eapply on_client_done; [done|by eexists]]);
    try (destruct (Hbl b Hp) as [c0 Hc0]; rewrite ?Hc0; first [by eexists|eapply on_backend_done; [done|by eexists]]);
    try (destruct (Hbl b (ex_intro _ _ Hp)) as [c0 Hc0]; eapply on_backend_done; [done|by eexists]);
    try (destruct (Hbl b (ex_intro _ _ (proj1 Hp))) as [c0 Hc0]; eapply on_backend_done; [done|by eexists]);
    try (destruct (Hcl c (Hv2 _ Hp)) as [c0 Hc0]; rewrite ?Hc0;
         first [by eexists|eapply on_client_done; [done|by eexists]]).
  - destruct (Hbe b (proj1 Hp)) as [c0 Hc0]. eapply on_backend_done; [done|]. cbv beta.
    destruct (be_writer c0) eqn:E; [|by eexists]. destruct Hw. eauto.
  - destruct (Hbe b (proj1 Hp)) as [c0 Hc0]. eapply on_backend_done; [done|]. cbv beta.
    destruct (be_writer c0) eqn:E; [destruct Hw; eauto|]. case_decide; [by eexists|]. destruct Hw; eauto.
  - destruct (absorb_all_release (e_now e) (call_ops c) (be_metric c0)) as [m Hm].
    eapply on_backend_done; [done|]. cbv beta. rewrite Hm. by eexists.
  - destruct (Hcl c (proj1 Hp)) as [c0 Hc0]. eapply on_client_done; [done|]. cbv beta.
    destruct (cl_locked c0) eqn:E; [|by eexists]. destruct Hw. eauto.
  - destruct Hp as [Hi Hf].
    edestruct (balance_next_done (e_pick e) (backend_cost (e_now e) w)
      (w_balance w) items info) as [[r b] ->]; [done| |by eexists].
    intros b Hb. apply backend_cost_done. exact (proj1 (list.Forall_forall _ _) Hf b Hb).
  - destruct (He q) as [r ->]. by eexists.
  - destruct (is_cancelled t w && e_cancel e); [by eexists|].
    destruct (IHo Hp Hw) as [[[r w'] js] ->]. by eexists.
Qed.
End Ops.

(** ** The pool *)

Section PoolInv.
Context `{F : F64} `{CL : ClientLib} `{HR : HashRing} `{TL : TlsLib}.
Context (rules : option HostRuler).
Implicit Types (w : World) (h : Held) (s : Pool).

Definition ends_free : Known -> Held -> unit -> Prop := fun _ h _ => h = free.

Record pool_inv s (hs : list Held) : Prop := {
  pi_len : length hs = length (p_tasks s);
  pi_safe : forall i j p h, p_tasks s !! i = Some (j, p) -> hs !! i = Some h ->
    safe (known (p_world s)) h p ends_free;
  pi_words : words_ok (words (p_world s)) hs;
  pi_ids : ids_ok (p_world s);
}.

(** A store nobody has touched: no lock is held, every identity exists. *)
Definition fresh_world w : Prop :=
  (forall b c, w_backends w !! b = Some c -> be_readers c = 0%nat /\ be_writer c = false)
  /\ (forall c x, w_clients w !! c = Some x -> cl_locked x = false)
  /\ ids_ok w.

Lemma fresh_inv w : fresh_world w -> pool_inv {| p_tasks := []; p_world := w |} [].
Proof.
  intros (Hb & Hc & Hi). split; [done|done| |done]. split.
  - intros b r wr. simpl. rewrite list_lookup_fmap.
    destruct (w_backends w !! b) as [x|] eqn:E; [|done]. simpl.
    destruct (Hb b x E) as [-> ->]. by intros [= <- <-].
  - intros c l. simpl. rewrite list_lookup_fmap.
    destruct (w_clients w !! c) as [x|] eqn:E; [|done]. simpl. rewrite (Hc c x E). by intros [= <-].
  - apply Forall_nil_2.
Qed.

Lemma ends_free_stable : stable ends_free.
Proof. by intros K K' h a _. Qed.

(** What a task leaves of itself and which locks it holds after a step. *)
Definition held_step e (p p' : prog unit) w w' (js : list job) h h' : Prop :=
  match p with
  | Ret _ => False
  | Vis o k => exists r, op_eval e o w = Some (r, w', js) /\ p' = k r /\ h' = held_post h o r
  | Call l k => p' = pbind (body l) k /\ w' = w /\ js = [] /\ h' = h
  end.

(** A step of one task. *)
Lemma step_prog_inv e h (p p' : prog unit) w w' js :
  step_prog body e p w = Some (p', w', js) ->
  safe (known w) h p ends_free -> ids_ok w ->
  exists h', held_step e p p' w w' js h h' /\ safe (known w') h' p' ends_free /\ word_step (words w) h (words w') h'
    /\ kle (known w) (known w') /\ ids_ok w' /\ Forall (job_ok (known w')) js.
Proof.
  destruct p as [a|o k|l k]; simpl; [done| |].
  - destruct (op_eval e o w) as [[[r w1] js1]|] eqn:E; [|done]. cbn. intros [= <- <- <-] [H1 H2] Hi.
    destruct (op_ids e h o w r w1 js1 E H1 Hi) as (G1 & G2 & G3 & G4).
    exists (held_post h o r). split; [by exists r|]. split; [by apply H2|]. split; [by eapply op_words|]. done.
  - intros [= <- <- <-] [H1 H2] Hi. exists h. split; [done|]. split; [|split; [constructor|]; split; [reflexivity|];
      split; [done|apply Forall_nil_2]].
    apply safe_bind. eapply safe_conseq; [by apply safe_body|]. intros K' h' r HK [-> Hr]. by apply H2.
Qed.

Lemma add_tasks_inv s hs (js : list job) :
  pool_inv s hs -> Forall (job_ok (known (p_world s))) js ->
  pool_inv {| p_tasks := p_tasks s ++ spawn_all (job_prog rules) js; p_world := p_world s |}
    (hs ++ replicate (length js) free).
Proof.
  intros [H1 H2 H3 H4] Hjs. unfold spawn_all. split; simpl; [| | |done].
  - by rewrite !length_app, length_replicate, length_fmap, H1.
  - intros i j p h Ht Hh. apply lookup_app_Some in Ht as [Ht|[Hge Ht]].
    + rewrite lookup_app_l in Hh by (rewrite H1; by eapply lookup_lt_Some). by eapply H2.
    + rewrite lookup_app_r in Hh by (by rewrite H1). rewrite H1 in Hh.
      apply lookup_replicate in Hh as [-> _]. rewrite list_lookup_fmap in Ht.
      destruct (js !! (i - length (p_tasks s))%nat) as [j0|] eqn:Ej; [|done]. simpl in Ht.
      injection Ht as <- <-. apply safe_job.
      apply (proj1 (list.Forall_forall _ _) Hjs). by eapply list_elem_of_lookup_2.
  - destruct H3 as [W1 W2 W3]. split.
    + intros b r wr Hb. rewrite !count_app, !count_free by done. rewrite !Nat.add_0_r. by apply W1.
    + intros c l Hc. rewrite count_app, count_free by done. rewrite Nat.add_0_r. by apply W2.
    + apply Forall_app_2; [done|]. apply Forall_replicate. by split.
Qed.

Lemma step_task_inv s hs i e s' :
  pool_inv s hs -> step_task body (job_prog rules) i e s = Some s' ->
  exists j p p' h h' js, p_tasks s !! i = Some (j, p) /\ hs !! i = Some h /\
    held_step e p p' (p_world s) (p_world s') js h h' /\
    p_tasks s' = <[i := (j, p')]> (p_tasks s) ++ spawn_all (job_prog rules) js /\
    pool_inv s' (<[i := h']> hs ++ replicate (length js) free).
Proof.
  intros Hinv. unfold step_task. destruct (p_tasks s !! i) as [[j p]|] eqn:Et; [|done]. cbn.
  destruct (step_prog body e p (p_world s)) as [[[p' w'] js]|] eqn:Es; [|done]. cbn.
  intros [= <-]. pose proof Hinv as [H1 H2 H3 H4].
  destruct (lookup_lt_is_Some_2 hs i) as [h Hh]; [rewrite H1; by eapply lookup_lt_Some|].
  destruct (step_prog_inv e h p p' _ w' js Es) as (h' & G0 & G1 & G2 & G3 & G4 & G5); [by eapply H2|done|].
  exists j, p, p', h, h', js. do 4 (split; [done|]).
  apply (add_tasks_inv {| p_tasks := <[i := (j, p')]> (p_tasks s); p_world := w' |}
    (<[i := h']> hs)); [|done].
  split; cbn [p_tasks p_world]; 
    [etrans; [apply length_insert|]; rewrite H1; symmetry; apply length_insert| | |done].
  - intros i0 j0 p0 h0 Ht0 Hh0. apply list_lookup_insert_Some in Ht0 as [(-> & [= <- <-] & _)|[Hne Ht0]].
    + rewrite list_lookup_insert_eq in Hh0 by (by eapply lookup_lt_Some). by injection Hh0 as <-.
    + rewrite list_lookup_insert_ne in Hh0 by done.
      eapply safe_mono; [apply ends_free_stable|exact G3|by eapply H2].
  - by eapply word_step_ok.
Qed.

Lemma step_inv s hs ev s' :
  pool_inv s hs -> step_pool body (job_prog rules) ev s = Some s' ->
  exists hs', pool_inv s' hs'.
Proof.
  intros Hinv. destruct ev as [i e|j]; simpl.
  - intros H. destruct (step_task_inv s hs i e s' Hinv H) as (? & ? & ? & ? & h' & js & _ & _ & _ & _ & Hinv').
    by eexists.
  - destruct (external j) eqn:Ej; [|done]. intros [= <-]. eexists.
    apply (add_tasks_inv s hs [j]); [done|]. apply Forall_cons_2; [by destruct j|apply Forall_nil_2].
Qed.

Lemma reachable_inv w s :
  fresh_world w -> reachable body (job_prog rules) {| p_tasks := []; p_world := w |} s ->
  exists hs, pool_inv s hs.
Proof.
  intros Hw Hr. induction Hr as [|s ev s' Hr IH Hs]; [by eexists; apply fresh_inv|].
  destruct IH as [hs Hinv]. by eapply step_inv.
Qed.

(** The held locks of a task of a pool with the invariant. *)
Lemma task_held s hs i j p :
  pool_inv s hs -> p_tasks s !! i = Some (j, p) ->
  exists h, hs !! i = Some h /\ safe (known (p_world s)) h p ends_free
    /\ held_valid (words (p_world s)) h.
Proof.
  intros [H1 H2 [_ _ H3] H4] Ht.
  destruct (lookup_lt_is_Some_2 hs i) as [h Hh]; [rewrite H1; by eapply lookup_lt_Some|].
  exists h. split; [done|]. split; [by eapply H2|].
  apply (proj1 (list.Forall_forall _ _) H3). by eapply list_elem_of_lookup_2.
Qed.

Lemma task_of_held s hs i h :
  pool_inv s hs -> hs !! i = Some h -> exists j p, p_tasks s !! i = Some (j, p).
Proof.
  intros [H1 _ _ _] Hh. destruct (lookup_lt_is_Some_2 (p_tasks s) i) as [[j p] Ht]; [|eauto].
  rewrite <- H1. by eapply lookup_lt_Some.
Qed.

Lemma op_pre_base K h o : op_pre K h o -> op_pre K h (base o).
Proof. by induction o. Qed.

Lemma unfinished (ts : list (job * prog unit)) :
  (forall i j p, ts !! i = Some (j, p) -> exists a, p = Ret a)
  \/ exists i j p, ts !! i = Some (j, p) /\ match p with Ret _ => False | _ => True end.
Proof.
  induction ts as [|[j p] ts IH]; [left; intros i j p; by rewrite lookup_nil|].
  destruct p as [a|o k|l k].
  - destruct IH as [IH|(i & j' & p' & H1 & H2)]; [left|right; by exists (S i), j', p'].
    intros [|i] j' p'; simpl; [intros [= <- <-]; eauto|apply IH].
  - right. by exists 0%nat, j, (Vis o k).
  - right. by exists 0%nat, j, (Call l k).
Qed.

(** ** Races *)

(** The operations that write the plain fields of backend [b], that use
    them, and that use the state of client [c]. *)
Definition writes_fields (b : nat) (o : op) : Prop :=
  match o with
  | SetConfig b' _ | SetClient b' _ | SetToken b' _ => b' = b
  | _ => False
  end.
Definition uses_fields (b : nat) (o : op) : Prop :=
  match o with
  | SetConfig b' _ | SetClient b' _ | SetToken b' _ | GetFields b' => b' = b
  | _ => False
  end.
Definition uses_state (c : nat) (o : op) : Prop :=
  match o with
  | GetState c' | SetState c' _ => c' = c
  | _ => False
  end.

Lemma uses_fields_held K h b o : op_pre K h o -> uses_fields b o -> exists m, holds b m h.
Proof.
  unfold holds. destruct o; simpl; intros Hp Hu; try done; subst; eauto.
  - destruct Hp. eauto.
  - destruct Hp. eauto.
Qed.

Lemma writes_fields_held K h b o : op_pre K h o -> writes_fields b o -> holds b true h.
Proof.
  unfold holds. destruct o; simpl; intros Hp Hu; try done; subst; [done| |].
  - by destruct Hp.
  - by destruct Hp.
Qed.

(** C3: Race freedom: in every reachable state, when one task is about to write
    a field of a backend no other task is about to read or write one, and no
    two tasks are about to use the state of the same client. *)
Theorem race_free w s i1 i2 j1 j2 o1 o2 k1 k2 :
  fresh_world w -> reachable body (job_prog rules) {| p_tasks := []; p_world := w |} s ->
  p_tasks s !! i1 = Some (j1, Vis o1 k1) -> p_tasks s !! i2 = Some (j2, Vis o2 k2) -> i1 <> i2 ->
  (forall b, writes_fields b (base o1) -> ~ uses_fields b (base o2))
  /\ (forall c, uses_state c (base o1) -> ~ uses_state c (base o2)).
Proof.
  intros Hw Hr H1 H2 Hne. destruct (reachable_inv w s Hw Hr) as [hs Hinv].
  destruct (task_held s hs _ _ _ Hinv H1) as (h1 & Hh1 & [Hp1 _] & Hv1).
  destruct (task_held s hs _ _ _ Hinv H2) as (h2 & Hh2 & [Hp2 _] & Hv2).
  apply op_pre_base in Hp1, Hp2. destruct (pi_words s hs Hinv) as [W1 W2 _]. split.
  - intros b Hb1 Hb2. apply (writes_fields_held _ _ _ _ Hp1) in Hb1.
    destruct (uses_fields_held _ _ _ _ Hp2 Hb2) as [m Hm].
    destruct Hv1 as [Hv1 _]. specialize (Hv1 b true Hb1).
    destruct (lookup_lt_is_Some_2 _ _ Hv1) as [[r wr] Hrw].
    destruct (W1 b r wr Hrw) as (R1 & R2 & R3). destruct m.
    + pose proof (count_two (holds b true) hs _ _ _ _ Hne Hh1 Hh2 Hb1 Hm). destruct wr; simpl in R2; lia.
    + pose proof (count_lookup (holds b true) _ _ _ Hh1 Hb1).
      pose proof (count_lookup (holds b false) _ _ _ Hh2 Hm).
      destruct wr; [|simpl in R2; lia]. specialize (R3 eq_refl). lia.
  - intros c Hc1 Hc2.
    assert (Hin : forall h o, op_pre (known (p_world s)) h o -> uses_state c o -> holds_inner c h).
    { intros h o Hp Hu. destruct o; simpl in *; try done; by subst. }
    apply (Hin _ _ Hp1) in Hc1. apply (Hin _ _ Hp2) in Hc2.
    destruct Hv1 as [_ Hv1]. specialize (Hv1 c Hc1).
    destruct (lookup_lt_is_Some_2 _ _ Hv1) as [l Hl]. specialize (W2 c l Hl).
    pose proof (count_two (holds_inner c) hs _ _ _ _ Hne Hh1 Hh2 Hc1 Hc2). destruct l; simpl in W2; lia.
Qed.

(** C17: The [unreachable!()] of a tunnel over an [Alive] stream, and the panic of
    a client built from the configuration, are never reached. *)
Theorem unreachable_unreached w s i j o k :
  fresh_world w -> reachable body (job_prog rules) {| p_tasks := []; p_world := w |} s ->
  p_tasks s !! i = Some (j, Vis o k) -> base o <> Unreachable.
Proof.
  intros Hw Hr Ht E. destruct (reachable_inv w s Hw Hr) as [hs Hinv].
  destruct (task_held s hs _ _ _ Hinv Ht) as (h & Hh & [Hp _] & _).
  apply op_pre_base in Hp. by rewrite E in Hp.
Qed.
End PoolInv.

(** ** Witnesses *)

Lemma example_fresh : fresh_world example_world.
Proof.
  split; [|split].
  - intros [|[|b]] c; simpl; intros H; by simplify_eq.
  - intros [|[|c]] x; simpl; intros H; by simplify_eq.
  - intros [|[|b]] c; simpl; intros H; simplify_eq; simpl; lia.
Qed.

Lemma example_reachable evs s :
  run_example evs = Some s -> reachable body (job_prog None) example_start s.
Proof. apply run_reachable. constructor. Qed.

(** A protocol switch about to write the configuration while a reset waits. *)
Definition race_events : list event :=
  [Arrive (JApi (ReqSwitchBackendProtocol 0)); Arrive (JApi (ReqResetBackend 0))]
  ++ run_n 0 7 (env_ok 1) ++ run_n 1 1 (env_ok 1).

Definition runs (evs : list event) : bool :=
  match run_example evs with Some _ => true | None => false end.

Lemma runs_Some evs : runs evs = true -> run_example evs <> None.
Proof. unfold runs. by destruct (run_example evs). Qed.

(** The next operations of two tasks. *)
Definition next_ops (s : Pool) (i1 i2 : nat) : option (op * op) :=
  match p_tasks s !! i1, p_tasks s !! i2 with
  | Some (_, Vis o1 _), Some (_, Vis o2 _) => Some (o1, o2)
  | _, _ => None
  end.

Lemma next_ops_Some s i1 i2 o1 o2 :
  next_ops s i1 i2 = Some (o1, o2) ->
  exists j1 k1 j2 k2, p_tasks s !! i1 = Some (j1, Vis o1 k1) /\ p_tasks s !! i2 = Some (j2, Vis o2 k2).
Proof.
  unfold next_ops. destruct (p_tasks s !! i1) as [[j1 [|o1' k1|]]|]; try done.
  destruct (p_tasks s !! i2) as [[j2 [|o2' k2|]]|]; try done. intros [= -> ->]. by exists j1, k1, j2, k2.
Qed.

Lemma race_free_witness :
  match run_example race_events with
  | Some s => match next_ops s 0 1 with
      | Some (o1, o2) => (forall b, writes_fields b (base o1) -> ~ uses_fields b (base o2))
          /\ (forall c, uses_state c (base o1) -> ~ uses_state c (base o2))
      | None => True
      end
  | None => False
  end.
Proof.
  assert (R : runs race_events = true) by (vm_compute; reflexivity). apply runs_Some in R.
  destruct (run_example race_events) as [s|] eqn:E; [|exact (R eq_refl)].
  destruct (next_ops s 0 1) as [[o1 o2]|] eqn:En; [|exact I].
  destruct (next_ops_Some s 0 1 o1 o2 En) as (j1 & k1 & j2 & k2 & H1 & H2).
  exact (race_free None example_world s 0 1 j1 j2 o1 o2 k1 k2 example_fresh
    (example_reachable race_events s E) H1 H2 ltac:(discriminate)).
Defined.

(** The switch is at its first write, the reset at its lock. *)
Example race_events_ops :
  match run_example race_events with
  | Some s => match next_ops s 0 1 with
      | Some (SetConfig 0 _, ReadLock 0) => true
      | _ => false
      end
  | None => false
  end = true.
Proof. vm_compute. reflexivity. Qed.

Lemma unreachable_unreached_witness :
  match run_example race_events with
  | Some s => match next_ops s 0 1 with
      | Some (o1, _) => base o1 <> Unreachable
      | None => True
      end
  | None => False
  end.
Proof.
  assert (R : runs race_events = true) by (vm_compute; reflexivity). apply runs_Some in R.
  destruct (run_example race_events) as [s|] eqn:E; [|exact (R eq_refl)].
  destruct (next_ops s 0 1) as [[o1 o2]|] eqn:En; [|exact I].
  destruct (next_ops_Some s 0 1 o1 o2 En) as (j1 & k1 & j2 & k2 & H1 & _).
  exact (unreachable_unreached None example_world s 0 j1 o1 k1 example_fresh
    (example_reachable race_events s E) H1).
Defined.
