(* ===== verification/Fair.v ===== *)
(** * Fair locks: no deadlock

    [tokio]'s RwLock and Mutex serve their waiters first come, first served: a
    reader that comes behind a waiting writer waits, even while other readers
    hold the lock.  [World.op_eval] grants a lock to anyone it fits; here the
    pool is given the queues of the locks, and a task takes a lock only in its
    turn.  A task that asks for a lock twice, or for a second one in the wrong
    order, would be stuck in this model; the tasks of the client never are. *)

From S2P Require Import Prelude NetAddr LibProxy LibMetric Metric Tls BackendConfig Peer Balance World Connector Backend Proxy MetricApi Discipline System Example Locks Safety.

(** ** The queues *)

(** The RwLock of a backend, the Mutex of a client. *)
Inductive LockId := RwLock (b : nat) | ClientMutex (c : nat).

#[export] Instance LockId_eq : EqDecision LockId.
Proof. solve_decision. Defined.

(** A task in the queue of a lock; [false] is a read. *)
Record Waiting := { wt_task : nat; wt_lock : LockId; wt_write : bool }.

(** [x] cannot be served before [y] if [y] came first. *)
Definition blocks (x y : Waiting) : bool :=
  bool_decide (wt_lock y = wt_lock x) && (wt_write y || wt_write x).

(** All queues in one list, in the order of arrival: task [i] is served when
    nobody [ahead] of it blocks it. *)
Fixpoint my_turn (i : nat) (ahead q : list Waiting) : bool :=
  match q with
  | [] => false
  | x :: q =>
      if decide (wt_task x = i) then forallb (fun y => negb (blocks x y)) ahead
      else my_turn i (x :: ahead) q
  end.

Definition leave (i : nat) (q : list Waiting) : list Waiting := filter (fun x => wt_task x <> i) q.

Definition of_lock (l : LockId) (x : Waiting) : Prop := wt_lock x = l.
#[export] Instance of_lock_dec l x : Decision (of_lock l x).
Proof. unfold of_lock. apply _. Defined.

(** The first in the queue of a lock has its turn. *)
Lemma first_turn x q1 q2 ahead :
  NoDup (wt_task <$> q1 ++ x :: q2) -> Forall (fun y => wt_lock y <> wt_lock x) ahead ->
  Forall (fun y => wt_lock y <> wt_lock x) q1 -> my_turn (wt_task x) ahead (q1 ++ x :: q2) = true.
Proof.
  revert ahead; induction q1 as [|z q1 IH]; intros ahead Hn Ha Hq; cbn in *.
  - rewrite decide_True by done. apply forallb_forall. intros y Hy. unfold blocks.
    rewrite bool_decide_false; [done|]. apply (proj1 (list.Forall_forall _ _) Ha). by apply list_elem_of_In.
  - apply list.NoDup_cons in Hn as [Hz Hn]. rewrite decide_False.
    2: { intros E. destruct Hz. rewrite fmap_app, E. apply elem_of_app. right. by left. }
    apply Forall_cons_1 in Hq as [H1 H2]. apply IH; [done| |done]. by apply Forall_cons_2.
Qed.

Lemma first_of_lock l (q : list Waiting) :
  (exists q1 x q2, q = q1 ++ x :: q2 /\ wt_lock x = l /\ Forall (fun y => wt_lock y <> l) q1)
  \/ Forall (fun y => wt_lock y <> l) q.
Proof.
  induction q as [|y q IH]; [by right|]. destruct (decide (wt_lock y = l)) as [E|E].
  - left. by exists [], y, q.
  - destruct IH as [(q1 & x & q2 & -> & Hx & Hq)|Hq]; [left|right].
    + exists (y :: q1), x, q2. split; [done|]. split; [done|]. by apply Forall_cons_2.
    + by apply Forall_cons_2.
Qed.

Section Fair.
Context `{F : F64} `{CL : ClientLib} `{HR : HashRing} `{TL : TlsLib}.
Context (rules : option HostRuler).
Implicit Types (w : World) (s : Pool) (q : list Waiting).

(** The lock an operation asks for. *)
Fixpoint acquires (o : op) : option (LockId * bool) :=
  match o with
  | ReadLock b => Some (RwLock b, false)
  | WriteLock b => Some (RwLock b, true)
  | LockInner c => Some (ClientMutex c, true)
  | OrCancel _ o => acquires o
  | _ => None
  end.

(** The cancellation wins over the operation. *)
Fixpoint preempts (e : Env) (o : op) w : bool :=
  match o with
  | OrCancel t o => is_cancelled t w && e_cancel e || preempts e o w
  | _ => false
  end.

Definition next_op (i : nat) s : option op :=
  match p_tasks s !! i with Some (_, Vis o _) => Some o | _ => None end.

(** What task [i] waits for when it is polled. *)
Definition waiting_for (i : nat) s : option Waiting :=
  o ← next_op i s; '(l, m) ← acquires o; Some {| wt_task := i; wt_lock := l; wt_write := m |}.

(** ** Steps *)

Record FairPool := { fp_pool : Pool; fp_queue : list Waiting }.

(** Task [i] may run: it wants no lock, or it is its turn, or its wait is
    cancelled. *)
Definition granted (i : nat) (e : Env) s q : bool :=
  match next_op i s with
  | Some o => match acquires o with Some _ => my_turn i [] q || preempts e o (p_world s) | None => true end
  | None => true
  end.

Inductive fair_event :=
  (** task [i] queues for the lock it wants *)
  | Join (i : nat)
  | Go (ev : event).

Definition join (i : nat) s q : option (list Waiting) :=
  x ← waiting_for i s; if decide (i ∈ wt_task <$> q) then None else Some (q ++ [x]).

(** Whether the queues let an event happen, and the queues after it. *)
Definition permits (ev : event) s q : bool :=
  match ev with Run i e => granted i e s q | Arrive _ => true end.
Definition queue_after (ev : event) q : list Waiting :=
  match ev with Run i _ => leave i q | Arrive _ => q end.

Definition fair_step (ev : fair_event) (f : FairPool) : option FairPool :=
  match ev with
  | Join i => q ← join i (fp_pool f) (fp_queue f); Some {| fp_pool := fp_pool f; fp_queue := q |}
  | Go ev =>
      if permits ev (fp_pool f) (fp_queue f) then
        s ← step_pool body (job_prog rules) ev (fp_pool f);
        Some {| fp_pool := s; fp_queue := queue_after ev (fp_queue f) |}
      else None
  end.

Definition fair_start w : FairPool := {| fp_pool := {| p_tasks := []; p_world := w |}; fp_queue := [] |}.

Inductive fair_reachable w : FairPool -> Prop :=
  | fair_init : fair_reachable w (fair_start w)
  | fair_next f ev f' : fair_reachable w f -> fair_step ev f = Some f' -> fair_reachable w f'.

(** ** The queues hold the tasks that wait *)

Definition queue_ok s q : Prop :=
  NoDup (wt_task <$> q) /\ Forall (fun x => waiting_for (wt_task x) s = Some x) q.

Lemma leave_tasks i q : wt_task <$> leave i q = filter (fun j => j <> i) (wt_task <$> q).
Proof.
  induction q as [|x q IH]; [done|]. unfold leave in *. rewrite fmap_cons, !filter_cons.
  repeat case_decide; try done. cbn. by rewrite IH.
Qed.

Lemma step_task_other i e s s' i' :
  step_task body (job_prog rules) i e s = Some s' -> i' <> i -> is_Some (p_tasks s !! i') ->
  p_tasks s' !! i' = p_tasks s !! i'.
Proof.
  unfold step_task. destruct (p_tasks s !! i) as [[j p]|] eqn:Ei; cbn; [|done].
  destruct (step_prog body e p (p_world s)) as [[[p' w'] js]|]; cbn; [|done]. intros [= <-] Hne [x Hx]. cbn.
  rewrite lookup_app_l by (rewrite length_insert; by eapply lookup_lt_Some). by rewrite list_lookup_insert_ne.
Qed.

Lemma step_pool_kept ev s s' i x :
  step_pool body (job_prog rules) ev s = Some s' -> match ev with Run i' _ => i <> i' | Arrive _ => True end ->
  waiting_for i s = Some x -> waiting_for i s' = Some x.
Proof.
  intros H Hne Hx. assert (Ht : is_Some (p_tasks s !! i)).
  { unfold waiting_for, next_op in Hx. destruct (p_tasks s !! i); [by eexists|done]. }
  rewrite <- Hx. unfold waiting_for, next_op. destruct ev as [i' e|j].
  - by rewrite (step_task_other i' e s s' i H Hne Ht).
  - cbn in H. destruct (external j); [|done]. injection H as <-. cbn. destruct Ht as [y Hy].
    rewrite lookup_app_l by (by eapply lookup_lt_Some). done.
Qed.

Lemma queue_ok_join i s q q' : queue_ok s q -> join i s q = Some q' -> queue_ok s q'.
Proof.
  intros [H1 H2] H. unfold join in H. destruct (waiting_for i s) as [x|] eqn:Ex; [|done]. cbn in H.
  case_decide as D; [done|]. injection H as <-.
  assert (E : wt_task x = i).
  { unfold waiting_for in Ex. destruct (next_op i s); [|done]. cbn in Ex. destruct (acquires _) as [[l m]|]; [|done].
    by injection Ex as <-. }
  split.
  - rewrite fmap_app. apply list.NoDup_app. split; [done|]. cbn. rewrite E. split; [|apply NoDup_singleton].
    intros j Hj Hj'. apply list_elem_of_singleton in Hj'. by subst j.
  - apply Forall_app_2; [done|]. apply Forall_cons_2; [by rewrite E|apply Forall_nil_2].
Qed.

Lemma queue_ok_step ev s s' q :
  queue_ok s q -> step_pool body (job_prog rules) ev s = Some s' -> queue_ok s' (queue_after ev q).
Proof.
  intros [H1 H2] H. destruct ev as [i e|j]; cbn [queue_after].
  - split; [rewrite leave_tasks; by apply list.NoDup_filter|].
    apply list.Forall_forall. intros x [Hne Hx]%list_elem_of_filter.
    eapply (step_pool_kept (Run i e)); [exact H|done|]. exact (proj1 (list.Forall_forall _ _) H2 x Hx).
  - split; [done|]. apply list.Forall_forall. intros x Hx.
    eapply (step_pool_kept (Arrive j)); [exact H|done|]. exact (proj1 (list.Forall_forall _ _) H2 x Hx).
Qed.

Lemma fair_step_ok ev f f' :
  fair_step ev f = Some f' -> queue_ok (fp_pool f) (fp_queue f) -> queue_ok (fp_pool f') (fp_queue f').
Proof.
  intros H Hq. destruct ev as [i|ev]; cbn in H.
  - destruct (join i (fp_pool f) (fp_queue f)) as [q|] eqn:E; [|done]. injection H as <-. by eapply queue_ok_join.
  - destruct (permits _ _ _); [|done]. destruct (step_pool _ _ _ _) as [s|] eqn:E; [|done]. injection H as <-.
    by eapply queue_ok_step.
Qed.

(** A fair run is a run of the pool. *)
Lemma fair_reachable_pool w f :
  fair_reachable w f ->
  reachable body (job_prog rules) {| p_tasks := []; p_world := w |} (fp_pool f) /\ queue_ok (fp_pool f) (fp_queue f).
Proof.
  induction 1 as [|f ev f' _ [IH1 IH2] H]; [split; [constructor|]; split; [constructor|apply Forall_nil_2]|].
  split; [|eapply fair_step_ok; [exact H|exact IH2]]. destruct ev as [i|ev]; cbn in H.
  - destruct (join _ _ _); [|done]. by injection H as <-.
  - destruct (permits _ _ _); [|done]. destruct (step_pool _ _ _ _) as [s|] eqn:E; [|done]. injection H as <-.
    by eapply reach_step.
Qed.

(** ** Progress *)

(** Task [i] can run, perhaps after it has joined a queue. *)
Definition can_run (e : Env) (i : nat) (f : FairPool) : Prop :=
  exists f1 f2, (f1 = f \/ fair_step (Join i) f = Some f1) /\ fair_step (Go (Run i e)) f1 = Some f2.

Section Progress.
Context (e : Env) (He : answers e).

(** A task that does not have to wait and whose turn it is runs. *)
Lemma run_op s hs q i j o k h :
  pool_inv s hs -> p_tasks s !! i = Some (j, Vis o k) -> hs !! i = Some h ->
  op_pre (known (p_world s)) h o -> ~ waits o (p_world s) -> granted i e s q = true ->
  is_Some (fair_step (Go (Run i e)) {| fp_pool := s; fp_queue := q |}).
Proof.
  intros Hinv Ht Hh Hp Hw Hg. destruct (task_held s hs i j _ Hinv Ht) as (h' & Hh' & _ & Hv).
  simplify_eq. destruct (op_progress _ _ _ _ He Hp Hv Hw) as [[[r w'] js] E].
  cbn [fair_step permits fp_pool fp_queue]. rewrite Hg. cbn. unfold step_task. rewrite Ht. cbn. rewrite E. by eexists.
Qed.

Lemma granted_free i s q j o k :
  p_tasks s !! i = Some (j, Vis o k) -> acquires o = None -> granted i e s q = true.
Proof. intros Ht Ho. unfold granted, next_op. by rewrite Ht, Ho. Qed.

Lemma granted_turn i s q : my_turn i [] q = true -> granted i e s q = true.
Proof. intros Ht. unfold granted. rewrite Ht. destruct (next_op i s) as [o|]; [|done]. by destruct (acquires o). Qed.

Lemma run_now i f : is_Some (fair_step (Go (Run i e)) f) -> can_run e i f.
Proof. intros [f2 H]. exists f, f2. split; [by left|done]. Qed.

Lemma run_call s q i j l k :
  p_tasks s !! i = Some (j, Call l k) -> can_run e i {| fp_pool := s; fp_queue := q |}.
Proof.
  intros Ht. apply run_now. cbn [fair_step permits fp_pool fp_queue].
  assert (granted i e s q = true) as -> by (unfold granted, next_op; by rewrite Ht).
  cbn. unfold step_task. rewrite Ht. by eexists.
Qed.

Lemma acquires_base o : acquires o = acquires (base o).
Proof. by induction o. Qed.

Lemma acquires_inv o l m :
  acquires o = Some (l, m) ->
  (exists b, l = RwLock b /\ base o = if m then WriteLock b else ReadLock b)
  \/ exists c, l = ClientMutex c /\ m = true /\ base o = LockInner c.
Proof. induction o; cbn; intros H; try done; try (injection H as <- <-); eauto. Qed.

Lemma no_lock_no_wait o w : acquires o = None -> ~ waits o w.
Proof. intros Ho. rewrite acquires_base in Ho. unfold waits. destruct (base o); try done; by intros []. Qed.

(** Nobody holds the lock: whoever asks for it need not wait. *)
Definition lock_free (l : LockId) w : Prop := forall o m, acquires o = Some (l, m) -> ~ waits o w.

(** The first in a lock's queue runs, or, if there is no queue, whoever joins. *)
Lemma lock_turn s hs q l i m j o k :
  pool_inv s hs -> queue_ok s q -> lock_free l (p_world s) ->
  p_tasks s !! i = Some (j, Vis o k) -> acquires o = Some (l, m) ->
  exists i', can_run e i' {| fp_pool := s; fp_queue := q |}.
Proof.
  intros Hinv [Hq1 Hq2] Hl Ht Ho.
  assert (Hrun : forall i0 j0 o0 k0 m0 q0, p_tasks s !! i0 = Some (j0, Vis o0 k0) -> acquires o0 = Some (l, m0) ->
    my_turn i0 [] q0 = true -> is_Some (fair_step (Go (Run i0 e)) {| fp_pool := s; fp_queue := q0 |})).
  { intros i0 j0 o0 k0 m0 q0 Ht0 Ho0 Hm0. destruct (task_held s hs i0 j0 _ Hinv Ht0) as (h & Hh & [Hp _] & _).
    eapply run_op; [exact Hinv|exact Ht0|exact Hh|exact Hp|by eapply Hl|by apply granted_turn]. }
  destruct (first_of_lock l q) as [(q1 & x & q2 & -> & Hx & Hf)|Hf].
  - exists (wt_task x). apply run_now. apply Forall_app in Hq2 as [_ Hq2]. apply Forall_inv in Hq2.
    unfold waiting_for, next_op in Hq2. destruct (p_tasks s !! wt_task x) as [[j0 [|o0 k0|]]|] eqn:Ex; try done.
    cbn in Hq2. destruct (acquires o0) as [[l0 m0]|] eqn:E0; [|done]. cbn in Hq2. injection Hq2 as Hq2.
    assert (wt_lock x = l0) as E1 by (by rewrite <- Hq2). rewrite Hx in E1. subst l0.
    eapply Hrun; [exact Ex|exact E0|]. apply first_turn; [done|apply Forall_nil_2|by rewrite Hx].
  - exists i. pose (x := {| wt_task := i; wt_lock := l; wt_write := m |}).
    assert (Hw : waiting_for i s = Some x) by (unfold waiting_for, next_op; rewrite Ht; cbn; by rewrite Ho).
    assert (Hn : i ∉ wt_task <$> q).
    { intros Hi. apply list_elem_of_fmap in Hi as (y & Hy & Hin).
      pose proof (proj1 (list.Forall_forall _ _) Hq2 y Hin) as Hwy. cbv beta in Hwy. rewrite <- Hy, Hw in Hwy. injection Hwy as Hwy.
      pose proof (proj1 (list.Forall_forall _ _) Hf y Hin) as Hl'. cbv beta in Hl'. by rewrite <- Hwy in Hl'. }
    destruct (Hrun i j o k m (q ++ [x]) Ht Ho) as [f2 H2].
    { apply (first_turn x q []); [|apply Forall_nil_2|done]. rewrite fmap_app. apply list.NoDup_app. split; [done|]. cbn.
      split; [|apply NoDup_singleton]. intros i0 Hi0 Hi1. apply list_elem_of_singleton in Hi1. by subst i0. }
    exists {| fp_pool := s; fp_queue := q ++ [x] |}, f2. split; [right|exact H2].
    cbn. unfold join. rewrite Hw. cbn. by rewrite decide_False.
Qed.

(** A task that holds an inner mutex can run. *)
Lemma inner_holder_runs s hs q c :
  pool_inv s hs -> (0 < count (holds_inner c) hs)%nat -> exists i, can_run e i {| fp_pool := s; fp_queue := q |}.
Proof.
  intros Hinv Hc. apply count_pos in Hc as (i & h & Hh & Hi). exists i.
  destruct (task_of_held s hs i h Hinv Hh) as (j & p & Ht). unfold holds_inner in Hi.
  pose proof (pi_safe s hs Hinv i j p h Ht Hh) as Hs. destruct p as [a|o k|l k].
  - simpl in Hs. unfold ends_free in Hs. by subst.
  - destruct Hs as [Hp _]. pose proof (op_pre_base _ _ _ Hp) as Hb.
    assert (Ha : acquires o = None).
    { destruct (acquires o) as [[l m]|] eqn:Ho; [|done].
      destruct (acquires_inv o l m Ho) as [(b & _ & E)|(c' & _ & _ & E)]; rewrite E in Hb; [destruct m|];
        destruct Hb as [_ Hb]; by subst || congruence. }
    apply run_now. eapply run_op; [exact Hinv|exact Ht|exact Hh|exact Hp|by apply no_lock_no_wait|by eapply granted_free].
  - by eapply run_call.
Qed.

(** A mutex is free, or its holder can run. *)
Lemma mutex_runs s hs q c i j o k m :
  pool_inv s hs -> queue_ok s q -> p_tasks s !! i = Some (j, Vis o k) -> acquires o = Some (ClientMutex c, m) ->
  exists i', can_run e i' {| fp_pool := s; fp_queue := q |}.
Proof.
  intros Hinv Hq Ht Ho. pose proof (wo_inner _ _ (pi_words s hs Hinv) c) as Hn.
  destruct (w_clients (p_world s) !! c) as [x|] eqn:Ex.
  - specialize (Hn _ (inners_lookup _ _ _ Ex)). destruct (cl_locked x) eqn:El.
    { eapply inner_holder_runs; [exact Hinv|]. rewrite <- Hn. simpl. lia. }
    eapply lock_turn; [exact Hinv|exact Hq| |exact Ht|exact Ho]. intros o' m' Ho' Hw.
    destruct (acquires_inv _ _ _ Ho') as [(b0 & [=] & _)|(c0 & [= <-] & _ & E)].
    unfold waits in Hw. rewrite E in Hw. destruct Hw as (x' & Hx' & Hl). congruence.
  - eapply lock_turn; [exact Hinv|exact Hq| |exact Ht|exact Ho]. intros o' m' Ho' Hw.
    destruct (acquires_inv _ _ _ Ho') as [(b0 & [=] & _)|(c0 & [= <-] & _ & E)].
    unfold waits in Hw. rewrite E in Hw. destruct Hw as (x' & Hx' & Hl). congruence.
Qed.

(** A task that holds a RwLock can run, or waits for a mutex. *)
Lemma lock_holder_runs s hs q b m :
  pool_inv s hs -> queue_ok s q -> (0 < count (holds b m) hs)%nat -> exists i, can_run e i {| fp_pool := s; fp_queue := q |}.
Proof.
  intros Hinv Hq Hc. apply count_pos in Hc as (i & h & Hh & Hi).
  destruct (task_of_held s hs i h Hinv Hh) as (j & p & Ht). unfold holds in Hi.
  pose proof (pi_safe s hs Hinv i j p h Ht Hh) as Hs. destruct p as [a|o k|l k].
  - simpl in Hs. unfold ends_free in Hs. by subst.
  - destruct Hs as [Hp _]. pose proof (op_pre_base _ _ _ Hp) as Hb.
    destruct (acquires o) as [[[b'|c] m']|] eqn:Ho.
    + destruct (acquires_inv _ _ _ Ho) as [(b0 & _ & E)|(c & [=] & _)]; rewrite E in Hb.
      destruct m'; destruct Hb as [_ Hb]; by subst.
    + by eapply mutex_runs.
    + exists i. apply run_now. eapply run_op; [exact Hinv|exact Ht|exact Hh|exact Hp|by apply no_lock_no_wait|by eapply granted_free].
  - exists i. by eapply run_call.
Qed.

Definition all_finished s : Prop := forall i j p, p_tasks s !! i = Some (j, p) -> exists a, p = Ret a.

Lemma progress s hs q :
  pool_inv s hs -> queue_ok s q -> all_finished s \/ exists i, can_run e i {| fp_pool := s; fp_queue := q |}.
Proof.
  intros Hinv Hq. destruct (unfinished (p_tasks s)) as [Hall|(i & j & p & Ht & Hp)]; [by left|right].
  destruct (task_held s hs i j p Hinv Ht) as (h & Hh & Hs & Hv). destruct p as [a|o k|l k]; [done| |].
  - destruct Hs as [Hpre _]. destruct (acquires o) as [[[b|c] m]|] eqn:Ho.
    + pose proof (wo_rw _ _ (pi_words s hs Hinv) b) as Hw.
      destruct (w_backends (p_world s) !! b) as [x|] eqn:Ex.
      * destruct (Hw _ _ (rws_lookup _ _ _ Ex)) as (R1 & R2 & _).
        destruct (be_writer x) eqn:Ew; [eapply lock_holder_runs; [exact Hinv|exact Hq|]; rewrite <- R2; simpl; lia|].
        destruct (decide (be_readers x = 0%nat)) as [Er|Er]; [|eapply lock_holder_runs; [exact Hinv|exact Hq|]; rewrite <- R1; lia].
        eapply lock_turn; [exact Hinv|exact Hq| |exact Ht|exact Ho]. intros o' m' Ho' Hwt.
        destruct (acquires_inv _ _ _ Ho') as [(b0 & [= <-] & E)|(c0 & [=] & _)].
        unfold waits in Hwt. rewrite E in Hwt. destruct m'; destruct Hwt as (x' & Hx' & Hl); simplify_eq; [destruct Hl|]; congruence.
      * eapply lock_turn; [exact Hinv|exact Hq| |exact Ht|exact Ho]. intros o' m' Ho' Hwt.
        destruct (acquires_inv _ _ _ Ho') as [(b0 & [= <-] & E)|(c0 & [=] & _)].
        unfold waits in Hwt. rewrite E in Hwt. destruct m'; destruct Hwt as (x' & Hx' & _); congruence.
    + by eapply mutex_runs.
    + exists i. apply run_now. eapply run_op; [exact Hinv|exact Ht|exact Hh|exact Hpre|by apply no_lock_no_wait|by eapply granted_free].
  - exists i. by eapply run_call.
Qed.
End Progress.

(** C1: Deadlock freedom with fair locks: when every lock serves the tasks that
    ask for it in the order in which they came - so that a read waits behind a
    waiting write - then in every reachable state either all tasks have
    finished or some task can take a step, given the network's answer. *)
Theorem deadlock_free w f :
  fresh_world w -> fair_reachable w f ->
  all_finished (fp_pool f) \/ forall e, answers e -> exists i, can_run e i f.
Proof.
  intros Hw Hr. destruct (fair_reachable_pool w f Hr) as [Hp Hq]. destruct (reachable_inv rules w _ Hw Hp) as [hs Hinv].
  destruct (unfinished (p_tasks (fp_pool f))) as [Hall|(i & j & p & Ht & Hn)]; [by left|right]. intros e He.
  destruct f as [s q]. destruct (progress e He s hs q Hinv Hq) as [Hd|H]; [|done].
  by destruct (Hd i j p Ht) as [a ->].
Qed.
End Fair.

(** ** Witness *)

(** The events of a run in which a task asks before it is served. *)
Definition asking (evs : list event) : list fair_event :=
  evs ≫= fun ev => match ev with Run i _ => [Join i; Go ev] | Arrive _ => [Go ev] end.

(** As many of the events as can happen. *)
Fixpoint fair_try `{F : F64} `{CL : ClientLib} `{HR : HashRing} `{TL : TlsLib} rules
    (evs : list fair_event) (f : FairPool) : FairPool :=
  match evs with
  | [] => f
  | ev :: evs => fair_try rules evs (default f (fair_step rules ev f))
  end.

Lemma fair_try_reachable `{F : F64} `{CL : ClientLib} `{HR : HashRing} `{TL : TlsLib} rules w evs f :
  fair_reachable rules w f -> fair_reachable rules w (fair_try rules evs f).
Proof.
  revert f; induction evs as [|ev evs IH]; intros f Hr; [done|]. cbn. apply IH.
  destruct (fair_step rules ev f) as [f'|] eqn:E; [by eapply fair_next|done].
Qed.

(** A connection holds the first backend's lock for reading, a protocol switch
    waits to write, and a reset waits behind it to read. *)
Definition queued_events : list event :=
  [Arrive (JConnect (peer_new "example.com:443" (SocketV4 (Ipv4 127 0 0 1) 50000)));
   Arrive (JApi (ReqSwitchBackendProtocol 0)); Arrive (JApi (ReqResetBackend 0))]
  ++ run_n 0 8 (env_ok 1) ++ run_n 1 6 (env_ok 1) ++ run_n 2 2 (env_ok 1).

Definition queued_state : FairPool := fair_try None (asking queued_events) (fair_start example_world).

Lemma queued_reachable : fair_reachable None example_world queued_state.
Proof. apply fair_try_reachable. constructor. Qed.

(** The reset has to wait although the lock is only read. *)
Example queued_reader_waits :
  (wt_write <$> fp_queue queued_state, fair_step None (Go (Run 2 (env_ok 1))) queued_state)
    = ([true; false], None).
Proof. vm_compute. reflexivity. Qed.

Lemma deadlock_free_witness :
  all_finished (fp_pool queued_state) \/ forall e, answers e -> exists i, can_run None e i queued_state.
Proof. exact (deadlock_free None example_world queued_state example_fresh queued_reachable). Defined.
