(* ===== verification/Writers.v ===== *)
(** * Who may change what

    Every task of the process changes a backend only in the ways its kind
    allows: which metric calls a connection handler, a retry task, an opening
    and an API request make, who writes a backend's fields, and who spawns
    whom. *)

From S2P Require Import Prelude NetAddr LibProxy LibMetric Metric Tls BackendConfig Peer Balance World Connector Backend Proxy MetricApi Discipline System Locks Safety Example.

Section Writers.
Context `{F : F64} `{CL : ClientLib} `{HR : HashRing} `{TL : TlsLib}.
Context (rules : option HostRuler).

(** The metric calls a task makes on backend [b]. *)
Definition allowed (j : job) (b : nat) (call : MetricCall) : Prop :=
  match j, call with
  | JRetry b', CallSetStatus s => b' = b /\ (s = Normal \/ s = Closed)
  | JIncr b' peer, CallIncrConnection p => b' = b /\ p = peer
  | JConnect peer, CallSetStatus s => s = Closed
  | JConnect peer, CallSummary _ _ _ _ p => p = get_addr peer
  | JConnect peer, CallAddFailures p => p = get_addr peer
  | JApi _, CallSetStatus s => s = Unknown \/ s = ForceClosed
  | JApi _, CallReset => True
  | JApi _, CallSetProtocol _ => True
  | _, _ => False
  end.

(** The tasks a task spawns. *)
Definition spawns (j j' : job) : Prop :=
  match j, j' with
  | JConnect _, JRetry _ => True
  | JConnect peer, JIncr _ p => p = get_addr peer
  | JConnect peer, JDirect p => get_addr p = get_addr peer
  | JApi _, JRetry _ => True
  | _, _ => False
  end.

(** The API requests that change a backend: all but the list. *)
Definition is_mutator (j : job) : Prop := match j with JApi ReqAllBackends => False | JApi _ => True | _ => False end.

Fixpoint may (j : job) (o : op) : Prop :=
  match o with
  | CallMetric b call => allowed j b call
  | Spawn j' => spawns j j'
  | SetConfig _ _ | SetClient _ _ | SetToken _ _ | CancelToken _ => is_mutator j
  | StoreRetrying b _ => is_mutator j \/ j = JRetry b
  | OrCancel _ o => may j o
  | _ => True
  end.

Fixpoint lmay (j : job) (l : label) : Prop :=
  match l with
  | LStream _ _ | LQuicPoll _ _ _ => True
  | LRetry b _ _ => j = JRetry b
  | LHandle p => exists peer, j = JConnect peer /\ get_addr p = get_addr peer
  | LSel _ l => lmay j l
  end.

Definition obeys (j : job) {A} (p : prog A) : Prop := all_ops (may j) (lmay j) p.

Lemma obeys_bind j {A B} (p : prog A) (f : A -> prog B) :
  obeys j p -> (forall a, obeys j (f a)) -> obeys j (pbind p f).
Proof. apply all_ops_bind. Qed.

Lemma obeys_select j t {A} held (p : prog A) : obeys j p -> obeys j (select_cancel t held p).
Proof.
  assert (Hrel : forall hs, obeys j (release hs (@None A))).
  { induction hs as [|c hs IH]; [done|]. split; [done|]. by intros []. }
  revert held; induction p as [a|o k IH|l k IH]; intros held; [done|..]; intros [H1 H2];
    (split; [exact H1|]); (intros [r|]; [apply IH, H2|apply Hrel]).
Qed.

Lemma obeys_plain j c {A} (p : prog A) : all_ops (plain_op c) plain_label p -> obeys j p.
Proof. apply all_ops_weaken; [by intros []|by intros []]. Qed.

(** A straight line of operations. *)
Ltac line := repeat (split; [first [done|by left|by right]|]; intros ?); try done.

(** ** Every function obeys *)

Lemma obeys_new_stream_fut j c host : obeys j (new_stream_fut c host).
Proof. by repeat split. Qed.

Lemma obeys_new_stream j f : obeys j (new_stream f).
Proof. eapply obeys_plain, plain_new_stream. Qed.

Lemma obeys_stream_body j c host : obeys j (stream_body c host).
Proof.
  split; [done|]. intros [| |conn]; [done| |].
  - next; apply obeys_bind; [eapply obeys_plain, plain_new_connection|]. intros [conn|e]; by repeat split.
  - split; [done|]. intros [|]; by repeat split.
Qed.

Lemma obeys_quic_poll_body j conn host st : obeys j (quic_poll_body conn host st).
Proof. destruct st; cbn [quic_poll_body]; [by split|..]; (split; [done|]); intros []; by repeat split. Qed.

Lemma obeys_reset_client j c : obeys j (client_reset_client c).
Proof. split; [done|]. intros []. split; [done|]. intros [| |conn]; by repeat split. Qed.

Lemma obeys_try_connect j b host : obeys j (try_connect b host).
Proof.
  split; [done|]. intros self. next; apply obeys_bind; [|by intros []].
  apply obeys_select; next; apply obeys_bind; [apply obeys_new_stream_fut|]. intros [f|e]; [apply obeys_new_stream|done].
Qed.

Lemma obeys_retry_connect b : obeys (JRetry b) (retry_connect b).
Proof.
  assert (obeys (JRetry b) (retry_attempt b)).
  { unfold retry_attempt. split; [by right|]. intros []. split; [done|]. intros self.
    next; apply obeys_bind; [apply obeys_reset_client|]. intros []. next; apply obeys_bind; [apply obeys_try_connect|].
    intros [s|e].
    - split; [by repeat split; left|]. intros []. split; [by right|]. done.
    - split; [done|]. intros s. case_decide; cbn.
      + split; [by repeat split; right|]. intros []. split; [by right|]. done.
      + split; [by right|]. done. }
  split; [done|]. intros []; try done; (split; [done|]); by intros [].
Qed.

Lemma obeys_next_available_backend j peer : obeys j (next_available_backend peer).
Proof.
  assert (Hn : forall name ids, obeys j (named_backend name ids)).
  { intros name. induction ids as [|b ids IH]; [done|]. cbn [named_backend]. split; [done|]. intros n.
    next. case_decide; [by repeat split|done]. }
  assert (Ha : forall ids, obeys j (available_loop ids)).
  { induction ids as [|b ids IH]; [done|]. cbn [available_loop]. split; [done|]. intros s.
    next; apply obeys_bind; [done|]. by intros. }
  unfold next_available_backend. destruct (get_backend_name_by_rule peer);
    [|done|split; [done|]; intros n; apply Hn].
  next; apply obeys_bind; [split; [done|]; intros n; apply Ha|]. intros [|b [|b' bs]]; by repeat split.
Qed.

Lemma obeys_handle_body peer p : get_addr p = get_addr peer -> obeys (JConnect peer) (handle_body p).
Proof.
  intros Hp. next; apply obeys_bind; [apply obeys_next_available_backend|]. intros [| | |b]; [by repeat split|done|done|].
  split; [done|]. intros []. split; [done|]. intros start.
  next; apply obeys_bind; [apply obeys_try_connect|]. intros [o|e]; [by repeat split|].
  split; [done|]. intros []. split; [done|]. intros []. split; [done|]. intros []. split; [|done]. by exists peer.
Qed.

Lemma obeys_body j l : lmay j l -> obeys j (body l).
Proof.
  induction l as [c host|conn host st|b period n|p|t l IH]; intros Hl.
  - apply obeys_stream_body.
  - apply obeys_quic_poll_body.
  - cbn in Hl. subst. cbn [body]. unfold retry_body. case_decide; [done|].
    split; [done|]. intros []. split; [done|]. intros [].
    next; apply obeys_bind; [apply obeys_retry_connect|]. intros []; (split; [done|]); intros []; [|done]. by split.
  - destruct Hl as (peer & -> & Hp). by apply obeys_handle_body.
  - by apply obeys_select, IH.
Qed.

Lemma obeys_transfer peer b o t : obeys (JConnect peer) (transfer b o t (get_addr peer)).
Proof.
  split; [done|]. intros start. split; [done|]. intros self. next; apply obeys_bind.
  - apply obeys_select. by destruct o; repeat split.
  - intros [[[i o']|e]|]; by repeat split.
Qed.

Lemma find_rule_addr p : get_addr (find_rule_for_peer rules p) = get_addr p.
Proof. destruct rules as [r|]; [|done]. cbn. unfold find_rule. by destruct (get_rule p). Qed.

Lemma obeys_detach j {A} (p : prog A) : obeys j p -> obeys j (detach p).
Proof. intros Hp. by apply obeys_bind. Qed.

Lemma obeys_handle_connect peer : obeys (JConnect peer) (handle_connect rules peer).
Proof.
  unfold handle_connect. pose proof (find_rule_addr peer) as Ha.
  set (p := find_rule_for_peer rules peer) in *. split; [by exists peer|].
  intros [[[o t] b]|]; [|done]. next. unfold handle_transfer. split; [done|]. intros [].
  split; [exact Ha|]. intros []. next. rewrite Ha. apply obeys_bind; [apply obeys_transfer|].
  intros [u|e]; next; [by split|]. split; [done|]. intros []. by split.
Qed.

Lemma obeys_switch_protocol id b : obeys (JApi (ReqSwitchBackendProtocol id)) (switch_protocol b).
Proof.
  split; [done|]. intros self. split; [done|]. intros []. split; [done|]. intros fs. next.
  destruct (build_client Release fs _) as [[[mix dom]|e]|]; [|done|by split].
  split; [done|]. intros c. split; [done|]. intros []. next. unfold renew_cancellation_token.
  split; [done|]. intros t. split; [done|]. intros []. split; [by left|]. intros []. split; [done|]. intros [].
  next. apply obeys_bind; [|by intros []]. split; [done|]. intros self'. next.
  apply obeys_bind; [apply obeys_reset_client|]. intros []. by split.
Qed.

Lemma obeys_api req : obeys (JApi req) (backend_metric_switcher req).
Proof.
  assert (Hl : forall ids, obeys (JApi req) (metrics_loop ids)).
  { induction ids as [|b ids IH]; [done|]. cbn [metrics_loop]. split; [done|]. intros m. next.
    apply obeys_bind; [done|]. by intros. }
  destruct req as [i|i|i|]; cbn [backend_metric_switcher]; next; apply obeys_bind; try (by intros);
    (split; [done|]); intros n; [| | |apply Hl]; next; (case_decide; [|done]); cbn -[reset_client switch_protocol].
  - line. match goal with s : BackendStatus |- _ => destruct s end; line.
  - do 3 (split; [done|]; intros ?). split; [done|]. intros []. split; [done|]. intros []. next.
    apply obeys_bind; [apply obeys_switch_protocol|]. intros res. by split.
  - do 2 (split; [done|]; intros ?). split; [done|]. intros []. next. apply obeys_bind.
    + split; [done|]. intros self. next. apply obeys_bind; [apply obeys_reset_client|]. intros []. by split.
    + intros []. line.
Qed.

Lemma obeys_job j : obeys j (job_prog rules j).
Proof.
  destruct j as [b|b peer|peer|peer|peer|req]; cbn [job_prog].
  - split; [done|]. intros []. split; [done|]. intros self. split; [done|]. intros []. next.
    case_decide; [done|]. by split.
  - by split.
  - apply obeys_detach. unfold direct_connection.
    destruct (head_as_str (get_host_by_rule peer)); [|done]. split; [done|]. intros []; [|done]. by split.
  - apply obeys_detach, obeys_handle_connect.
  - apply obeys_detach. split; [done|]. intros res. by split.
  - apply obeys_detach, obeys_api.
Qed.

(** ** The effect of one step *)

(** How a task may change the metric of backend [b]. *)
Definition metric_step (j : job) (b : nat) (m m' : MetricData) : Prop :=
  m' = m \/ exists now call, allowed j b call /\ absorb_all Release now (call_ops call) m = Done m'.

(** ... and the fields of backend [b]. *)
Definition fields_step (j : job) (b : nat) (f f' : Backend) : Prop :=
  f' = f \/ is_mutator j \/ j = JRetry b /\ exists v, f' = set_retrying v f.

Definition cell_step (j : job) (w w' : World) : Prop :=
  forall b c, w_backends w !! b = Some c -> exists c', w_backends w' !! b = Some c' /\
    metric_step j b (be_metric c) (be_metric c') /\ fields_step j b (be_backend c) (be_backend c').

Lemma cell_step_same j w w' : w_backends w' = w_backends w -> cell_step j w w'.
Proof. intros E b c Hc. exists c. rewrite E. split; [done|]. by split; left. Qed.

Lemma cell_step_insert j w b c c' :
  w_backends w !! b = Some c -> metric_step j b (be_metric c) (be_metric c') ->
  fields_step j b (be_backend c) (be_backend c') ->
  cell_step j w (with_backends (<[b := c']> (w_backends w)) w).
Proof.
  intros Hc Hm Hf i x Hx. cbn. destruct (decide (i = b)) as [->|Hi].
  - exists c'. rewrite list_lookup_insert_eq by (by eapply lookup_lt_Some). simplify_eq. by split.
  - exists x. rewrite list_lookup_insert_ne by done. split; [done|]. by split; left.
Qed.

Lemma op_cell_step j e o w r w' js :
  may j o -> op_eval e o w = Some (r, w', js) -> cell_step j w w' /\ Forall (spawns j) js.
Proof.
  revert r w' js; induction o; intros r w' js Hm H; op_inv H; cbn in Hm.
  all: try (split; [|by apply Forall_nil_2]).
  all: try (destruct (w_backends w !! b); cbn in H; [|done]; injection H as <- <- <-;
    split; [by apply cell_step_same|by apply Forall_nil_2]).
  all: try (destruct (w_clients w !! c); cbn in H; [|done]; injection H as <- <- <-;
    split; [by apply cell_step_same|by apply Forall_nil_2]).
  all: try (injection H as <- <- <-; split; [by apply cell_step_same|by repeat constructor]).
  all: try (by apply cell_step_same).
  all: try (repeat case_match; simplify_eq; eapply cell_step_insert; [done|by left|by left]).
  all: try (simplify_eq; eapply cell_step_insert; [done|by left|by right; left]).
  - destruct (absorb_all Release (e_now e) (call_ops c) (be_metric c0)) as [m|] eqn:Em; [|done].
    simplify_eq. eapply cell_step_insert; [done| |by left]. right. by exists (e_now e), c.
  - simplify_eq. eapply cell_step_insert; [done|by left|]. right.
    destruct Hm as [Hm|Hm]; [by left|right]. split; [done|]. by exists v.
  - destruct (balance_next _ _ _ _ _) as [[x b]|]; [|done]. injection H as <- <- <-.
    split; [by apply cell_step_same|by apply Forall_nil_2].
  - done.
  - destruct (e_net e q); [|done]. injection H as <- <- <-.
    split; [by apply cell_step_same|by apply Forall_nil_2].
  - case_match; [injection H as <- <- <-; split; [by apply cell_step_same|by apply Forall_nil_2]|].
    destruct (op_eval e o w) as [[[r0 w0] js0]|] eqn:E; [|done]. injection H as <- <- <-. by eapply IHo.
Qed.

(** ** All reachable states *)

Definition start (w : World) : Pool := {| p_tasks := []; p_world := w |}.

Definition all_obey (s : Pool) : Prop := forall i j p, p_tasks s !! i = Some (j, p) -> obeys j p.

Lemma all_obey_spawn s js w :
  all_obey s -> all_obey {| p_tasks := p_tasks s ++ spawn_all (job_prog rules) js; p_world := w |}.
Proof.
  intros H i j p. cbn. intros Ht. apply lookup_app_Some in Ht as [Ht|[_ Ht]]; [by eapply H|].
  unfold spawn_all in Ht. rewrite list_lookup_fmap in Ht. destruct (js !! _) as [j0|]; [|done].
  injection Ht as <- <-. apply obeys_job.
Qed.

(** A step of a task: what it leaves of itself, of the store, and spawns. *)
Lemma step_prog_obeys j e (p p' : prog unit) w w' js :
  obeys j p -> step_prog body e p w = Some (p', w', js) ->
  obeys j p' /\ cell_step j w w' /\ Forall (spawns j) js.
Proof.
  destruct p as [a|o k|l k]; cbn; [done| |].
  - intros [H1 H2] H. destruct (op_eval e o w) as [[[r w1] js1]|] eqn:E; [|done]. cbn in H. simplify_eq.
    split; [apply H2|]. by eapply op_cell_step.
  - intros [H1 H2] H. simplify_eq. split; [|split; [by apply cell_step_same|done]].
    apply obeys_bind; [by apply obeys_body|done].
Qed.

Lemma step_task_obeys s i e s' :
  all_obey s -> step_task body (job_prog rules) i e s = Some s' ->
  exists j p js p', p_tasks s !! i = Some (j, p) /\
    p_tasks s' = <[i := (j, p')]> (p_tasks s) ++ spawn_all (job_prog rules) js /\
    obeys j p' /\ cell_step j (p_world s) (p_world s') /\ Forall (spawns j) js.
Proof.
  intros Hs H. unfold step_task in H. destruct (p_tasks s !! i) as [[j p]|] eqn:Ht; [|done]. cbn in H.
  destruct (step_prog body e p (p_world s)) as [[[p' w'] js]|] eqn:Es; [|done]. cbn in H. simplify_eq.
  exists j, p, js, p'. do 2 (split; [done|]). eapply step_prog_obeys; [by eapply Hs|exact Es].
Qed.

Lemma reachable_obey w s : reachable body (job_prog rules) (start w) s -> all_obey s.
Proof.
  induction 1 as [|s ev s' Hr IH Hs]; [by intros i j p|]. destruct ev as [i e|j]; cbn in Hs.
  - destruct (step_task_obeys s i e s' IH Hs) as (j & p & js & p' & Ht & E & Hp & _ & _).
    destruct s' as [ts w']. cbn in E. subst ts.
    apply (all_obey_spawn {| p_tasks := <[i:=(j, p')]> (p_tasks s); p_world := w' |}).
    intros i' j1 p1 H1. cbn in H1. apply list_lookup_insert_Some in H1 as [(-> & [= <- <-] & _)|[_ H1]]; [done|].
    by eapply IH.
  - destruct (external j); [|done]. simplify_eq. by apply (all_obey_spawn s [j]).
Qed.

(** The status after a call. *)
Lemma absorb_first_status now o d d' :
  absorb_first Release now o d = Done d' ->
  status d' = match o with ChangeStatus s => s | _ => status d end.
Proof.
  destruct o; cbn; unfold uadd, usub; rewrite ?fit_release; cbn; try (by intros [= <-]).
  - case_match; rewrite ?fit_release; cbn; by intros [= <-].
  - case_match; [case_decide|]; rewrite ?fit_release; cbn; by intros [= <-].
Qed.

Definition call_status (call : MetricCall) (s : BackendStatus) : BackendStatus :=
  match call with CallSetStatus s' => s' | _ => s end.

Lemma call_status_spec now call d d' :
  absorb_all Release now (call_ops call) d = Done d' -> status d' = call_status call (status d).
Proof.
  assert (Hops : forall ops d, Forall (fun o => match o with ChangeStatus _ => False | _ => True end) ops ->
    absorb_all Release now ops d = Done d' -> status d' = status d).
  { induction ops as [|o ops IH]; intros d0 Ho H; cbn in H; [by simplify_eq|].
    apply Forall_cons_1 in Ho as [Ho1 Ho2].
    destruct (absorb_first Release now o d0) as [d1|] eqn:E; [|done]. cbn in H.
    rewrite (IH _ Ho2 H), (absorb_first_status _ _ _ _ E). by destruct o. }
  destruct call; cbn [call_ops call_status]; try (apply Hops; by repeat constructor).
  cbn. by intros [= <-].
Qed.

Section Step.
Context (w : World) (s s' : Pool) (i : nat) (e : Env) (j : job) (p : prog unit).
Context (Hs : reachable body (job_prog rules) (start w) s) (Hi : p_tasks s !! i = Some (j, p)).
Context (Hstep : step_task body (job_prog rules) i e s = Some s').
Context (b : nat) (c c' : BackendCell).
Context (Hc : w_backends (p_world s) !! b = Some c) (Hc' : w_backends (p_world s') !! b = Some c').

Lemma step_facts : metric_step j b (be_metric c) (be_metric c') /\ fields_step j b (be_backend c) (be_backend c') /\
  exists js p', p_tasks s' = <[i := (j, p')]> (p_tasks s) ++ spawn_all (job_prog rules) js /\ Forall (spawns j) js.
Proof.
  destruct (step_task_obeys s i e s' (reachable_obey w s Hs) Hstep) as (j1 & p1 & js & p' & Ht & E & _ & Hcell & Hjs).
  rewrite Hi in Ht. simplify_eq. destruct (Hcell b c Hc) as (c1 & Hc1 & H1 & H2).
  rewrite Hc' in Hc1. simplify_eq. split; [done|]. split; [done|]. by exists js, p'.
Qed.

(** In every reachable state, a step changes a backend's metric by one call its
    task may make - an opening by the [JIncr] of that peer and backend, a close
    by the handler of that peer, a reset and a protocol change by an API
    request - and the backend's fields only from an API request, the retry
    flag also from the backend's retry task; it spawns only what [spawns]
    allows. *)
Theorem step_writers :
  metric_step j b (be_metric c) (be_metric c') /\ fields_step j b (be_backend c) (be_backend c') /\
  exists js p', p_tasks s' = <[i := (j, p')]> (p_tasks s) ++ spawn_all (job_prog rules) js /\
    Forall (spawns j) js.
Proof. exact step_facts. Qed.

End Step.

(** C6: The retry task of a backend is the only way it turns [Normal] from
    another status. *)
Theorem only_retry_revives w s s' i e j p :
  reachable body (job_prog rules) (start w) s -> p_tasks s !! i = Some (j, p) ->
  step_task body (job_prog rules) i e s = Some s' ->
  forall b c c', w_backends (p_world s) !! b = Some c -> w_backends (p_world s') !! b = Some c' ->
  status (be_metric c) <> Normal -> status (be_metric c') = Normal -> j = JRetry b.
Proof.
  intros Hs Hi Hstep b c c' Hc Hc' Hn Hy.
  destruct (step_facts w s s' i e j p Hs Hi Hstep b c c' Hc Hc') as ([E|(now & call & Ha & Hm)] & _);
    [by rewrite E in Hy|].
  apply call_status_spec in Hm. rewrite Hy in Hm.
  destruct call; cbn in Hm; try (by destruct Hn). subst. destruct j; cbn in Ha; try done.
  - by destruct Ha as [-> _].
  - by destruct Ha.
Qed.
End Writers.

(** ** Witnesses

    A handler whose server refuses closes backend 0; its retry task, one step
    before it succeeds. *)

Definition revive_events : list event :=
  Arrive (JConnect (peer_new "example.com:443" (SocketV4 (Ipv4 127 0 0 1) 50000)))
  :: run_n 0 24 (env_refused 0) ++ run_n 1 32 (env_ok 1).

(** The states around the next step of task 1, with the cells of backend 0. *)
Definition revive_step : option (Pool * Pool * job * prog unit * BackendCell * BackendCell) :=
  match run_example revive_events with
  | Some s =>
      match step_task body (job_prog None) 1 (env_ok 1) s with
      | Some s' =>
          match p_tasks s !! 1%nat, w_backends (p_world s) !! 0%nat, w_backends (p_world s') !! 0%nat with
          | Some (j, p), Some c, Some c' => Some (s, s', j, p, c, c')
          | _, _, _ => None
          end
      | None => None
      end
  | None => None
  end.

Lemma revive_step_Some s s' j p c c' :
  revive_step = Some (s, s', j, p, c, c') ->
  reachable body (job_prog None) (start example_world) s /\ p_tasks s !! 1%nat = Some (j, p) /\
  step_task body (job_prog None) 1 (env_ok 1) s = Some s' /\
  w_backends (p_world s) !! 0%nat = Some c /\ w_backends (p_world s') !! 0%nat = Some c'.
Proof.
  unfold revive_step. destruct (run_example revive_events) as [s0|] eqn:E1; [|done].
  destruct (step_task body (job_prog None) 1 (env_ok 1) s0) as [s1|] eqn:E2; [|done].
  destruct (p_tasks s0 !! 1%nat) as [[j0 p0]|] eqn:E3; [|done].
  destruct (w_backends (p_world s0) !! 0%nat) as [c0|] eqn:E4; [|done].
  destruct (w_backends (p_world s1) !! 0%nat) as [c1|] eqn:E5; [|done].
  intros [= <- <- <- <- <- <-]. split; [exact (example_reachable _ _ E1)|].
  exact (conj E3 (conj E2 (conj E4 E5))).
Qed.

Definition revive_check : bool :=
  match revive_step with
  | Some (_, _, _, _, c, c') =>
      bool_decide (status (be_metric c) = Closed) && bool_decide (status (be_metric c') = Normal)
  | None => false
  end.

Lemma revive_check_true : revive_check = true.
Proof. vm_compute. reflexivity. Qed.

Lemma step_writers_witness :
  match revive_step with
  | Some (s, s', j, p, c, c') => metric_step j 0 (be_metric c) (be_metric c')
  | None => False
  end.
Proof.
  pose proof revive_check_true as R. unfold revive_check in R.
  destruct revive_step as [[[[[[s s'] j] p] c] c']|] eqn:E; [|discriminate R].
  destruct (revive_step_Some s s' j p c c' E) as (H1 & H2 & H3 & H4 & H5).
  exact (proj1 (step_writers None example_world s s' 1 (env_ok 1) j p H1 H2 H3 0 c c' H4 H5)).
Defined.

Lemma only_retry_revives_witness :
  match revive_step with
  | Some (s, s', j, p, c, c') => status (be_metric c) = Closed /\ status (be_metric c') = Normal /\ j = JRetry 0
  | None => False
  end.
Proof.
  pose proof revive_check_true as R. unfold revive_check in R.
  destruct revive_step as [[[[[[s s'] j] p] c] c']|] eqn:E; [|discriminate R].
  apply andb_prop in R as [R1 R2]. apply bool_decide_eq_true in R1. apply bool_decide_eq_true in R2.
  destruct (revive_step_Some s s' j p c c' E) as (H1 & H2 & H3 & H4 & H5).
  split; [exact R1|]. split; [exact R2|].
  apply (only_retry_revives None example_world s s' 1 (env_ok 1) j p H1 H2 H3 0 c c' H4 H5);
    [rewrite R1; discriminate|exact R2].
Defined.
