(* ===== verification/Liveness.v ===== *)
(** * Every task finishes

    Whatever the network answers - refusals, errors and time-outs included -
    and whichever cancellations win, every task of the client comes to its end,
    provided that only finitely often a connection is found closed, a QUIC
    write of a head stalls, or a retry makes a backend [Normal] again.  Without
    that proviso the code can run for ever: a handler reconnects for as long as
    new connections die, a stalled write is polled again, and a handler returns
    to a backend that is revived each time it failed.

    [live n] is a total-correctness judgement for one task among others in a run
    that has [n] such events left.  It assumes of the other tasks what the locks
    and the budget guarantee: what a task has read of a client's state under its
    mutex stays true, and a backend it has closed stays closed, until the next
    such event.  [Fair] and a well-founded order of the tasks' remaining work
    give termination of the whole pool under every schedule. *)

From Stdlib Require Import List_Extension FunctionalExtensionality.
From S2P Require Import Prelude NetAddr LibProxy LibMetric Metric Tls BackendConfig Peer Balance World Connector Backend Proxy MetricApi Discipline System Example Locks Safety Fair Writers.

Section Liveness.
Context `{F : F64} `{CL : ClientLib} `{HR : HashRing} `{TL : TlsLib}.
Context (rules : option HostRuler).
(** The number of backends. *)
Context (nb : nat).

(** ** Fluctuations *)

(** A connection is found closed, a write of a head stalls, a backend is made
    [Normal] again. *)
Fixpoint fluctuates (o : op) : resp o -> bool :=
  match o return resp o -> bool with
  | Net q =>
      match q return net_resp q -> bool with
      | IsFinished _ => fun fin => fin
      | QuicPollWrite _ _ => fun r => match r with WPending _ => true | _ => false end
      | _ => fun _ => false
      end
  | CallMetric _ (CallSetStatus Normal) => fun _ => true
  | OrCancel _ o => fun r => match r with Some r => fluctuates o r | None => false end
  | _ => fun _ => false
  end.

(** ** What a task knows *)

(** The state of the client whose mutex the task holds, once it has read or
    written it; backends that are not [Normal]. *)
Record Know := { k_state : option (client_id * ClientState); k_down : list backend_id }.

Definition nothing : Know := {| k_state := None; k_down := [] |}.
Definition set_state (st : option (client_id * ClientState)) (κ : Know) : Know :=
  {| k_state := st; k_down := k_down κ |}.

Fixpoint learn (κ : Know) (o : op) : resp o -> Know :=
  match o return resp o -> Know with
  | GetState c => fun s => set_state (Some (c, s)) κ
  | SetState c s => fun _ => set_state (Some (c, s)) κ
  | LockInner _ | UnlockInner _ => fun _ => set_state None κ
  | CallMetric b (CallSetStatus s) => fun _ =>
      {| k_state := k_state κ; k_down := if decide (s = Normal) then k_down κ else b :: k_down κ |}
  | OrCancel _ o => fun r => match r with Some r => learn κ o r | None => κ end
  | _ => fun _ => κ
  end.

(** The answers that agree with what is known. *)
Fixpoint answer (κ : Know) (o : op) : resp o -> Prop :=
  match o return resp o -> Prop with
  | GetState c => fun s => match k_state κ with Some (c', s') => c = c' -> s = s' | None => True end
  | GetStatus b => fun s => b ∈ k_down κ -> s <> Normal
  | NumBackends => fun n => n = nb
  | BalanceNext items _ => fun r => match r with Some b => b ∈ items | None => True end
  | OrCancel _ o => fun r => match r with Some r => answer κ o r | None => True end
  | _ => fun _ => True
  end.

(** An answer that is no fluctuation. *)
Definition steady (κ : Know) (o : op) (r : resp o) : Prop := answer κ o r /\ fluctuates o r = false.

(** ** The judgement *)

Definition Q_ (A : Type) : Type := nat -> A -> Know -> Prop.
Definition QTrue {A} : Q_ A := fun _ _ _ => True.

(** At each fluctuation the budget goes down, and nothing is known any more. *)
Inductive live : forall (n : nat) {A}, Q_ A -> Know -> prog A -> Prop :=
  | live_ret n A (Q : Q_ A) κ a : Q n a κ -> (forall m, (m < n)%nat -> Q m a nothing) -> live n Q κ (Ret a)
  | live_vis n A (Q : Q_ A) κ o k :
      (forall r, steady κ o r -> live n Q (learn κ o r) (k r)) ->
      (forall r m, fluctuates o r = true -> (m < n)%nat -> live m Q nothing (k r)) ->
      (forall m, (m < n)%nat -> live m Q nothing (Vis o k)) ->
      (forall j, base o = Spawn j -> live n QTrue nothing (job_prog rules j)) ->
      live n Q κ (Vis o k)
  | live_call n A (Q : Q_ A) κ l k (Q' : Q_ (lresp l)) :
      live n Q' κ (body l) -> (forall m r κ', (m <= n)%nat -> Q' m r κ' -> live m Q κ' (k r)) ->
      live n Q κ (Call l k).

Lemma live_inv n {A} (Q : Q_ A) κ p :
  live n Q κ p ->
  match p with
  | Ret a => Q n a κ
  | Vis o k => (forall r, steady κ o r -> live n Q (learn κ o r) (k r)) /\
      (forall r m, fluctuates o r = true -> (m < n)%nat -> live m Q nothing (k r)) /\
      (forall j, base o = Spawn j -> live n QTrue nothing (job_prog rules j))
  | Call l k => exists Q' : Q_ (lresp l),
      live n Q' κ (body l) /\ forall m r κ', (m <= n)%nat -> Q' m r κ' -> live m Q κ' (k r)
  end.
Proof. destruct 1; eauto. Qed.

(** Another task's fluctuation. *)
Lemma live_lower n m {A} (Q : Q_ A) κ p : live n Q κ p -> (m < n)%nat -> live m Q nothing p.
Proof.
  intros Hp. revert m. induction Hp as [n A Q κ a Ha Hl|n A Q κ o k Hk IH Hf IHf Hl IHl Hj IHj|n A Q κ l k Q1 Hb IHb Hk IHk]; intros m Hm.
  - apply live_ret; [by apply Hl|]. intros m' Hm'. apply Hl. lia.
  - by apply Hl.
  - apply (live_call _ _ _ _ _ _ Q1); [by apply IHb|]. intros m' r κ' Hm'. apply Hk. lia.
Qed.

Lemma live_bind n {A B} (Q : Q_ A) (Q' : Q_ B) κ p (f : A -> prog B) :
  live n Q κ p -> (forall m a κ', (m <= n)%nat -> Q m a κ' -> live m Q' κ' (f a)) -> live n Q' κ (pbind p f).
Proof.
  intros Hp. revert B Q' f. induction Hp as [n A Q κ a Ha Hl|n A Q κ o k Hk IH Hf IHf Hl IHl Hj IHj|n A Q κ l k Q1 Hb IHb Hk IHk];
    intros B Q' f Hq; cbn.
  - by apply Hq.
  - apply live_vis; [| | |exact Hj].
    + intros r Hr. by apply IH.
    + intros r m Hr Hm. apply (IHf r m Hr Hm). intros m' a κ' Hm'. apply Hq. lia.
    + intros m Hm. apply (IHl m Hm). intros m' a κ' Hm'. apply Hq. lia.
  - apply (live_call _ _ _ _ _ _ Q1); [exact Hb|]. intros m r κ' Hm Hr. apply (IHk m r κ' Hm Hr).
    intros m' a κ2 Hm'. apply Hq. lia.
Qed.

Lemma live_weaken n {A} (Q Q' : Q_ A) κ p :
  live n Q κ p -> (forall m a κ', (m <= n)%nat -> Q m a κ' -> Q' m a κ') -> live n Q' κ p.
Proof.
  intros Hp. revert Q'. induction Hp as [n A Q κ a Ha Hl|n A Q κ o k Hk IH Hf IHf Hl IHl Hj IHj|n A Q κ l k Q1 Hb IHb Hk IHk];
    intros Q' Hq.
  - apply live_ret; [by apply Hq|]. intros m Hm. apply Hq; [lia|by apply Hl].
  - apply live_vis; [| | |exact Hj].
    + intros r Hr. by apply IH.
    + intros r m Hr Hm. apply (IHf r m Hr Hm). intros m' a κ' Hm'. apply Hq. lia.
    + intros m Hm. apply (IHl m Hm). intros m' a κ' Hm'. apply Hq. lia.
  - apply (live_call _ _ _ _ _ _ Q1); [exact Hb|]. intros m r κ' Hm Hr. apply (IHk m r κ' Hm Hr).
    intros m' a κ2 Hm'. apply Hq. lia.
Qed.

(** What is down stays down up to the next fluctuation. *)
Lemma learn_down κ o r D : D ⊆ k_down κ -> D ⊆ k_down (learn κ o r).
Proof.
  revert r; induction o; intros r HD; try exact HD; cbn.
  - destruct c; try exact HD. cbn. case_decide; [exact HD|]. set_solver.
  - destruct r; [by apply IHo|done].
Qed.

Lemma live_down n0 n {A} (Q : Q_ A) κ p D :
  live n Q κ p -> (n <= n0)%nat -> (n = n0 -> D ⊆ k_down κ) ->
  live n (fun m a κ' => Q m a κ' /\ (m = n0 -> D ⊆ k_down κ')) κ p.
Proof.
  intros Hp. revert D. induction Hp as [n A Q κ a Ha Hl|n A Q κ o k Hk IH Hf IHf Hl IHl Hj IHj|n A Q κ l k Q1 Hb IHb Hk IHk]; intros D Hn HD.
  - apply live_ret; [done|]. intros m Hm. split; [by apply Hl|lia].
  - apply live_vis; [| | |exact Hj].
    + intros r Hr. apply IH; [done|done|]. intros E. by apply learn_down, HD.
    + intros r m Hr Hm. apply (IHf r m Hr Hm); lia.
    + intros m Hm. apply (IHl m Hm); lia.
  - apply (live_call _ _ _ _ _ _ (fun m r κ' => Q1 m r κ' /\ (m = n0 -> D ⊆ k_down κ'))); [by apply IHb|].
    intros m r κ' Hm [Hr Hd]. apply (IHk m r κ' Hm Hr); [lia|done].
Qed.

(** [select!]: the cancellation may win at any operation. *)
Definition or_none {A} (Q : Q_ A) : Q_ (option A) :=
  fun m r κ => match r with Some a => Q m a κ | None => True end.

Lemma live_release n {A} (Q : Q_ A) κ held : live n (or_none Q) κ (release held None).
Proof.
  revert n κ; induction held as [|c held IH]; intros n κ; [by apply live_ret|]. cbn.
  revert κ; induction n as [n IHn] using lt_wf_ind; intros κ.
  apply live_vis; [intros r _; apply IH|intros r m _ _; apply IH|intros m Hm; by apply IHn|done].
Qed.

Lemma live_select n {A} (Q : Q_ A) κ t held p : live n Q κ p -> live n (or_none Q) κ (select_cancel t held p).
Proof.
  intros Hp. revert held. induction Hp as [n A Q κ a Ha Hl|n A Q κ o k Hk IH Hf IHf Hl IHl Hj IHj|n A Q κ l k Q1 Hb IHb Hk IHk];
    intros held; cbn [select_cancel].
  - by apply live_ret.
  - apply live_vis; [| | |exact Hj].
    + intros [r|] [Hr Hfl]; [by apply IH|apply live_release].
    + intros [r|] m Hr Hm; [by apply IHf|apply live_release].
    + intros m Hm. by apply IHl.
  - apply (live_call _ _ _ _ (LSel t l) _ (or_none Q1)); [apply (IHb [])|]. intros m [r|] κ' Hm Hr; [by apply IHk|apply live_release].
Qed.

(** ** Triples

    [ends n K p Q]: with [n] fluctuations left and [K] known, [p] ends, and if
    none happened meanwhile [Q] is known of its result. *)
Definition guard {A} (n : nat) (Q : A -> Know -> Prop) : Q_ A := fun m a κ => m = n -> Q a κ.

Definition ends (n : nat) {A} (K : Know -> Prop) (p : prog A) (Q : A -> Know -> Prop) : Prop :=
  forall m κ, (m <= n)%nat -> (m = n -> K κ) -> live m (guard n Q) κ p.

Definition any : Know -> Prop := fun _ => True.
Definition lives {A} (p : prog A) : Prop := forall n, ends n any p (fun _ => any).

Lemma guard_below n m {A} (Q : A -> Know -> Prop) κ p :
  (m < n)%nat -> ends m any p (fun _ => any) -> live m (guard n Q) κ p.
Proof.
  intros Hm Hp. apply (live_weaken _ (guard m (fun _ => any))); [by apply Hp|]. intros m' a κ' Hm' _ E. lia.
Qed.

Lemma ends_ret n {A} (K : Know -> Prop) (a : A) (Q : A -> Know -> Prop) : (forall κ, K κ -> Q a κ) -> ends n K (Ret a) Q.
Proof. intros H m κ Hm HK. apply live_ret; [intros E; by apply H, HK|]. intros m' Hm' E. lia. Qed.

Lemma ends_op n {A} K o (k : resp o -> prog A) Q :
  (forall j, base o = Spawn j -> lives (job_prog rules j)) ->
  (forall r, ends n (fun κ' => exists κ, K κ /\ steady κ o r /\ κ' = learn κ o r) (k r) Q) -> ends n K (Vis o k) Q.
Proof.
  intros Hj Hk m. induction m as [m IH] using lt_wf_ind. intros κ Hm HK. apply live_vis.
  - intros r Hr. apply Hk; [done|]. intros E. exists κ. split; [by apply HK|done].
  - intros r m' _ Hm'. apply Hk; lia.
  - intros m' Hm'. apply IH; lia.
  - intros j E. apply (live_weaken _ (guard m (fun _ => any))); [by apply (Hj j E m)|done].
Qed.

Lemma ends_bind n {A B} K (Q : A -> Know -> Prop) (Q' : B -> Know -> Prop) p (f : A -> prog B) :
  ends n K p Q -> (forall a, ends n (Q a) (f a) Q') -> ends n K (pbind p f) Q'.
Proof.
  intros Hp Hf m κ Hm HK. eapply live_bind; [by apply Hp|]. intros m' a κ' Hm' Ha. apply Hf; [lia|exact Ha].
Qed.

Lemma ends_call n {A} K l (Q' : lresp l -> Know -> Prop) (k : lresp l -> prog A) Q :
  ends n K (body l) Q' -> (forall r, ends n (Q' r) (k r) Q) -> ends n K (Call l k) Q.
Proof.
  intros Hb Hk m κ Hm HK. apply (live_call _ _ _ _ _ _ (guard n Q')); [by apply Hb|].
  intros m' r κ' Hm' Hr. apply Hk; [lia|exact Hr].
Qed.

Lemma ends_weaken n {A} (K K' : Know -> Prop) p (Q Q' : A -> Know -> Prop) :
  ends n K p Q -> (forall κ, K' κ -> K κ) -> (forall a κ, Q a κ -> Q' a κ) -> ends n K' p Q'.
Proof.
  intros Hp HK HQ m κ Hm Hκ. apply (live_weaken _ (guard n Q)); [apply Hp; [done|auto]|].
  intros m' a κ' _ Ha E. by apply HQ, Ha.
Qed.

(** A case that can only be reached by a fluctuation. *)
Lemma ends_below n {A} (K : Know -> Prop) (p : prog A) Q :
  (forall κ, ~ K κ) -> (forall m, (m < n)%nat -> ends m any p (fun _ => any)) -> ends n K p Q.
Proof.
  intros HK Hp m κ Hm Hκ. destruct (decide (m = n)) as [E|E]; [destruct (HK κ (Hκ E))|].
  apply guard_below; [lia|]. apply Hp. lia.
Qed.

(** A fact that holds unless there was one. *)
Lemma ends_fact n {A} (φ : Prop) `{Decision φ} (K : Know -> Prop) (p : prog A) Q :
  (forall κ, K κ -> φ) -> (φ -> ends n K p Q) -> (forall m, (m < n)%nat -> ends m any p (fun _ => any)) -> ends n K p Q.
Proof.
  intros HK Hp Hl. destruct (decide φ) as [D|D]; [by apply Hp|]. apply ends_below; [|done]. intros κ Hκ. by apply D, (HK κ).
Qed.

(** Any program keeps the backends down that are known to be. *)
Lemma ends_down n {A} (p : prog A) D :
  lives p -> ends n (fun κ => D ⊆ k_down κ) p (fun _ κ => D ⊆ k_down κ).
Proof.
  intros Hp m κ Hm HK. eapply live_weaken; [eapply (live_down n)|].
  - apply (Hp m m κ); done.
  - done.
  - done.
  - intros m' a κ' _ [_ Hd]. exact Hd.
Qed.

(** ** Programs that end whatever is known *)

Lemma lives_ret {A} (a : A) : lives (Ret a).
Proof. intros n. by apply ends_ret. Qed.

Lemma ends_lives n {A} K (p : prog A) : lives p -> ends n K p (fun _ => any).
Proof. intros Hp. eapply ends_weaken; [apply (Hp n)|done|done]. Qed.

Lemma lives_bind {A B} (p : prog A) (f : A -> prog B) : lives p -> (forall a, lives (f a)) -> lives (pbind p f).
Proof. intros Hp Hf n. eapply ends_bind; [apply Hp|]. intros a. apply Hf. Qed.

Lemma lives_call {A} l (k : lresp l -> prog A) : lives (body l) -> (forall r, lives (k r)) -> lives (Call l k).
Proof. intros Hl Hk n. eapply ends_call; [apply Hl|]. intros r. apply Hk. Qed.

Lemma lives_op {A} o (k : resp o -> prog A) : (forall j, base o <> Spawn j) -> (forall r, lives (k r)) -> lives (Vis o k).
Proof. intros Hj Hk n. apply ends_op; [intros j E; by destruct (Hj j)|]. intros r. by apply ends_lives. Qed.

Lemma lives_spawn {A} j (k : unit -> prog A) : lives (job_prog rules j) -> lives (k tt) -> lives (Vis (Spawn j) k).
Proof. intros Hj Hk n. apply ends_op; [by intros j' [= <-]|]. intros []. by apply ends_lives. Qed.

Lemma lives_select {A} t held (p : prog A) : lives p -> lives (select_cancel t held p).
Proof.
  intros Hp n m κ Hm _. apply (live_weaken _ (or_none (guard m (fun _ => any)))); [by apply live_select, (Hp m)|done].
Qed.

(** Straight-line code. *)
Ltac lives_step :=
  next; first [apply lives_ret | apply lives_op; [discriminate|intros ?] | case_match].
Ltac lives_steps := repeat lives_step.

(** ** Connections *)

Lemma lives_quic_try_connect cfg a b : lives (quic_try_connect cfg a b).
Proof. unfold quic_try_connect. lives_steps. Qed.

Lemma lives_new_connection c : lives (new_connection c).
Proof.
  unfold new_connection. lives_step. case_match.
  - unfold h2_new_connection. lives_steps.
  - unfold quic_new_connection. lives_step. case_match; [case_match; apply lives_quic_try_connect|].
    unfold connect_addr. lives_step. case_match; [|lives_steps]. next.
    match goal with |- lives (connect_loop _ _ _ ?l) => generalize l as addrs end. intros addrs.
    generalize (@None string) as last. induction addrs as [|b addrs IH]; intros last; cbn [connect_loop]; [lives_steps|].
    destruct (endpoint_for _ b); [|apply IH]. next. apply lives_bind; [apply lives_quic_try_connect|].
    intros [conn|e]; [lives_steps|apply IH].
Qed.

(** What [stream_body] does with a client that is not connected, and with a
    connection. *)
Lemma ends_connect n c host (Q : result string StreamFut -> Know -> Prop) :
  (forall conn, ends n (fun κ => k_state κ = Some (c, Connected conn)) (stream_body c host) Q) ->
  (forall κ e, Q (Err e) κ) -> (forall r κ, Q r κ) ->
  ends n any (pbind (new_connection c) (fun r =>
    match r with
    | Err err => pbind (do (SetState c Poisoned)) (fun _ => Ret (Err err))
    | Ok conn => pbind (do (SetState c (Connected conn))) (fun _ => call (LStream c host))
    end)) Q.
Proof.
  intros Hb He Hq. eapply ends_bind; [apply lives_new_connection|]. intros [conn|err]; next.
  - apply ends_op; [discriminate|]. intros []. next. eapply ends_call; [|intros r; apply ends_ret; by intros].
    cbn [body]. eapply ends_weaken; [apply (Hb conn)| |done]. by intros κ' (κ & _ & _ & ->).
  - apply ends_op; [discriminate|]. intros []. apply ends_ret. by intros.
Qed.

Lemma ends_connected n c host conn :
  (forall m, (m < n)%nat -> ends m any (stream_body c host) (fun _ => any)) ->
  ends n any (pbind (net (IsFinished conn)) (fun fin =>
    if fin : bool then pbind (do (SetState c NotConnected)) (fun _ => call (LStream c host))
    else Ret (Ok {| sf_client := c; sf_conn := conn; sf_host := host |}))) (fun _ => any).
Proof.
  intros IH. next. apply ends_op; [discriminate|]. intros [|]; [|by apply ends_ret].
  apply ends_below; [by intros κ' (κ & _ & [_ [=]] & _)|]. intros m Hm. next. apply ends_op; [discriminate|].
  intros []. next. eapply ends_call; [|by intros r; apply ends_ret]. cbn [body].
  eapply ends_weaken; [by apply IH|done|done].
Qed.

(** The loop goes round at most twice between two fluctuations. *)
Lemma lives_stream_body c host : lives (stream_body c host).
Proof.
  intros n. induction n as [n IH] using lt_wf_ind.
  assert (Hc : forall m conn, (m <= n)%nat -> ends m (fun κ => k_state κ = Some (c, Connected conn)) (stream_body c host) (fun _ => any)).
  { induction m as [m IHm] using lt_wf_ind. intros conn Hm. unfold stream_body. next. apply ends_op; [discriminate|].
    intros [| |conn']; [by apply ends_ret| |].
    - apply ends_below; [intros κ' (κ & Hk & [Ha _] & _); cbn in Ha; rewrite Hk in Ha; by specialize (Ha eq_refl)|].
      intros m' Hm'. apply ends_connect; [|done..]. intros conn0. apply IHm; lia.
    - eapply ends_weaken; [apply ends_connected|done|done]. intros m' Hm'. apply IH. lia. }
  unfold stream_body. next. apply ends_op; [discriminate|]. intros [| |conn]; [by apply ends_ret| |].
  - eapply ends_weaken; [apply (ends_connect n c host (fun _ => any))|done|done]; [|done..]. intros conn. by apply Hc.
  - eapply ends_weaken; [by apply ends_connected|done|done].
Qed.

Lemma lives_quic_poll conn host st : lives (quic_poll_body conn host st).
Proof.
  assert (Hr : lives (quic_poll_body conn host SRead)) by (cbn [quic_poll_body]; lives_steps).
  assert (Hw : forall buf, lives (quic_poll_body conn host (SWrite buf))).
  { intros buf n. induction n as [n IH] using lt_wf_ind. cbn [quic_poll_body]. next. apply ends_op; [discriminate|].
    intros [|k|e]; next; [|  |by apply ends_ret].
    - eapply ends_call; [|by intros r; apply ends_ret]. by apply ends_lives.
    - apply ends_below; [by intros κ' (κ & _ & [_ [=]] & _)|]. intros m Hm.
      eapply ends_call; [|by intros r; apply ends_ret]. by apply IH. }
  destruct st; [|apply Hw|exact Hr]. cbn [quic_poll_body]. next. apply lives_call; [apply Hw|intros r; apply lives_ret].
Qed.

Lemma lives_new_stream f : lives (new_stream f).
Proof.
  unfold new_stream. lives_step. case_match.
  - unfold h2_new_stream. lives_steps.
  - unfold quic_new_stream. case_match; [|lives_steps]. lives_step. case_match; [|lives_steps]. next.
    apply lives_call; [apply lives_quic_poll|intros ?]. lives_steps.
Qed.

Lemma lives_try_connect b host : lives (try_connect b host).
Proof.
  unfold try_connect. lives_step. next. apply lives_bind; [|intros []; lives_steps]. apply lives_select.
  unfold new_stream_fut. lives_step. next. apply lives_call; [apply lives_stream_body|]. intros ?. lives_step.
  next. case_match; [apply lives_new_stream|lives_steps].
Qed.

(** ** The tasks *)

Lemma lives_reset_client c : lives (client_reset_client c).
Proof. unfold client_reset_client. lives_steps. Qed.

Lemma lives_set_status b s : lives (set_backend_status b s).
Proof. unfold set_backend_status. lives_steps. Qed.

Lemma lives_retry_connect b : lives (retry_connect b).
Proof.
  assert (Ha : lives (retry_attempt b)).
  { unfold retry_attempt. lives_step. lives_step. next. apply lives_bind; [apply lives_reset_client|intros []].
    next. apply lives_bind; [apply lives_try_connect|]. intros [stream|err]; next.
    - apply lives_bind; [apply lives_set_status|intros []]. lives_steps.
    - lives_step. next. apply lives_bind; [case_decide; [apply lives_set_status|apply lives_ret]|intros []]. lives_steps. }
  unfold retry_connect. next. apply lives_op; [discriminate|].
  intros []; next; try apply lives_ret; (apply lives_op; [discriminate|]); intros []; first [apply lives_ret|exact Ha].
Qed.

(** The tries run out, whatever each of them meets. *)
Lemma lives_retry_body b period tries : lives (retry_body b period tries).
Proof.
  remember (Z.to_nat tries) as m eqn:E. revert tries E. induction m as [|m IH]; intros tries E; unfold retry_body; case_decide;
    try apply lives_ret; [lia|].
  lives_step. lives_step. next. apply lives_bind; [apply lives_retry_connect|]. intros flow. lives_step.
  destruct flow; [|apply lives_ret]. next. apply lives_call; [|intros []; apply lives_ret]. cbn [body]. apply IH. lia.
Qed.

Lemma lives_retry b : lives (job_prog rules (JRetry b)).
Proof.
  cbn [job_prog]. unfold retry_forever. do 3 lives_step. case_decide; [apply lives_ret|].
  next. apply lives_call; [apply lives_retry_body|intros []; apply lives_ret].
Qed.

Lemma lives_detach {A} (p : prog A) : lives p -> lives (detach p).
Proof. intros Hp. apply lives_bind; [done|]. intros a. apply lives_ret. Qed.

Lemma lives_direct peer : lives (job_prog rules (JDirect peer)).
Proof. cbn [job_prog]. apply lives_detach. unfold direct_connection. lives_steps. Qed.

Lemma lives_incr b peer : lives (job_prog rules (JIncr b peer)).
Proof. cbn [job_prog]. unfold incr_task. lives_steps. Qed.

(** *** The choice of a backend *)

(** A chosen backend is not one that is known to be down. *)
Definition chosen (D : list backend_id) (a : AvailableBackend) : Prop :=
  match a with GotBackend b => (b ∉ D) /\ (b < nb)%nat | _ => True end.
#[export] Instance chosen_dec D a : Decision (chosen D a).
Proof. destruct a; cbn; apply _. Defined.

Notation knows_down D := (fun κ : Know => D ⊆ k_down κ).

Lemma lives_available ids : lives (available_loop ids).
Proof.
  induction ids as [|b ids IH]; cbn [available_loop]; [apply lives_ret|]. lives_step. next.
  apply lives_bind; [exact IH|]. intros rest. apply lives_ret.
Qed.

Lemma lives_named name ids : lives (named_backend name ids).
Proof. induction ids as [|b ids IH]; cbn [named_backend]; [apply lives_ret|]. lives_step. case_decide; [|exact IH]. lives_steps. Qed.

Lemma lives_below {A} n (p : prog A) : lives p -> forall m, (m < n)%nat -> ends m any p (fun _ => any).
Proof. intros Hp m _. apply Hp. Qed.

Lemma ends_available n D ids :
  Forall (fun b => b < nb)%nat ids ->
  ends n (knows_down D) (available_loop ids) (fun r κ => D ⊆ k_down κ /\ Forall (fun b => (b ∉ D) /\ (b < nb)%nat) r).
Proof.
  induction ids as [|b ids IH]; intros Hids; [by apply ends_ret|]. apply Forall_cons_1 in Hids as [Hb Hids].
  cbn [available_loop]. next. apply ends_op; [discriminate|]. intros s. next.
  apply (ends_fact _ (s = Normal -> b ∉ D)).
  - intros κ' (κ & Hd & [Ha _] & _) Hs HbD. cbn in Ha. apply Ha; [by apply Hd|done].
  - intros Hs. eapply ends_bind; [eapply ends_weaken; [by apply IH| |done]; by intros κ' (κ & Hd & _ & ->)|].
    intros rest. apply ends_ret. intros κ [Hd Hr]. split; [done|]. case_decide; [|done]. apply Forall_cons_2; [|done]. auto.
  - apply lives_below, lives_bind; [apply lives_available|intros rest; apply lives_ret].
Qed.

Lemma ends_named n D name ids :
  Forall (fun b => b < nb)%nat ids ->
  ends n (knows_down D) (named_backend name ids) (fun a κ => D ⊆ k_down κ /\ chosen D a).
Proof.
  induction ids as [|b ids IH]; intros Hids; [by apply ends_ret|]. apply Forall_cons_1 in Hids as [Hb Hids].
  cbn [named_backend]. next. apply ends_op; [discriminate|]. intros name'. next. case_decide.
  - next. apply ends_op; [discriminate|]. intros []. next. apply ends_op; [discriminate|]. intros s. next.
    apply (ends_fact _ (s = Normal -> b ∉ D)).
    + intros κ3 (κ2 & (κ1 & (κ0 & Hd & _ & ->) & _ & ->) & [Ha _] & _) Hs HbD. cbn in Ha. apply Ha; [by apply Hd|done].
    + intros Hs. apply ends_op; [discriminate|]. intros []. apply ends_ret.
      intros κ4 (κ3 & (κ2 & (κ1 & (κ0 & Hd & _ & ->) & _ & ->) & _ & ->) & _ & ->). split; [done|].
      case_decide; [|done]. split; auto.
    + apply lives_below. lives_steps.
  - eapply ends_weaken; [by apply IH| |done]. by intros κ' (κ & Hd & _ & ->).
Qed.

Lemma seq_below n : Forall (fun b => b < n)%nat (seq 0 n).
Proof. apply Forall_seq. lia. Qed.

Lemma ends_next_available_backend n D peer :
  ends n (knows_down D) (next_available_backend peer) (fun a κ => D ⊆ k_down κ /\ chosen D a).
Proof.
  unfold next_available_backend. destruct (get_backend_name_by_rule peer).
  - unfold available_backends. next. apply ends_op; [discriminate|]. intros k. next.
    apply (ends_fact _ (k = nb)); [by intros κ' (κ & _ & [Ha _] & _)| |].
    + intros ->. eapply ends_bind; [eapply ends_weaken; [apply ends_available, seq_below| |done]; by intros κ' (κ & Hd & _ & ->)|].
      intros [|b [|b' bs]].
      * apply ends_ret. by intros κ [Hd _].
      * apply ends_ret. intros κ [Hd Hb]. split; [done|]. by apply Forall_inv in Hb.
      * next. apply ends_op; [discriminate|]. intros r. apply ends_ret. intros κ' (κ & [Hd Hb] & [Ha _] & ->). split; [done|].
        destruct r as [b0|]; [|done]. cbn in Ha |- *. exact (proj1 (list.Forall_forall _ _) Hb b0 Ha).
    + apply lives_below, lives_bind; [apply lives_available|]. intros [|b [|b' bs]]; lives_steps.
  - by apply ends_ret.
  - next. apply ends_op; [discriminate|]. intros k. next.
    apply (ends_fact _ (k = nb)); [by intros κ' (κ & _ & [Ha _] & _)| |].
    + intros ->. eapply ends_weaken; [apply ends_named, seq_below| |intros ? ? H; exact H]. by intros κ' (κ & Hd & _ & ->).
    + apply lives_below, lives_named.
Qed.

(** *** The loop over the backends *)

(** The backends not known to be down. *)
Definition ups (D : list backend_id) : nat := length (filter (fun b => b ∉ D) (seq 0 nb)).

Lemma ups_down D b : b ∉ D -> (b < nb)%nat -> (ups (b :: D) < ups D)%nat.
Proof.
  intros HD Hb. unfold ups. assert (Hin : b ∈ seq 0 nb) by (apply elem_of_seq; lia).
  apply list_elem_of_split in Hin as (l1 & l2 & ->). rewrite !list.filter_app, !length_app.
  rewrite !filter_cons, (decide_False (P := b ∉ b :: D)), (decide_True (P := b ∉ D)) by set_solver. cbn.
  assert (Hle : forall l, (length (filter (fun b' => b' ∉ b :: D) l) <= length (filter (fun b' => b' ∉ D) l))%nat).
  { induction l as [|x l IH]; [done|]. rewrite !filter_cons. case_decide as D1; case_decide as D2; cbn; [lia|set_solver|lia|lia]. }
  pose proof (Hle l1). pose proof (Hle l2). lia.
Qed.

Notation handle_result := (option (BidiStream * Z * backend_id)).

(** What follows the choice of a backend, the loop's next turn included. *)
Definition handle_rest (peer : PeerInfo) (a : AvailableBackend) : prog handle_result :=
  match a with
  | Block => Ret None
  | NoBackend => Ret None
  | Direct => _ ← do (Spawn (JDirect peer)); Ret None
  | GotBackend b =>
      _ ← do (ReadLock b);
      start ← do Now;
      r ← try_connect b (Some (get_host_by_rule peer));
      match r with
      | Ok outbound =>
          now ← do Now;
          _ ← do (ReadUnlock b);
          Ret (Some (outbound, duration_since now start, b))
      | Err _ =>
          _ ← set_backend_status b Closed;
          _ ← do (Spawn (JRetry b));
          _ ← do (ReadUnlock b);
          call (LHandle peer)
      end
  end.

(** The handler gives up each backend at most once between two fluctuations. *)
Lemma ends_handle_rest n D peer a :
  (forall m, (m < n)%nat -> ends m any (handle_body peer) (fun _ => any)) ->
  (forall b, a = GotBackend b -> ends n (knows_down (b :: D)) (handle_body peer) (fun _ => any)) ->
  ends n (knows_down D) (handle_rest peer a) (fun _ => any).
Proof.
  intros Hl Hb. destruct a as [| | |b]; cbn [handle_rest]; try by apply ends_ret.
  - next. apply ends_op; [intros j [= <-]; apply lives_direct|]. intros []. by apply ends_ret.
  - specialize (Hb b eq_refl). next. apply ends_op; [discriminate|]. intros []. next. apply ends_op; [discriminate|]. intros start. next.
    eapply ends_bind; [eapply ends_weaken; [apply (ends_down n _ D), lives_try_connect| |intros ? ? H; exact H]|].
    { by intros κ2 (κ1 & (κ0 & Hd & _ & ->) & _ & ->). }
    intros [outbound|err]; [apply ends_lives; lives_steps|]. next. apply ends_op; [discriminate|]. intros []. next.
    apply ends_op; [intros j [= <-]; apply lives_retry|]. intros []. next. apply ends_op; [discriminate|]. intros []. next.
    eapply ends_call; [|by intros r; apply ends_ret]. cbn [body]. eapply ends_weaken; [exact Hb| |done].
    intros κ3 (κ2 & (κ1 & (κ0 & Hd & _ & ->) & _ & ->) & _ & ->). cbn. set_solver.
Qed.

Lemma lives_handle_body peer : lives (handle_body peer).
Proof.
  intros n. induction n as [n IH] using lt_wf_ind.
  assert (Hk : forall k D, (ups D < k)%nat -> ends n (knows_down D) (handle_body peer) (fun _ => any)).
  { induction k as [|k IHk]; intros D HD; [lia|].
    change (handle_body peer) with (pbind (next_available_backend peer) (handle_rest peer)).
    eapply ends_bind; [apply ends_next_available_backend|]. intros a. apply (ends_fact _ (chosen D a)).
    - by intros κ [_ Ha].
    - intros Ha. eapply ends_weaken; [apply (ends_handle_rest n D)| |done]; [exact IH| |by intros κ [Hd _]].
      intros b ->. apply IHk. pose proof (ups_down D b (proj1 Ha) (proj2 Ha)). lia.
    - intros m Hm. eapply ends_weaken; [apply (ends_handle_rest m [])| |done]; [intros m' Hm'; apply IH; lia| |set_solver].
      intros b _. eapply ends_weaken; [by apply IH|done|done]. }
  eapply ends_weaken; [apply (Hk (S (ups [])) []); lia|set_solver|done].
Qed.

(** *** The others *)

Lemma lives_transfer b outbound t peer : lives (transfer b outbound t peer).
Proof.
  unfold transfer. lives_step. lives_step. next. apply lives_bind; [|intros [[[x y]|e]|]; lives_steps].
  apply lives_select. destruct outbound; cbn [copy_fut]; lives_steps.
Qed.

Lemma lives_connect peer : lives (job_prog rules (JConnect peer)).
Proof.
  cbn [job_prog]. apply lives_detach. unfold handle_connect. next. apply lives_call; [apply lives_handle_body|].
  intros [[[outbound t] b]|]; [|apply lives_ret]. unfold handle_transfer. lives_step. next.
  apply lives_spawn; [apply lives_incr|]. next. apply lives_bind; [apply lives_transfer|]. intros [|]; lives_steps.
Qed.

Lemma lives_reset b : lives (reset_client b).
Proof. unfold reset_client. lives_step. next. apply lives_bind; [apply lives_reset_client|intros []]. lives_steps. Qed.

Lemma lives_renew b : lives (renew_cancellation_token b).
Proof. unfold renew_cancellation_token. lives_steps. Qed.

Lemma lives_cancel b : lives (cancel b).
Proof. unfold cancel. lives_steps. Qed.

Lemma lives_switch_protocol b : lives (switch_protocol b).
Proof.
  unfold switch_protocol. do 3 lives_step. next. destruct (build_client _ _ _) as [[[mix dom]|err]|]; [|lives_steps..].
  do 2 lives_step. next. apply lives_bind; [apply lives_renew|intros []].
  lives_step. next. apply lives_bind; [apply lives_reset|intros []]. apply lives_ret.
Qed.

Lemma lives_switch_status id : lives (switch_backend_status id).
Proof.
  unfold switch_backend_status, find_backend_by_id. lives_step. next. case_decide; [|apply lives_ret]. lives_step. next.
  apply lives_bind; [apply lives_cancel|intros []]. do 2 lives_step. next. apply lives_op; [discriminate|].
  intros []; next; (apply lives_bind; [apply lives_set_status|intros []]); try lives_steps.
  apply lives_spawn; [apply lives_retry|apply lives_ret].
Qed.

Lemma lives_reset_backend id : lives (reset_backend id).
Proof.
  unfold reset_backend, find_backend_by_id. lives_step. next. case_decide; [|apply lives_ret]. lives_step. next.
  apply lives_bind; [apply lives_cancel|intros []]. next. apply lives_bind; [apply lives_reset|intros []].
  do 2 lives_step. next. apply lives_bind; [apply lives_renew|intros []]. lives_steps.
Qed.

Lemma lives_switch_backend_protocol id : lives (switch_backend_protocol id).
Proof.
  unfold switch_backend_protocol, find_backend_by_id. lives_step. next. case_decide; [|apply lives_ret]. lives_step. next.
  apply lives_bind; [apply lives_cancel|intros []]. do 2 lives_step. next.
  apply lives_bind; [apply lives_switch_protocol|]. intros res. lives_steps.
Qed.

Lemma lives_api req : lives (backend_metric_switcher req).
Proof.
  destruct req; cbn [backend_metric_switcher]; next; (apply lives_bind; [|intros a; apply lives_ret]).
  - apply lives_switch_status.
  - apply lives_switch_backend_protocol.
  - apply lives_reset_backend.
  - unfold get_all_backends. lives_step. generalize (seq 0 r) as ids. intros ids.
    induction ids as [|b ids IH]; cbn [metrics_loop]; [apply lives_ret|]. lives_step. next. apply lives_bind; [exact IH|]. intros l. apply lives_ret.
Qed.

Lemma lives_job j : lives (job_prog rules j).
Proof.
  destruct j; [apply lives_retry|apply lives_incr|apply lives_direct|apply lives_connect| |].
  - cbn [job_prog]. apply lives_detach. unfold handle_forward. lives_steps.
  - cbn [job_prog]. apply lives_detach, lives_api.
Qed.

(** ** The remaining work of a task *)

(** What may come after a step that is no fluctuation: the task itself, with
    what it knows, or a task it spawns. *)
Definition succ (y x : Know * prog unit) : Prop :=
  match x.2 with
  | Ret _ => False
  | Vis o k => (exists r, steady x.1 o r /\ y = (learn x.1 o r, k r))
      \/ exists j, base o = Spawn j /\ y = (nothing, job_prog rules j)
  | Call l k => y = (x.1, pbind (body l) k)
  end.

Lemma pbind_ret {A} (p : prog A) : pbind p Ret = p.
Proof. induction p as [a|o k IH|l k IH]; cbn; [done|f_equal..]; apply functional_extensionality_dep, IH. Qed.

Lemma live_acc_bind n {A} (Q : Q_ A) κ p :
  live n Q κ p -> forall f, (forall a κ', Q n a κ' -> Acc succ (κ', f a)) -> Acc succ (κ, pbind p f).
Proof.
  induction 1 as [n A Q κ a Ha Hl|n A Q κ o k Hk IH Hf IHf Hl IHl Hj IHj|n A Q κ l k Q1 Hb IHb Hk IHk]; intros f Hq; cbn.
  - by apply Hq.
  - constructor. intros y [(r & Hr & ->)|(j & E & ->)]; cbn.
    + by apply IH.
    + rewrite <- (pbind_ret (job_prog rules j)). apply (IHj j E). intros [] κ' _. by constructor; intros ? [].
  - constructor. intros y ->. cbn. apply IHb. intros r κ' Hr. by apply (IHk n).
Qed.

Lemma live_acc n (Q : Q_ unit) κ p : live n Q κ p -> Acc succ (κ, p).
Proof.
  intros Hp. rewrite <- (pbind_ret p). eapply live_acc_bind; [exact Hp|]. intros [] κ' _. by constructor; intros ? [].
Qed.

(** ** What is known stays true *)

Definition down (w : World) (b : backend_id) : Prop :=
  exists c, w_backends w !! b = Some c /\ status (be_metric c) <> Normal.

Record knows (w : World) (h : Held) (κ : Know) : Prop := {
  kn_state : match k_state κ with
    | Some (c, st) => h_inner h = Some c /\ exists x, w_clients w !! c = Some x /\ cl_state x = st
    | None => True
    end;
  kn_down : Forall (down w) (k_down κ);
}.

Lemma knows_nothing w h : knows w h nothing.
Proof. split; [done|apply Forall_nil_2]. Qed.

(** An operation changes no client's state but by [SetState]; new clients are
    not connected. *)
Definition states_kept (o : op) (w w' : World) : Prop :=
  (forall c x, w_clients w !! c = Some x -> exists x', w_clients w' !! c = Some x' /\
    (cl_state x' = cl_state x \/ base o = SetState c (cl_state x'))) /\
  (forall c x', w_clients w' !! c = Some x' -> w_clients w !! c = None -> cl_state x' = NotConnected).

Lemma states_kept_same o w w' : w_clients w' = w_clients w -> states_kept o w w'.
Proof. intros E. split; intros c x; rewrite E; [|by intros ->]. intros Hx. exists x. split; [done|by left]. Qed.

Lemma states_kept_insert o w c x x' :
  w_clients w !! c = Some x -> cl_state x' = cl_state x \/ base o = SetState c (cl_state x') ->
  states_kept o w (with_clients (<[c := x']> (w_clients w)) w).
Proof.
  intros Hx Hs. split; cbn.
  - intros c0 y Hy. destruct (decide (c0 = c)) as [->|Hne].
    + exists x'. rewrite list_lookup_insert_eq by (by eapply lookup_lt_Some). by simplify_eq.
    + exists y. rewrite list_lookup_insert_ne by done. split; [done|by left].
  - intros c0 y Hy Hn. apply list_lookup_insert_Some in Hy as [(-> & _ & _)|[_ Hy]]; congruence.
Qed.

Lemma op_states e o w r w' js : op_eval e o w = Some (r, w', js) -> states_kept o w w'.
Proof.
  revert r w' js; induction o; intros r w' js H; op_inv H.
  all: try (apply states_kept_same; reflexivity).
  all: try (destruct (w_backends w !! b); cbn in H; [|done]; injection H as <- <- <-; by apply states_kept_same).
  all: try (destruct (w_clients w !! c); cbn in H; [|done]; injection H as <- <- <-; by apply states_kept_same).
  all: try (injection H as <- <- <-; by apply states_kept_same).
  all: try (repeat case_match; simplify_eq; eapply states_kept_insert; [done|by left]).
  - injection H as <- <- <-. split; cbn; [intros c0 x Hx|intros c0 x Hx Hn].
    + exists x. rewrite lookup_app_l by (by eapply lookup_lt_Some). split; [done|by left].
    + apply lookup_app_Some in Hx as [Hx|[_ Hx]]; [congruence|].
      destruct (c0 - length (w_clients w))%nat; [|done]. cbn in Hx. by injection Hx as <-.
  - simplify_eq. eapply states_kept_insert; [done|by right].
  - destruct (balance_next _ _ _ _ _) as [[x b]|]; [|done]. injection H as <- <- <-. by apply states_kept_same.
  - done.
  - destruct (e_net e q); [|done]. injection H as <- <- <-. by apply states_kept_same.
  - case_match; [injection H as <- <- <-; by apply states_kept_same|].
    destruct (op_eval e o w) as [[[r0 w0] js0]|] eqn:E; [|done]. injection H as <- <- <-. by eapply IHo.
Qed.


(** No operation but a revival makes a backend [Normal]. *)
Lemma down_kept b0 b w f w' :
  on_backend b w f = Some w' ->
  (forall c c', f c = Some c' -> status (be_metric c) <> Normal -> status (be_metric c') <> Normal) -> down w b0 -> down w' b0.
Proof.
  intros H Hf (c0 & Hc0 & Hn). apply on_backend_Some in H as (c & c' & Hc & Hcc & ->). unfold down. cbn.
  destruct (decide (b = b0)) as [->|Hne].
  - exists c'. rewrite list_lookup_insert_eq by (by eapply lookup_lt_Some). simplify_eq. split; [done|]. by eapply Hf.
  - exists c0. by rewrite list_lookup_insert_ne.
Qed.

Lemma op_down e o w r w' js b0 :
  op_eval e o w = Some (r, w', js) -> fluctuates o r = false -> down w b0 -> down w' b0.
Proof.
  revert r w' js; induction o; intros r w' js H Hfl Hd; cbn [op_eval] in H.
  all: try (apply done_unit_Some in H as [H _]; eapply down_kept; [exact H| |exact Hd]; intros c0 c1 E;
    cbn beta in E; repeat case_match; simplify_eq; done).
  all: try (apply done_unit_Some in H as [H _]; apply on_client_Some in H as (?&?&_&_& ->); exact Hd).
  all: try (destruct (w_backends w !! b); cbn in H; [|done]; by injection H as <- <- <-).
  all: try (destruct (w_clients w !! c); cbn in H; [|done]; by injection H as <- <- <-).
  all: try (by injection H as <- <- <-).
  - apply done_unit_Some in H as [H _]. eapply down_kept; [exact H| |exact Hd]. intros c0 c1 E Hn. cbn beta in E.
    destruct (absorb_all Release (e_now e) (call_ops c) (be_metric c0)) as [m|] eqn:Em; [|done]. injection E as <-. cbn.
    rewrite (call_status_spec _ _ _ _ Em). destruct c; try exact Hn. by destruct s.
  - destruct (balance_next _ _ _ _ _) as [[x b]|]; [|done]. by injection H as <- <- <-.
  - done.
  - destruct (e_net e q); [|done]. by injection H as <- <- <-.
  - case_match; [by injection H as <- <- <-|].
    destruct (op_eval e o w) as [[[r0 w0] js0]|] eqn:E; [|done]. injection H as <- <- <-. by eapply IHo.
Qed.

(** The number of backends never changes. *)
Lemma step_pool_length ev s s' hs :
  pool_inv s hs -> step_pool body (job_prog rules) ev s = Some s' ->
  length (w_backends (p_world s')) = length (w_backends (p_world s)).
Proof.
  intros Hinv H. destruct ev as [i e|j]; cbn in H.
  - destruct (step_task_inv rules s hs i e s' Hinv H) as (j & p & p' & h & h' & js & Ht & Hh & Hst & _).
    pose proof (pi_safe s hs Hinv i j p h Ht Hh) as Hs. destruct p as [a|o k|l k]; cbn in Hst; [done| |by destruct Hst as (_ & -> & _)].
    destruct Hst as (r & Ho & _). destruct (op_ids e h o _ r _ js Ho (proj1 Hs) (pi_ids s hs Hinv)) as ((E & _) & _). exact (eq_sym E).
  - destruct (external j); [|done]. by injection H as <-.
Qed.

Lemma knows_step e o w r w' js h κ :
  op_eval e o w = Some (r, w', js) -> fluctuates o r = false ->
  (forall c, h_inner h = Some c -> forall st, base o <> SetState c st) -> knows w h κ -> knows w' h κ.
Proof.
  intros H Hfl Ho [K1 K2]. destruct (op_states e o w r w' js H) as [H1 _]. split.
  - destruct (k_state κ) as [[c st]|]; [|done]. destruct K1 as (Hh & x & Hx & Hs). split; [done|].
    destruct (H1 c x Hx) as (x' & Hx' & [E|E]); [|by destruct (Ho c Hh (cl_state x'))].
    exists x'. split; [done|]. congruence.
  - eapply Forall_impl; [|exact K2]. intros b. by eapply op_down.
Qed.

(** A task that spawns, spawns one task. *)
Lemma op_jobs e o w r w' js : op_eval e o w = Some (r, w', js) -> js = [] \/ exists j, js = [j] /\ base o = Spawn j.
Proof.
  revert r w' js; induction o; intros r w' js H; cbn [op_eval base] in *.
  all: try (apply done_unit_Some in H as [_ ->]; by left).
  all: try (destruct (w_backends w !! b); cbn in H; [|done]; injection H as <- <- <-; by left).
  all: try (destruct (w_clients w !! c); cbn in H; [|done]; injection H as <- <- <-; by left).
  all: try (injection H as <- <- <-; by left).
  - destruct (balance_next _ _ _ _ _) as [[x b]|]; [|done]. injection H as <- <- <-. by left.
  - injection H as <- <- <-. right. by exists j.
  - done.
  - destruct (e_net e q); [|done]. injection H as <- <- <-. by left.
  - case_match; [injection H as <- <- <-; by left|].
    destruct (op_eval e o w) as [[[r0 w0] js0]|] eqn:E; [|done]. injection H as <- <- <-. by eapply IHo.
Qed.

(** The answer of an operation is one the judgement allows for. *)
Lemma op_answer e h κ o w r w' js :
  length (w_backends w) = nb -> knows w h κ -> op_eval e o w = Some (r, w', js) -> answer κ o r.
Proof.
  intros Hnb [K1 K2]. revert r w' js; induction o; intros r w' js H; cbn [answer]; try exact I; cbn [op_eval] in H.
  - injection H as <- _ _. exact Hnb.
  - destruct (w_backends w !! b) as [c|] eqn:Eb; cbn in H; [|done]. injection H as <- <- <-. intros Hb.
    destruct (proj1 (list.Forall_forall _ _) K2 b Hb) as (c' & Hc & Hn). by simplify_eq.
  - destruct (w_clients w !! c) as [x|] eqn:Ex; cbn in H; [|done]. injection H as <- <- <-.
    destruct (k_state κ) as [[c' s']|]; [|done]. intros ->. destruct K1 as (_ & y & Hy & <-). congruence.
  - destruct (balance_next _ _ _ _ _) as [[x b]|] eqn:Eb; [|done]. injection H as <- <- <-.
    destruct x; [|done]. by eapply balance_next_member.
  - case_match; [by injection H as <- <- <-|].
    destruct (op_eval e o w) as [[[r0 w0] js0]|] eqn:E; [|done]. injection H as <- <- <-. by eapply IHo.
Qed.

(** What is learnt from it is true. *)
Lemma knows_inner w h h' κ : h_inner h' = h_inner h -> knows w h κ -> knows w h' κ.
Proof. intros E [K1 K2]. split; [|done]. destruct (k_state κ) as [[c st]|]; [|done]. by rewrite E. Qed.

Lemma knows_state w h st κ :
  knows w h κ -> match st with Some (c, s) => h_inner h = Some c /\ exists x, w_clients w !! c = Some x /\ cl_state x = s | None => True end ->
  knows w h (set_state st κ).
Proof. intros [_ K2] Hs. by split. Qed.

Lemma knows_forget w h h' κ : knows w h κ -> knows w h' (set_state None κ).
Proof. intros [_ K2]. by split. Qed.

Lemma op_learns e h κ o w r w' js :
  knows w h κ -> op_pre (known w) h o -> op_eval e o w = Some (r, w', js) -> fluctuates o r = false ->
  knows w' (held_post h o r) (learn κ o r).
Proof.
  intros Hk. revert r w' js; induction o; intros r w' js Hp H Hfl;
    pose proof (knows_step e _ w r w' js h κ H Hfl) as Hst; cbn [learn held_post base] in *; simpl in Hp.
  all: try (by apply Hst).
  all: try (by eapply knows_inner; [|apply Hst]).
  - assert (Hd : knows w' h κ) by (by apply Hst). destruct c as [| |s| | |]; try exact Hd. destruct Hd as [D1 D2]. split; [done|].
    cbn. case_decide as Ds; [exact D2|]. apply Forall_cons_2; [|exact D2].
    op_inv H. destruct (absorb_all Release (e_now e) (call_ops (CallSetStatus s)) (be_metric c)) as [m|] eqn:Em; [|done].
    injection Hf as <-. eexists. cbn. rewrite list_lookup_insert_eq by (by eapply lookup_lt_Some). split; [done|].
    cbn. by rewrite (call_status_spec _ _ _ _ Em).
  - eapply knows_forget. by apply Hst.
  - eapply knows_forget. by apply Hst.
  - assert (Hd : knows w' h κ) by (by apply Hst). apply knows_state; [exact Hd|].
    op_inv H. destruct (w_clients w !! c) as [x|] eqn:Ex; cbn in H; [|done]. injection H as <- <- <-.
    split; [done|]. by exists x.
  - split; [|cbn; eapply Forall_impl; [|exact (kn_down _ _ _ Hk)]; intros b Hb; by eapply op_down].
    op_inv H. simplify_eq. cbn. split; [done|]. exists (client_state s c0).
    rewrite list_lookup_insert_eq by (by eapply lookup_lt_Some). done.
  - cbn [op_eval] in H. destruct (is_cancelled t w && e_cancel e) eqn:Ec.
    + injection H as <- <- <-. exact Hk.
    + destruct (op_eval e o w) as [[[r0 w0] js0]|] eqn:E; [|done]. injection H as <- <- <-. by apply (IHo r0 w0 js0).
Qed.

(** ** The pool *)

Lemma inner_exclusive s hs i1 i2 h1 h2 c :
  pool_inv s hs -> hs !! i1 = Some h1 -> hs !! i2 = Some h2 -> i1 <> i2 ->
  h_inner h1 = Some c -> h_inner h2 <> Some c.
Proof.
  intros [_ _ [_ W2 W3] _] H1 H2 Hne Hc1 Hc2.
  assert (Hv : held_valid (words (p_world s)) h1).
  { apply (proj1 (list.Forall_forall _ _) W3). by eapply list_elem_of_lookup_2. }
  destruct (lookup_lt_is_Some_2 _ _ (proj2 Hv c Hc1)) as [l Hl].
  pose proof (count_two (holds_inner c) hs _ _ _ _ Hne H1 H2 Hc1 Hc2) as Hn.
  rewrite <- (W2 c l Hl) in Hn. destruct l; cbn in Hn; lia.
Qed.

(** What each task knows is true, and it is live. *)
Record live_pool (n : nat) (s : Pool) (hs : list Held) (ks : list Know) : Prop := {
  lp_inv : pool_inv s hs;
  lp_nb : length (w_backends (p_world s)) = nb;
  lp_len : length ks = length (p_tasks s);
  lp_live : forall i j p κ, p_tasks s !! i = Some (j, p) -> ks !! i = Some κ -> live n QTrue κ p;
  lp_knows : forall i h κ, hs !! i = Some h -> ks !! i = Some κ -> knows (p_world s) h κ;
}.

Definition work (s : Pool) (ks : list Know) : list (Know * prog unit) := zip ks (snd <$> p_tasks s).

(** What an event costs: a fluctuation, or the arrival of a connection or
    request. *)
Definition op_cost (e : Env) (p : prog unit) (w : World) : nat :=
  match p with
  | Vis o k => match op_eval e o w with Some (r, _, _) => if fluctuates o r then 1 else 0 | None => 0 end
  | _ => 0
  end.
Definition event_cost (ev : event) (s : Pool) : nat :=
  match ev with
  | Run i e => match p_tasks s !! i with Some (_, p) => op_cost e p (p_world s) | None => 0 end
  | Arrive _ => 1
  end.

(** A steady step of one task: what it then knows, and that it is closer to its
    end. *)
Lemma held_step_live n e w w' h h' κ (p p' : prog unit) js :
  length (w_backends w) = nb -> knows w h κ -> safe (known w) h p ends_free -> live n QTrue κ p ->
  held_step e p p' w w' js h h' -> op_cost e p w = 0%nat ->
  exists κ', live n QTrue κ' p' /\ knows w' h' κ' /\ succ (κ', p') (κ, p) /\
    Forall (fun j => succ (nothing, job_prog rules j) (κ, p)) js /\
    (w' = w \/ exists o r, op_pre (known w) h o /\ op_eval e o w = Some (r, w', js) /\ fluctuates o r = false).
Proof.
  intros Hnb Hk Hs Hl. apply live_inv in Hl. destruct p as [a|o k|l k]; cbn [held_step op_cost]; [done| |].
  - intros (r & Ho & -> & ->) Hc. rewrite Ho in Hc. destruct (fluctuates o r) eqn:Hfl; [done|]. destruct Hs as [Hp _], Hl as (Hl & _ & Hj).
    assert (Ha : steady κ o r) by (split; [by eapply op_answer|done]).
    exists (learn κ o r). split; [by apply Hl|]. split; [by eapply op_learns|]. split; [left; by exists r|].
    split; [|right; by exists o, r]. destruct (op_jobs e o w r w' js Ho) as [->|(j & -> & E)]; [apply Forall_nil_2|].
    apply Forall_cons_2; [|apply Forall_nil_2]. right. by exists j.
  - intros (-> & -> & -> & ->) _. destruct Hl as (Q' & Hb & Hk2). exists κ.
    split; [eapply live_bind; [exact Hb|exact Hk2]|]. split; [done|]. split; [done|]. split; [apply Forall_nil_2|by left].
Qed.

(** Any step leaves the task live for fewer fluctuations. *)
Lemma held_step_lower n m e w w' h h' κ (p p' : prog unit) js :
  (m < n)%nat -> length (w_backends w) = nb -> knows w h κ -> live n QTrue κ p ->
  held_step e p p' w w' js h h' -> live m QTrue nothing p'.
Proof.
  intros Hm Hnb Hk Hl. apply live_inv in Hl. destruct p as [a|o k|l k]; cbn [held_step]; [done| |].
  - intros (r & Ho & -> & _). destruct Hl as (Hl & Hf & _). destruct (fluctuates o r) eqn:Hfl; [by apply Hf|].
    eapply live_lower; [|exact Hm]. apply Hl. split; [by eapply op_answer|done].
  - intros (-> & _). destruct Hl as (Q' & Hb & Hk2). eapply live_lower; [|exact Hm]. eapply live_bind; [exact Hb|exact Hk2].
Qed.

(** What another task knows is not changed by the step. *)
Lemma knows_other s hs i i0 h h0 κ0 w' e js :
  pool_inv s hs -> hs !! i = Some h -> hs !! i0 = Some h0 -> i <> i0 -> knows (p_world s) h0 κ0 ->
  (w' = p_world s \/ exists o r, op_pre (known (p_world s)) h o /\ op_eval e o (p_world s) = Some (r, w', js) /\ fluctuates o r = false) ->
  knows w' h0 κ0.
Proof.
  intros Hinv Hh Hh0 Hne Hk [->|(o & r & Hp & Ho & Hf)]; [done|]. eapply knows_step; [exact Ho|exact Hf| |exact Hk].
  intros c Hc st E. apply op_pre_base in Hp. rewrite E in Hp. cbn in Hp.
  by eapply (inner_exclusive s hs i i0).
Qed.

(** New tasks know nothing. *)
Lemma lookup_ks (ks : list Know) n i κ :
  (ks ++ replicate n nothing) !! i = Some κ -> ks !! i = Some κ \/ (length ks <= i)%nat /\ κ = nothing.
Proof.
  intros H. apply lookup_app_Some in H as [H|[Hi H]]; [by left|right]. by apply lookup_replicate in H as [-> _].
Qed.

Lemma work_step i x y (l : list (Know * prog unit)) bs :
  l !! i = Some x -> succ y x -> Forall (fun b => succ b x) bs ->
  exists m, m ≡ₚ <[i := y]> l ++ bs /\ list_ext _ succ m l.
Proof.
  intros Hi Hy Hbs. exists (take i l ++ (y :: bs) ++ drop (S i) l). split.
  - rewrite insert_take_drop by (by eapply lookup_lt_Some). rewrite <- app_assoc. cbn.
    apply Permutation_app_head, perm_skip. apply Permutation_app_comm.
  - rewrite <- (take_drop_middle l i x Hi) at 3. constructor. by apply Forall_cons_2.
Qed.

Lemma live_job n j : live n QTrue nothing (job_prog rules j).
Proof. eapply live_weaken; [by apply (lives_job j n n nothing)|done]. Qed.

(** A steady step: the pool has less to do. *)
Lemma live_pool_step n e i s s' hs ks :
  live_pool n s hs ks -> step_task body (job_prog rules) i e s = Some s' -> event_cost (Run i e) s = 0%nat ->
  exists hs' ks' m, live_pool n s' hs' ks' /\ m ≡ₚ work s' ks' /\ list_ext _ succ m (work s ks).
Proof.
  intros [L1 L2 L3 L4 L5] H Hc. pose proof (step_pool_length (Run i e) s s' hs L1 H) as Hnb.
  destruct (step_task_inv rules s hs i e s' L1 H) as (j & p & p' & h & h' & js & Ht & Hh & Hst & E & Hinv).
  destruct (lookup_lt_is_Some_2 ks i) as [κ Hκ]; [rewrite L3; by eapply lookup_lt_Some|]. cbn in Hc. rewrite Ht in Hc.
  destruct (held_step_live n e (p_world s) (p_world s') h h' κ p p' js) as (κ' & K1 & K2 & K4 & K5 & K6);
    [done|by eapply L5|by eapply (pi_safe s hs L1)|by eapply L4|exact Hst|exact Hc|].
  destruct (work_step i (κ, p) (κ', p') (work s ks) ((fun j => (nothing, job_prog rules j)) <$> js)) as (m & Hm & Hext).
  { unfold work. rewrite lookup_zip_with, Hκ. cbn. by rewrite list_lookup_fmap, Ht. }
  { exact K4. }
  { by apply Forall_fmap. }
  exists (<[i := h']> hs ++ replicate (length js) free), (<[i := κ']> ks ++ replicate (length js) nothing), m.
  split; [|split; [|exact Hext]].
  2: { rewrite Hm. unfold work. rewrite E, fmap_app, zip_with_app by
         (rewrite length_insert, length_fmap, length_insert; exact L3).
       rewrite list_fmap_insert, insert_zip_with. cbn. apply Permutation_app_head.
       unfold spawn_all. rewrite <- list_fmap_compose. clear. induction js; [done|]. cbn. by f_equiv. }
  split; [exact Hinv|by rewrite Hnb|by rewrite E, !length_app, !length_insert, length_replicate, L3; unfold spawn_all; rewrite length_fmap| |].
  - intros i0 j0 p0 κ0 Ht0 Hk0. rewrite E in Ht0.
    apply lookup_ks in Hk0 as [Hk0|[Hi ->]].
    + rewrite lookup_app_l in Ht0
        by (rewrite length_insert, <- L3; apply lookup_lt_Some in Hk0; by rewrite length_insert in Hk0).
      apply list_lookup_insert_Some in Hk0 as [(-> & <- & _)|[Hne Hk0]].
      * rewrite list_lookup_insert_eq in Ht0 by (by eapply lookup_lt_Some). by injection Ht0 as <- <-.
      * rewrite list_lookup_insert_ne in Ht0 by done. by eapply L4.
    + rewrite lookup_app_r in Ht0 by (rewrite length_insert, L3 in Hi; by rewrite length_insert).
      unfold spawn_all in Ht0. rewrite list_lookup_fmap in Ht0. destruct (js !! _) as [j1|]; [|done].
      injection Ht0 as <- <-. apply live_job.
  - intros i0 h0 κ0 Hh0 Hk0. apply lookup_ks in Hk0 as [Hk0|[Hi ->]]; [|apply knows_nothing].
    rewrite lookup_app_l in Hh0
      by (rewrite length_insert, (pi_len s hs L1), <- L3; apply lookup_lt_Some in Hk0; by rewrite length_insert in Hk0).
    apply list_lookup_insert_Some in Hk0 as [(-> & <- & _)|[Hne Hk0]].
    + rewrite list_lookup_insert_eq in Hh0 by (by eapply lookup_lt_Some). by injection Hh0 as <-.
    + rewrite list_lookup_insert_ne in Hh0 by done. eapply (knows_other s hs i i0); [done..| |exact K6]. by eapply L5.
Qed.

(** Any event: all that was known is given up, the budget is smaller. *)
Lemma live_pool_lower n m ev s s' hs ks :
  (m < n)%nat -> live_pool n s hs ks -> step_pool body (job_prog rules) ev s = Some s' ->
  exists hs' ks', live_pool m s' hs' ks'.
Proof.
  intros Hm [L1 L2 L3 L4 L5] H. pose proof (step_pool_length ev s s' hs L1 H) as Hnb.
  destruct (step_inv rules s hs ev s' L1 H) as [hs' Hinv]. exists hs', (replicate (length (p_tasks s')) nothing).
  split; [exact Hinv|by rewrite Hnb|by rewrite length_replicate| |].
  2: { intros i h κ _ Hk. apply lookup_replicate in Hk as [-> _]. apply knows_nothing. }
  intros i j p κ Ht Hk. apply lookup_replicate in Hk as [-> _].
  assert (Hold : forall i j p, p_tasks s !! i = Some (j, p) -> live m QTrue nothing p).
  { intros i0 j0 p0 Ht0. destruct (lookup_lt_is_Some_2 ks i0) as [κ Hκ]; [rewrite L3; by eapply lookup_lt_Some|].
    eapply live_lower; [|exact Hm]. by eapply L4. }
  destruct ev as [i0 e|j0]; cbn in H.
  - destruct (step_task_inv rules s hs i0 e s' L1 H) as (j0 & p0 & p' & h & h' & js & Ht0 & Hh & Hst & E & _). rewrite E in Ht.
    apply lookup_app_Some in Ht as [Ht|[_ Ht]].
    + apply list_lookup_insert_Some in Ht as [(-> & [= <- <-] & _)|[_ Ht]]; [|by eapply Hold].
      destruct (lookup_lt_is_Some_2 ks i) as [κ Hκ]; [rewrite L3; by eapply lookup_lt_Some|].
      eapply held_step_lower; [exact Hm|exact L2|by eapply L5|by eapply L4|exact Hst].
    + unfold spawn_all in Ht. rewrite list_lookup_fmap in Ht. destruct (js !! _) as [j1|]; [|done].
      injection Ht as <- <-. apply live_job.
  - destruct (external j0); [|done]. injection H as <-. cbn in Ht. apply lookup_app_Some in Ht as [Ht|[_ Ht]]; [by eapply Hold|].
    destruct (i - length (p_tasks s))%nat; [|done]. injection Ht as <- <-. apply live_job.
Qed.

(** Every reachable pool is live, for any number of fluctuations to come. *)
Lemma reachable_live w s n :
  fresh_world w -> length (w_backends w) = nb -> reachable body (job_prog rules) {| p_tasks := []; p_world := w |} s ->
  exists hs ks, live_pool n s hs ks.
Proof.
  intros Hf Hw Hr. revert n. induction Hr as [|s ev s' Hr IH Hs]; intros n.
  - exists [], []. by split; [apply fresh_inv|..].
  - destruct (IH (S n)) as (hs & ks & Hl). eapply (live_pool_lower (S n)); [lia|exact Hl|exact Hs].
Qed.

(** The order of the remaining work does not matter. *)
Lemma list_ext_perm (m l l' : list (Know * prog unit)) :
  list_ext _ succ m l -> l' ≡ₚ l -> exists m', m' ≡ₚ m /\ list_ext _ succ m' l'.
Proof.
  intros [a bs l1 l2 Hbs] Hl.
  assert (Ha : a ∈ l') by (rewrite Hl; apply elem_of_app; right; by apply elem_of_cons; left).
  apply list_elem_of_split in Ha as (k1 & k2 & ->). exists (k1 ++ bs ++ k2). split; [|by constructor].
  rewrite <- !Permutation_middle in Hl. apply Permutation_cons_inv in Hl.
  by rewrite (Permutation_app_swap_app k1), (Permutation_app_swap_app l1), Hl.
Qed.

(** The remaining work of a pool cannot shrink for ever. *)
Lemma live_pool_acc n s hs ks : live_pool n s hs ks -> Acc (list_ext _ succ) (work s ks).
Proof.
  intros Hl. apply Acc_list_ext, list.Forall_forall. intros [κ p] Hin. unfold work in Hin.
  apply elem_of_lookup_zip_with in Hin as (i & κ' & p' & [= <- <-] & Hk & Hp).
  rewrite list_lookup_fmap in Hp. destruct (p_tasks s !! i) as [[j p1]|] eqn:Ht; [|done]. injection Hp as <-.
  eapply live_acc. by eapply (lp_live n s hs ks Hl).
Qed.
End Liveness.

(** ** Every run ends *)

Section Finishes.
Context `{F : F64} `{CL : ClientLib} `{HR : HashRing} `{TL : TlsLib}.
Context (rules : option HostRuler).

Definition fair_cost (ev : fair_event) (f : FairPool) : nat :=
  match ev with Join _ => 0 | Go ev => event_cost ev (fp_pool f) end.

(** Every run from here on with at most [n] fluctuations and arrivals ends, and
    ends with all tasks finished: whichever task is scheduled at each step,
    whatever the network answers and whichever cancellations win, some task can
    go on as long as the network answers at all. *)
Inductive finishes : nat -> FairPool -> Prop :=
  | fin_done n f : all_finished (fp_pool f) -> finishes n f
  | fin_step n f :
      (forall e, answers e -> exists i, can_run rules e i f) ->
      (forall ev f', fair_step rules ev f = Some f' -> (fair_cost ev f <= n)%nat -> finishes (n - fair_cost ev f) f') ->
      finishes n f.

Lemma queue_length s q : queue_ok s q -> (length q <= length (p_tasks s))%nat.
Proof.
  intros [H1 H2]. rewrite <- (length_fmap wt_task q), <- (length_seq (length (p_tasks s)) 0).
  apply submseteq_length, NoDup_submseteq; [done|]. intros i Hi. apply list_elem_of_fmap in Hi as (x & -> & Hx).
  pose proof (proj1 (list.Forall_forall _ _) H2 x Hx) as Hw. cbv beta in Hw. unfold waiting_for, next_op in Hw.
  destruct (p_tasks s !! wt_task x) eqn:E; [|done]. apply elem_of_seq. apply lookup_lt_Some in E. lia.
Qed.

Lemma join_length i s q q' : join i s q = Some q' -> length q' = S (length q).
Proof.
  unfold join. destruct (waiting_for i s); cbn; [|done]. case_decide; [done|]. intros [= <-]. rewrite length_app. cbn. lia.
Qed.

(** From any reachable pool, whatever the order in the queues. *)
Theorem pool_finishes w s q n :
  fresh_world w -> reachable body (job_prog rules) {| p_tasks := []; p_world := w |} s -> queue_ok s q ->
  finishes n {| fp_pool := s; fp_queue := q |}.
Proof.
  intros Hf. set (nb := length (w_backends w)). revert s q. induction n as [n IHn] using lt_wf_ind. intros s q Hr Hq.
  assert (Hacc : forall m, Acc (list_ext _ (succ rules nb)) m -> forall k s q hs ks,
    (length (p_tasks s) - length q < k)%nat ->
    reachable body (job_prog rules) {| p_tasks := []; p_world := w |} s -> queue_ok s q ->
    live_pool rules nb n s hs ks -> m ≡ₚ work s ks -> finishes n {| fp_pool := s; fp_queue := q |}).
  { clear s q Hr Hq. induction 1 as [m Hacc IH]. induction k as [|k IHk]; intros s q hs ks Hk Hr Hq Hl Hm; [lia|].
    destruct (unfinished (p_tasks s)) as [Hd|(i0 & j0 & p0 & Ht & Hp)]; [by apply fin_done|apply fin_step].
    - intros e He. destruct (progress rules e He s hs q (lp_inv _ _ _ _ _ _ Hl) Hq) as [H|H]; [|done].
      by destruct (H i0 j0 p0 Ht) as [a ->].
    - intros [i|ev] f' Hs Hc; cbn [fair_step fair_cost fp_pool fp_queue] in Hs, Hc |- *.
      + destruct (join i s q) as [q'|] eqn:Ej; [|done]. injection Hs as <-. rewrite Nat.sub_0_r.
        pose proof (join_length _ _ _ _ Ej). pose proof (queue_ok_join _ _ _ _ Hq Ej) as Hq'. pose proof (queue_length _ _ Hq').
        eapply IHk; [|exact Hr|exact Hq'|exact Hl|exact Hm]. lia.
      + destruct (permits ev s q); [|done]. destruct (step_pool body (job_prog rules) ev s) as [s'|] eqn:Es; [|done].
        cbn in Hs. injection Hs as <-. pose proof (queue_ok_step rules ev s s' q Hq Es) as Hq'.
        assert (Hr' : reachable body (job_prog rules) {| p_tasks := []; p_world := w |} s') by (by eapply reach_step).
        destruct (event_cost ev s) as [|c] eqn:Ec.
        * rewrite Nat.sub_0_r. destruct ev as [i e|j]; [|done].
          destruct (live_pool_step rules nb n e i s s' hs ks Hl Es Ec) as (hs' & ks' & m1 & Hl' & Hm1 & Hext).
          destruct (list_ext_perm rules nb m1 _ m Hext Hm) as (m' & Hm' & Hext').
          eapply (IH m' Hext'); [apply Nat.lt_succ_diag_r|exact Hr'|exact Hq'|exact Hl'|by rewrite Hm'].
        * apply IHn; [lia|exact Hr'|exact Hq']. }
  destruct (reachable_live rules nb w s n Hf eq_refl Hr) as (hs & ks & Hl).
  eapply (Hacc (work s ks)); [by eapply live_pool_acc|apply Nat.lt_succ_diag_r|exact Hr|exact Hq|exact Hl|done].
Qed.
End Finishes.

(** ** Witness *)

(** Two connections and a protocol switch in the middle of their work; the
    first server the handlers ask refuses. *)
Definition busy_events : list event :=
  [Arrive (JConnect (peer_new "example.com:443" (SocketV4 (Ipv4 127 0 0 1) 50000)));
   Arrive (JApi (ReqSwitchBackendProtocol 0));
   Arrive (JConnect (peer_new "example.org:80" (SocketV4 (Ipv4 127 0 0 1) 50001)))]
  ++ run_n 0 12 (env_refused 1) ++ run_n 2 5 (env_ok 1) ++ run_n 1 2 (env_ok 1).

Definition no_queue (s : Pool) : FairPool := {| fp_pool := s; fp_queue := [] |}.

Lemma pool_finishes_witness :
  match run_example busy_events with Some s => forall n, finishes None n (no_queue s) | None => False end.
Proof.
  assert (R : runs busy_events = true) by (vm_compute; reflexivity). apply runs_Some in R.
  destruct (run_example busy_events) as [s|] eqn:E; [|exact (R eq_refl)]. intros n.
  apply (pool_finishes None example_world s [] n example_fresh (example_reachable busy_events s E)).
  split; [constructor|apply Forall_nil_2].
Defined.
