(* ===== verification/Solo.v ===== *)
(** * What the client's functions do when they run alone

    Total-correctness specifications, in [Run.wp], of the functions of
    [Connector] and [Backend]: which state they leave, for every answer of the
    network, and that they terminate. *)

From S2P Require Import Prelude NetAddr LibProxy LibMetric Metric Tls BackendConfig Peer Balance World Connector Backend Proxy MetricApi Discipline System Run Locks.

Section Solo.
Context `{F : F64} `{CL : ClientLib} `{HR : HashRing} `{TL : TlsLib}.
(** The connections that have ended, and the files on disk. *)
Context (dead : nat -> Prop) (fs : FileSystem).

(** The network answers every request, an established connection is not one
    that has ended, and a write that starts is accepted in full.  (Without
    these the code itself may wait or loop for ever.) *)
Record prompt (e : Env) : Prop := {
  pr_answers : forall q, is_Some (e_net e q);
  pr_finished : forall c f, e_net e (IsFinished c) = Some f -> (f = true <-> dead c);
  pr_handshake : forall b c, e_net e (H2Handshake b) = Some (Ok c) -> ~ dead c;
  pr_0rtt : forall c, e_net e Into0rtt = Some (Some c) -> ~ dead c;
  pr_await : forall c, e_net e AwaitConnecting = Some (Ok c) -> ~ dead c;
  pr_files : e_fs e = fs;
  pr_write : forall c buf n, e_net e (QuicPollWrite c buf) <> Some (WPending n);
}.

Notation wp := (wp body prompt).

(** ** Rules *)

Lemma wp_op n {A} o (k : resp o -> prog A) r w' Q w js :
  (forall e, prompt e -> op_eval e o w = Some (r, w', [])) ->
  wp n (k r) Q w' js -> wp n (Vis o k) Q w js.
Proof.
  intros Ho Hk. apply wp_vis. intros e He. exists r, w', []. rewrite app_nil_r. split; [by apply Ho|done].
Qed.

Lemma wp_net n {A} q (k : net_resp q -> prog A) Q w js :
  (forall r e, prompt e -> e_net e q = Some r -> wp n (k r) Q w js) -> wp n (Vis (Net q) k) Q w js.
Proof.
  intros Hk. apply wp_vis. intros e He. destruct (pr_answers e He q) as [r Hr].
  exists r, w, []. rewrite app_nil_r. cbn [op_eval]. rewrite Hr. split; [done|]. by eapply Hk.
Qed.

Lemma wp_now n {A} (k : Z -> prog A) Q w js :
  (forall t, wp n (k t) Q w js) -> wp n (Vis Now k) Q w js.
Proof.
  intros Hk. apply wp_vis. intros e He. exists (e_now e), w, []. rewrite app_nil_r. by split.
Qed.

Lemma wp_spawn n {A} j (k : unit -> prog A) Q w js :
  wp n (k tt) Q w (js ++ [j]) -> wp n (Vis (Spawn j) k) Q w js.
Proof. intros Hk. apply wp_vis. intros e He. by exists tt, w, [j]. Qed.

(** ** [select!] with a token that is not cancelled *)

Definition token_free (o : op) : Prop :=
  match o with CancelToken _ | NewToken | OrCancel _ _ => False | _ => True end.

Lemma op_tokens e o w r w' js :
  token_free o -> op_eval e o w = Some (r, w', js) -> w_tokens w' = w_tokens w.
Proof.
  destruct o; intros Ht H; try done; cbn [op_eval] in H.
  all: try (unfold done_unit, on_backend, on_client in H).
  all: try (destruct (w_backends w !! b) as [x|]; cbn in H; [|done]).
  all: try (destruct (w_clients w !! c) as [x|]; cbn in H; [|done]).
  all: repeat (case_match; cbn in H; try done); simplify_eq; try done.
  destruct (e_net e q); cbn in H; by simplify_eq.
Qed.

Lemma wp_select t n {A} held (p : prog A) Q w js :
  (forall l, sel_label l -> all_ops token_free sel_label (body l)) ->
  all_ops token_free sel_label p -> is_cancelled t w = false ->
  wp n p (fun a w js => is_cancelled t w = false -> Q (Some a) w js) w js ->
  wp n (select_cancel t held p) Q w js.
Proof.
  intros Hbody. revert A held p Q w js.
  induction n as [|n IHn]; intros A held p; revert held; induction p as [a|o k IH|l k IH];
    intros held Q w js Ha Ht H; try (by apply H); try done.
  1, 2: destruct Ha as [Ho Ha]; cbn [select_cancel]; apply wp_vis; intros e He;
    destruct (wp_vis_inv _ _ _ _ _ _ _ _ e H He) as (r & w' & js' & E1 & H1);
    exists (Some r), w', js'; cbn [op_eval]; rewrite Ht, E1; split; [done|];
    apply IH; [done| |done]; unfold is_cancelled; by rewrite (op_tokens _ _ _ _ _ _ Ho E1).
  destruct Ha as [Hl Ha]. cbn [select_cancel]. apply wp_call. cbn [body].
  apply IHn; [by apply Hbody|done|].
  apply (wp_conseq _ _ _ _ (fun r w js => wp (S n) (k r) (fun a w js =>
    is_cancelled t w = false -> Q (Some a) w js) w js)); [exact H|].
  intros r w' js' Hr Ht'. by apply IH.
Qed.

(** ** Updates of one client *)

Definition put_client (c : nat) (x : ClientCell) (w : World) : World :=
  with_clients (<[c := x]> (w_clients w)) w.

Lemma put_client_get c x w : (c < length (w_clients w))%nat -> w_clients (put_client c x w) !! c = Some x.
Proof. intros Hc. simpl. by rewrite list_lookup_insert_eq. Qed.

Lemma put_client_put c x y w : put_client c y (put_client c x w) = put_client c y w.
Proof. unfold put_client, with_clients. simpl. by rewrite list_insert_insert_eq. Qed.

Lemma put_client_same c x w : w_clients w !! c = Some x -> put_client c x w = w.
Proof. intros Hx. unfold put_client, with_clients. rewrite list_insert_id by done. by destruct w. Qed.

Lemma on_client_put c x x' w f :
  w_clients w !! c = Some x -> f x = Some x' ->
  done_unit (on_client c w f) = Some (tt, put_client c x' w, []).
Proof. intros Hx Hf. unfold on_client. rewrite Hx. cbn. by rewrite Hf. Qed.

(** ** [Connector] *)

(** A client between operations: [x] up to the address cache. *)
Definition same_client (x x' : ClientCell) : Prop :=
  cl_config x' = cl_config x /\ cl_locked x' = cl_locked x /\ cl_state x' = cl_state x.

(** A connection just established is not one that has ended. *)
Definition conn_ok (r : result string nat) : Prop :=
  match r with Ok conn => ~ dead conn | Err _ => True end.

Lemma wp_quic_try_connect n cfg a b Q w js :
  (forall r, conn_ok r -> Q r w js) -> wp n (quic_try_connect cfg a b) Q w js.
Proof.
  intros HQ. unfold quic_try_connect. next. apply wp_net. intros [[]|e0] e He Hr; [|by apply wp_ret, HQ].
  next. apply wp_net. intros [[]|e1] e' He' Hr'; [|by apply wp_ret, HQ].
  assert (Hawait : wp n (Vis (Net AwaitConnecting) Ret) Q w js).
  { apply wp_net. intros r e2 He2 Hr2. apply wp_ret, HQ. destruct r; [|done]. by eapply pr_await. }
  destruct (qc_use_0rtt cfg); next; [|exact Hawait].
  apply wp_net. intros [conn|] e2 He2 Hr2; [|exact Hawait]. apply wp_ret, HQ. by eapply pr_0rtt.
Qed.

Lemma wp_connect_loop n c cfg le addrs x Q w js :
  w_clients w !! c = Some x ->
  (forall r x', conn_ok r -> same_client x x' -> Q r (put_client c x' w) js) ->
  wp n (connect_loop c cfg le addrs) Q w js.
Proof.
  intros Hx HQ. assert (Hsame : forall r, conn_ok r -> Q r w js).
  { intros r Hr. rewrite <- (put_client_same c x w Hx). by apply HQ. }
  revert le; induction addrs as [|a addrs IH]; intros le; cbn [connect_loop].
  - by apply wp_ret, Hsame.
  - destruct (endpoint_for cfg a) as [ea|]; [|apply IH].
    apply wp_bind, wp_quic_try_connect. intros [conn|err] Hr; [|apply IH].
    next. eapply wp_op; [intros e He; by apply (on_client_put c x)|]. apply wp_ret, HQ; [done|].
    by repeat split.
Qed.

Lemma wp_new_connection n c x Q w js :
  w_clients w !! c = Some x ->
  (forall r x', conn_ok r -> same_client x x' -> Q r (put_client c x' w) js) ->
  wp n (new_connection c) Q w js.
Proof.
  intros Hx HQ. assert (Hsame : forall r, conn_ok r -> Q r w js).
  { intros r Hr. rewrite <- (put_client_same c x w Hx). by apply HQ. }
  unfold new_connection. next. eapply wp_op; [intros e He; cbn; by rewrite Hx|].
  destruct (cl_config x) as [cfg|cfg].
  - unfold h2_new_connection. next. apply wp_net. intros [|e0|] e He Hr; [|by apply wp_ret, Hsame..].
    next. apply wp_net. intros [[]|e1] e' He' Hr'; [|by apply wp_ret, Hsame].
    next. apply wp_net. intros [[]|e2] e2' He2 Hr2; [|by apply wp_ret, Hsame].
    next. apply wp_net. intros r e3 He3 Hr3. apply wp_ret, Hsame. destruct r; [|done].
    by eapply pr_handshake.
  - unfold quic_new_connection. next. eapply wp_op; [intros e He; cbn; by rewrite Hx|].
    destruct (cl_last_addrs x) as [[ra ea]|]; [by apply wp_quic_try_connect|].
    unfold connect_addr. next. apply wp_net. intros [addrs|e0] e He Hr; [|by apply wp_ret, Hsame].
    by apply (wp_connect_loop _ _ _ _ _ x).
Qed.

(** The transitions of a client's state when a stream is requested. *)
Inductive stream_result (c : nat) (host : option ConnectHeadBuf)
    : ClientState -> result string StreamFut -> ClientState -> Prop :=
  (** a poisoned client refuses until it is reset *)
  | sr_poisoned : stream_result c host Poisoned (Err "connection is poisoned") Poisoned
  (** a live connection is reused *)
  | sr_reuse conn : ~ dead conn ->
      stream_result c host (Connected conn)
        (Ok {| sf_client := c; sf_conn := conn; sf_host := host |}) (Connected conn)
  (** without one a connection is established *)
  | sr_fresh s conn : match s with NotConnected => True | Connected old => dead old | Poisoned => False end ->
      ~ dead conn ->
      stream_result c host s
        (Ok {| sf_client := c; sf_conn := conn; sf_host := host |}) (Connected conn)
  (** a failure to establish one poisons the client *)
  | sr_fail s e : match s with NotConnected => True | Connected old => dead old | Poisoned => False end ->
      stream_result c host s (Err e) Poisoned.

(** The cell after a stream request: the state of [stream_result], the same
    configuration and lock. *)
Definition after_stream (c : nat) (host : option ConnectHeadBuf) (s : ClientState) (x x' : ClientCell)
    (r : result string StreamFut) : Prop :=
  cl_config x' = cl_config x /\ cl_locked x' = cl_locked x /\ stream_result c host s r (cl_state x').

Lemma lookup_length {A} (l : list A) i x : l !! i = Some x -> (i < length l)%nat.
Proof. apply lookup_lt_Some. Qed.

(** A turn of the loop on a live connection returns at once. *)
Lemma wp_stream_alive n c host conn x Q w js :
  w_clients w !! c = Some x -> cl_state x = Connected conn -> ~ dead conn ->
  Q (Ok {| sf_client := c; sf_conn := conn; sf_host := host |}) w js ->
  wp n (stream_body c host) Q w js.
Proof.
  intros Hx Hs Hd HQ. unfold stream_body. next. eapply wp_op; [intros e He; cbn; by rewrite Hx|].
  rewrite Hs. next. apply wp_net. intros f e He Hf.
  destruct f; [|by apply wp_ret]. destruct Hd. by apply (pr_finished e He conn true Hf).
Qed.

(** A turn without a connection: one attempt, then the turn above. *)
Lemma wp_stream_connect n c host x Q w js :
  w_clients w !! c = Some x -> cl_state x = NotConnected ->
  (forall e x', cl_config x' = cl_config x -> cl_locked x' = cl_locked x -> cl_state x' = Poisoned ->
     Q (Err e) (put_client c x' w) js) ->
  (forall conn x', ~ dead conn -> cl_config x' = cl_config x -> cl_locked x' = cl_locked x ->
     cl_state x' = Connected conn ->
     Q (Ok {| sf_client := c; sf_conn := conn; sf_host := host |}) (put_client c x' w) js) ->
  wp (S n) (stream_body c host) Q w js.
Proof.
  intros Hx Hs Herr Hok. unfold stream_body. next. eapply wp_op; [intros e He; cbn; by rewrite Hx|].
  rewrite Hs. next. pose proof (lookup_length _ _ _ Hx) as Hlen.
  apply wp_bind, (wp_new_connection _ _ x); [done|]. intros [conn|err] x' Hr (H1 & H2 & H3).
  - next. eapply wp_op; [intros e He; apply (on_client_put c x'); [by apply put_client_get|done]|].
    rewrite put_client_put. next. apply wp_call. cbn [body].
    eapply (wp_stream_alive _ _ _ conn); [by apply put_client_get|done|done|].
    apply wp_ret. by apply Hok.
  - next. eapply wp_op; [intros e He; apply (on_client_put c x'); [by apply put_client_get|done]|].
    rewrite put_client_put. apply wp_ret. by apply Herr.
Qed.

(** Requesting a stream takes and returns the lock, makes at most one attempt
    to connect, and moves the client's state as [stream_result] says. *)
Lemma wp_new_stream_fut n c host x Q w js :
  w_clients w !! c = Some x -> cl_locked x = false ->
  (forall r x', after_stream c host (cl_state x) x x' r -> Q r (put_client c x' w) js) ->
  wp (S (S (S n))) (new_stream_fut c host) Q w js.
Proof.
  intros Hx Hl HQ. unfold new_stream_fut. next. pose proof (lookup_length _ _ _ Hx) as Hlen.
  set (y := client_lock true x).
  eapply wp_op; [intros e He; apply (on_client_put c x y); [done|by rewrite Hl]|]. next. apply wp_call.
  cbn [body].
  assert (Hdone : forall r x', cl_config x' = cl_config x -> stream_result c host (cl_state x) r (cl_state x') ->
    wp (S (S (S n))) (Vis (UnlockInner c) (fun _ => Ret r)) Q (put_client c x' w) js).
  { intros r x' H1 H2. eapply wp_op; [intros e He; apply (on_client_put c x'); [by apply put_client_get|done]|].
    rewrite put_client_put. apply wp_ret, HQ. by repeat split. }
  assert (Hy : forall w', w' = put_client c y w -> w_clients w' !! c = Some y) by (intros ? ->; by apply put_client_get).
  destruct (cl_state x) as [| |conn] eqn:Hs.
  - unfold stream_body. next. eapply wp_op; [intros e He; cbn [op_eval]; by rewrite (Hy _ eq_refl)|].
    cbn. rewrite Hs. apply wp_ret. apply Hdone; [done|]. cbn. rewrite Hs. constructor.
  - eapply (wp_stream_connect _ _ _ y); [by apply Hy|done|..].
    + intros e x' H1 _ H3. rewrite put_client_put. apply Hdone; [done|]. rewrite H3. by apply sr_fail.
    + intros conn x' Hd H1 _ H3. rewrite put_client_put. apply Hdone; [done|]. rewrite H3. by apply sr_fresh.
  - unfold stream_body. next. eapply wp_op; [intros e He; cbn [op_eval]; by rewrite (Hy _ eq_refl)|].
    cbn. rewrite Hs. next. apply wp_net. intros f e He Hf. destruct f.
    + assert (Hd0 : dead conn) by (by apply (pr_finished e He conn true Hf)). next.
      eapply wp_op; [intros e' He'; apply (on_client_put c y); [by apply Hy|done]|].
      rewrite put_client_put. next. apply wp_call. cbn [body].
      eapply (wp_stream_connect _ _ _ (client_state NotConnected y)); [by apply put_client_get|done|..].
      * intros e' x' H1 _ H3. rewrite put_client_put. apply wp_ret. apply Hdone; [done|].
        rewrite H3. by apply sr_fail.
      * intros conn' x' Hd H1 _ H3. rewrite put_client_put. apply wp_ret. apply Hdone; [done|].
        rewrite H3. by apply sr_fresh.
    + apply wp_ret. assert (Hd : ~ dead conn) by (intros Hd; apply (pr_finished e He conn false Hf) in Hd; discriminate).
      apply Hdone; [done|]. cbn. rewrite Hs. by apply sr_reuse.
Qed.

(** Running the stream request changes nothing in the store. *)
Lemma wp_new_stream n f x Q w js :
  w_clients w !! sf_client f = Some x ->
  (forall r, stream_ok (sf_host f) r -> Q r w js) ->
  wp (S (S (S n))) (new_stream f) Q w js.
Proof.
  intros Hx HQ. unfold new_stream. next. eapply wp_op; [intros e He; cbn; by rewrite Hx|].
  destruct (cl_config x) as [cfg|cfg].
  - unfold h2_new_stream. next. apply wp_net. intros [[]|e0] e He Hr; [|by apply wp_ret, HQ].
    next. apply wp_net. intros [[]|e1] e' He' Hr'; [|by apply wp_ret, HQ].
    next. apply wp_net. intros [[]|e2] e2' He2 Hr2; [|by apply wp_ret, HQ].
    next. destruct (sf_host f) as [host|] eqn:Eh; [|apply wp_ret, HQ; unfold stream_ok; congruence].
    apply wp_net. intros [[]|e3] e3' He3 Hr3; by apply wp_ret, HQ.
  - unfold quic_new_stream.
    destruct (sf_host f) as [host|] eqn:Eh; [|apply wp_ret, HQ; unfold stream_ok; congruence].
    next. apply wp_net. intros [[]|e0] e He Hr; [|by apply wp_ret, HQ].
    next. apply wp_call. cbn [body quic_poll_body]. next. apply wp_call. cbn [body quic_poll_body]. next.
    apply wp_net. intros r e1 He1 Hr1. destruct r as [|m|e2]; [|by apply (pr_write e1 He1) in Hr1|].
    + next. apply wp_call. cbn [body quic_poll_body]. next. apply wp_net. intros [r|e2] e3 He3 Hr3;
        do 4 (apply wp_ret); by apply HQ.
    + do 3 apply wp_ret. by apply HQ.
Qed.

(** ** Updates of one backend *)

Definition put_backend (b : nat) (c : BackendCell) (w : World) : World :=
  with_backends (<[b := c]> (w_backends w)) w.

Lemma put_backend_get b c w :
  (b < length (w_backends w))%nat -> w_backends (put_backend b c w) !! b = Some c.
Proof. intros Hb. simpl. by rewrite list_lookup_insert_eq. Qed.

Lemma put_backend_put b c c' w : put_backend b c' (put_backend b c w) = put_backend b c' w.
Proof. unfold put_backend, with_backends. simpl. by rewrite list_insert_insert_eq. Qed.

Lemma put_backend_same b c w : w_backends w !! b = Some c -> put_backend b c w = w.
Proof. intros Hc. unfold put_backend, with_backends. rewrite list_insert_id by done. by destruct w. Qed.

Lemma put_comm b c i x w : put_backend b c (put_client i x w) = put_client i x (put_backend b c w).
Proof. done. Qed.

Lemma on_backend_put b c c' w f :
  w_backends w !! b = Some c -> f c = Some c' ->
  done_unit (on_backend b w f) = Some (tt, put_backend b c' w, []).
Proof. intros Hc Hf. unfold on_backend. rewrite Hc. cbn. by rewrite Hf. Qed.

Lemma wp_set_status n {A} b c s (k : unit -> prog A) Q w js :
  w_backends w !! b = Some c ->
  wp n (k tt) Q (put_backend b (cell_metric (with_status s (be_metric c)) c) w) js ->
  wp n (Vis (CallMetric b (CallSetStatus s)) k) Q w js.
Proof. intros Hc Hk. eapply wp_op; [intros e He; by apply (on_backend_put b c)|exact Hk]. Qed.

(** ** [Backend] *)

Lemma wp_client_reset_client n c x Q w js :
  w_clients w !! c = Some x -> cl_locked x = false ->
  Q tt (put_client c (client_state NotConnected x) w) js ->
  wp n (client_reset_client c) Q w js.
Proof.
  intros Hx Hl HQ. pose proof (lookup_length _ _ _ Hx) as Hlen. unfold client_reset_client. next.
  eapply wp_op; [intros e He; apply (on_client_put c x (client_lock true x)); [done|by rewrite Hl]|]. next.
  eapply wp_op; [intros e He; cbn [op_eval]; by rewrite put_client_get|].
  assert (Hx' : forall s, client_lock false (client_state s (client_lock true x)) = client_state s x).
  { intros s. destruct x. simpl in *. by subst. }
  assert (Hfin : forall s, wp n (do (UnlockInner c)) (fun a w js => Q a w js)
      (put_client c (client_state s (client_lock true x)) w) js <-> wp n (do (UnlockInner c)) Q
      (put_client c (client_state s (client_lock true x)) w) js) by done.
  assert (Hset : wp n (Vis (SetState c NotConnected) (fun _ => Vis (UnlockInner c) Ret)) Q
      (put_client c (client_lock true x) w) js).
  { eapply wp_op; [intros e He; apply (on_client_put c (client_lock true x)); [by apply put_client_get|done]|].
    rewrite put_client_put.
    eapply wp_op; [intros e He; apply (on_client_put c (client_state NotConnected (client_lock true x)));
      [by apply put_client_get|done]|]. rewrite put_client_put, Hx'. by apply wp_ret. }
  change (cl_state (client_lock true x)) with (cl_state x). destruct (cl_state x) as [| |conn] eqn:Hs; next.
  - exact Hset.
  - eapply wp_op; [intros e He; apply (on_client_put c (client_lock true x)); [by apply put_client_get|done]|].
    rewrite put_client_put. apply wp_ret.
    assert (client_lock false (client_lock true x) = client_state NotConnected x) as -> by
      (destruct x; simpl in *; by subst). exact HQ.
  - apply wp_net. intros [] e He Hr. exact Hset.
Qed.

Lemma token_free_plain c o : plain_op c o -> token_free o.
Proof. by destruct o. Qed.

Lemma plain_sel_label l : plain_label l -> sel_label l.
Proof. by destruct l. Qed.

Lemma token_free_fut c host :
  all_ops token_free sel_label (f ←? new_stream_fut c host; new_stream f).
Proof.
  apply all_ops_bind.
  - split; [done|]. intros []. split; [done|]. intros r. by split.
  - intros [f|e]; [|done]. apply (all_ops_weaken (plain_op (sf_client f)) _ plain_label _);
      [apply token_free_plain|apply plain_sel_label|apply plain_new_stream].
Qed.

Lemma token_free_body l : sel_label l -> all_ops token_free sel_label (body l).
Proof.
  destruct l as [c host|conn host st| | |]; try done; intros _; cbn [body].
  - split; [done|]. intros s. next. destruct s as [| |conn]; [done| |].
    + apply all_ops_bind.
      * apply (all_ops_weaken (plain_op c) _ plain_label _);
          [apply token_free_plain|apply plain_sel_label|apply plain_new_connection].
      * intros [conn|e]; (split; [done|]); intros []; [|done]. by split.
    + split; [done|]. intros [|]; [|done]. split; [done|]. intros []. by split.
  - destruct st; cbn [quic_poll_body]; [by split|..]; (split; [done|]); intros []; try done; by split.
Qed.

(** The outcome of [try_connect] and the client's state after it. *)
Definition try_result (c : nat) (host : option ConnectHeadBuf) (s : ClientState)
    (r : result string BidiStream) (s' : ClientState) : Prop :=
  exists f, stream_result c host s f s' /\
    match f with Err e => r = Err e | Ok _ => stream_ok host r end.

Lemma wp_try_connect n b c x host Q w js :
  w_backends w !! b = Some c -> w_clients w !! client (be_backend c) = Some x -> cl_locked x = false ->
  is_cancelled (cancellation_token (be_backend c)) w = false ->
  (forall r x', cl_config x' = cl_config x -> cl_locked x' = false ->
     try_result (client (be_backend c)) host (cl_state x) r (cl_state x') ->
     Q r (put_client (client (be_backend c)) x' w) js) ->
  wp (S (S (S n))) (try_connect b host) Q w js.
Proof.
  intros Hc Hx Hl Ht HQ. unfold try_connect. next.
  eapply wp_op; [intros e He; cbn [op_eval]; by rewrite Hc|].
  apply wp_bind, wp_select; [apply token_free_body|apply token_free_fut|done|].
  next. apply wp_bind, (wp_new_stream_fut _ _ _ x); [done|done|].
  intros f x' (H1 & H2 & H3). destruct f as [f|e].
  - pose proof (lookup_length _ _ _ Hx) as Hlen.
    assert (sf_client f = client (be_backend c) /\ sf_host f = host) as [E1 E2] by (by inversion H3).
    apply (wp_new_stream _ _ x').
    { rewrite E1. by apply put_client_get. }
    intros r Hr _. apply wp_ret. apply HQ; [done|by rewrite H2|].
    exists (Ok f). split; [done|]. by rewrite <- E2.
  - apply wp_ret. intros _. apply wp_ret. apply HQ; [done|by rewrite H2|]. by exists (Err e).
Qed.

(** The cell of a backend after an attempt: its status, nothing else. *)
Definition cell_status (s : BackendStatus) (c : BackendCell) : BackendCell :=
  cell_metric (with_status s (be_metric c)) c.

Definition retry_status (r : ControlFlow) : BackendStatus :=
  match r with Break => Normal | Continue => Closed end.

Lemma cell_back c r : retrying (be_backend c) = r ->
  cell_backend (set_retrying r) c = c.
Proof. intros <-. by destruct c as [? ? ? [] ? ? ?]. Qed.

Lemma cell_status_same c s : status (be_metric c) = s -> cell_status s c = c.
Proof. intros <-. by destruct c as [? ? ? ? [] ? ?]. Qed.

Lemma wp_store_retrying n {A} b c v (k : unit -> prog A) Q w js :
  w_backends w !! b = Some c ->
  wp n (k tt) Q (put_backend b (cell_backend (set_retrying v) c) w) js ->
  wp n (Vis (StoreRetrying b v) k) Q w js.
Proof. intros Hc Hk. eapply wp_op; [intros e He; by apply (on_backend_put b c)|exact Hk]. Qed.

(** What a retry leaves: the backend comes up or stays closed, its client is
    connected when it came up, and it may be retried again. *)
Definition retried (b : backend_id) (c : BackendCell) (x : ClientCell) (w : World) (js : list job)
    (r : ControlFlow) (w' : World) (js' : list job) : Prop :=
  exists x', w' = put_client (client (be_backend c)) x' (put_backend b (cell_status (retry_status r) c) w) /\
    cl_config x' = cl_config x /\ cl_locked x' = false /\
    (r = Break -> exists conn, cl_state x' = Connected conn) /\ js' = js.

(** The state in which a backend can be retried. *)
Record retriable (b : backend_id) (c : BackendCell) (x : ClientCell) (w : World) : Prop := {
  rt_backend : w_backends w !! b = Some c;
  rt_client : w_clients w !! client (be_backend c) = Some x;
  rt_unlocked : cl_locked x = false;
  rt_token : is_cancelled (cancellation_token (be_backend c)) w = false;
  rt_flag : retrying (be_backend c) = false;
}.

Lemma wp_retry_end n b c x x' v w w' s js :
  (b < length (w_backends w))%nat -> retrying (be_backend c) = false ->
  w' = put_client (client (be_backend c)) x'
         (put_backend b (cell_status s (cell_backend (set_retrying true) c)) w) ->
  s = retry_status v -> cl_config x' = cl_config x -> cl_locked x' = false ->
  (v = Break -> exists conn, cl_state x' = Connected conn) ->
  wp n (_ ← do (StoreRetrying b false); Ret v) (retried b c x w js) w' js.
Proof.
  intros Hb Hr -> -> H1 H2 Hv. set (c1 := cell_backend (set_retrying true) c). next.
  apply (wp_store_retrying _ _ (cell_status (retry_status v) c1)); [by apply put_backend_get|].
  apply wp_ret. exists x'. split; [|done]. rewrite put_comm, put_backend_put.
  assert (cell_backend (set_retrying false) (cell_status (retry_status v) c1)
    = cell_status (retry_status v) (cell_backend (set_retrying false) c)) as -> by done.
  by rewrite (cell_back c false).
Qed.

Lemma wp_retry_attempt n b c x w js :
  retriable b c x w -> wp (S (S (S n))) (retry_attempt b) (retried b c x w js) w js.
Proof.
  intros [Hc Hx Hl Ht Hr]. pose proof (lookup_length _ _ _ Hc) as Hlb.
  pose proof (lookup_length _ _ _ Hx) as Hlc.
  set (c1 := cell_backend (set_retrying true) c). unfold retry_attempt.
  next. apply (wp_store_retrying _ _ c); [done|]. next.
  eapply wp_op; [intros e He; cbn [op_eval]; by rewrite put_backend_get|].
  apply wp_bind, (wp_client_reset_client _ _ x); [done|done|].
  apply wp_bind, (wp_try_connect _ _ c1 (client_state NotConnected x));
    [by apply put_backend_get|by apply put_client_get|done|done|].
  intros r x' H1 H2 (f & Hf & Hrf). rewrite put_client_put. destruct r as [s|err]; [|next].
  - apply (wp_set_status _ _ c1); [by apply put_backend_get|].
    apply (wp_retry_end _ _ _ _ x' Break _ _ Normal); try done; [by rewrite put_comm, put_backend_put|].
    intros _. inversion Hf; subst; try done; by eexists.
  - eapply wp_op; [intros e He; cbn [op_eval]; cbn [w_backends put_client with_clients];
      by rewrite put_backend_get|].
    case_decide as Hd; next.
    + apply (wp_set_status _ _ c1); [by apply put_backend_get|].
      apply (wp_retry_end _ _ _ _ x' Continue _ _ Closed); try done. by rewrite put_comm, put_backend_put.
    + apply (wp_retry_end _ _ _ _ x' Continue _ _ Closed); try done.
      rewrite (cell_status_same _ Closed); [done|].
      destruct (decide (status (be_metric c1) = Closed)); [done|]. by destruct Hd.
Qed.

Lemma wp_retry_connect n b c x w js :
  retriable b c x w -> status (be_metric c) = Closed \/ status (be_metric c) = Unknown ->
  wp (S (S (S n))) (retry_connect b) (retried b c x w js) w js.
Proof.
  intros H Hs. pose proof H as [Hc Hx Hl Ht Hr].
  assert (Hload : wp (S (S (S n))) (Vis (LoadRetrying b) (fun r => if r : bool then Ret Break
      else retry_attempt b)) (retried b c x w js) w js).
  { eapply wp_op; [intros e He; cbn [op_eval]; by rewrite Hc|]. rewrite Hr. by apply wp_retry_attempt. }
  unfold retry_connect. next. eapply wp_op; [intros e He; cbn [op_eval]; by rewrite Hc|].
  destruct Hs as [-> | ->]; exact Hload.
Qed.
End Solo.
