(* ===== verification/Lifecycle.v ===== *)
(** * The lifecycle of a backend

    Specifications of the requests that change a backend - the retry of a
    backend that is down, the switch of its status, its reset, the switch of
    its protocol - when they run without interference: the exact store they
    leave, the jobs they spawn, and that they terminate. *)

From S2P Require Import Prelude NetAddr LibProxy LibMetric Metric Tls BackendConfig Peer Balance World Connector Backend Proxy MetricApi Discipline System Run Locks Solo Example.

Section Lifecycle.
Context `{F : F64} `{CL : ClientLib} `{HR : HashRing} `{TL : TlsLib}.
Context (dead : nat -> Prop) (fs : FileSystem).

Notation wp := (wp body (prompt dead fs)).

(** ** Operations on one backend

    The store is written [put_backend b c w]: the initial store [w] with the
    current cell [c] of the backend under consideration. *)
Section Focus.
Context (b : nat) (w : World) (Hb : (b < length (w_backends w))%nat).
Context (n : nat) {A : Type}.
Implicit Types (c : BackendCell) (Q : Post A).

Lemma wp_read_lock c k Q js :
  be_writer c = false ->
  wp n (k tt) Q (put_backend b (cell_lock (S (be_readers c)) false c) w) js ->
  wp n (Vis (ReadLock b) k) Q (put_backend b c w) js.
Proof.
  intros Hw Hk. rewrite <- (put_backend_put b c) in Hk. eapply wp_op; [|exact Hk].
  intros e He. apply (on_backend_put b c); [by apply put_backend_get|]. by rewrite Hw.
Qed.

Lemma wp_write_lock c k Q js :
  be_writer c = false -> be_readers c = 0%nat ->
  wp n (k tt) Q (put_backend b (cell_lock 0 true c) w) js ->
  wp n (Vis (WriteLock b) k) Q (put_backend b c w) js.
Proof.
  intros Hw Hr Hk. rewrite <- (put_backend_put b c) in Hk. eapply wp_op; [|exact Hk].
  intros e He. apply (on_backend_put b c); [by apply put_backend_get|]. by rewrite Hw, Hr.
Qed.

(** An operation on the cell that neither waits nor fails. *)
Lemma wp_cell o f c (k : resp o -> prog A) (r : resp o) Q js :
  (forall e w' c, w_backends w' !! b = Some c ->
     op_eval e o w' = Some (r, put_backend b (f c) w', [])) ->
  wp n (k r) Q (put_backend b (f c) w) js ->
  wp n (Vis o k) Q (put_backend b c w) js.
Proof.
  intros Ho Hk. rewrite <- (put_backend_put b c) in Hk. eapply wp_op; [|exact Hk].
  intros e He. apply Ho. by apply put_backend_get.
Qed.

(** An operation that reads the cell. *)
Lemma wp_look o g c (k : resp o -> prog A) Q js :
  (forall e w' c, w_backends w' !! b = Some c -> op_eval e o w' = Some (g c, w', [])) ->
  wp n (k (g c)) Q (put_backend b c w) js ->
  wp n (Vis o k) Q (put_backend b c w) js.
Proof.
  intros Ho Hk. eapply wp_op; [|exact Hk]. intros e He. apply Ho. by apply put_backend_get.
Qed.

Lemma wp_metric call c m k Q js :
  (forall now, absorb_all Release now (call_ops call) (be_metric c) = Done m) ->
  wp n (k tt) Q (put_backend b (cell_metric m c) w) js ->
  wp n (Vis (CallMetric b call) k) Q (put_backend b c w) js.
Proof.
  intros Hm Hk. rewrite <- (put_backend_put b c) in Hk. eapply wp_op; [|exact Hk].
  intros e He. apply (on_backend_put b c); [by apply put_backend_get|]. by rewrite Hm.
Qed.

Lemma wp_read_unlock c k Q js :
  wp n (k tt) Q (put_backend b (cell_lock (pred (be_readers c)) (be_writer c) c) w) js ->
  wp n (Vis (ReadUnlock b) k) Q (put_backend b c w) js.
Proof.
  apply (wp_cell (ReadUnlock b) (fun c => cell_lock (pred (be_readers c)) (be_writer c) c)).
  intros e w' c' Hc. by apply (on_backend_put b c').
Qed.

Lemma wp_write_unlock c k Q js :
  wp n (k tt) Q (put_backend b (cell_lock (be_readers c) false c) w) js ->
  wp n (Vis (WriteUnlock b) k) Q (put_backend b c w) js.
Proof.
  apply (wp_cell (WriteUnlock b) (fun c => cell_lock (be_readers c) false c)).
  intros e w' c' Hc. by apply (on_backend_put b c').
Qed.

Lemma wp_set_token c t k Q js :
  wp n (k tt) Q (put_backend b (cell_backend (set_token t) c) w) js ->
  wp n (Vis (SetToken b t) k) Q (put_backend b c w) js.
Proof.
  apply (wp_cell (SetToken b t) (cell_backend (set_token t))).
  intros e w' c' Hc. by apply (on_backend_put b c').
Qed.

Lemma wp_set_client c i k Q js :
  wp n (k tt) Q (put_backend b (cell_backend (set_client i) c) w) js ->
  wp n (Vis (SetClient b i) k) Q (put_backend b c w) js.
Proof.
  apply (wp_cell (SetClient b i) (cell_backend (set_client i))).
  intros e w' c' Hc. by apply (on_backend_put b c').
Qed.

Lemma wp_set_config c cfg k Q js :
  wp n (k tt) Q (put_backend b (cell_backend (set_config cfg) c) w) js ->
  wp n (Vis (SetConfig b cfg) k) Q (put_backend b c w) js.
Proof.
  apply (wp_cell (SetConfig b cfg) (cell_backend (set_config cfg))).
  intros e w' c' Hc. by apply (on_backend_put b c').
Qed.

Lemma wp_set_retrying c v k Q js :
  wp n (k tt) Q (put_backend b (cell_backend (set_retrying v) c) w) js ->
  wp n (Vis (StoreRetrying b v) k) Q (put_backend b c w) js.
Proof.
  apply (wp_cell (StoreRetrying b v) (cell_backend (set_retrying v))).
  intros e w' c' Hc. by apply (on_backend_put b c').
Qed.

Lemma wp_get_fields c k Q js :
  wp n (k (be_backend c)) Q (put_backend b c w) js -> wp n (Vis (GetFields b) k) Q (put_backend b c w) js.
Proof. apply (wp_look (GetFields b) be_backend). intros e w' c' Hc. cbn. by rewrite Hc. Qed.

Lemma wp_get_status c k Q js :
  wp n (k (status (be_metric c))) Q (put_backend b c w) js ->
  wp n (Vis (GetStatus b) k) Q (put_backend b c w) js.
Proof.
  apply (wp_look (GetStatus b) (fun c => status (be_metric c))). intros e w' c' Hc. cbn. by rewrite Hc.
Qed.
End Focus.

(** ** Tokens *)

Definition cancelled_world (t : nat) (w : World) : World :=
  with_tokens (<[t := true]> (w_tokens w)) w.

Definition fresh_token_world (w : World) : World := with_tokens (w_tokens w ++ [false]) w.

(** The cell after [renew_cancellation_token] when [t] is the new token. *)
Definition renewed_cell (t : nat) (c : BackendCell) : BackendCell :=
  cell_backend (set_retrying false) (cell_backend (set_token t) c).

Lemma wp_cancel n b c w Q js :
  (b < length (w_backends w))%nat ->
  Q tt (put_backend b c (cancelled_world (cancellation_token (be_backend c)) w)) js ->
  wp n (cancel b) Q (put_backend b c w) js.
Proof.
  intros Hb HQ. unfold cancel. next. apply wp_get_fields; [done|].
  eapply wp_op; [intros e He; reflexivity|]. by apply wp_ret.
Qed.

Lemma wp_renew n b c w Q js :
  (b < length (w_backends w))%nat ->
  Q tt (put_backend b (renewed_cell (length (w_tokens w)) c) (fresh_token_world w)) js ->
  wp n (renew_cancellation_token b) Q (put_backend b c w) js.
Proof.
  intros Hb HQ. unfold renew_cancellation_token. next.
  eapply wp_op; [intros e He; reflexivity|].
  change (with_tokens _ (put_backend b c w)) with (put_backend b c (fresh_token_world w)).
  apply wp_set_token; [done|]. apply wp_set_retrying; [done|]. by apply wp_ret.
Qed.

(** ** [switch_backend_status] *)

(** The new token is not cancelled. *)
Lemma fresh_token_ok w t : is_cancelled (length (w_tokens w)) (fresh_token_world (cancelled_world t w)) = false.
Proof.
  unfold is_cancelled. simpl. rewrite lookup_app_r by (rewrite length_insert; lia).
  by rewrite length_insert, Nat.sub_diag.
Qed.

(** The store after the switch: a force-closed backend is to be probed with a
    token of its own, any other is closed with its token cancelled. *)
Definition toggled (b : nat) (c : BackendCell) (w : World) : World :=
  let w := cancelled_world (cancellation_token (be_backend c)) w in
  match status (be_metric c) with
  | ForceClosed =>
      put_backend b (renewed_cell (length (w_tokens w)) (cell_status Unknown c)) (fresh_token_world w)
  | Normal | Closed | Unknown => put_backend b (cell_status ForceClosed c) w
  end.

Definition toggled_jobs (b : nat) (c : BackendCell) : list job :=
  match status (be_metric c) with ForceClosed => [JRetry b] | _ => [] end.

(** The lock of a backend nobody uses. *)
Definition unlocked (c : BackendCell) : Prop := be_readers c = 0%nat /\ be_writer c = false.

Lemma cell_lock_back c : unlocked c -> cell_lock 0 false c = c.
Proof. intros [H1 H2]. destruct c. simpl in *. by subst. Qed.

Lemma wp_find n {A} b (w : World) (f : option nat -> prog A) Q js :
  (b < length (w_backends w))%nat -> wp n (f (Some b)) Q w js ->
  wp n (pbind (find_backend_by_id b) f) Q w js.
Proof.
  intros Hb Hk. unfold find_backend_by_id. next. eapply wp_op; [intros e He; reflexivity|].
  by rewrite decide_True.
Qed.

(** The first step of every request: the token is cancelled under a read
    lock. *)
Lemma wp_cancel_locked n {A} b c w (p : prog A) Q js :
  (b < length (w_backends w))%nat -> unlocked c ->
  wp n p Q (put_backend b c (cancelled_world (cancellation_token (be_backend c)) w)) js ->
  wp n (_ ← do (ReadLock b); _ ← cancel b; _ ← do (ReadUnlock b); p) Q (put_backend b c w) js.
Proof.
  intros Hb Hu Hp. pose proof Hu as [Hr Hw]. next. apply wp_read_lock; [done|done|].
  apply wp_bind, wp_cancel; [done|]. next. apply wp_read_unlock; [done|].
  cbn [be_readers be_writer cell_lock be_backend pred]. rewrite Hr.
  assert (cell_lock 0 false (cell_lock 1 false c) = c) as -> by (by rewrite <- (cell_lock_back c) at 2).
  exact Hp.
Qed.

Lemma wp_switch_backend_status n b c w js :
  w_backends w !! b = Some c -> unlocked c ->
  wp n (switch_backend_status b)
    (fun r w' js' => r = Ok tt /\ w' = toggled b c w /\ js' = js ++ toggled_jobs b c) w js.
Proof.
  intros Hc Hu. pose proof (lookup_length _ _ _ Hc) as Hb. pose proof Hu as [Hr Hw].
  unfold switch_backend_status. apply wp_find; [done|].
  rewrite <- (put_backend_same b c w Hc) at 1. apply wp_cancel_locked; [done|done|].
  set (w1 := cancelled_world _ w). next.
  apply wp_read_lock; [done|done|]. apply wp_get_status; [done|]. rewrite Hr.
  change (be_metric (cell_lock 1 false c)) with (be_metric c). unfold toggled, toggled_jobs. fold w1.
  assert (Hclosed : forall s, wp n (_ ← set_backend_status b s; _ ← do (ReadUnlock b); Ret (Ok tt : result string unit))
    (fun r w' js' => r = Ok tt /\ w' = put_backend b (cell_status s c) w1 /\ js' = js ++ [])
    (put_backend b (cell_lock 1 false c) w1) js).
  { intros s. next. eapply wp_metric; [done|intros; reflexivity|]. apply wp_read_unlock; [done|].
    apply wp_ret. split; [done|]. split; [|by rewrite app_nil_r].
    exact (f_equal (fun c => put_backend b (cell_status s c) w1) (cell_lock_back c Hu)). }
  destruct (status (be_metric c)) eqn:Hs; [apply Hclosed..|]. clear Hclosed. next. eapply wp_metric; [done|intros; reflexivity|]. apply wp_read_unlock; [done|].
  apply wp_write_lock; [done|done|done|]. apply wp_bind, wp_renew; [done|].
  next. apply wp_write_unlock; [done|]. apply wp_spawn, wp_ret. split; [done|]. split; [|done].
  exact (f_equal (fun c => put_backend b (renewed_cell _ (cell_status Unknown c)) _) (cell_lock_back c Hu)).
Qed.

(** ** [reset_backend] *)

(** [Reset] keeps the status, the protocol and the latency estimate. *)
Definition reset_metric (m : MetricData) : MetricData :=
  with_peers ∅ (with_active 0 (with_failures 0 m)).

Lemma wp_reset_client n b c x w Q js :
  (b < length (w_backends w))%nat -> w_clients w !! client (be_backend c) = Some x -> cl_locked x = false ->
  Q tt (put_backend b (cell_metric (reset_metric (be_metric c)) c)
          (put_client (client (be_backend c)) (client_state NotConnected x) w)) js ->
  wp n (reset_client b) Q (put_backend b c w) js.
Proof.
  intros Hb Hx Hl HQ. unfold reset_client. next. apply wp_get_fields; [done|].
  apply wp_bind, (wp_client_reset_client _ _ _ _ x); [done|done|]. next. rewrite <- put_comm.
  eapply (wp_metric b); [done|intros; reflexivity|]. by apply wp_ret.
Qed.

Definition reset_world (b : nat) (c : BackendCell) (x : ClientCell) (w : World) : World :=
  let w := cancelled_world (cancellation_token (be_backend c)) w in
  put_backend b (renewed_cell (length (w_tokens w)) (cell_metric (reset_metric (be_metric c)) c))
    (fresh_token_world (put_client (client (be_backend c)) (client_state NotConnected x) w)).

Lemma wp_reset_backend n b c x w js :
  w_backends w !! b = Some c -> unlocked c ->
  w_clients w !! client (be_backend c) = Some x -> cl_locked x = false ->
  wp n (reset_backend b) (fun r w' js' => r = Ok tt /\ w' = reset_world b c x w /\ js' = js) w js.
Proof.
  intros Hc Hu Hx Hl. pose proof (lookup_length _ _ _ Hc) as Hb. pose proof Hu as [Hr Hw].
  unfold reset_backend. apply wp_find; [done|].
  rewrite <- (put_backend_same b c w Hc) at 1. next. apply wp_read_lock; [done|done|].
  apply wp_bind, wp_cancel; [done|]. rewrite Hr. cbn [be_backend cell_lock].
  apply wp_bind, (wp_reset_client _ _ _ x); [done|done|done|].
  next. apply wp_read_unlock; [done|]. apply wp_write_lock; [done|done|done|].
  apply wp_bind, wp_renew; [done|]. next. apply wp_write_unlock; [done|]. apply wp_ret.
  split; [done|]. split; [|done]. unfold reset_world.
  exact (f_equal (fun c1 => put_backend b (renewed_cell _ (cell_metric (reset_metric (be_metric c)) c1)) _)
    (cell_lock_back c Hu)).
Qed.

(** ** [switch_backend_protocol] *)

(** The cell with the other protocol in its table. *)
Definition with_next_protocol (c : BackendCell) : BackendCell :=
  let cfg := file_backend_config (be_backend c) in
  cell_backend (set_config (with_fb_protocol (next_protocol (fb_protocol cfg)) cfg)) c.

Definition new_client_world (mix : MixConfig) (w : World) : World :=
  with_clients (w_clients w ++ [{| cl_config := mix; cl_last_addrs := None; cl_locked := false;
                                   cl_state := NotConnected |}]) w.

(** The store after the switch: with a client for the new protocol when one can
    be built; otherwise only the table names the new protocol, and the token
    stays cancelled. *)
Definition switched (b : nat) (c : BackendCell) (w : World) : World :=
  let c' := with_next_protocol c in
  let w := cancelled_world (cancellation_token (be_backend c)) w in
  match build_client Release fs (file_backend_config (be_backend c')) with
  | Done (Ok (mix, _)) =>
      put_backend b
        (renewed_cell (length (w_tokens w))
          (cell_metric (reset_metric (with_protocol (fb_protocol (file_backend_config (be_backend c')))
                          (be_metric c)))
            (cell_backend (set_client (length (w_clients w))) c')))
        (fresh_token_world (new_client_world mix w))
  | _ => put_backend b c' w
  end.

Definition switched_result (c : BackendCell) : result string unit :=
  match build_client Release fs (file_backend_config (be_backend (with_next_protocol c))) with
  | Done (Ok _) => Ok tt
  | _ => Err "Could not build client from backend file"
  end.

Lemma wp_switch_protocol n b c w js :
  (b < length (w_backends w))%nat ->
  wp n (switch_protocol b) (fun r w' js' => r = switched_result c /\ w' = switched b c w /\ js' = js)
    (put_backend b c (cancelled_world (cancellation_token (be_backend c)) w)) js.
Proof.
  intros Hb. unfold switch_protocol, switched, switched_result. set (w1 := cancelled_world _ w).
  next. apply wp_get_fields; [done|]. apply wp_set_config; [done|].
  change (cell_backend _ c) with (with_next_protocol c). set (c' := with_next_protocol c).
  change (with_fb_protocol _ _) with (file_backend_config (be_backend c')).
  eapply wp_op; [intros e He; cbn [op_eval]; by rewrite (pr_files _ _ _ He)|].
  destruct (build_client Release fs _) as [[[mix dom]|err]|] eqn:Hm.
  - next. eapply wp_op; [intros e He; reflexivity|].
    change (with_clients _ (put_backend b c' w1)) with (put_backend b c' (new_client_world mix w1)).
    apply wp_set_client; [done|].
    change (length (w_clients (put_backend b c' w1))) with (length (w_clients w)).
    set (c2 := cell_backend (set_client (length (w_clients w))) c').
    apply wp_bind, wp_renew; [done|]. next. eapply wp_metric; [done|intros; reflexivity|].
    set (x := {| cl_config := mix; cl_last_addrs := None; cl_locked := false; cl_state := NotConnected |}).
    assert (Hx : (w_clients w ++ [x]) !! length (w_clients w) = Some x)
      by (by rewrite lookup_app_r, Nat.sub_diag by done).
    apply wp_bind, (wp_reset_client _ _ _ x); [done|exact Hx|done|].
    apply wp_ret. split; [done|]. split; [|done].
    rewrite put_client_same; [done|exact Hx].
  - by apply wp_ret.
  - by apply build_client_release in Hm.
Qed.

Lemma wp_switch_backend_protocol n b c w js :
  w_backends w !! b = Some c -> unlocked c ->
  wp n (switch_backend_protocol b)
    (fun r w' js' => r = switched_result c /\ w' = switched b c w /\ js' = js) w js.
Proof.
  intros Hc Hu. pose proof (lookup_length _ _ _ Hc) as Hb. pose proof Hu as [Hr Hw].
  unfold switch_backend_protocol. apply wp_find; [done|].
  rewrite <- (put_backend_same b c w Hc) at 1. apply wp_cancel_locked; [done|done|]. next.
  apply wp_write_lock; [done|done|done|].
  apply wp_bind. set (cl := cell_lock 0 true c).
  change (cancellation_token (be_backend c)) with (cancellation_token (be_backend cl)).
  eapply wp_conseq; [by apply wp_switch_protocol|]. intros r w' js' (-> & -> & ->). next.
  unfold switched, switched_result.
  change (build_client Release fs (file_backend_config (be_backend (with_next_protocol cl))))
    with (build_client Release fs (file_backend_config (be_backend (with_next_protocol c)))).
  destruct (build_client Release fs _) as [[[mix dom]|err]|] eqn:Hm;
    (apply wp_write_unlock; [done|]; apply wp_ret; split; [done|]; split; [|done]).
  - exact (f_equal (fun c => put_backend b (renewed_cell _ (cell_metric _ (cell_backend _
      (with_next_protocol c)))) _) (cell_lock_back c Hu)).
  - exact (f_equal (fun c => put_backend b (with_next_protocol c) _) (cell_lock_back c Hu)).
  - exact (f_equal (fun c => put_backend b (with_next_protocol c) _) (cell_lock_back c Hu)).
Qed.

(** ** [retry_forever] *)

(** What the whole retry task leaves. *)
Definition retry_done (b : nat) (c : BackendCell) (x : ClientCell) (w : World) (js : list job)
    (w' : World) (js' : list job) : Prop :=
  exists s x', w' = put_client (client (be_backend c)) x' (put_backend b (cell_status s c) w) /\
    cl_config x' = cl_config x /\ cl_locked x' = false /\ js' = js /\
    (s = Closed \/ s = Normal /\ exists conn, cl_state x' = Connected conn).

Lemma retriable_lock b c x w c' :
  retriable b c x w -> be_backend c' = be_backend c -> retriable b c' x (put_backend b c' w).
Proof.
  intros [Hc Hx Hl Ht Hr] E. split; rewrite ?E; try done.
  apply put_backend_get. by eapply lookup_length.
Qed.

Lemma put_twice b c c' i x x' w :
  put_client i x' (put_backend b c' (put_client i x (put_backend b c w))) =
    put_client i x' (put_backend b c' w).
Proof. rewrite (put_comm b c' i x), put_backend_put, put_client_put. done. Qed.

Lemma wp_retry_body m b period c x w js :
  retriable b c x w -> unlocked c -> status (be_metric c) = Closed \/ status (be_metric c) = Unknown ->
  wp (S (S (S (S m)))) (retry_body b period (Z.of_nat (S m))) (fun _ w' js' => retry_done b c x w js w' js') w js.
Proof.
  revert c x w. induction m as [|m IH]; intros c x w H Hu Hs;
    unfold retry_body; rewrite decide_False by lia; pose proof H as [Hc Hx Hl Ht Hr];
    pose proof Hu as [Hrd Hwr]; pose proof (lookup_length _ _ _ Hc) as Hb;
    pose proof (lookup_length _ _ _ Hx) as Hi; next.
  all: apply wp_net; intros tick e He _; next.
  all: rewrite <- (put_backend_same b c w Hc) at 1; apply wp_read_lock; [done|done|].
  all: set (c1 := cell_lock (S (be_readers c)) false c).
  all: apply wp_bind; eapply wp_conseq;
    [apply (wp_retry_connect _ _ _ _ c1 x); [by apply (retriable_lock b c)|exact Hs]|].
  all: intros r w' js' (x1 & -> & H1 & H2 & H3 & ->); change (client (be_backend c1)) with (client (be_backend c));
    rewrite put_backend_put; next; rewrite <- put_comm; apply wp_read_unlock; [done|].
  all: cbn [be_readers be_writer cell_lock cell_status cell_metric c1 pred]; rewrite Hrd, put_comm.
  all: assert (cell_lock 0 false (cell_status (retry_status r) c1) = cell_status (retry_status r) c) as ->
    by exact (f_equal (cell_status (retry_status r)) (cell_lock_back c Hu)).
  all: destruct r; [next|apply wp_ret; exists Normal, x1; by intuition].
  - apply wp_call. cbn [body]. unfold retry_body. rewrite decide_True by lia.
    apply wp_ret, wp_ret. exists Closed, x1. by intuition.
  - replace (Z.of_nat (S (S m)) - 1) with (Z.of_nat (S m)) by lia. apply wp_call. cbn [body].
    eapply wp_conseq; [apply (IH (cell_status Closed c) x1)|].
    + split; try done; [|by apply put_client_get].
      cbn. by rewrite list_lookup_insert_eq.
    + done.
    + by left.
    + intros [] w' js' (s & x2 & -> & H1' & H2' & -> & H3'). apply wp_ret. exists s, x2.
      change (client (be_backend (cell_status Closed c))) with (client (be_backend c)).
      rewrite put_twice. split; [done|]. rewrite H1'. by intuition.
Qed.

(** The number of turns of a retry task. *)
Definition tries (c : BackendCell) : Z :=
  if decide (max_retries (be_backend c) = 0) then 2 ^ 32 - 1 else max_retries (be_backend c).

Lemma wp_retry_forever b c x w js :
  retriable b c x w -> unlocked c -> status (be_metric c) = Closed \/ status (be_metric c) = Unknown ->
  retry_timeout (be_backend c) <> 0 -> 0 <= max_retries (be_backend c) ->
  wp (S (S (S (S (Z.to_nat (tries c)))))) (retry_forever b) (fun _ w' js' => retry_done b c x w js w' js') w js.
Proof.
  intros H Hu Hs Ht Hm. pose proof H as [Hc _ _ _ _]. pose proof Hu as [Hr Hw].
  pose proof (lookup_length _ _ _ Hc) as Hb.
  unfold retry_forever. next. rewrite <- (put_backend_same b c w Hc) at 1.
  apply wp_read_lock; [done|done|]. apply wp_get_fields; [done|]. apply wp_read_unlock; [done|].
  cbn [be_readers be_writer cell_lock be_backend pred]. rewrite Hr.
  assert (cell_lock 0 false (cell_lock 1 false c) = c) as -> by (by rewrite <- (cell_lock_back c) at 2).
  rewrite put_backend_same by done. rewrite decide_False by done. fold (tries c).
  assert (Hpos : 0 < tries c) by (unfold tries; case_decide; lia).
  destruct (Z.to_nat (tries c)) as [|m] eqn:E; [lia|].
  replace (tries c) with (Z.of_nat (S m)) by lia. apply wp_call. cbn [body].
  eapply wp_conseq; [by apply (wp_retry_body m)|]. intros [] w' js' HQ. by apply wp_ret.
Qed.

(** ** The theorems

    A request or task that runs alone, answered by [ω]. *)

Section Alone.
Context (ω : nat -> Env) (Hω : forall i, prompt dead fs (ω i)).

(** [p] ends after finitely many steps, with the result, the store and the
    spawned jobs [Q] describes. *)
Definition ends {A} (p : prog A) (w : World) (Q : Post A) : Prop :=
  exists m a w' js, exec body m ω p w = Some (Ret a, w', js) /\ Q a w' js.

Lemma wp_ends n {A} (p : prog A) Q w : wp n p Q w [] -> ends p w Q.
Proof.
  intros H. destruct (wp_exec _ _ _ _ _ _ _ ω H Hω) as (m & a & w' & js & E & HQ).
  by exists m, a, w', js.
Qed.

(** A request for a stream makes at most one attempt to connect and
    moves the client's state machine as [stream_result] says: a poisoned client
    refuses, a live connection is reused, anything else connects afresh, and a
    failed attempt poisons the client.  The client's lock is free afterwards
    and no other part of the store changes. *)
Theorem stream_request_spec c host x w :
  w_clients w !! c = Some x -> cl_locked x = false ->
  ends (new_stream_fut c host) w (fun r w' js => exists x', w' = put_client c x' w /\ js = [] /\
    cl_config x' = cl_config x /\ cl_locked x' = false /\
    stream_result dead c host (cl_state x) r (cl_state x')).
Proof.
  intros Hx Hl. apply (wp_ends 3). apply (wp_new_stream_fut _ _ _ _ _ x); [done|done|].
  intros r x' (H1 & H2 & H3). exists x'. by rewrite H2.
Qed.

(** C12: The retry task of a backend that is down ends: the backend comes up with a
    connected client, or all its tries failed and it is closed.  Either way it
    can be retried again, and nothing else changes. *)
Theorem retry_task_spec b c x w :
  retriable b c x w -> unlocked c -> status (be_metric c) = Closed \/ status (be_metric c) = Unknown ->
  retry_timeout (be_backend c) <> 0 -> 0 <= max_retries (be_backend c) ->
  ends (retry_forever b) w (fun _ w' js => exists s x',
    w' = put_client (client (be_backend c)) x' (put_backend b (cell_status s c) w) /\ js = [] /\
    retriable b (cell_status s c) x' w' /\
    (s = Closed \/ s = Normal /\ exists conn, cl_state x' = Connected conn)).
Proof.
  intros H Hu Hs Ht Hm. eapply wp_ends, wp_conseq; [by apply (wp_retry_forever b c x)|].
  intros [] w' js (s & x' & -> & H1 & H2 & -> & H3). exists s, x'. split; [done|]. split; [done|].
  split; [|done]. pose proof H as [Hc Hx Hl Htk Hr]. split; try done.
  - by eapply put_backend_get, lookup_length.
  - by eapply put_client_get, lookup_length.
Qed.

Lemma cancelled_length t w : length (w_tokens (cancelled_world t w)) = length (w_tokens w).
Proof. apply length_insert. Qed.

Lemma renewed_retriable b c x w t :
  (b < length (w_backends w))%nat -> w_clients w !! client (be_backend c) = Some x -> cl_locked x = false ->
  retriable b (renewed_cell (length (w_tokens w)) c) x
    (put_backend b (renewed_cell (length (w_tokens w)) c) (fresh_token_world (cancelled_world t w))).
Proof. intros Hb Hx Hl. split; try done; [by apply put_backend_get|by apply fresh_token_ok]. Qed.

(** C13: Switching the status of a force-closed backend makes it ready to be probed
    - status [Unknown], a token of its own, not retrying - and spawns one retry
    task; switching any other backend closes it by force and cancels what it is
    doing.  The request waits for nothing and frees the lock. *)
Theorem status_switch_spec b c x w :
  w_backends w !! b = Some c -> unlocked c ->
  w_clients w !! client (be_backend c) = Some x -> cl_locked x = false ->
  ends (switch_backend_status b) w (fun r w' js => r = Ok tt /\
    match status (be_metric c) with
    | ForceClosed => js = [JRetry b] /\ exists c', retriable b c' x w' /\ unlocked c' /\
        status (be_metric c') = Unknown /\ client (be_backend c') = client (be_backend c)
    | _ => js = [] /\
        w' = put_backend b (cell_status ForceClosed c) (cancelled_world (cancellation_token (be_backend c)) w)
    end).
Proof.
  intros Hc Hu Hx Hl. eapply (wp_ends 0), wp_conseq; [by apply (wp_switch_backend_status 0 b c)|].
  intros r w' js (-> & -> & ->). split; [done|]. unfold toggled, toggled_jobs.
  destruct (status (be_metric c)); [done..|]. split; [done|].
  rewrite cancelled_length. exists (renewed_cell (length (w_tokens w)) (cell_status Unknown c)).
  split; [|by repeat split; apply Hu]. by apply renewed_retriable; [eapply lookup_length|..].
Qed.

(** C14: A reset drops the backend's connection and counters, cancels what it is
    doing and gives it a token of its own, keeping its status; what runs next
    starts from a client that is not connected. *)
Theorem reset_spec b c x w :
  w_backends w !! b = Some c -> unlocked c ->
  w_clients w !! client (be_backend c) = Some x -> cl_locked x = false ->
  ends (reset_backend b) w (fun r w' js => r = Ok tt /\ js = [] /\
    exists c', retriable b c' (client_state NotConnected x) w' /\ unlocked c' /\
      be_metric c' = reset_metric (be_metric c) /\ client (be_backend c') = client (be_backend c)).
Proof.
  intros Hc Hu Hx Hl. eapply (wp_ends 0), wp_conseq; [by apply (wp_reset_backend 0 b c x)|].
  intros r w' js (-> & -> & ->). split; [done|]. split; [done|]. unfold reset_world.
  rewrite cancelled_length.
  exists (renewed_cell (length (w_tokens w)) (cell_metric (reset_metric (be_metric c)) c)).
  split; [|by repeat split; apply Hu].
  apply (renewed_retriable b (cell_metric (reset_metric (be_metric c)) c) _
    (put_client (client (be_backend c)) (client_state NotConnected x) w)); [by eapply lookup_length| |done].
  by eapply put_client_get, lookup_length.
Qed.

(** C15: A protocol switch that can build a client replaces the backend's client by
    a fresh one that speaks the other protocol, and the table, the metric and
    the client agree on it. *)
Theorem protocol_switch_spec b c w mix dom :
  w_backends w !! b = Some c -> unlocked c ->
  build_client Release fs (file_backend_config (be_backend (with_next_protocol c))) = Done (Ok (mix, dom)) ->
  ends (switch_backend_protocol b) w (fun r w' js => r = Ok tt /\ js = [] /\
    exists c' x', retriable b c' x' w' /\ unlocked c' /\ cl_config x' = mix /\ cl_state x' = NotConnected /\
      config_protocol mix = protocol (be_metric c') /\ protocol (be_metric c') <> fb_protocol (file_backend_config (be_backend c)) /\
      fb_protocol (file_backend_config (be_backend c')) = protocol (be_metric c') /\
      status (be_metric c') = status (be_metric c)).
Proof.
  intros Hc Hu Hm. eapply (wp_ends 0), wp_conseq; [by apply (wp_switch_backend_protocol 0 b c)|].
  intros r w' js (-> & -> & ->). unfold switched, switched_result. rewrite Hm.
  split; [done|]. split; [done|]. rewrite cancelled_length.
  eexists _, {| cl_config := mix; cl_last_addrs := None; cl_locked := false; cl_state := NotConnected |}.
  split; [eapply (renewed_retriable b _ _ (new_client_world mix w)); [by eapply lookup_length| |done]|].
  - cbn. by rewrite lookup_app_r, Nat.sub_diag by done.
  - apply build_client_protocol in Hm. split; [split; apply Hu|]. split; [done|]. split; [done|].
    split; [exact Hm|]. split; [cbn; by destruct (fb_protocol (file_backend_config (be_backend c)))|]. by split.
Qed.

(** C16: A protocol switch that cannot build a client reports the error, but the
    table already names the other protocol while the client and the metric keep
    the old one, and the backend keeps a cancelled token. *)
Theorem protocol_switch_failure b c w e :
  w_backends w !! b = Some c -> unlocked c -> (cancellation_token (be_backend c) < length (w_tokens w))%nat ->
  build_client Release fs (file_backend_config (be_backend (with_next_protocol c))) = Done (Err e) ->
  ends (switch_backend_protocol b) w (fun r w' js => r = Err "Could not build client from backend file" /\ js = [] /\
    exists c', w_backends w' !! b = Some c' /\
      fb_protocol (file_backend_config (be_backend c')) = next_protocol (fb_protocol (file_backend_config (be_backend c))) /\
      client (be_backend c') = client (be_backend c) /\ be_metric c' = be_metric c /\
      is_cancelled (cancellation_token (be_backend c')) w' = true).
Proof.
  intros Hc Hu Ht Hm. eapply (wp_ends 0), wp_conseq; [by apply (wp_switch_backend_protocol 0 b c)|].
  intros r w' js (-> & -> & ->). unfold switched, switched_result. rewrite Hm.
  split; [done|]. split; [done|]. exists (with_next_protocol c). split.
  { by eapply put_backend_get, lookup_length. }
  repeat split. unfold is_cancelled. simpl. by rewrite list_lookup_insert_eq.
Qed.
End Alone.
End Lifecycle.

(** ** Witnesses *)

Definition never : nat -> Prop := fun _ => False.

Lemma example_prompt now : prompt never example_fs (env_ok now).
Proof.
  split; [by eexists|intros c f [= <-]; by split|by intros ? ? _ []|by intros ? _ []|by intros ? _ []|done|by intros].
Qed.

(** The example process with backend 0 in status [s]. *)
Definition example_status (s : BackendStatus) : World := {|
  w_backends := [example_cell 0 "one" s; example_cell 1 "two" Normal];
  w_clients := w_clients example_world; w_tokens := w_tokens example_world;
  w_balance := w_balance example_world |}.

Notation example_ends p w Q := (ends (fun _ => env_ok 0) p w Q).

Lemma example_unlocked s : unlocked (example_cell 0 "one" s).
Proof. by split. Qed.

Lemma stream_request_spec_witness :
  example_ends (new_stream_fut 0 None) example_world (fun r w' js => exists x',
    w' = put_client 0 x' example_world /\ js = [] /\ cl_config x' = example_h2 /\ cl_locked x' = false /\
    stream_result never 0 None NotConnected r (cl_state x')).
Proof.
  exact (stream_request_spec never example_fs (fun _ => env_ok 0) (fun _ => example_prompt 0) 0 None
    example_client example_world eq_refl eq_refl).
Defined.

Lemma retry_task_spec_witness :
  example_ends (retry_forever 0) (example_status Closed) (fun _ w' js => exists s x',
    w' = put_client 0 x' (put_backend 0 (cell_status s (example_cell 0 "one" Closed)) (example_status Closed)) /\
    js = [] /\ retriable 0 (cell_status s (example_cell 0 "one" Closed)) x' w' /\
    (s = Closed \/ s = Normal /\ exists conn, cl_state x' = Connected conn)).
Proof.
  apply (retry_task_spec never example_fs (fun _ => env_ok 0) (fun _ => example_prompt 0) 0
    (example_cell 0 "one" Closed) example_client (example_status Closed)).
  - by split.
  - apply example_unlocked.
  - by left.
  - simpl. lia.
  - simpl. lia.
Defined.

Lemma status_switch_spec_witness :
  example_ends (switch_backend_status 0) (example_status ForceClosed) (fun r w' js => r = Ok tt /\
    js = [JRetry 0] /\ exists c', retriable 0 c' example_client w' /\ unlocked c' /\
      status (be_metric c') = Unknown /\ client (be_backend c') = 0%nat).
Proof.
  exact (status_switch_spec never example_fs (fun _ => env_ok 0) (fun _ => example_prompt 0) 0
    (example_cell 0 "one" ForceClosed) example_client (example_status ForceClosed) eq_refl
    (example_unlocked ForceClosed) eq_refl eq_refl).
Defined.

Lemma reset_spec_witness :
  example_ends (reset_backend 0) example_world (fun r w' js => r = Ok tt /\ js = [] /\
    exists c', retriable 0 c' (client_state NotConnected example_client) w' /\ unlocked c' /\
      be_metric c' = reset_metric (be_metric (example_cell 0 "one" Normal)) /\ client (be_backend c') = 0%nat).
Proof.
  exact (reset_spec never example_fs (fun _ => env_ok 0) (fun _ => example_prompt 0) 0
    (example_cell 0 "one" Normal) example_client example_world eq_refl
    (example_unlocked Normal) eq_refl eq_refl).
Defined.

Lemma protocol_switch_spec_witness :
  example_ends (switch_backend_protocol 0) example_world (fun r w' js => r = Ok tt /\ js = [] /\
    exists c' x', retriable 0 c' x' w' /\ config_protocol (cl_config x') = Quic /\
      protocol (be_metric c') = Quic).
Proof.
  destruct (build_client Release example_fs (example_table Quic)) as [[[mix dom]|]|] eqn:E;
    [|vm_compute in E; discriminate E|vm_compute in E; discriminate E].
  destruct (protocol_switch_spec never example_fs (fun _ => env_ok 0) (fun _ => example_prompt 0) 0
    (example_cell 0 "one" Normal) example_world mix dom eq_refl (example_unlocked Normal) E)
    as (m & a & w' & js & H1 & -> & -> & c' & x' & H2 & _ & H3 & _ & H5 & H4 & _ & _).
  exists m, (Ok tt), w', []. split; [exact H1|]. split; [done|]. split; [done|]. exists c', x'.
  assert (H6 : protocol (be_metric c') = Quic) by (destruct (protocol (be_metric c')); [by destruct H4|done]).
  split; [exact H2|]. split; [|exact H6]. rewrite H3, H5. exact H6.
Defined.

(** Files that are gone when the protocol is switched. *)
Definition no_files : FileSystem := fun _ => None.

Definition env_no_files : Env :=
  {| e_now := 0; e_pick := 0; e_cancel := true; e_fs := no_files; e_net := e_net (env_ok 0) |}.

Lemma no_files_prompt : prompt never no_files env_no_files.
Proof. by destruct (example_prompt 0). Qed.

Lemma protocol_switch_failure_witness :
  ends (fun _ => env_no_files) (switch_backend_protocol 0) example_world (fun r w' js =>
    r = Err "Could not build client from backend file" /\ js = [] /\
    exists c', w_backends w' !! 0%nat = Some c' /\
      fb_protocol (file_backend_config (be_backend c')) = Quic /\
      client (be_backend c') = 0%nat /\ be_metric c' = be_metric (example_cell 0 "one" Normal) /\
      is_cancelled (cancellation_token (be_backend c')) w' = true).
Proof.
  destruct (build_client Release no_files (example_table Quic)) as [[[mix dom]|err]|] eqn:E;
    [vm_compute in E; discriminate E| |vm_compute in E; discriminate E].
  exact (protocol_switch_failure never no_files (fun _ => env_no_files) (fun _ => no_files_prompt) 0
    (example_cell 0 "one" Normal) example_world err eq_refl (example_unlocked Normal)
    (Nat.lt_0_succ 1) E).
Defined.
