(* ===== verification/Handle.v ===== *)
(** * Handling a connection

    [handle_connection] ([client/src/proxy.rs]) run without interference:
    which backend it chooses, which backends it gives up on, what it spawns,
    how the serving backend's metric is charged, and that it terminates. *)

From S2P Require Import Prelude NetAddr LibProxy LibMetric Metric Tls BackendConfig Peer Balance World Connector Backend Proxy MetricApi Discipline System Run Locks Safety Solo Lifecycle Example.

Section Handle.
Context `{F : F64} `{CL : ClientLib} `{HR : HashRing} `{TL : TlsLib}.
Context (dead : nat -> Prop) (fs : FileSystem).

Notation wp := (wp body (prompt dead fs)).

(** ** The state of the backends *)

Definition backend_status (w : World) (b : nat) : option BackendStatus :=
  (fun c => status (be_metric c)) <$> w_backends w !! b.

(** The backends that take requests, in order. *)
Definition available (w : World) : list nat :=
  filter (fun b => backend_status w b = Some Normal) (seq 0 (length (w_backends w))).

(** No lock is held and no token is cancelled. *)
Definition quiet (w : World) : Prop := forall b c, w_backends w !! b = Some c ->
  unlocked c /\ is_cancelled (cancellation_token (be_backend c)) w = false /\
  exists x, w_clients w !! client (be_backend c) = Some x /\ cl_locked x = false.

(** [b] is the first backend called [name]. *)
Definition first_named (w : World) (name : string) (b : nat) : Prop :=
  (be_name <$> w_backends w !! b) = Some name /\
  forall i, (i < b)%nat -> (be_name <$> w_backends w !! i) <> Some name.

(** The decision of [next_available_backend]. *)
Inductive choice (peer : PeerInfo) (w : World) : AvailableBackend -> Prop :=
  | ch_direct : get_backend_name_by_rule peer = PeerDirect -> choice peer w Direct
  | ch_named name b : get_backend_name_by_rule peer = PeerGotBackend name ->
      first_named w name b -> backend_status w b = Some Normal -> choice peer w (GotBackend b)
  | ch_block name : get_backend_name_by_rule peer = PeerGotBackend name ->
      (forall b, first_named w name b -> backend_status w b <> Some Normal) -> choice peer w Block
  | ch_balanced b : get_backend_name_by_rule peer = PeerNoRule ->
      backend_status w b = Some Normal -> choice peer w (GotBackend b)
  | ch_none : get_backend_name_by_rule peer = PeerNoRule -> available w = [] -> choice peer w NoBackend
  (** the round robin's index lies beyond the available backends *)
  | ch_stale i : get_backend_name_by_rule peer = PeerNoRule ->
      w_balance w = StRoundRobin i -> (length (available w) <= i)%nat -> choice peer w NoBackend.

Lemma available_spec w b : b ∈ available w <-> backend_status w b = Some Normal.
Proof.
  unfold available. rewrite list_elem_of_filter, elem_of_seq. split; [by intros []|].
  intros H. split; [done|]. unfold backend_status in H.
  destruct (w_backends w !! b) eqn:E; [|done]. apply lookup_lt_Some in E. lia.
Qed.

Lemma wp_status n {A} b s (k : BackendStatus -> prog A) w Q js :
  backend_status w b = Some s -> wp n (k s) Q w js -> wp n (Vis (GetStatus b) k) Q w js.
Proof.
  intros Hs Hk. unfold backend_status in Hs. destruct (w_backends w !! b) as [c|] eqn:Hc; [|done].
  simplify_eq/=. eapply wp_op; [intros e He; cbn; by rewrite Hc|done].
Qed.

Lemma wp_available_loop n ids Q w js :
  Forall (fun b => (b < length (w_backends w))%nat) ids ->
  Q (filter (fun b => backend_status w b = Some Normal) ids) w js ->
  wp n (available_loop ids) Q w js.
Proof.
  revert Q; induction ids as [|b ids IH]; intros Q Hi HQ; cbn [available_loop]; [by apply wp_ret|].
  apply Forall_cons_1 in Hi as [Hb Hi]. next.
  destruct (lookup_lt_is_Some_2 (w_backends w) b Hb) as [c Hc].
  assert (Hs : backend_status w b = Some (status (be_metric c))) by (unfold backend_status; by rewrite Hc).
  apply (wp_status _ _ (status (be_metric c))); [done|]. apply wp_bind, IH; [done|]. apply wp_ret.
  rewrite filter_cons in HQ. rewrite Hs in HQ.
  destruct (decide (status (be_metric c) = Normal)) as [E|E].
  - by rewrite decide_True in HQ by (by f_equal).
  - rewrite decide_False in HQ by (by intros [=]). done.
Qed.

Lemma wp_named_backend n name k m Q w js :
  quiet w -> (k + m = length (w_backends w))%nat ->
  (forall i, (i < k)%nat -> (be_name <$> w_backends w !! i) <> Some name) ->
  (forall b, first_named w name b -> backend_status w b = Some Normal -> Q (GotBackend b) w js) ->
  ((forall b, first_named w name b -> backend_status w b <> Some Normal) -> Q Block w js) ->
  wp n (named_backend name (seq k m)) Q w js.
Proof.
  intros Hq. revert k. induction m as [|m IH]; intros k Hk Hbefore Hgot Hblock; cbn [seq named_backend].
  - apply wp_ret, Hblock. intros b [Hn _]. destruct (w_backends w !! b) as [c|] eqn:Hc; [|done].
    destruct (Hbefore b); [|by rewrite Hc]. apply lookup_lt_Some in Hc. lia.
  - destruct (lookup_lt_is_Some_2 (w_backends w) k ltac:(lia)) as [c Hc]. next.
    eapply wp_op; [intros e He; cbn; by rewrite Hc|]. case_decide as Hn.
    + assert (Hf : first_named w name k) by (split; [by rewrite Hc; cbn; f_equal|done]).
      assert (Huniq : forall b, first_named w name b -> b = k).
      { intros b [H1 H2]. destruct (Nat.lt_trichotomy b k) as [H|[H|H]]; [|done|].
        - by destruct (Hbefore b).
        - destruct (H2 k); [done|]. rewrite Hc. cbn. by f_equal. }
      destruct (Hq k c Hc) as (Hu & _). pose proof Hu as [Hr Hw].
      next. rewrite <- (put_backend_same k c w Hc) at 1.
      pose proof (lookup_lt_Some _ _ _ Hc) as Hlen.
      apply wp_read_lock; [done|done|]. apply wp_get_status; [done|]. apply wp_read_unlock; [done|].
      cbn [be_readers be_writer cell_lock be_metric pred]. rewrite Hr.
      assert (cell_lock 0 false (cell_lock 1 false c) = c) as -> by (by rewrite <- (cell_lock_back c) at 2).
      rewrite put_backend_same by done.
      assert (Hst : backend_status w k = Some (status (be_metric c))) by (unfold backend_status; by rewrite Hc).
      apply wp_ret. case_decide as Hs.
      * apply Hgot; [done|]. rewrite Hst. by f_equal.
      * apply Hblock. intros b Hb. rewrite (Huniq b Hb), Hst. by intros [=].
    + apply IH; [lia| |done|done]. intros i Hi. destruct (decide (i = k)) as [->|]; [|apply Hbefore; lia].
      rewrite Hc. by intros [=].
Qed.

(** The balancer's answer on several available backends. *)
Lemma wp_balance n peer bs (k : option nat -> prog AvailableBackend) Q w js :
  bs = available w -> bs <> [] ->
  (forall b bal, backend_status w b = Some Normal -> wp n (k (Some b)) Q (with_balance bal w) js) ->
  (forall i bal, w_balance w = StRoundRobin i -> (length bs <= i)%nat ->
     wp n (k None) Q (with_balance bal w) js) ->
  wp n (Vis (BalanceNext bs peer) k) Q w js.
Proof.
  intros Hbs Hne Hsome Hnone. apply wp_vis. intros e He. cbn [op_eval].
  assert (Hcost : forall b, b ∈ bs -> is_done (backend_cost (e_now e) w b)).
  { intros b Hb. rewrite Hbs in Hb. apply backend_cost_done.
    unfold available in Hb. apply list_elem_of_filter in Hb as [_ Hb]. apply elem_of_seq in Hb. lia. }
  destruct (balance_next_done (e_pick e) _ (w_balance w) bs peer Hne Hcost) as [[r bal] E]. rewrite E. cbn.
  exists r, (with_balance bal w), []. rewrite app_nil_r. split; [done|]. destruct r as [b|].
  - apply Hsome. apply balance_next_member in E. rewrite Hbs in E. by apply available_spec.
  - assert (Hstale : exists i, w_balance w = StRoundRobin i /\ (length bs <= i)%nat).
    { destruct (w_balance w) as [i| | |ring|] eqn:Eb.
      1: destruct (decide (length bs <= i)%nat); [by exists i|].
      all: edestruct (balance_next_some (e_pick e) (backend_cost (e_now e) w) (w_balance w) bs peer)
        as (x & b' & E' & _); [by destruct bs; [|simpl; lia]|done|by rewrite Eb; try lia|];
        rewrite Eb, E in E'; by simplify_eq. }
    destruct Hstale as (i & H1 & H2). by apply (Hnone i).
Qed.

Lemma with_balance_same w : with_balance (w_balance w) w = w.
Proof. by destruct w. Qed.

Lemma wp_next_available_backend n peer Q w js :
  quiet w -> (forall a bal, choice peer w a -> Q a (with_balance bal w) js) ->
  wp n (next_available_backend peer) Q w js.
Proof.
  intros Hq HQ. unfold next_available_backend.
  assert (Hsame : forall a, choice peer w a -> Q a w js)
    by (intros a Ha; rewrite <- (with_balance_same w); by apply HQ).
  destruct (get_backend_name_by_rule peer) as [| |name] eqn:Hrule.
  - unfold available_backends. next. eapply wp_op; [intros e He; reflexivity|].
    apply wp_bind, wp_available_loop.
    { apply list.Forall_forall. intros b Hb. apply elem_of_seq in Hb. lia. }
    fold (available w). destruct (available w) as [|b [|b' bs]] eqn:Ha.
    + apply wp_ret, Hsame. by apply ch_none.
    + apply wp_ret, Hsame, ch_balanced; [done|]. apply available_spec. rewrite Ha. set_solver.
    + next. apply wp_balance; [done|done|..].
      * intros x bal Hx. apply wp_ret, HQ. by apply ch_balanced.
      * intros i bal Hi Hl. apply wp_ret, HQ. apply (ch_stale _ _ i); [done|done|]. by rewrite Ha.
  - apply wp_ret, Hsame. by constructor.
  - next. eapply wp_op; [intros e He; reflexivity|].
    apply wp_named_backend; [done|done|intros i Hi; lia|..].
    + intros b Hf Hs. apply Hsame. by eapply ch_named.
    + intros Hb. apply Hsame. by eapply ch_block.
Qed.

(** ** The search for a backend *)

(** The store after the backends [closed] were given up. *)
Record evolved (w : World) (closed : list nat) (w' : World) : Prop := {
  ev_tokens : w_tokens w' = w_tokens w;
  ev_backends : forall b, w_backends w' !! b =
    (fun c => if decide (b ∈ closed) then cell_status Closed c else c) <$> w_backends w !! b;
  ev_quiet : quiet w';
}.

Lemma evolved_refl w : quiet w -> evolved w [] w.
Proof. intros Hq. split; [done| |done]. intros b. by destruct (w_backends w !! b). Qed.

Lemma evolved_balance w closed w' bal : evolved w closed w' -> evolved w closed (with_balance bal w').
Proof. intros [H1 H2 H3]. by split. Qed.

Lemma evolved_trans w cl1 w1 cl2 w2 :
  evolved w cl1 w1 -> evolved w1 cl2 w2 -> evolved w (cl1 ++ cl2) w2.
Proof.
  intros [H1 H2 _] [H4 H5 H6]. split; [by rewrite H4| |done]. intros b. rewrite H5, H2.
  destruct (w_backends w !! b) as [c|]; [|done]. cbn. f_equal.
  repeat case_decide; try done; set_solver.
Qed.

(** An attempt on a backend: its client moves, its status may. *)
Lemma quiet_put b c c' i x' w :
  quiet w -> w_backends w !! b = Some c -> be_backend c' = be_backend c -> unlocked c' ->
  cl_locked x' = false -> (i < length (w_clients w))%nat ->
  quiet (put_client i x' (put_backend b c' w)).
Proof.
  intros Hq Hc Hbe Hu Hl Hi j y Hy.
  assert (Hcl : forall k, (exists x, w_clients w !! k = Some x /\ cl_locked x = false) ->
    exists x, w_clients (put_client i x' (put_backend b c' w)) !! k = Some x /\ cl_locked x = false).
  { intros k (x & Hx & Hxl). destruct (decide (k = i)) as [->|Hk].
    - exists x'. split; [by apply put_client_get|done].
    - exists x. split; [|done]. cbn. by rewrite list_lookup_insert_ne. }
  cbn in Hy. destruct (decide (j = b)) as [->|Hj].
  - rewrite list_lookup_insert_eq in Hy by (by eapply lookup_lt_Some). simplify_eq.
    destruct (Hq b c Hc) as (_ & H2 & H3). rewrite Hbe. split; [done|]. split; [exact H2|]. by apply Hcl.
  - rewrite list_lookup_insert_ne in Hy by done. destruct (Hq j y Hy) as (H1 & H2 & H3).
    split; [done|]. split; [exact H2|]. by apply Hcl.
Qed.

Lemma evolved_attempt b c i x' w :
  quiet w -> w_backends w !! b = Some c -> cl_locked x' = false -> (i < length (w_clients w))%nat ->
  evolved w [] (put_client i x' w) /\
  evolved w [b] (put_client i x' (put_backend b (cell_status Closed c) w)).
Proof.
  intros Hq Hc Hl Hi. assert (Hu : unlocked c) by (by apply (Hq b c)).
  split.
  - rewrite <- (put_backend_same b c w Hc). split; [done| |by eapply quiet_put].
    intros j. rewrite put_backend_same by done. by destruct (w_backends (put_client i x' w) !! j) eqn:E; cbn in E; rewrite E.
  - split; [done| |by eapply quiet_put]. intros j. cbn. destruct (decide (j = b)) as [->|Hj].
    + rewrite list_lookup_insert_eq by (by eapply lookup_lt_Some). rewrite Hc. cbn.
      by rewrite decide_True by set_solver.
    + rewrite list_lookup_insert_ne by done. destruct (w_backends w !! j); [|done]. cbn.
      by rewrite decide_False by set_solver.
Qed.

Lemma evolved_status w closed w' b :
  evolved w closed w' ->
  backend_status w' b = (fun s => if decide (b ∈ closed) then Closed else s) <$> backend_status w b.
Proof.
  intros [_ H _]. unfold backend_status. rewrite H. destruct (w_backends w !! b); [|done]. cbn.
  by case_decide.
Qed.

Lemma evolved_available w b w' :
  evolved w [b] w' -> backend_status w b = Some Normal -> (length (available w') < length (available w))%nat.
Proof.
  intros Hev Hb. assert (Hlen : length (w_backends w') = length (w_backends w)).
  { destruct Hev as [_ H _]. apply Nat.le_antisymm; apply Nat.nlt_ge; intros Hlt;
      apply lookup_lt_is_Some_2 in Hlt as [c Hc];
      (assert (Hge := Hc); apply lookup_lt_Some in Hge).
    - specialize (H (length (w_backends w))). rewrite Hc, lookup_ge_None_2 in H by lia. done.
    - specialize (H (length (w_backends w'))). rewrite Hc, lookup_ge_None_2 in H by lia. done. }
  unfold available. rewrite Hlen. assert (Hin : b ∈ seq 0 (length (w_backends w))).
  { apply available_spec in Hb. unfold available in Hb. by apply list_elem_of_filter in Hb as [_ Hb]. }
  apply filter_length_lt with b; [done|done|..].
  - rewrite (evolved_status _ _ _ _ Hev), Hb. cbn. by rewrite decide_True by set_solver.
  - intros x. rewrite (evolved_status _ _ _ _ Hev). destruct (backend_status w x); [|done]. cbn.
    case_decide; congruence.
Qed.

(** How the search ends: with a stream to a [Normal] backend whose client is
    connected, or without one for the reason [choice] gives. *)
Definition search_end (peer : PeerInfo) (w' : World) (js : list job)
    (r : option (BidiStream * Z * nat)) : Prop :=
  match r with
  | Some (outbound, _, b) => js = [] /\ outbound <> Alive /\ backend_status w' b = Some Normal /\
      (exists c x conn, w_backends w' !! b = Some c /\ w_clients w' !! client (be_backend c) = Some x /\
        cl_state x = Connected conn) /\
      (forall name, get_backend_name_by_rule peer = PeerGotBackend name -> first_named w' name b)
  | None => exists wc bal a, w' = with_balance bal wc /\ choice peer wc a /\ (forall b, a <> GotBackend b) /\
      js = match a with Direct => [JDirect peer] | _ => [] end
  end.

(** Each backend given up was [Normal], is closed now and has one retry task. *)
Definition searched (peer : PeerInfo) (w : World) (js : list job) (r : option (BidiStream * Z * nat))
    (w' : World) (js' : list job) : Prop :=
  exists closed last, NoDup closed /\ (forall b, b ∈ closed -> backend_status w b = Some Normal) /\
    evolved w closed w' /\ js' = js ++ (JRetry <$> closed) ++ last /\ search_end peer w' last r.

Lemma searched_none peer w js a bal :
  quiet w -> choice peer w a -> (forall b, a <> GotBackend b) ->
  searched peer w js None (with_balance bal w) (js ++ match a with Direct => [JDirect peer] | _ => [] end).
Proof.
  intros Hq Ha Hn. exists [], (match a with Direct => [JDirect peer] | _ => [] end).
  split; [constructor|]. split; [set_solver|]. split; [by apply evolved_balance, evolved_refl|].
  split; [done|]. by exists w, bal, a.
Qed.

Lemma choice_backend peer w b :
  choice peer w (GotBackend b) -> backend_status w b = Some Normal /\
  forall name, get_backend_name_by_rule peer = PeerGotBackend name -> first_named w name b.
Proof. inversion 1; simplify_eq; split; naive_solver congruence. Qed.

(** One attempt: the chosen backend serves, or it is closed, its retry task is
    spawned and the search goes on. *)
Lemma wp_handle_attempt n peer b w Q js :
  quiet w -> backend_status w b = Some Normal ->
  (forall outbound t x' c conn, outbound <> Alive -> w_backends w !! b = Some c -> cl_locked x' = false ->
     cl_state x' = Connected conn ->
     Q (Some (outbound, t, b)) (put_client (client (be_backend c)) x' w) js) ->
  (forall x' c, w_backends w !! b = Some c -> cl_locked x' = false ->
     wp (S (S (S n))) (call (LHandle peer)) Q
       (put_client (client (be_backend c)) x' (put_backend b (cell_status Closed c) w)) (js ++ [JRetry b])) ->
  wp (S (S (S n))) (
      _ ← do (ReadLock b);
      start ← do Now;
      let host := get_host_by_rule peer in
      r ← try_connect b (Some host);
      match r with
      | Ok outbound =>
          now ← do Now; _ ← do (ReadUnlock b); Ret (Some (outbound, duration_since now start, b))
      | Err _ =>
          _ ← set_backend_status b Closed; _ ← do (Spawn (JRetry b)); _ ← do (ReadUnlock b);
          call (LHandle peer)
      end) Q w js.
Proof.
  intros Hq Hs Hok Herr. unfold backend_status in Hs.
  destruct (w_backends w !! b) as [c|] eqn:Hc; [|done].
  destruct (Hq b c Hc) as (Hu & Ht & x & Hx & Hl). pose proof Hu as [Hr Hw].
  pose proof (lookup_lt_Some _ _ _ Hc) as Hb. pose proof (lookup_lt_Some _ _ _ Hx) as Hi.
  next. rewrite <- (put_backend_same b c w Hc) at 1. apply wp_read_lock; [done|done|].
  set (c1 := cell_lock (S (be_readers c)) false c). apply wp_now. intros start.
  apply wp_bind, (wp_try_connect _ _ _ _ c1 x); [by apply put_backend_get|done|done|done|].
  intros r x' _ H2 (f & Hf & Hrf). change (client (be_backend c1)) with (client (be_backend c)).
  assert (Hback : forall s, cell_lock (pred (be_readers (cell_status s c1))) false (cell_status s c1)
    = cell_status s c).
  { intros s. change (pred _) with (be_readers c). rewrite Hr.
    exact (f_equal (cell_status s) (cell_lock_back c Hu)). }
  rewrite <- put_comm. destruct r as [outbound|err]; next.
  - apply wp_now. intros now. apply wp_read_unlock; [done|]. apply wp_ret.
    change (cell_lock _ _ c1) with (cell_lock (be_readers c) false c). rewrite Hr, cell_lock_back by done.
    rewrite put_comm, put_backend_same by done.
    assert (exists conn, cl_state x' = Connected conn) as [conn Hconn].
    { inversion Hf; subst; try done; by eexists. }
    apply (Hok _ _ x' c conn); [|done|done|done]. destruct f; [|done]. by apply Hrf.
  - eapply wp_metric; [done|intros; reflexivity|]. apply wp_spawn. apply wp_read_unlock; [done|].
    specialize (Herr x' c eq_refl H2). rewrite <- put_comm in Herr.
    change (cell_metric _ c1) with (cell_status Closed c1). change (be_writer _) with false.
    rewrite Hback. exact Herr.
Qed.

Lemma searched_later peer w js b w1 r w' js' :
  backend_status w b = Some Normal -> evolved w [b] w1 ->
  searched peer w1 (js ++ [JRetry b]) r w' js' -> searched peer w js r w' js'.
Proof.
  intros Hb Hev (closed & last & Hnd & Hcl & Hev' & -> & Hend).
  exists (b :: closed), last. split; [|split; [|split; [|split; [|done]]]].
  - constructor; [|done]. intros Hin. apply Hcl in Hin.
    rewrite (evolved_status _ _ _ _ Hev), Hb in Hin. cbn in Hin. by rewrite decide_True in Hin by set_solver.
  - intros j [->|Hj]%elem_of_cons; [done|]. apply Hcl in Hj.
    rewrite (evolved_status _ _ _ _ Hev) in Hj. destruct (backend_status w j); [|done]. cbn in Hj.
    by case_decide.
  - by apply (evolved_trans w [b] w1 closed).
  - by rewrite <- !app_assoc.
Qed.

Lemma quiet_client w b c : quiet w -> w_backends w !! b = Some c ->
  (client (be_backend c) < length (w_clients w))%nat.
Proof. intros Hq Hc. destruct (Hq b c Hc) as (_ & _ & x & Hx & _). by eapply lookup_lt_Some. Qed.

(** The search takes at most one turn for each backend that is available, and
    one more. *)
Lemma wp_handle m peer w js :
  quiet w -> (length (available w) <= m)%nat ->
  wp (S (S (S (S m)))) (handle_body peer) (searched peer w js) w js.
Proof.
  revert w js; induction m as [|m IH]; intros w js Hq Hm; unfold handle_body;
    apply wp_bind, wp_next_available_backend; [done| |done|]; intros a bal Ha.
  all: destruct a as [| | |b]; cycle 3;
    [|next; apply wp_spawn, wp_ret; by apply (searched_none _ _ _ Direct)
     |apply wp_ret; rewrite <- (app_nil_r js) at 2; by apply (searched_none _ _ _ Block)
     |apply wp_ret; rewrite <- (app_nil_r js) at 2; by apply (searched_none _ _ _ NoBackend)].
  all: apply choice_backend in Ha as [Hs Hnamed]; assert (Hb := Hs); apply available_spec in Hb.
  - destruct (available w); [set_solver|simpl in Hm; lia].
  - set (w1 := with_balance bal w).
    assert (Hev1 : evolved w [] w1) by (by apply evolved_balance, evolved_refl). apply wp_handle_attempt; [done|done|..].
    + intros outbound t x' c conn Ha Hc Hl Hconn.
      destruct (evolved_attempt b c (client (be_backend c)) x' w1 Hq Hc Hl) as [Hev _];
        [by eapply quiet_client|]. exists [], []. split; [constructor|]. split; [set_solver|].
      split; [exact (evolved_trans _ _ _ _ _ Hev1 Hev)|]. split; [by rewrite app_nil_r|]. repeat split; try done.
      * exists c, x', conn. repeat split; try done. by eapply put_client_get, quiet_client.
      * by apply (Hnamed _ H).
      * by apply (Hnamed _ H).
    + intros x' c Hc Hl.
      destruct (evolved_attempt b c (client (be_backend c)) x' w1 Hq Hc Hl) as [_ Hev];
        [by eapply quiet_client|].
      apply (evolved_trans _ _ _ _ _ Hev1) in Hev. cbn [app] in Hev.
      set (w2 := put_client _ _ _) in *. apply wp_call. cbn [body].
      assert (Hlt : (length (available w2) < length (available w))%nat) by (by eapply evolved_available).
      eapply wp_conseq; [apply IH; [by destruct Hev|lia]|]. intros r w' js' Hr. apply wp_ret.
      by eapply searched_later.
Qed.

(** ** The transfer and its accounting *)

(** The calls that close a connection of [peer]. *)
Definition closes (peer : SocketAddr) (call : MetricCall) : Prop :=
  match call with
  | CallSummary _ _ _ _ p => p = peer
  | CallAddFailures p => p = peer
  | _ => False
  end.

(** The backend's metric absorbed exactly one closing call of [peer]. *)
Definition charged (peer : SocketAddr) (c c' : BackendCell) : Prop :=
  exists now call m, closes peer call /\
    absorb_all Release now (call_ops call) (be_metric c) = Done m /\ c' = cell_metric m c.

Lemma wp_charge b (w : World) (Hb : (b < length (w_backends w))%nat) n {A} c call (k : unit -> prog A) Q js :
  (forall now m, absorb_all Release now (call_ops call) (be_metric c) = Done m ->
     wp n (k tt) Q (put_backend b (cell_metric m c) w) js) ->
  wp n (Vis (CallMetric b call) k) Q (put_backend b c w) js.
Proof.
  intros Hk. apply wp_vis. intros e He.
  destruct (absorb_all_release (e_now e) (call_ops call) (be_metric c)) as [m Hm].
  exists tt, (put_backend b (cell_metric m c) w), []. rewrite app_nil_r. split; [|by eapply Hk].
  cbn [op_eval]. rewrite <- (put_backend_put b c (cell_metric m c) w). apply (on_backend_put b c); [by apply put_backend_get|].
  by rewrite Hm.
Qed.

Lemma wp_transfer n b c w outbound ct peer Q js :
  (b < length (w_backends w))%nat -> outbound <> Alive ->
  is_cancelled (cancellation_token (be_backend c)) w = false ->
  (forall now m ctm tm ib ob, absorb_all Release now (call_ops (CallSummary ctm tm ib ob peer)) (be_metric c) = Done m ->
     Q (Ok tt) (put_backend b (cell_metric m c) w) js) ->
  (forall e, Q (Err e) (put_backend b c w) js) ->
  wp n (transfer b outbound ct peer) Q (put_backend b c w) js.
Proof.
  intros Hb Ha Ht Hok Herr. unfold transfer. next. apply wp_now. intros start. apply wp_get_fields; [done|].
  apply wp_bind, wp_select.
  - apply token_free_body.
  - by destruct outbound; split.
  - exact Ht.
  - assert (Hcopy : forall o, o <> Alive -> copy_fut o = net (CopyBidirectional o)) by (by intros []).
    rewrite Hcopy by done. apply wp_net. intros r e He Hr. apply wp_ret. intros _.
    destruct r as [[ib ob]|err]; [|by apply wp_ret, Herr].
    next. apply wp_now. intros now. apply wp_charge; [done|]. intros now' m Hm. apply wp_ret. by eapply Hok.
Qed.

(** How a handler ends. *)
Definition connect_end (peer : PeerInfo) (w : World) (r : result string unit) (w' : World) (js : list job) : Prop :=
  exists closed wm, NoDup closed /\ (forall b, b ∈ closed -> backend_status w b = Some Normal) /\
    evolved w closed wm /\
    (* no backend serves, or [b] serves: one open is spawned, one close is recorded *)
    ((w' = wm /\ r = Ok tt /\ exists last, js = (JRetry <$> closed) ++ last /\ search_end peer wm last None)
     \/
     (exists b c c', backend_status wm b = Some Normal /\
       (forall name, get_backend_name_by_rule peer = PeerGotBackend name -> first_named wm name b) /\
       w_backends wm !! b = Some c /\ charged (get_addr peer) c c' /\ w' = put_backend b c' wm /\
       js = (JRetry <$> closed) ++ [JIncr b (get_addr peer)])).

Lemma wp_handle_transfer n peer outbound ct b c w Q js :
  quiet w -> w_backends w !! b = Some c -> outbound <> Alive ->
  (forall r c', charged (get_addr peer) c c' -> Q r (put_backend b c' w) (js ++ [JIncr b (get_addr peer)])) ->
  wp n (handle_transfer peer outbound ct b) Q w js.
Proof.
  intros Hq Hc Ha HQ. destruct (Hq b c Hc) as (Hu & Ht & _). pose proof Hu as [Hr Hw].
  pose proof (lookup_lt_Some _ _ _ Hc) as Hb. unfold handle_transfer. next.
  rewrite <- (put_backend_same b c w Hc) at 1. apply wp_read_lock; [done|done|].
  set (c1 := cell_lock (S (be_readers c)) false c). apply wp_spawn.
  assert (Hback : forall m, cell_lock (pred (be_readers (cell_metric m c1))) (be_writer (cell_metric m c1))
      (cell_metric m c1) = cell_metric m c).
  { intros m. change (pred _) with (be_readers c). change (be_writer _) with false. rewrite Hr.
    exact (f_equal (cell_metric m) (cell_lock_back c Hu)). }
  apply wp_bind, wp_transfer; [done|done|exact Ht|..].
  - intros now m ctm tm ib ob Hm. next. apply wp_read_unlock; [done|]. rewrite Hback. apply wp_ret, HQ.
    by exists now, (CallSummary ctm tm ib ob (get_addr peer)), m.
  - intros e. next. apply wp_charge; [done|]. intros now m Hm. apply wp_read_unlock; [done|].
    rewrite Hback. apply wp_ret, HQ. by exists now, (CallAddFailures (get_addr peer)), m.
Qed.

Lemma wp_handle_connect rules peer w :
  quiet w ->
  wp (S (S (S (S (S (length (available w))))))) (handle_connect rules peer)
    (connect_end (find_rule_for_peer rules peer) w) w [].
Proof.
  intros Hq. unfold handle_connect. set (p := find_rule_for_peer rules peer). next. apply wp_call. cbn [body].
  eapply wp_conseq; [by apply (wp_handle (length (available w)))|].
  intros r w' js (closed & last & Hnd & Hcl & Hev & -> & Hend). cbn [app].
  destruct r as [[[outbound ct] b]|].
  - destruct Hend as (-> & Ha & Hs & (c & _ & _ & Hc & _) & Hnamed). rewrite app_nil_r.
    apply (wp_handle_transfer _ _ _ _ _ c); [by destruct Hev|done|done|]. intros r c' Hch.
    exists closed, w'. do 3 (split; [done|]). right. by exists b, c, c'.
  - apply wp_ret. exists closed, w'. do 3 (split; [done|]). left. split; [done|]. split; [done|]. by exists last.
Qed.

(** ** The theorem *)

Section Alone.
Context (ω : nat -> Env) (Hω : forall i, prompt dead fs (ω i)).

(** C4: A CONNECT handler that runs alone ends.  It gives up on a backend only by
    closing it, once, with one retry task for it, and only if it was [Normal];
    it serves through a [Normal] backend - the one the rule names, if any - or
    ends without one for the reason [choice] states.  A connection that is
    served spawns exactly one open and records exactly one close for its
    peer on the serving backend, whether the transfer succeeds or not. *)
Theorem handle_connect_spec rules peer w :
  quiet w ->
  ends ω (handle_connect rules peer) w (connect_end (find_rule_for_peer rules peer) w).
Proof. intros Hq. eapply wp_ends; [done|]. by apply wp_handle_connect. Qed.
End Alone.
End Handle.

(** ** Witness *)

Lemma refused_prompt now : prompt never example_fs (env_refused now).
Proof.
  split; [by eexists|intros c f [= <-]; by split|by intros ? ? _ []|by intros ? _ []|by intros ? _ []|done|by intros].
Qed.

Lemma example_quiet : quiet example_world.
Proof.
  intros [|[|b]] c [= <-]; (split; [by split|]; split; [reflexivity|]; by exists example_client).
Qed.

Definition example_peer_info : PeerInfo := peer_new "example.com:443" (SocketV4 (Ipv4 127 0 0 1) 50000).

Lemma handle_connect_spec_witness :
  ends (fun _ => env_refused 0) (handle_connect None example_peer_info) example_world
    (connect_end example_peer_info example_world).
Proof.
  exact (handle_connect_spec never example_fs (fun _ => env_refused 0) (fun _ => refused_prompt 0) None
    example_peer_info example_world example_quiet).
Defined.

(** No server accepts: both backends are closed, each with one retry task. *)
Example both_refused :
  match run_to_end 100 (env_refused 0) (handle_connect None example_peer_info) example_world with
  | Some (_, w, js) => (bool_decide (backend_status w 0 = Some Closed), bool_decide (backend_status w 1 = Some Closed),
                        match js with [JRetry 0; JRetry 1] => true | _ => false end)
  | None => (false, false, false)
  end = (true, true, true).
Proof. vm_compute. reflexivity. Qed.
