(* ===== verification/Races.v ===== *)
(** * Behaviours that go wrong

    Executions of the process that end in a state its own comments rule out,
    and inputs on which a task does less than it should: each is a theorem about
    the translated code, with the concrete run where one is needed. *)

From S2P Require Import Prelude NetAddr LibProxy LibMetric Metric Tls BackendConfig Peer Balance World Connector Backend Proxy MetricApi Discipline System Run Locks Safety Solo Lifecycle Handle Writers Example.

(** ** A forced close is lost *)

Definition race_peer : PeerInfo := peer_new "example.com:443" (SocketV4 (Ipv4 127 0 0 1) 50000).

Definition status_of (s : Pool) (b : nat) : option BackendStatus := backend_status (p_world s) b.

(** A handler is connecting through backend 0 while a request closes that
    backend by force. *)
Definition force_close_events : list event :=
  [Arrive (JConnect race_peer)] ++ run_n 0 8 (env_ok 0) ++
  [Arrive (JApi (ReqSwitchBackendStatus 0))] ++ run_n 1 9 (env_ok 1).

(** The handler notices the cancellation. *)
Definition handler_gives_up : list event := run_n 0 5 (env_ok 2).

Definition is_retry (b : nat) (j : job) : bool :=
  match j with JRetry b' => bool_decide (b' = b) | _ => false end.

Definition force_close_check : bool :=
  match run_example force_close_events with
  | Some s1 =>
      bool_decide (status_of s1 0 = Some ForceClosed) &&
      match run_pool body (job_prog None) handler_gives_up s1 with
      | Some s2 => bool_decide (status_of s2 0 = Some Closed) && existsb (is_retry 0) (fst <$> p_tasks s2)
      | None => false
      end
  | None => false
  end.

(** A backend an administrator closes by force while a handler is connecting
    through it does not stay closed by force: the handler, cancelled, marks it
    [Closed] and spawns a retry task for it. *)
Theorem force_close_lost :
  exists s1 s2, reachable body (job_prog None) example_start s1 /\ status_of s1 0 = Some ForceClosed /\
    run_pool body (job_prog None) handler_gives_up s1 = Some s2 /\ status_of s2 0 = Some Closed /\
    JRetry 0 ∈ fst <$> p_tasks s2.
Proof.
  assert (C : force_close_check = true) by (vm_compute; reflexivity). unfold force_close_check in C.
  destruct (run_example force_close_events) as [s1|] eqn:E1; [|discriminate C].
  destruct (run_pool body (job_prog None) handler_gives_up s1) as [s2|] eqn:E2;
    [|by rewrite andb_false_r in C].
  apply andb_prop in C as [C1 C]. apply andb_prop in C as [C2 C3].
  exists s1, s2. split; [exact (example_reachable _ _ E1)|].
  split; [exact (bool_decide_eq_true_1 _ C1)|]. split; [exact E2|].
  split; [exact (bool_decide_eq_true_1 _ C2)|].
  apply existsb_exists in C3 as (j & Hj & Hr). destruct j as [b| | | | |]; try discriminate Hr.
  apply bool_decide_eq_true_1 in Hr. subst b. by apply list_elem_of_In.
Qed.

(** ** Two retries at once *)

(** Three handlers choose backends 0, 1 and 0; the two on backend 0 fail, and
    the retry tasks they spawn both look at the flag. *)
Definition double_retry_events : list event :=
  [Arrive (JConnect race_peer); Arrive (JConnect race_peer); Arrive (JConnect race_peer)] ++
  run_n 0 8 (env_ok 0) ++ run_n 1 8 (env_ok 0) ++ run_n 2 8 (env_ok 0) ++
  run_n 0 11 (env_refused 0) ++ run_n 2 11 (env_refused 0) ++ run_n 3 8 (env_ok 0) ++ run_n 4 8 (env_ok 0).

Definition sets_flag (o : op) : bool :=
  match o with StoreRetrying 0 true => true | _ => false end.

Lemma sets_flag_spec o : sets_flag o = true -> o = StoreRetrying 0 true.
Proof. destruct o; try discriminate. by destruct b, v. Qed.

Definition double_retry_check : bool :=
  match run_example double_retry_events with
  | Some s => match next_ops s 3 4 with
      | Some (o1, o2) => sets_flag o1 && sets_flag o2
      | None => false
      end
  | None => false
  end.

(** The [retrying] flag does not keep a backend from being retried twice at the
    same time: two retry tasks of one backend can both have found it clear. *)
Theorem retrying_flag_races :
  exists s j1 j2 k1 k2, reachable body (job_prog None) example_start s /\
    p_tasks s !! 3%nat = Some (j1, Vis (StoreRetrying 0 true) k1) /\
    p_tasks s !! 4%nat = Some (j2, Vis (StoreRetrying 0 true) k2).
Proof.
  assert (C : double_retry_check = true) by (vm_compute; reflexivity). unfold double_retry_check in C.
  destruct (run_example double_retry_events) as [s|] eqn:E1; [|discriminate C].
  destruct (next_ops s 3 4) as [[o1 o2]|] eqn:E2; [|discriminate C].
  apply andb_prop in C as [->%sets_flag_spec ->%sets_flag_spec].
  destruct (next_ops_Some s 3 4 _ _ E2) as (j1 & k1 & j2 & k2 & H1 & H2).
  exists s, j1, j2, k1, k2. split; [exact (example_reachable _ _ E1)|]. split; [exact H1|exact H2].
Qed.

Section Any.
Context `{F : F64} `{CL : ClientLib} `{HR : HashRing} `{TL : TlsLib}.

(** ** A partial write of the connect head *)

(** When the QUIC stream accepts only [n] bytes of the head, the next poll
    offers the whole head again, so that the server reads those bytes twice. *)
Theorem quic_write_restarts conn host n w ω :
  e_net (ω 1%nat) (QuicPollWrite conn (head_as_ref host)) = Some (WPending n) ->
  exists p w', exec body 3 ω (quic_poll_body conn host SInit) w = Some (p, w', []) /\
    exists k, p = Vis (Net (QuicPollWrite conn (head_as_ref host))) k.
Proof.
  intros H. cbn. rewrite H. cbn. eexists _, w. split; [reflexivity|]. by eexists.
Qed.

(** ** A retry interval of zero *)

(** [tokio::time::interval] panics on a zero period: the retry task of a backend
    configured with [retry_timeout = 0] ends without a try, and the backend
    stays down. *)
Theorem zero_interval_never_retries dead fs ω b c w :
  (forall i, prompt dead fs (ω i)) ->
  w_backends w !! b = Some c -> unlocked c -> retry_timeout (be_backend c) = 0 ->
  ends ω (retry_forever b) w (fun _ w' js => w' = w /\ js = []).
Proof.
  intros Hω Hc Hu Ht. apply (wp_ends dead fs ω Hω 0). pose proof Hu as [Hr Hw].
  pose proof (lookup_lt_Some _ _ _ Hc) as Hb. unfold retry_forever. next.
  rewrite <- (put_backend_same b c w Hc).
  apply (wp_read_lock dead fs); [done|done|]. apply (wp_get_fields dead fs); [done|].
  apply (wp_read_unlock dead fs); [done|].
  cbn [be_readers be_writer cell_lock be_backend pred]. rewrite Hr.
  assert (cell_lock 0 false (cell_lock 1 false c) = c) as -> by (by rewrite <- (cell_lock_back c) at 2).
  rewrite decide_True by done. apply wp_ret. by rewrite put_backend_same.
Qed.
End Any.

(** ** Witnesses *)

Definition net_partial (q : NetOp) : net_resp q :=
  match q return net_resp q with
  | QuicPollWrite _ _ => WPending 3
  | q => net_ok q
  end.

Definition env_partial : Env :=
  {| e_now := 0; e_pick := 0; e_cancel := true; e_fs := example_fs; e_net := fun q => Some (net_partial q) |}.

Lemma quic_write_restarts_witness :
  exists p w', exec body 3 (fun _ => env_partial) (quic_poll_body 7 (head_from_str "example.com:443") SInit) example_world
      = Some (p, w', []) /\
    exists k, p = Vis (Net (QuicPollWrite 7 (head_as_ref (head_from_str "example.com:443")))) k.
Proof.
  exact (quic_write_restarts 7 (head_from_str "example.com:443") 3 example_world (fun _ => env_partial) eq_refl).
Defined.

(** Backend 0 closed, with a retry interval of zero. *)
Definition eager_cell : BackendCell :=
  let c := example_cell 0 "one" Closed in
  cell_backend (fun f => {| retry_timeout := 0; max_retries := max_retries f; client := client f;
    retrying := retrying f; cancellation_token := cancellation_token f;
    file_backend_config := file_backend_config f |}) c.

Definition eager_world : World := put_backend 0 eager_cell example_world.

Lemma zero_interval_never_retries_witness :
  ends (fun _ => env_ok 0) (retry_forever 0) eager_world (fun _ w' js => w' = eager_world /\ js = []).
Proof.
  exact (zero_interval_never_retries never example_fs (fun _ => env_ok 0) 0 eager_cell eager_world
    (fun _ => example_prompt 0) eq_refl (conj eq_refl eq_refl) eq_refl).
Defined.
