(* ===== verification/Config.v ===== *)
(** * Starting the client ([client/src/config.rs], [Config::new])

    Reading the configuration file, resolving the addresses, loading the host
    rules and building the backends: the store every run of the client starts
    from. *)

From S2P Require Import Prelude NetAddr LibProxy LibMetric Metric Tls TomlConfig BackendConfig Peer Balance World Connector Backend Proxy MetricApi Discipline System Run Locks Safety Solo Lifecycle Handle Example.

(** ** [Display] of [SocketAddr] *)

Definition hex_digit (d : Z) : ascii :=
  ascii_of_N (Z.to_N (if decide (d < 10) then 48 + d else 87 + d)).

(** [{:x}] of a [u16]. *)
Fixpoint hex_go (fuel : nat) (n : Z) (s : string) : string :=
  match fuel with
  | O => s
  | S fuel' =>
      let s' := String (hex_digit (n mod 16)) s in
      if decide (n < 16) then s' else hex_go fuel' (n / 16) s'
  end.

Definition show_segment (n : Z) (s : string) : string := hex_go 4 n s.

(** The longest run of zero segments, as (start, length). *)
Fixpoint zero_run (i : nat) (segments : list Z) (current longest : nat * nat) : nat * nat :=
  match segments with
  | [] => longest
  | segment :: segments =>
      if decide (segment = 0) then
        let current := (if decide (current.2 = 0%nat) then i else current.1, S current.2) in
        zero_run (S i) segments current (if decide (longest.2 < current.2)%nat then current else longest)
      else zero_run (S i) segments (0%nat, 0%nat) longest
  end.

Fixpoint show_subslice (segments : list Z) (s : string) : string :=
  match segments with
  | [] => s
  | [segment] => show_segment segment s
  | segment :: segments => show_segment segment (String ":" (show_subslice segments s))
  end.

Definition show_ipv6 (a : Ipv6Addr) (s : string) : string :=
  match a with
  | Ipv6 [0; 0; 0; 0; 0; 65535; ab; cd] =>
      ("::ffff:" +:+ show_ipv4 (Ipv4 (ab / 256) (ab mod 256) (cd / 256) (cd mod 256)) s)%string
  | Ipv6 segments =>
      let '(start, len) := zero_run 0 segments (0%nat, 0%nat) (0%nat, 0%nat) in
      if decide (1 < len)%nat then
        show_subslice (take start segments) ("::" +:+ show_subslice (drop (start + len) segments) s)%string
      else show_subslice segments s
  end.

Definition show_socket_addr (a : SocketAddr) : string :=
  match a with
  | SocketV4 ip port => show_socket_v4 ip port
  | SocketV6 ip port _ scope_id =>
      let tail := ("]:" +:+ show_dec port EmptyString)%string in
      ("[" +:+ show_ipv6 ip (if decide (scope_id = 0) then tail
                             else String "%" (dec_go 10 scope_id tail)))%string
  end.

Example show_socket_addr_ex :
  show_socket_addr (SocketV6 (Ipv6 [8193; 3512; 0; 0; 1; 0; 0; 1]) 80 0 0) = "[2001:db8::1:0:0:1]:80" /\
  show_socket_addr (SocketV6 (Ipv6 [0; 0; 0; 0; 0; 0; 0; 1]) 8080 0 7) = "[::1%7]:8080" /\
  show_socket_addr (SocketV6 (Ipv6 [0; 0; 0; 0; 0; 65535; 258; 772]) 1 0 0) = "[::ffff:1.2.3.4]:1" /\
  show_socket_addr (SocketV4 (Ipv4 127 0 0 1) 8080) = "127.0.0.1:8080".
Proof. repeat split; reflexivity. Qed.

(** ** [FileConfig], [Cmd], [Config] *)

(** The table of backends in the order the [HashMap] is drained. *)
Record FileConfig := {
  fc_listen_address : string;
  fc_log_level : string;
  fc_balance : Balance;
  fc_host_rule : option string;
  fc_metric_address : string;
  fc_backends : list (string * FileBackendConfig);
}.

Record Cmd := {
  cmd_listen_address : option string;
  cmd_config : string;
}.

(** [toml::from_str] at the two types, [tracing]'s log levels and the
    environment. *)
Class ConfigLib := {
  toml_config : string -> result string FileConfig;
  toml_rules : string -> result string (gmap string HostRuleSection);
  Level : Type;
  LevelFilter : Type;
  level_error : Level;
  parse_level : string -> option Level;
  from_level : Level -> LevelFilter;
  env_var : string -> option string;
}.

Section Config.
Context `{F : F64} `{CL : ClientLib} `{HR : HashRing} `{TL : TlsLib} `{CF : ConfigLib}.

(** The balancer and the backends of a [Config] are in the store. *)
Record Config := {
  listen_address : SocketAddr;
  metric_address : SocketAddr;
  log_level : LevelFilter;
  host_rule : option HostRuler;
  proxy_uri : Uri;
  config_world : World;
}.

(** [populate_backends]: the [k]-th backend gets client [k] and token [k]; its
    metric starts at [now k]. *)
Fixpoint populate_backends (now : nat -> Z) (fs : FileSystem) (k : nat)
    (file_backend_configs : list (string * FileBackendConfig))
    : outcome (result string (list (BackendCell * ClientCell))) :=
  match file_backend_configs with
  | [] => Done (Ok [])
  | (file_backend_name, file_backend_config) :: rest =>
      r ← backend_new (now k) fs file_backend_name file_backend_config k k;
      match context "Fail to initialize backend" r with
      | Err e => Done (Err e)
      | Ok backend =>
          r ← populate_backends now fs (S k) rest;
          Done (backends ← r; Ok (backend :: backends))
      end
  end.

Definition load_host_rule (fs : FileSystem) (path : option string) : result string (option HostRuler) :=
  match path with
  | Some path =>
      host_file ← open_file fs "Failed to open host rewrite file" path;
      context "Failed to parse host rewrite config" (host_ruler_new toml_rules host_file)
  | None => Ok None
  end.

Definition config_new (now : nat -> Z) (fs : FileSystem) (opts : Cmd) : outcome (result string Config) :=
  let head :=
    file_config ← context "Could not load config file" (load_from_file toml_config fs (cmd_config opts));
    let listen := default (fc_listen_address file_config) (cmd_listen_address opts) in
    listen ← context "Could not parse proxy listen address" (parse_socket_address listen);
    metric ← context "Could not parse metric listen address" (parse_socket_address (fc_metric_address file_config));
    let level := parse_log_level_str level_error parse_level from_level env_var (fc_log_level file_config) in
    uri ← match parse_uri ("http://" +:+ show_socket_addr listen)%string with
          | Some uri => Ok uri
          | None => Err "Could not parse proxy listen address"
          end;
    ruler ← load_host_rule fs (fc_host_rule file_config);
    Ok (file_config, listen, metric, level, uri, ruler) in
  match head with
  | Err e => Done (Err e)
  | Ok (file_config, listen, metric, level, uri, ruler) =>
      let balance := populate_load_balance (fc_balance file_config) (length (fc_backends file_config)) in
      r ← populate_backends now fs 0 (fc_backends file_config);
      Done (backends ← context "Could not setup backends" r;
        Ok {| listen_address := listen; metric_address := metric; log_level := level;
              host_rule := ruler; proxy_uri := uri;
              config_world := {| w_backends := fst <$> backends; w_clients := snd <$> backends;
                                 w_tokens := replicate (length backends) false;
                                 w_balance := balance |} |})
  end.

(** ** The store a client starts from *)

(** Backend [k] of the table, before anything ran. *)
Record started (k : nat) (name : string) (table : FileBackendConfig) (c : BackendCell) (x : ClientCell) : Prop := {
  sta_name : be_name c = name;
  sta_backend : be_backend c = {| retry_timeout := fb_retry_timeout table; max_retries := fb_max_retries table;
    client := k; retrying := false; cancellation_token := k; file_backend_config := table |};
  sta_unlocked : unlocked c;
  sta_status : status (be_metric c) = default Normal (fb_status table);
  sta_protocol : protocol (be_metric c) = fb_protocol table;
  sta_idle : active_connections (be_metric c) = 0 /\ active_peers (be_metric c) = ∅;
  sta_client : cl_locked x = false /\ cl_state x = NotConnected /\ cl_last_addrs x = None;
  sta_config : config_protocol (cl_config x) = fb_protocol table;
}.

Lemma backend_new_started now fs name table k c x :
  backend_new now fs name table k k = Done (Ok (c, x)) -> started k name table c x.
Proof.
  unfold backend_new. destruct (build_client Release fs table) as [[[mix dom]|e]|] eqn:E; cbn; try done.
  intros [= <- <-]. apply build_client_protocol in E. by repeat split.
Qed.

Lemma populate_started now fs k tables bs :
  populate_backends now fs k tables = Done (Ok bs) ->
  forall i, match tables !! i, bs !! i with
    | Some (name, table), Some (c, x) => started (k + i) name table c x
    | None, None => True
    | _, _ => False
    end.
Proof.
  revert k bs; induction tables as [|[name table] tables IH]; intros k bs H i; cbn in H; [by simplify_eq|].
  destruct (backend_new (now k) fs name table k k) as [[[c x]|e]|] eqn:E1; cbn in H; try done.
  destruct (populate_backends now fs (S k) tables) as [[bs'|e]|] eqn:E2; cbn in H; try done.
  simplify_eq. destruct i as [|i]; cbn.
  - rewrite Nat.add_0_r. by eapply backend_new_started.
  - specialize (IH _ _ E2 i). by rewrite Nat.add_succ_r.
Qed.

Lemma populate_length now fs k tables bs :
  populate_backends now fs k tables = Done (Ok bs) -> length bs = length tables.
Proof.
  revert k bs; induction tables as [|[name table] tables IH]; intros k bs H; cbn in H; [by simplify_eq|].
  destruct (backend_new (now k) fs name table k k) as [[[c x]|e]|]; cbn in H; try done.
  destruct (populate_backends now fs (S k) tables) as [[bs'|e]|] eqn:E2; cbn in H; try done.
  simplify_eq. cbn. f_equal. by eapply IH.
Qed.

(** The store built from started backends. *)
Lemma started_world_fresh (bs : list (BackendCell * ClientCell)) bal :
  (forall k b, bs !! k = Some b -> exists name table, started k name table b.1 b.2) ->
  let w := {| w_backends := fst <$> bs; w_clients := snd <$> bs;
              w_tokens := replicate (length bs) false; w_balance := bal |} in
  fresh_world w /\ quiet w.
Proof.
  intros Hs w. assert (Hb : forall k c, w_backends w !! k = Some c -> exists name table x,
    w_clients w !! k = Some x /\ started k name table c x /\ (k < length bs)%nat).
  { intros k c Hc. cbn in Hc. rewrite list_lookup_fmap in Hc.
    destruct (bs !! k) as [b|] eqn:Ek; [|done]. cbn in Hc. simplify_eq.
    destruct (Hs k b Ek) as (name & table & Hst). exists name, table, b.2. cbn.
    rewrite list_lookup_fmap, Ek. split; [done|]. split; [done|]. by eapply lookup_lt_Some. }
  split; [split; [|split]|].
  - intros k c Hc. destruct (Hb k c Hc) as (name & table & x & _ & Hst & _). apply (sta_unlocked _ _ _ _ _ Hst).
  - intros k x Hx. cbn in Hx. rewrite list_lookup_fmap in Hx. destruct (bs !! k) as [b|] eqn:Ek; [|done].
    cbn in Hx. simplify_eq. destruct (Hs k b Ek) as (name & table & Hst). by apply (sta_client _ _ _ _ _ Hst).
  - intros k c Hc. destruct (Hb k c Hc) as (name & table & x & _ & Hst & Hk).
    rewrite (sta_backend _ _ _ _ _ Hst). cbn. by rewrite length_fmap, length_replicate.
  - intros k c Hc. destruct (Hb k c Hc) as (name & table & x & Hx & Hst & Hk).
    split; [apply (sta_unlocked _ _ _ _ _ Hst)|]. rewrite (sta_backend _ _ _ _ _ Hst). cbn.
    split; [by unfold is_cancelled; cbn; rewrite lookup_replicate_2|].
    exists x. split; [exact Hx|]. apply (sta_client _ _ _ _ _ Hst).
Qed.

(** The store of a loaded configuration. *)
Definition start_world (fc : FileConfig) (bs : list (BackendCell * ClientCell)) : World :=
  {| w_backends := fst <$> bs; w_clients := snd <$> bs; w_tokens := replicate (length bs) false;
     w_balance := populate_load_balance (fc_balance fc) (length (fc_backends fc)) |}.

Lemma config_new_inv now fs opts cfg :
  config_new now fs opts = Done (Ok cfg) ->
  exists fc bs, load_from_file toml_config fs (cmd_config opts) = Ok fc /\
    parse_socket_address (default (fc_listen_address fc) (cmd_listen_address opts)) = Ok (listen_address cfg) /\
    parse_socket_address (fc_metric_address fc) = Ok (metric_address cfg) /\
    load_host_rule fs (fc_host_rule fc) = Ok (host_rule cfg) /\
    populate_backends now fs 0 (fc_backends fc) = Done (Ok bs) /\ config_world cfg = start_world fc bs.
Proof.
  unfold config_new. intros H.
  destruct (load_from_file toml_config fs (cmd_config opts)) as [fc|] eqn:E1; cbn in H; [|done].
  destruct (parse_socket_address (default _ _)) as [listen|] eqn:E2; cbn in H; [|done].
  destruct (parse_socket_address (fc_metric_address fc)) as [metric|] eqn:E3; cbn in H; [|done].
  destruct (parse_uri _) as [uri|]; cbn in H; [|done].
  destruct (load_host_rule fs (fc_host_rule fc)) as [ruler|] eqn:E5; cbn in H; [|done].
  destruct (populate_backends now fs 0 (fc_backends fc)) as [[bs|]|] eqn:E4; cbn in H; try done.
  injection H as <-. by exists fc, bs.
Qed.

Lemma populate_each now fs tables bs :
  populate_backends now fs 0 tables = Done (Ok bs) ->
  forall k b, bs !! k = Some b -> exists name table, started k name table b.1 b.2.
Proof.
  intros H k b Hk. pose proof (populate_started _ _ _ _ _ H k) as Hs. rewrite Hk in Hs.
  destruct (tables !! k) as [[name table]|]; [|done]. exists name, table. by destruct b.
Qed.

(** C18: A loaded configuration: the addresses parse, the command line's address
    wins, and the store has one backend for each table, in order, each with a
    client and a token of its own; nothing is locked, cancelled, connected or
    retrying.  This is the [fresh_world] and [quiet] store the other theorems
    start from. *)
Theorem config_new_world now fs opts cfg :
  config_new now fs opts = Done (Ok cfg) ->
  exists file_config, load_from_file toml_config fs (cmd_config opts) = Ok file_config /\
    parse_socket_address (default (fc_listen_address file_config) (cmd_listen_address opts)) = Ok (listen_address cfg) /\
    parse_socket_address (fc_metric_address file_config) = Ok (metric_address cfg) /\
    w_balance (config_world cfg) = populate_load_balance (fc_balance file_config) (length (w_backends (config_world cfg))) /\
    fresh_world (config_world cfg) /\ quiet (config_world cfg) /\
    forall k, match fc_backends file_config !! k, w_backends (config_world cfg) !! k, w_clients (config_world cfg) !! k with
      | Some (name, table), Some c, Some x => started k name table c x
      | None, None, None => True
      | _, _, _ => False
      end.
Proof.
  intros H. destruct (config_new_inv now fs opts cfg H) as (fc & bs & H1 & H2 & H3 & _ & H4 & ->).
  destruct (started_world_fresh bs (populate_load_balance (fc_balance fc) (length (fc_backends fc)))
    (populate_each _ _ _ _ H4)) as [Hf Hq].
  exists fc. do 3 (split; [done|]). cbn [start_world w_backends w_clients w_balance].
  split; [by rewrite length_fmap, (populate_length _ _ _ _ _ H4)|].
  split; [exact Hf|]. split; [exact Hq|]. intros k. rewrite !list_lookup_fmap.
  pose proof (populate_started _ _ _ _ _ H4 k) as Hs. cbn [Nat.add] in Hs.
  destruct (fc_backends fc !! k) as [[name table]|], (bs !! k) as [[c x]|]; done.
Qed.
End Config.

(** ** Witness *)

Definition example_file : FileConfig := {|
  fc_listen_address := "8080"; fc_log_level := "INFO"; fc_balance := RoundRobin; fc_host_rule := None;
  fc_metric_address := "127.0.0.1:8404";
  fc_backends := [("one", example_table HTTP2); ("two", example_table Quic)];
|}.

#[export] Instance example_config_lib : ConfigLib := {|
  toml_config := fun _ => Ok example_file;
  toml_rules := fun _ => Ok ∅;
  Level := string; LevelFilter := string; level_error := "ERROR";
  parse_level := Some; from_level := fun l => l; env_var := fun _ => None;
|}.

Definition start_fs : FileSystem := fun f =>
  if String.eqb f "config.toml" then Some "config" else example_fs f.

Definition example_opts : Cmd := {| cmd_listen_address := Some "127.0.0.1:9090"; cmd_config := "config.toml" |}.

Lemma config_new_world_witness :
  match config_new (fun _ => 0) start_fs example_opts with
  | Done (Ok cfg) => listen_address cfg = SocketV4 (Ipv4 127 0 0 1) 9090 /\
      fresh_world (config_world cfg) /\ quiet (config_world cfg) /\ length (w_backends (config_world cfg)) = 2%nat
  | _ => False
  end.
Proof.
  assert (C : match config_new (fun _ => 0) start_fs example_opts with
    | Done (Ok cfg) => Nat.eqb (length (w_backends (config_world cfg))) 2 | _ => false end = true)
    by (vm_compute; reflexivity).
  destruct (config_new (fun _ => 0) start_fs example_opts) as [[cfg|]|] eqn:E; try discriminate C.
  destruct (config_new_world (fun _ => 0) start_fs example_opts cfg E)
    as (fc & H1 & H2 & _ & _ & H4 & H5 & _).
  injection H1 as <-. injection H2 as <-. split; [reflexivity|]. split; [exact H4|]. split; [exact H5|].
  by apply Nat.eqb_eq.
Defined.
