(* ===== verification/EndToEnd.v ===== *)
(** * The client and the server together

    From the files a client is started from to the tasks that finish, and from
    the authority of a request to the host the server connects to. *)

From S2P Require Import Prelude NetAddr LibProxy LibMetric Metric Tls BackendConfig Peer Balance World Connector Backend Proxy MetricApi Discipline System Example Locks Safety Fair Liveness Lifecycle Handle Config.

Section Client.
Context `{F : F64} `{CL : ClientLib} `{HR : HashRing} `{TL : TlsLib} `{CF : ConfigLib}.

(** C2: A client started from its files, under every schedule with fair locks,
    whatever the network answers and whichever cancellations win: from every
    state it reaches, every run in which at most [n] times a connection is found
    closed, a QUIC write of a head stalls, a backend is made [Normal] again or a
    new connection or request arrives, comes to an end, with every CONNECT
    handler, retry task, API request and forwarded request finished; and it
    never gets stuck as long as the network answers at all. *)
Theorem started_client_finishes now fs opts cfg f n :
  config_new now fs opts = Done (Ok cfg) -> fair_reachable (host_rule cfg) (config_world cfg) f ->
  finishes (host_rule cfg) n f.
Proof.
  intros H Hr. destruct (fair_reachable_pool _ _ _ Hr) as [Hp Hq].
  destruct (config_new_inv now fs opts cfg H) as (fc & bs & _ & _ & _ & _ & Hb & E). rewrite E in Hp.
  destruct f as [s q]. eapply pool_finishes; [|exact Hp|exact Hq]. by eapply started_world_fresh, populate_each.
Qed.
End Client.

(** ** The host a request reaches *)

(** The authority of a request for a host name and, if given, a port; it can be
    taken apart again when the port has no colon, nor the name if there is no
    port. *)
Definition authority_of (name : string) (port : option string) : string :=
  match port with Some p => (name +:+ String ":" p)%string | None => name end.
Definition separable (name : string) (port : option string) : Prop :=
  match port with Some p => ~ str_elem ":" p | None => ~ str_elem ":" name end.

(** What a rule file prescribes for it: another host where it has a section
    with a [rewrite] for the name, and port 80 by default. *)
Definition prescribed (host_rule : option HostRuler) (name : string) (port : option string) : string :=
  let target :=
    match host_rule with
    | Some r => match sections r !! name with Some {| rewrite := Some h |} => h | _ => name end
    | None => name
    end in
  (target +:+ String ":" (default "80" port))%string.

(** The last colon of a text. *)
Lemma last_unique c a b a' b' :
  (a +:+ String c b)%string = (a' +:+ String c b')%string -> ~ str_elem c b -> ~ str_elem c b' -> a = a' /\ b = b'.
Proof.
  revert a'; induction a as [|x a IH]; intros [|x' a'] E Hb Hb'; cbn in E.
  - by injection E as ->.
  - injection E as E1 E2. destruct Hb. rewrite E2. apply str_elem_app. by right; left.
  - injection E as E1 E2. destruct Hb'. rewrite <- E2. apply str_elem_app. by right; left.
  - injection E as E1 E2. destruct (IH a' E2 Hb Hb') as [-> ->]. by subst.
Qed.

Lemma authority_parts name port addr :
  separable name port ->
  get_hostname (peer_new (authority_of name port) addr) = name /\
  get_port_str (peer_new (authority_of name port) addr) = default "80" port.
Proof.
  intros Hs. destruct (hostname_port _ (peer_new_ok (authority_of name port) addr)) as [H1 H2].
  destruct port as [p|]; cbn [authority_of separable] in *.
  - destruct H1 as [H1 H3]; [cbn; apply str_elem_app; by right; left|].
    by destruct (last_unique _ _ _ _ _ H1 Hs H3) as [<- <-].
  - apply (H2 Hs).
Qed.

Lemma valid_host_join peer :
  peer_ok peer -> get_valid_host peer = head_from_str (get_hostname peer +:+ String ":" (get_port_str peer))%string.
Proof.
  intros Hok. destruct (hostname_port peer Hok) as [H1 H2]. unfold get_valid_host.
  assert (E : port_index peer = host_port_index_new (host peer)) by exact Hok.
  unfold host_port_index_new in E. destruct (rfind ":" (host peer)) as [i|] eqn:Er; rewrite E.
  - f_equal. apply H1. apply rfind_Some in Er as [-> _]. apply str_elem_app. by right; left.
  - apply rfind_None in Er. destruct (H2 Er) as [E1 E2]. by rewrite E1, head_from_bytes_str.
Qed.

(** The head a handler sends ([Proxy.handle_body] asks its backend for a
    stream to [get_host_by_rule]). *)
Lemma head_sent host_rule name port addr :
  separable name port ->
  get_host_by_rule (find_rule_for_peer host_rule (peer_new (authority_of name port) addr)) =
    head_from_str (prescribed host_rule name port).
Proof.
  intros Hs. destruct (authority_parts name port addr Hs) as [E1 E2].
  set (peer := peer_new (authority_of name port) addr) in *. assert (Hok : peer_ok peer) by done.
  unfold prescribed. rewrite <- E2.
  destruct host_rule as [r|]; [|rewrite <- E1; exact (valid_host_join peer Hok)].
  cbn [find_rule_for_peer]. unfold find_rule. cbn [get_rule rule peer peer_new].
  fold peer. rewrite E1. destruct (sections r !! name) as [[[h|] b d]|]; [done| |];
    rewrite <- E1; exact (valid_host_join peer Hok).
Qed.

Section Reach.
Context {S C : Type} `{HIo : TunnelIo S C} {remaining : S -> string} {arrived : S -> nat}
  `{!TunnelIoLaws S C remaining arrived}.

(** C24: From the request to the target: when the head the client sends for a
    CONNECT request to a host name and port arrives at the server in one read,
    is valid UTF-8 and shorter than 2^16 bytes, the server connects to exactly
    the host the rule file prescribes for the name, and the port of the request,
    or 80 when it has none; and exactly the payload is left in the stream. *)
Theorem request_reaches_host host_rule name port addr s rest :
  let url := prescribed host_rule name port in
  separable name port -> Z.of_nat (String.length url) < 2 ^ 16 -> utf8_valid url = true ->
  remaining s = (head_as_ref (get_host_by_rule (find_rule_for_peer host_rule (peer_new (authority_of name port) addr))) +:+ rest)%string ->
  (2 + String.length url <= arrived s)%nat ->
  exists s', remaining s' = rest /\ tunnel s = (outbound ← tcp_connect url; copy_bidirectional s' outbound).
Proof.
  intros url Hs Hl Hv Hr Ha. rewrite (head_sent _ _ _ _ Hs) in Hr.
  assert (Hp : (0 < String.length url)%nat) by (unfold url, prescribed; cbv zeta; rewrite str_length_app; cbn; lia).
  apply tunnel_connects_to_host; [lia|done..].
Qed.
End Reach.

(** ** Witnesses *)

(** A client started from the example files; a connection whose server refused
    waits for its second backend while a list is asked for. *)
Definition started_events : list event :=
  [Arrive (JConnect (peer_new "example.com:443" (SocketV4 (Ipv4 127 0 0 1) 50000))); Arrive (JApi ReqAllBackends)]
  ++ run_n 0 10 (env_ok 1) ++ run_n 0 20 (env_refused 1).

Definition started_run : option (Config * FairPool) :=
  match config_new (fun _ => 0) start_fs example_opts with
  | Done (Ok cfg) => Some (cfg, fair_try (host_rule cfg) (asking started_events) (fair_start (config_world cfg)))
  | _ => None
  end.

Lemma started_client_finishes_witness :
  match started_run with Some (cfg, f) => forall n, finishes (host_rule cfg) n f | None => False end.
Proof.
  assert (R : match started_run with Some _ => true | None => false end = true) by (vm_compute; reflexivity).
  unfold started_run in *. destruct (config_new (fun _ => 0) start_fs example_opts) as [[cfg|e]|] eqn:E; [|discriminate R..].
  intros n. apply (started_client_finishes (fun _ => 0) start_fs example_opts cfg _ n E).
  apply fair_try_reachable. constructor.
Defined.

Import LibProxy.Segment.

(** A rewritten host without a port. *)
Definition rewritten_stream : stream :=
  {| bytes := (head_as_ref (get_host_by_rule (find_rule_for_peer (Some example_ruler) (peer_new "example.com" local8080)))
       +:+ "GET")%string; ready := 30 |}.

Lemma request_reaches_host_witness :
  exists s', bytes s' = "GET" /\
    tunnel rewritten_stream = (outbound ← tcp_connect "hello.com:80"; copy_bidirectional s' outbound).
Proof.
  apply (request_reaches_host (remaining := bytes) (arrived := ready) (Some example_ruler) "example.com" None local8080
    rewritten_stream "GET"); [|reflexivity|reflexivity|reflexivity|vm_compute; lia].
  cbn. intros H. repeat destruct H as [H|H]; try discriminate H; exact H.
Defined.
