(* ===== verification/UnitTests.v ===== *)
(** * The unit tests of the repository, run on the model

    Each test function of [lib/src/config.rs], [client/src/balance.rs],
    [client/src/metric.rs], [client/src/backends.rs] and [client/src/config.rs]
    is translated to a computation that panics where an assertion fails, and
    proved to pass - for every random choice, hash ring or parser the test
    leaves open, not only for one run. *)

From S2P Require Import Prelude NetAddr LibProxy LibMetric Metric Tls TomlConfig BackendConfig Peer Balance World Connector Backend Proxy MetricApi System Example Config.

(** The lines of a file. *)
Fixpoint file_text (lines : list string) : string :=
  match lines with
  | [] => EmptyString
  | [line] => line
  | line :: lines => (line +:+ String "010" (file_text lines))%string
  end.

(** A quoted string of TOML. *)
Definition quoted (s : string) : string := (String "034" s +:+ String "034" EmptyString)%string.

(** ** [lib/src/config.rs] *)

Definition test_parse_socket_address : outcome unit :=
  let res := parse_socket_address "localhost:8081" in
  _ ← assert (is_err res);
  let res := parse_socket_address "127.0.0.1:8081" in
  _ ← assert (is_ok res);
  let res := parse_socket_address "8081" in
  assert (is_ok res).

Example test_parse_socket_address_passes : test_parse_socket_address = Done tt.
Proof. vm_compute. reflexivity. Qed.

Section LogLevelTest.
Context {Level : Type} `{EqDecision Level} (INFO DEBUG ERROR : Level) (parse_level : string -> option Level).

(** A level filter equals a level when it is made of it; the test sets the
    variable half-way. *)
Definition test_parse_log_level_str (env_var env_var' : string -> option string) : outcome unit :=
  let parse env s := parse_log_level_str ERROR parse_level (fun level => level) env s in
  let res := parse env_var "INFO" in
  _ ← assert_eq res INFO;
  let res := parse env_var "DEBUG" in
  _ ← assert_eq res DEBUG;
  let res := parse env_var' EmptyString in
  assert (negb (bool_decide (res = DEBUG))).

(** The test passes when the variable is not set before; when it is, the first
    two assertions compare the variable's level. *)
Lemma test_parse_log_level_str_passes env_var env_var' :
  parse_level "INFO" = Some INFO -> parse_level "DEBUG" = Some DEBUG -> INFO <> DEBUG ->
  env_var "RUST_LOG" = None -> env_var' "RUST_LOG" = Some "INFO" ->
  test_parse_log_level_str env_var env_var' = Done tt.
Proof.
  intros Hi Hd Hne H1 H2. unfold test_parse_log_level_str, parse_log_level_str, assert_eq, assert. cbn.
  rewrite H1, H2. cbn. rewrite Hi, Hd. cbn. rewrite (bool_decide_eq_true_2 (INFO = INFO)), (bool_decide_eq_true_2 (DEBUG = DEBUG)) by done. cbn.
  by rewrite (bool_decide_eq_false_2 (INFO = DEBUG)).
Qed.
End LogLevelTest.

(** ** [client/src/balance.rs] *)

Record Mock := { mock_id : nat }.
#[export] Instance Mock_eq : EqDecision Mock.
Proof. solve_decision. Defined.

Definition localhost8080 : SocketAddr := SocketV4 (Ipv4 127 0 0 1) 8080.
Definition new_host_peer_info (host : string) : PeerInfo := peer_new host localhost8080.
Definition empty_host_peer_info : PeerInfo := peer_new EmptyString localhost8080.
Definition mocks (n : nat) : list Mock := Build_Mock <$> seq 0 n.

Definition test_first : outcome unit :=
  let items := mocks 4 in
  _ ← for_each (fun _ => assert_eq (frist_next items) (Some {| mock_id := 0 |})) (seq 0 6);
  let items : list Mock := [] in
  for_each (fun _ => assert_eq (frist_next items) None) (seq 0 6).

Fixpoint round_robin_asserts (items : list Mock) (index : nat) (ids : list nat) : outcome unit :=
  match ids with
  | [] => Done tt
  | i :: ids =>
      '(res, index) ← round_robin_next index items;
      _ ← assert_eq res (Some {| mock_id := i |});
      round_robin_asserts items index ids
  end.

Definition test_round_robin : outcome unit :=
  let count := 3%nat in
  let items := mocks (count + 1) in
  round_robin_asserts items 0 (seq 0 (count + 1)).

Definition test_random (pick pick' : nat) : outcome unit :=
  let items := mocks 3 in
  let res := random_next pick items in
  _ ← assert (is_some res);
  let items : list Mock := [] in
  let res := random_next pick' items in
  assert (negb (is_some res)).

Section UriHashTest.
Context `{HR : HashRing}.

Definition show_nat (i : nat) : string := show_dec (Z.of_nat i) EmptyString.
Definition target (i : nat) : string :=
  (show_nat i +:+ "." +:+ show_nat i +:+ "." +:+ show_nat i +:+ "." +:+ show_nat i +:+ ":80")%string.

Fixpoint add_ids (ids : list nat) (ring : Ring) : Ring :=
  match ids with [] => ring | i :: ids => add_ids ids (ring_add i ring) end.

(** The answers for every target, and for the targets chosen again. *)
Definition test_uri_hash (chosen : list nat) : outcome unit :=
  let count := 3%nat in
  let items := mocks count in
  let ring := add_ids (seq 0 (length items)) ring_new in
  let next u := uri_hash_next (ring_get ring) items (new_host_peer_info u) in
  let targets := target <$> seq 0 100 in
  for_each (fun i =>
    u ← unwrap (targets !! i);
    targets_map ← next u;
    res ← next u;
    res ← unwrap res;
    want ← unwrap targets_map;
    assert_eq (mock_id res) (mock_id want)) chosen.

Lemma test_uri_hash_passes chosen : Forall (fun i => (i < 100)%nat) chosen -> test_uri_hash chosen = Done tt.
Proof.
  intros Hc. apply for_each_done. induction Hc as [|i chosen Hi _ IH]; constructor; [|exact IH]. cbn beta.
  destruct (lookup_lt_is_Some_2 (target <$> seq 0 100) i) as [u Hu]; [by rewrite length_fmap, length_seq|].
  rewrite Hu. cbn [unwrap mbind outcome_bind].
  destruct (uri_hash_next_spec (ring_get (add_ids (seq 0 (length (mocks 3))) ring_new)) (mocks 3) (new_host_peer_info u))
    as (j & x & E & _); [cbn; lia|].
  rewrite E. cbn. unfold assert_eq. by rewrite bool_decide_eq_true_2.
Qed.
End UriHashTest.

Example test_first_passes : test_first = Done tt.
Proof. vm_compute. reflexivity. Qed.

Example test_round_robin_passes : test_round_robin = Done tt.
Proof. vm_compute. reflexivity. Qed.

Lemma test_random_passes pick pick' : test_random pick pick' = Done tt.
Proof.
  unfold test_random, random_next. cbn [length mocks fmap list_fmap seq].
  destruct (lookup_lt_is_Some_2 (mocks 3) (pick mod 3)%nat) as [x Hx].
  - change (length (mocks 3)) with 3%nat. apply Nat.mod_upper_bound. lia.
  - change (mocks 3) with [{| mock_id := 0 |}; {| mock_id := 1 |}; {| mock_id := 2 |}] in *. cbn [length].
    destruct (decide (3%nat = 0%nat)) as [|_]; [lia|]. by rewrite Hx.
Qed.

(** ** [client/src/metric.rs] *)

Section MetricTests.
Context `{F : F64} {LR : LeftRight} (p : profile).

(** The same call [n] times. *)
Definition repeat_call (now : Z) (n : nat) (call : MetricCall) : list (Z * MetricCall) := replicate n (now, call).

Definition test_new_metric (now : Z) : outcome unit :=
  metric ← metric_new p now now "test_backend" "localhost:8080" "example.com" Normal HTTP2;
  let mock_addr := localhost8080 in
  metric ← metric_calls p (repeat_call now 10 (CallIncrConnection mock_addr)) metric;
  metric ← metric_calls p (repeat_call now 3 (CallAddFailures mock_addr)) metric;
  res ← unwrap (metric_get metric);
  _ ← assert_eq (active_connections (bm_metric res)) 7;
  _ ← assert_eq (failures (bm_metric res)) 3;
  _ ← assert_eq (size (active_peers (bm_metric res))) 1%nat;
  metric ← metric_call p now CallReset metric;
  res ← unwrap (metric_get metric);
  _ ← assert_eq (active_connections (bm_metric res)) 0;
  _ ← assert_eq (failures (bm_metric res)) 0;
  assert_eq (size (active_peers (bm_metric res))) 0%nat.
End MetricTests.

Example test_new_metric_passes : test_new_metric (F := ZF64) (LR := TwoCopy.two_copy) Debug 0 = Done tt.
Proof. vm_compute. reflexivity. Qed.

Definition assert_str (o : outcome string) (want : string) : outcome unit := s ← o; assert_eq s want.

Definition test_new_peer_info : outcome unit :=
  let eg_addr := localhost8080 in
  let p := peer_new "example.com:8080" eg_addr in
  _ ← assert_eq (get_hostname p) "example.com"%string;
  _ ← assert_str (head_as_str (get_valid_host p)) "example.com:8080";
  _ ← assert_eq (get_port_str p) "8080"%string;
  let p := peer_new "example.com" eg_addr in
  _ ← assert_eq (get_hostname p) "example.com"%string;
  _ ← assert_str (head_as_str (get_valid_host p)) "example.com:80";
  assert_eq (get_port_str p) "80"%string.

#[export] Instance PeerBackendRule_eq : EqDecision PeerBackendRule.
Proof. solve_decision. Defined.

Definition test_new_peer_info_rule : outcome unit :=
  let eg_addr := localhost8080 in
  let new_peer := peer_new "example.com:8080" eg_addr in
  let section rewrite backend direct := GotRule {| rewrite := rewrite; backend := backend; direct := direct |} in
  let peer := set_rule NoRule new_peer in
  _ ← assert_str (head_as_str (get_host_by_rule peer)) "example.com:8080";
  let peer := set_rule (section (Some "hello.com"%string) None false) peer in
  _ ← assert_str (head_as_str (get_host_by_rule peer)) "hello.com:8080";
  let peer := set_rule (section None (Some "local1"%string) false) new_peer in
  _ ← assert_eq (get_backend_name_by_rule peer) (PeerGotBackend "local1");
  let peer := set_rule (section None None false) new_peer in
  _ ← assert_eq (get_backend_name_by_rule peer) PeerNoRule;
  let peer := set_rule (section None None true) new_peer in
  _ ← assert_eq (get_backend_name_by_rule peer) PeerDirect;
  let peer := set_rule (section None (Some "local1"%string) true) new_peer in
  assert_eq (get_backend_name_by_rule peer) PeerDirect.

Example test_new_peer_info_passes : test_new_peer_info = Done tt.
Proof. vm_compute. reflexivity. Qed.

Example test_new_peer_info_rule_passes : test_new_peer_info_rule = Done tt.
Proof. vm_compute. reflexivity. Qed.

(** ** [client/src/backends.rs] *)

(** The certificates of [client/assets]. *)
Definition assets : FileSystem := fun f =>
  if decide (f ∈ ["assets/certs/ca.crt"; "assets/certs/client.crt"; "assets/certs/client.key";
                  "assets/certs/server.crt"; "assets/certs/server.key"]%string) then Some "p"%string
  else if decide (f = "assets/testconfig/simple_client.toml"%string) then Some "toml"%string else None.

Definition test_backend_config (address : string) (max_retries : Z) : FileBackendConfig := {|
  fb_status := None; fb_protocol := HTTP2; fb_address := address;
  fb_retry_timeout := 1; fb_max_retries := max_retries;
  cacert := Some "assets/certs/ca.crt"; client_key := "assets/certs/client.key"; client_cert := "assets/certs/client.crt";
  http2 := default_h2_file_config; quic := default_quic_file_config;
|}.

Definition new_test_backend : outcome (result string (BackendCell * ClientCell)) :=
  let file_backend_config := {|
    fb_status := None; fb_protocol := HTTP2; fb_address := "localhost:8443";
    fb_retry_timeout := 1; fb_max_retries := 0;
    cacert := Some "assets/certs/ca.crt"; client_key := "assets/certs/client.key"; client_cert := "assets/certs/client.crt";
    http2 := {| keep_alive_interval := 1; keep_alive_timeout := 1; keep_alive_while_idle := true;
                initial_conn_window_size := initial_conn_window_size default_h2_file_config;
                initial_stream_window_size := initial_stream_window_size default_h2_file_config;
                max_frame_size := max_frame_size default_h2_file_config;
                max_send_buffer_size := max_send_buffer_size default_h2_file_config;
                adaptive_window := adaptive_window default_h2_file_config |};
    quic := default_quic_file_config;
  |} in
  backend_new 0 assets "test0" file_backend_config 0 0.

Definition test_new_backend : outcome unit := r ← new_test_backend; _ ← unwrap_ok r; Done tt.

(** A store of these backends, each with its own client and token. *)
Definition store_of (bs : list (BackendCell * ClientCell)) (balance : BalanceState) : World :=
  {| w_backends := fst <$> bs; w_clients := snd <$> bs; w_tokens := replicate (length bs) false; w_balance := balance |}.

(** A function of the client run alone to its end. *)
Definition block_on {A} (e : Env) (p : prog A) (w : World) : outcome (A * World) :=
  '(a, w, _) ← unwrap (run_to_end 1000 e p w); Done (a, w).

Definition test_status (e : Env) : outcome unit :=
  r ← new_test_backend;
  backend ← unwrap_ok r;
  let w := store_of [backend] StFrist in
  '(s, w) ← block_on e (do (GetStatus 0)) w;
  _ ← assert_eq s Normal;
  '(_, w) ← block_on e (set_backend_status 0 Closed) w;
  '(s, w) ← block_on e (do (GetStatus 0)) w;
  _ ← assert_eq s Closed;
  '(_, w) ← block_on e (set_backend_status 0 ForceClosed) w;
  '(s, w) ← block_on e (do (GetStatus 0)) w;
  assert_eq s ForceClosed.

Example test_new_backend_passes : test_new_backend = Done tt.
Proof. vm_compute. reflexivity. Qed.

Example test_status_passes : test_status (env_ok 0) = Done tt.
Proof. vm_compute. reflexivity. Qed.

Section ParseDomainTest.
Context `{CL : ClientLib}.

Definition assert_domain (res : result string ServerName) (name : string) : outcome unit :=
  domain ← unwrap_ok res;
  want ← unwrap (server_name_try_from name);
  match domain, want with
  | DnsName a, DnsName b => assert_eq a b
  | IpAddress a, IpAddress b => assert_eq a b
  | _, _ => Panic
  end.

Definition test_parse_domain : outcome unit :=
  let res := parse_domain "example.com:80" in
  _ ← assert_domain res "example.com";
  let res := parse_domain "example.com" in
  _ ← assert_domain res "example.com";
  let res := parse_domain "" in
  assert (is_err res).

(** What the test needs of the http crate: the host of an authority is the part
    before its port, and an empty authority is no URI. *)
Lemma test_parse_domain_passes u u' :
  parse_uri "http://example.com:80" = Some u -> uri_host u = Some "example.com" ->
  parse_uri "http://example.com" = Some u' -> uri_host u' = Some "example.com" ->
  parse_uri "http://" = None -> server_name_try_from "example.com" = Some (DnsName "example.com") ->
  test_parse_domain = Done tt.
Proof.
  intros H1 H2 H3 H4 H5 H6. unfold test_parse_domain, parse_domain, assert_domain. cbn.
  rewrite H1, H2, H3, H4, H5, H6. cbn. unfold assert_eq. by rewrite bool_decide_eq_true_2.
Qed.
End ParseDomainTest.

(** ** [client/src/config.rs] *)

(** [assets/testconfig/simple_client.toml] *)
Definition simple_client : FileConfig := {|
  fc_listen_address := "0.0.0.0:8081"; fc_log_level := "info"; fc_balance := Frist; fc_host_rule := None;
  fc_metric_address := "127.0.0.1:8403"; fc_backends := [("local1", test_backend_config "localhost:8443" 0)];
|}%string.

#[local] Instance simple_config_lib : ConfigLib := {|
  toml_config := fun _ => Ok simple_client;
  toml_rules := fun _ => Ok ∅;
  Level := string; LevelFilter := string; level_error := "ERROR";
  parse_level := Some; from_level := fun l => l; env_var := fun _ => None;
|}.

Definition simple_opts : Cmd :=
  {| cmd_listen_address := Some "8080"%string; cmd_config := "assets/testconfig/simple_client.toml" |}.

Definition port (a : SocketAddr) : Z := match a with SocketV4 _ p => p | SocketV6 _ p _ _ => p end.

Definition test_new_config (cur_env : option string) : outcome unit :=
  r ← config_new (fun _ => 0) assets simple_opts;
  config ← unwrap_ok r;
  _ ← assert_eq (port (listen_address config)) 8080;
  _ ← assert_eq (length (w_backends (config_world config))) 1%nat;
  match cur_env with
  | Some cur_env => assert_eq (log_level config) (parse_log_level_str level_error parse_level from_level env_var cur_env)
  | None => Done tt
  end.

Example test_new_config_passes : test_new_config (env_var "RUST_LOG") = Done tt.
Proof. vm_compute. reflexivity. Qed.

(** The name of a backend is a plain field of its metric. *)
Definition set_name (name : string) (c : BackendCell) : BackendCell :=
  {| be_name := name; be_address := be_address c; be_domain := be_domain c; be_backend := be_backend c;
     be_metric := be_metric c; be_readers := be_readers c; be_writer := be_writer c |}.

Definition test_available_backends (e : Env) : outcome unit :=
  r ← config_new (fun _ => 0) assets simple_opts;
  config ← unwrap_ok r;
  let w := config_world config in
  first_backend ← unwrap (w_backends w !! 0%nat);
  first_client ← unwrap (w_clients w !! 0%nat);
  let first_backend := set_name "first_backend" first_backend in
  r ← backend_new 0 assets "second_backend" (test_backend_config "localhost:8080" 3) 1 1;
  second_backend ← unwrap_ok r;
  let w := store_of [(first_backend, first_client); second_backend] (w_balance w) in
  '(_, w) ← block_on e (set_backend_status 1 Closed) w;
  '(res, w) ← block_on e available_backends w;
  _ ← assert_eq (length res) 1%nat;
  '(next_backend, w) ← block_on e (next_available_backend empty_host_peer_info) w;
  next_backend ← (match next_backend with GotBackend b => Done b | _ => Panic end);
  '(name, w) ← block_on e (do (BackendName next_backend)) w;
  _ ← assert_eq name "first_backend"%string;
  '(_, w) ← block_on e (set_backend_status 0 Closed) w;
  '(res, w) ← block_on e available_backends w;
  _ ← assert_eq (length res) 0%nat;
  '(next_backend, _) ← block_on e (next_available_backend empty_host_peer_info) w;
  match next_backend with NoBackend => Done tt | _ => Panic end.

Example test_available_backends_passes : test_available_backends (env_ok 0) = Done tt.
Proof. vm_compute. reflexivity. Qed.

(** *** [test_retry_forever_max_retries] *)

(** The operations a task alone performs until it ends. *)
Fixpoint run_ops {A} (n : nat) (e : Env) (p : prog A) (w : World) : option (list op * World) :=
  match p with
  | Ret _ => Some ([], w)
  | Vis o k =>
      match n with
      | O => None
      | S n => '(r, w, _) ← op_eval e o w; '(ops, w) ← run_ops n e (k r) w; Some (o :: ops, w)
      end
  | Call l k => match n with O => None | S n => run_ops n e (pbind (body l) k) w end
  end.

(** The connections the mock server accepts. *)
Fixpoint accepts (o : op) : bool :=
  match o with Net (TcpConnect _ _) => true | OrCancel _ o => accepts o | _ => false end.

(** A server that accepts and hangs up. *)
Definition hang_up (q : NetOp) : net_resp q :=
  match q return net_resp q with
  | TlsConnect _ => Err "unexpected eof"%string
  | q => net_ok q
  end.

Definition env_hang_up : Env :=
  {| e_now := 0; e_pick := 0; e_cancel := true; e_fs := assets; e_net := fun q => Some (hang_up q) |}.

Definition test_retry_forever_max_retries (e : Env) : outcome unit :=
  let max_retries := 2%nat in
  r ← backend_new 0 assets "backend1" (test_backend_config "127.0.0.1:1" (Z.of_nat max_retries)) 0 0;
  backend ← unwrap_ok r;
  '(_, w) ← block_on e (set_backend_status 0 Unknown) (store_of [backend] StFrist);
  '(ops, _) ← unwrap (run_ops 200 e (retry_forever 0) w);
  let retries := length (filter (fun o => accepts o = true) ops) in
  assert_eq max_retries retries.

Example test_retry_forever_max_retries_passes : test_retry_forever_max_retries env_hang_up = Done tt.
Proof. vm_compute. reflexivity. Qed.

(** *** The host rules *)

Section HostRulerTests.
Context (toml : string -> result string (gmap string HostRuleSection)).

(** [matches!(rule, GotRule { rewrite, backend, .. })] up to what is inside. *)
Definition matches_rule (r : HostRules) (some_rewrite some_backend : bool) : bool :=
  match r with
  | GotRule s => Bool.eqb (is_some (rewrite s)) some_rewrite && Bool.eqb (is_some (backend s)) some_backend
  | _ => false
  end.
Definition is_unknown (r : HostRules) : bool := match r with RuleUnknown => true | _ => false end.
Definition is_no_rule (r : HostRules) : bool := match r with NoRule => true | _ => false end.

Definition normal_config : list string :=
  [("[" +:+ quoted "example.com" +:+ "]")%string; ("rewrite = " +:+ quoted "hello.com")%string;
   ("backend = " +:+ quoted "local1")%string; ""; "[hello]"; ("rewrite = " +:+ quoted "127.0.0.1")%string;
   ""; "[world]"; ""]%string.

Definition normal_file : string := file_text (EmptyString :: normal_config ++ ["        "%string]).
Definition empty_file : string := file_text ["";"";"        "]%string.
Definition empty_sections_file : string := file_text [""; "[hello]"; ""; "[world]"; "        "]%string.
Definition direct_file : string := file_text [""; "[hello]"; "direct = true"; ""; "[world]"; "        "]%string.
Definition invalid_file : string := file_text [""; "aaaaaaaaaaaaaaaaa"; "        "]%string.
Definition dup_file : string := file_text [""; "[hello]"; "[hello]"; "        "]%string.
Definition rules_file : string :=
  file_text (EmptyString :: normal_config ++
    ["[fedora.local10]"; "direct = true"; ""; "[fedora.local101]"; "direct = false"; ""; "        "]%string).

Definition test_new_host_ruler : outcome unit :=
  host_ruler ← unwrap_ok (host_ruler_new toml normal_file);
  _ ← assert (is_some host_ruler);
  host_ruler ← unwrap_ok (host_ruler_new toml empty_file);
  _ ← assert (negb (is_some host_ruler));
  host_ruler ← unwrap_ok (host_ruler_new toml empty_sections_file);
  _ ← assert (negb (is_some host_ruler));
  host_ruler ← unwrap_ok (host_ruler_new toml direct_file);
  _ ← assert (is_some host_ruler);
  _ ← assert (is_err (host_ruler_new toml invalid_file));
  assert (is_err (host_ruler_new toml dup_file)).

Definition test_new_host_ruler_find_rule : outcome unit :=
  let eg_addr := localhost8080 in
  host_ruler ← unwrap_ok (host_ruler_new toml rules_file);
  host_ruler ← unwrap host_ruler;
  let peer := peer_new "example.com:8080" eg_addr in
  _ ← assert (is_unknown (get_rule peer));
  let peer := find_rule host_ruler peer in
  _ ← assert (matches_rule (get_rule peer) true true);
  let peer := peer_new "hello:8080" eg_addr in
  _ ← assert (is_unknown (get_rule peer));
  let peer := find_rule host_ruler peer in
  _ ← assert (matches_rule (get_rule peer) true false);
  let peer := peer_new "google.com:8080" eg_addr in
  _ ← assert (is_unknown (get_rule peer));
  let peer := find_rule host_ruler peer in
  assert (is_no_rule (get_rule peer)).

Definition section_of (rewrite backend : option string) (direct : bool) : HostRuleSection :=
  {| rewrite := rewrite; backend := backend; direct := direct |}.
Definition no_directive : HostRuleSection := section_of None None false.
Definition normal_sections : gmap string HostRuleSection :=
  {["example.com" := section_of (Some "hello.com") (Some "local1") false;
    "hello" := section_of (Some "127.0.0.1") None false; "world" := no_directive]}%string.

(** The tables these files denote in TOML; [fedora] has sub-tables only, which
    are no fields of a section. *)
Record reads_toml : Prop := {
  rt_normal : toml normal_file = Ok normal_sections;
  rt_empty : toml empty_file = Ok ∅;
  rt_empty_sections : toml empty_sections_file = Ok {["hello" := no_directive; "world" := no_directive]}%string;
  rt_direct : toml direct_file = Ok {["hello" := section_of None None true; "world" := no_directive]}%string;
  rt_invalid : is_err (toml invalid_file) = true;
  rt_dup : is_err (toml dup_file) = true;
  rt_rules : toml rules_file = Ok (<["fedora" := no_directive]> normal_sections)%string;
}.

Lemma loaded text :
  utf8_valid text = true ->
  host_ruler_new toml text = match toml text with
    | Ok this =>
        let map := filter (fun kv => section_empty kv.2 = false) this in
        if decide (map = ∅) then Ok None else Ok (Some {| sections := map |})
    | Err _ => Err "Failed to parse host rule toml"%string
    end.
Proof.
  intros H. unfold host_ruler_new, load_from_read, read_to_string, from_utf8. rewrite H. cbn. by destruct (toml text).
Qed.

Lemma test_new_host_ruler_passes : reads_toml -> test_new_host_ruler = Done tt.
Proof.
  intros [H1 H2 H3 H4 H5 H6 _]. unfold test_new_host_ruler. rewrite !loaded by (vm_compute; reflexivity).
  rewrite H1, H2, H3, H4. destruct (toml invalid_file); [done|]. destruct (toml dup_file); [done|].
  vm_compute. reflexivity.
Qed.

Lemma test_new_host_ruler_find_rule_passes : reads_toml -> test_new_host_ruler_find_rule = Done tt.
Proof.
  intros H. unfold test_new_host_ruler_find_rule. rewrite loaded by (vm_compute; reflexivity).
  rewrite (rt_rules H). vm_compute. reflexivity.
Qed.
End HostRulerTests.
