(* ===== verification/AsyncIo.v ===== *)
(** * Byte streams that wrap others ([lib/src/proxy.rs], [QuicBidiStream];
    [lib/src/proxy_client/stream.rs], [ProxyStream])

    [AsyncRead] and [AsyncWrite] as classes: a poll may change the stream. *)

From S2P Require Import Prelude.

Inductive poll (A : Type) := Pending | Ready (a : A).
Arguments Pending {A}.
Arguments Ready {A} a.

(** A read into a buffer with room for [n] bytes gives the bytes read. *)
Class AsyncRead (S : Type) := poll_read : nat -> S -> poll (result string string) * S.

Class AsyncWrite (S : Type) := {
  poll_write : string -> S -> poll (result string nat) * S;
  poll_flush : S -> poll (result string unit) * S;
  poll_shutdown : S -> poll (result string unit) * S;
}.

(** hyper's [Connected], of which the program sets whether the stream goes
    through a proxy. *)
Record Connected := { is_proxied : bool; alpn_h2 : bool }.
Definition set_proxy (b : bool) (c : Connected) : Connected := {| is_proxied := b; alpn_h2 := alpn_h2 c |}.
Class Connection (S : Type) := connected : S -> Connected.

(** ** [QuicBidiStream] *)

Record QuicBidiStream (Send Recv : Type) := { send : Send; recv : Recv }.
Arguments Build_QuicBidiStream {Send Recv} send recv.
Arguments send {Send Recv} q.
Arguments recv {Send Recv} q.

Section Quic.
Context {Send Recv : Type} `{W : AsyncWrite Send} `{R : AsyncRead Recv}.

(** A poll of one half. *)
Definition on_send {A} (f : Send -> A * Send) (q : QuicBidiStream Send Recv) : A * QuicBidiStream Send Recv :=
  let '(a, s) := f (send q) in (a, {| send := s; recv := recv q |}).
Definition on_recv {A} (f : Recv -> A * Recv) (q : QuicBidiStream Send Recv) : A * QuicBidiStream Send Recv :=
  let '(a, r) := f (recv q) in (a, {| send := send q; recv := r |}).

#[export] Instance quic_write : AsyncWrite (QuicBidiStream Send Recv) := {|
  poll_write := fun buf => on_send (poll_write buf);
  poll_flush := on_send poll_flush;
  poll_shutdown := on_send poll_shutdown;
|}.

#[export] Instance quic_read : AsyncRead (QuicBidiStream Send Recv) := fun n => on_recv (poll_read n).

(** The two directions of a stream do not disturb each other: a read and a
    write commute, which [copy_bidirectional] relies on. *)
Theorem quic_directions_independent buf n (q : QuicBidiStream Send Recv) :
  let '(rw, q1) := poll_write buf q in
  let '(rr, q2) := poll_read n q1 in
  let '(rr', q1') := poll_read n q in
  let '(rw', q2') := poll_write buf q1' in
  rw = rw' /\ rr = rr' /\ q2 = q2'.
Proof.
  destruct q as [s r]. cbn. unfold poll_read, quic_read, on_send, on_recv, poll_read. cbn.
  destruct (poll_write buf s) as [a s'] eqn:E1. destruct (R n r) as [b r'] eqn:E2. cbn. rewrite E2, E1. done.
Qed.

(** Shutting the stream down ends the sending half only. *)
Lemma quic_shutdown_recv (q : QuicBidiStream Send Recv) : recv (poll_shutdown q).2 = recv q.
Proof. cbn. unfold on_send. by destruct (poll_shutdown (send q)). Qed.
End Quic.

(** ** [ProxyStream] *)

Record ProxyStream (R : Type) := { proxied : R }.
Arguments Build_ProxyStream {R} proxied.
Arguments proxied {R} p.

Section Proxied.
Context {S : Type} `{R : AsyncRead S} `{W : AsyncWrite S} `{C : Connection S}.

Definition on_inner {A} (f : S -> A * S) (p : ProxyStream S) : A * ProxyStream S :=
  let '(a, s) := f (proxied p) in (a, {| proxied := s |}).

#[export] Instance proxied_read : AsyncRead (ProxyStream S) := fun n => on_inner (poll_read n).

#[export] Instance proxied_write : AsyncWrite (ProxyStream S) := {|
  poll_write := fun buf => on_inner (poll_write buf);
  poll_flush := on_inner poll_flush;
  poll_shutdown := on_inner poll_shutdown;
|}.

(** [self.0.connected().proxy(true)]: hyper then sends requests in absolute
    form. *)
#[export] Instance proxied_connected : Connection (ProxyStream S) := fun p => set_proxy true (connected (proxied p)).
End Proxied.

(** ** Reading and writing everything *)

(** The bytes a sequence of reads gives, in order. *)
Fixpoint read_all {S} `{AsyncRead S} (ns : list nat) (s : S) : list (poll (result string string)) * S :=
  match ns with
  | [] => ([], s)
  | n :: ns => let '(a, s) := poll_read n s in let '(rest, s) := read_all ns s in (a :: rest, s)
  end.

(** A wrapped stream reads as the stream itself. *)
Lemma proxied_read_all {S} `{AsyncRead S} ns (s : S) :
  read_all ns {| proxied := s |} = ((read_all ns s).1, {| proxied := (read_all ns s).2 |}).
Proof.
  revert s; induction ns as [|n ns IH]; intros s; [done|]. cbn. unfold poll_read, proxied_read at 1, on_inner at 1, poll_read.
  cbn. destruct (H n s) as [a s']. rewrite IH. by destruct (read_all ns s').
Qed.
