(* ===== verification/ProxyClient.v ===== *)
(** * The CONNECT tunnel of the forwarding client ([lib/src/proxy_client])

    Requests that are not CONNECT are forwarded by a hyper client whose
    connector opens a CONNECT tunnel through the proxy itself: [Tunnel] is the
    future that writes the request head and waits for the response head. *)

From S2P Require Import Prelude AsyncIo.

(** ** [tunnel.rs] *)

Inductive TunnelState := Writing | Reading.

(** [stream] is taken out when the future completes. *)
Record Tunnel := {
  t_buf : string;
  t_stream : bool;
  t_state : TunnelState;
}.

Definition CRLF : string := String "013" (String "010" EmptyString).

(** [new(host)] and [with_stream]. *)
Definition tunnel_request (host : string) : string :=
  ("CONNECT " +:+ host +:+ " HTTP/1.1" +:+ CRLF +:+ "Host: " +:+ host +:+ CRLF +:+ CRLF)%string.

Definition tunnel_new (host : string) : Tunnel :=
  {| t_buf := tunnel_request host; t_stream := true; t_state := Writing |}.

(** What the stream answers to the next attempt: [a_write] to a write (the
    number of bytes accepted), [a_read] to a read (the bytes read). *)
Record IoAnswer := {
  a_write : poll (result string nat);
  a_read : poll (result string string);
}.

Inductive TunnelError :=
  | IoError (e : string)
  | EofWriting
  | EofReading
  | Unsuccessful (head : string).

(** One turn of the loop in [poll]. *)
Inductive Turn :=
  | TPending
  | TReady (r : result TunnelError unit)
  | TLoop.

Definition ends_with (p s : string) : bool :=
  Nat.leb (String.length p) (String.length s) &&
  String.eqb (str_drop (String.length s - String.length p) s) p.

Definition accepted (read : string) : bool :=
  starts_with "HTTP/1.1 200" read || starts_with "HTTP/1.0 200" read.

Definition with_buf (buf : string) (this : Tunnel) : Tunnel :=
  {| t_buf := buf; t_stream := t_stream this; t_state := t_state this |}.

Definition tunnel_turn (a : IoAnswer) (this : Tunnel) : Turn * Tunnel :=
  match t_state this with
  | Writing =>
      match a_write a with
      | Pending => (TPending, this)
      | Ready (Err e) => (TReady (Err (IoError e)), this)
      | Ready (Ok n) =>
          let this := with_buf (str_drop n (t_buf this)) this in
          if decide (t_buf this = EmptyString)
          then (TLoop, {| t_buf := EmptyString; t_stream := t_stream this; t_state := Reading |})
          else if decide (n = 0%nat) then (TReady (Err EofWriting), this)
          else (TLoop, this)
      end
  | Reading =>
      match a_read a with
      | Pending => (TPending, this)
      | Ready (Err e) => (TReady (Err (IoError e)), this)
      | Ready (Ok chunk) =>
          let read := (t_buf this +:+ chunk)%string in
          let this := with_buf read this in
          if decide (chunk = EmptyString) then (TReady (Err EofReading), this)
          else if decide (12 < String.length read)%nat then
            if accepted read then
              if ends_with (CRLF +:+ CRLF)%string read
              then (TReady (Ok tt), {| t_buf := read; t_stream := false; t_state := Reading |})
              else (TLoop, this)
            else (TReady (Err (Unsuccessful (str_take (Nat.min (String.length read) 16) read))), this)
          else (TLoop, this)
      end
  end.

(** [Future::poll]: turns until the stream has nothing to offer; the answers
    that are left come at a later poll. *)
Fixpoint tunnel_loop (io : list IoAnswer) (this : Tunnel)
    : poll (result TunnelError unit) * Tunnel * list IoAnswer :=
  match io with
  | [] => (Pending, this, [])
  | a :: io =>
      match tunnel_turn a this with
      | (TPending, this) => (Pending, this, io)
      | (TReady r, this) => (Ready r, this, io)
      | (TLoop, this) => tunnel_loop io this
      end
  end.

Definition tunnel_poll (io : list IoAnswer) (this : Tunnel)
    : outcome (poll (result TunnelError unit) * Tunnel * list IoAnswer) :=
  if t_stream this then Done (tunnel_loop io this) else Panic.

(** [.await]: polled again after each [Pending], until it is ready or the
    stream falls silent.  The string is what was written to the stream. *)
Definition turn_sent (a : IoAnswer) (this : Tunnel) : string :=
  match t_state this, a_write a with
  | Writing, Ready (Ok n) => str_take n (t_buf this)
  | _, _ => EmptyString
  end.

Fixpoint tunnel_await (io : list IoAnswer) (this : Tunnel)
    : poll (result TunnelError unit) * string * Tunnel :=
  match io with
  | [] => (Pending, EmptyString, this)
  | a :: io =>
      let sent := turn_sent a this in
      match tunnel_turn a this with
      | (TReady r, this) => (Ready r, sent, this)
      | (TPending, this) | (TLoop, this) =>
          let '(r, sent', this) := tunnel_await io this in (r, (sent +:+ sent')%string, this)
      end
  end.

(** ** [mod.rs] *)

Section Connector.
(** [http::Uri], and the connector that opens the stream to the proxy, given
    by what the stream will answer. *)
Context {Uri : Type}.
Context (scheme_str authority path_and_query : Uri -> option string).
Context (build : string -> string -> string -> result string Uri).
Context (connector : Uri -> result string (list IoAnswer)).

Definition proxy_dst (dst proxy : Uri) : outcome (result string Uri) :=
  match scheme_str proxy with
  | None => Done (Err "proxy uri missing scheme")
  | Some scheme =>
      match authority proxy with
      | None => Done (Err "proxy uri missing host")
      | Some auth =>
          match path_and_query dst with
          | None => Panic
          | Some path => Done (build scheme auth path)
          end
      end
  end.

(** [ProxyConnector::poll_ready]: the inner connector's readiness. *)
Definition proxy_poll_ready (connector_ready : poll (result string unit)) : poll (result TunnelError unit) :=
  match connector_ready with
  | Ready (Ok _) => Ready (Ok tt)
  | Ready (Err e) => Ready (Err (IoError e))
  | Pending => Pending
  end.

(** [ProxyConnector::call]: the tunnel's result and what was written. *)
Definition proxy_call (proxy uri : Uri) : outcome (poll (result TunnelError unit) * string) :=
  match authority uri with
  | None => Panic
  | Some host =>
      let tunnel := tunnel_new host in
      connection ← proxy_dst uri proxy;
      match connection with
      | Err e => Done (Ready (Err (IoError e)), EmptyString)
      | Ok proxy_url =>
          match connector proxy_url with
          | Err e => Done (Ready (Err (IoError e)), EmptyString)
          | Ok io => let '(r, sent, _) := tunnel_await io tunnel in Done (r, sent)
          end
      end
  end.
End Connector.

(** ** Awaiting is polling again *)

(** One poll of the future does what the first answers do to the awaited
    tunnel; the rest is left to the next poll. *)
Theorem await_loop io this :
  let '(r, this1, rest) := tunnel_loop io this in
  let '(r', _, this') := tunnel_await io this in
  match r with
  | Ready _ => r' = r /\ this' = this1
  | Pending => let '(r2, _, this2) := tunnel_await rest this1 in r' = r2 /\ this' = this2
  end.
Proof.
  revert this; induction io as [|a io IH]; intros this; cbn [tunnel_loop tunnel_await]; [done|].
  destruct (tunnel_turn a this) as [[|r|] this1].
  - by destruct (tunnel_await io this1) as [[r' s'] this'].
  - done.
  - specialize (IH this1). destruct (tunnel_loop io this1) as [[r1 this2] rest].
    destruct (tunnel_await io this1) as [[r' s'] this']. exact IH.
Qed.

(** ** What is written *)

(** The part of the request that was not accepted yet. *)
Definition unsent (this : Tunnel) : string :=
  match t_state this with Writing => t_buf this | Reading => EmptyString end.

Lemma turn_unsent a this :
  (turn_sent a this +:+ unsent (tunnel_turn a this).2)%string = unsent this.
Proof.
  unfold unsent, turn_sent, tunnel_turn. destruct (t_state this) eqn:Es.
  - destruct (a_write a) as [|[n|e]]; cbn; rewrite ?Es; try done.
    case_decide as D; cbn; [|case_decide; cbn; rewrite Es; apply str_take_drop].
    rewrite str_app_nil_r. rewrite <- (str_take_drop n (t_buf this)) at 2. by rewrite D, str_app_nil_r.
  - destruct (a_read a) as [|[chunk|e]]; cbn; rewrite ?Es; try done.
    repeat case_decide; cbn; rewrite ?Es; try done. repeat (case_match; cbn in *; rewrite ?Es; try done); congruence.
Qed.

Lemma await_unsent io this :
  let '(_, sent, this') := tunnel_await io this in (sent +:+ unsent this')%string = unsent this.
Proof.
  revert this; induction io as [|a io IH]; intros this; cbn [tunnel_await]; [done|].
  pose proof (turn_unsent a this) as Ht. destruct (tunnel_turn a this) as [t this1]. cbn in Ht.
  specialize (IH this1). destruct (tunnel_await io this1) as [[r sent] this'].
  destruct t; cbn; [|done|]; by rewrite <- str_app_assoc, IH.
Qed.

(** ** What a response must look like *)

(** A head of more than twelve bytes with status 200, up to its blank line. *)
Definition response_ok (read : string) : Prop :=
  (12 < String.length read)%nat /\ accepted read = true /\ ends_with (CRLF +:+ CRLF)%string read = true.

Lemma turn_ok a this this' :
  tunnel_turn a this = (TReady (Ok tt), this') ->
  t_state this' = Reading /\ t_stream this' = false /\ response_ok (t_buf this').
Proof.
  unfold tunnel_turn. destruct (t_state this).
  - destruct (a_write a) as [|[n|e]]; try done. repeat case_decide; done.
  - destruct (a_read a) as [|[chunk|e]]; try done. case_decide; [done|]. case_decide; [|done].
    destruct (accepted _) eqn:Ea; [|done]. destruct (ends_with _ _) eqn:Ee; [|done].
    intros [= <-]. by repeat split.
Qed.

Lemma await_ok io this sent this' :
  tunnel_await io this = (Ready (Ok tt), sent, this') ->
  t_state this' = Reading /\ t_stream this' = false /\ response_ok (t_buf this').
Proof.
  revert this sent; induction io as [|a io IH]; intros this sent; cbn [tunnel_await]; [done|].
  destruct (tunnel_turn a this) as [[|r|] this1] eqn:Et.
  - destruct (tunnel_await io this1) as [[r s] t] eqn:E. intros [= -> _ ->]. by eapply IH.
  - intros [= -> _ <-]. by eapply turn_ok.
  - destruct (tunnel_await io this1) as [[r s] t] eqn:E. intros [= -> _ ->]. by eapply IH.
Qed.

(** C25: A tunnel is handed out only after the request was written, exactly once and
    in full - however the writes were split - and the response read is a 200
    head up to its blank line; whatever else happens, what was written is a
    prefix of the request. *)
Theorem tunnel_established io host r sent this :
  tunnel_await io (tunnel_new host) = (r, sent, this) ->
  (sent +:+ unsent this)%string = tunnel_request host /\
  (r = Ready (Ok tt) -> sent = tunnel_request host /\ response_ok (t_buf this) /\ t_stream this = false).
Proof.
  intros E. pose proof (await_unsent io (tunnel_new host)) as Hu. rewrite E in Hu.
  change (unsent (tunnel_new host)) with (tunnel_request host) in Hu.
  split; [exact Hu|]. intros ->. destruct (await_ok _ _ _ _ E) as (H1 & H2 & H3).
  unfold unsent in Hu. rewrite H1, str_app_nil_r in Hu. done.
Qed.

(** ** A proxy that answers *)

Definition writes (n : nat) : IoAnswer := {| a_write := Ready (Ok n); a_read := Pending |}.
Definition reads (chunk : string) : IoAnswer := {| a_write := Pending; a_read := Ready (Ok chunk) |}.

Definition str_concat (chunks : list string) : string := foldr String.append EmptyString chunks.

(** [read] is no complete answer yet. *)
Definition unfinished (read : string) : Prop :=
  (String.length read <= 12)%nat \/ ends_with (CRLF +:+ CRLF)%string read = false.

(** Reads that do not complete the answer are accumulated. *)
Lemma read_turn chunk this :
  t_state this = Reading -> chunk <> EmptyString -> unfinished (t_buf this +:+ chunk)%string ->
  ((12 < String.length (t_buf this +:+ chunk)%string)%nat -> accepted (t_buf this +:+ chunk)%string = true) ->
  tunnel_turn (reads chunk) this = (TLoop, with_buf (t_buf this +:+ chunk)%string this).
Proof.
  intros Hs Hc Hu Ha. unfold tunnel_turn. rewrite Hs. cbn [a_read reads].
  rewrite decide_False by done. case_decide as Hl; [|done]. rewrite (Ha Hl).
  destruct Hu as [Hu| ->]; [lia|done].
Qed.

Lemma accepted_prefix a b :
  (12 < String.length a)%nat -> accepted (a +:+ b)%string = true -> accepted a = true.
Proof.
  assert (Hp : forall p a, (String.length p <= String.length a)%nat ->
    starts_with p (a +:+ b)%string = true -> starts_with p a = true).
  { induction p as [|c p IH]; intros [|d x] Hl H; cbn in *; try done; [lia|].
    apply andb_prop in H as [H1 H2]. rewrite H1. cbn. apply IH; [lia|done]. }
  intros Hl. unfold accepted. rewrite !orb_true_iff. intros [H|H]; [left|right]; (apply Hp; [cbn; lia|done]).
Qed.

(** Any proper prefix of the chunks is unfinished. *)
Definition finishes_at_end (buf : string) (chunks : list string) : Prop :=
  forall k, (k < length chunks)%nat -> unfinished (buf +:+ str_concat (take k chunks))%string.

Lemma await_reads chunks this :
  t_state this = Reading -> t_stream this = true -> chunks <> [] -> Forall (fun c => c <> EmptyString) chunks ->
  response_ok (t_buf this +:+ str_concat chunks)%string -> finishes_at_end (t_buf this) chunks ->
  exists this', tunnel_await (reads <$> chunks) this = (Ready (Ok tt), EmptyString, this').
Proof.
  revert this; induction chunks as [|c chunks IH]; intros this Hs Ht Hne Hf Hok Hfin; [done|].
  apply Forall_cons_1 in Hf as [Hc Hf]. cbn [fmap list_fmap tunnel_await].
  assert (Hsent : turn_sent (reads c) this = EmptyString) by (unfold turn_sent; by rewrite Hs).
  rewrite Hsent. destruct chunks as [|c' chunks].
  - cbn in Hok. rewrite str_app_nil_r in Hok. destruct Hok as (H1 & H2 & H3).
    unfold tunnel_turn. rewrite Hs. cbn [a_read reads]. rewrite decide_False by done.
    rewrite decide_True by done. rewrite H2, H3. cbn. by eexists.
  - assert (Happ : (t_buf this +:+ str_concat (c :: c' :: chunks))%string
      = ((t_buf this +:+ c) +:+ str_concat (c' :: chunks))%string) by (cbn; by rewrite str_app_assoc).
    rewrite Happ in Hok. rewrite read_turn; [|done|done| |].
    + destruct (IH (with_buf (t_buf this +:+ c)%string this)) as [this' E]; try done.
      * intros k Hk. specialize (Hfin (S k)). cbn [take str_concat foldr] in Hfin. cbn [t_buf with_buf].
        rewrite <- str_app_assoc. apply Hfin. simpl in *. lia.
      * rewrite E. by exists this'.
    + specialize (Hfin 1%nat). cbn in Hfin. rewrite str_app_nil_r in Hfin. apply Hfin. lia.
    + intros Hl. eapply accepted_prefix; [done|]. apply Hok.
Qed.

Lemma await_writes ns io buf r s this' :
  Forall (fun n => n <> 0%nat) ns -> ns <> [] -> sum_list ns = String.length buf ->
  tunnel_await io {| t_buf := EmptyString; t_stream := true; t_state := Reading |} = (r, s, this') ->
  exists sent, tunnel_await ((writes <$> ns) ++ io) {| t_buf := buf; t_stream := true; t_state := Writing |}
    = (r, sent, this').
Proof.
  intros Hf Hne Hsum E. revert buf Hf Hne Hsum; induction ns as [|n ns IH]; intros buf Hf Hne Hsum; [done|].
  apply Forall_cons_1 in Hf as [Hn Hf]. change (n + sum_list ns = String.length buf)%nat in Hsum.
  cbn [fmap list_fmap app tunnel_await]. unfold tunnel_turn. cbn [t_state a_write writes t_buf with_buf t_stream].
  assert (Hlen : String.length (str_drop n buf) = sum_list ns) by (rewrite str_drop_length; lia).
  destruct ns as [|m ns].
  - rewrite decide_True by (by apply str_length_zero). cbn [fmap list_fmap app]. rewrite E. by eexists.
  - assert (Hm : m <> 0%nat) by (by apply Forall_cons_1 in Hf as [? _]).
    rewrite decide_False by (intros H; rewrite H in Hlen; change (0 = m + sum_list ns)%nat in Hlen; lia).
    rewrite decide_False by done.
    destruct (IH (str_drop n buf)) as [sent E']; [done|done|by rewrite Hlen|].
    match goal with |- context [tunnel_await ?x ?y] => change (tunnel_await x y) with
      (tunnel_await ((writes <$> m :: ns) ++ io)
        {| t_buf := str_drop n buf; t_stream := true; t_state := Writing |}) end.
    rewrite E'. by eexists.
Qed.

(** However the stream splits the writes and the answer, a proxy that accepts
    the tunnel gets the request and the tunnel is handed out, provided only
    that the answer's blank line comes with its last bytes. *)
Theorem tunnel_accepts host ns chunks :
  Forall (fun n => n <> 0%nat) ns -> sum_list ns = String.length (tunnel_request host) ->
  chunks <> [] -> Forall (fun c => c <> EmptyString) chunks ->
  response_ok (str_concat chunks) -> finishes_at_end EmptyString chunks ->
  exists this, tunnel_await ((writes <$> ns) ++ (reads <$> chunks)) (tunnel_new host)
    = (Ready (Ok tt), tunnel_request host, this).
Proof.
  intros Hf Hsum Hne Hc Hok Hfin.
  destruct (await_reads chunks {| t_buf := EmptyString; t_stream := true; t_state := Reading |}) as [this E]; try done.
  destruct (await_writes ns (reads <$> chunks) (tunnel_request host) (Ready (Ok tt)) EmptyString this)
    as [sent E']; [done|by intros ->|done|exact E|].
  exists this. unfold tunnel_new. rewrite E'.
  pose proof (await_unsent ((writes <$> ns) ++ (reads <$> chunks)) (tunnel_new host)) as Hu.
  unfold tunnel_new in Hu. rewrite E' in Hu. destruct (await_ok _ _ _ _ E') as [Hs _].
  unfold unsent in Hu. rewrite Hs in Hu. cbn [t_state t_buf] in Hu. by rewrite str_app_nil_r in Hu; subst.
Qed.

(** ** The errors *)

(** A stream that accepts nothing, ends early or answers anything but 200 fails
    the tunnel. *)
Theorem tunnel_refuses this a chunk :
  (t_state this = Writing -> t_buf this <> EmptyString -> a_write a = Ready (Ok 0%nat) ->
     (tunnel_turn a this).1 = TReady (Err EofWriting)) /\
  (t_state this = Reading -> a_read a = Ready (Ok EmptyString) -> (tunnel_turn a this).1 = TReady (Err EofReading)) /\
  (t_state this = Reading -> chunk <> EmptyString -> (12 < String.length (t_buf this +:+ chunk)%string)%nat ->
     accepted (t_buf this +:+ chunk)%string = false ->
     exists head, (tunnel_turn (reads chunk) this).1 = TReady (Err (Unsuccessful head)) /\
       String.length head = Nat.min 16 (String.length (t_buf this +:+ chunk)%string)).
Proof.
  unfold tunnel_turn. split; [|split].
  - intros -> Hb ->. cbn. destruct (t_buf this); [done|]. by rewrite decide_False.
  - by intros -> ->.
  - intros -> Hc Hl Ha. cbn [a_read reads]. rewrite decide_False, decide_True, Ha by done.
    eexists. split; [done|]. rewrite str_take_length. lia.
Qed.

(** ** The connector *)

Section ConnectorSpec.
Context {Uri : Type}.
Context (scheme_str authority path_and_query : Uri -> option string).
Context (build : string -> string -> string -> result string Uri).
Context (connector : Uri -> result string (list IoAnswer)).

(** A request is forwarded over a tunnel to its own authority, opened on a
    stream to the proxy's authority. *)
Theorem proxy_call_tunnels proxy uri sent :
  proxy_call scheme_str authority path_and_query build connector proxy uri = Done (Ready (Ok tt), sent) ->
  exists host scheme auth path proxy_url io,
    authority uri = Some host /\ scheme_str proxy = Some scheme /\ authority proxy = Some auth /\
    path_and_query uri = Some path /\ build scheme auth path = Ok proxy_url /\ connector proxy_url = Ok io /\
    sent = tunnel_request host.
Proof.
  unfold proxy_call, proxy_dst. destruct (authority uri) as [host|]; [|done].
  destruct (scheme_str proxy) as [scheme|]; [|done]. destruct (authority proxy) as [auth|]; [|done].
  destruct (path_and_query uri) as [path|]; [|done]. cbn.
  destruct (build scheme auth path) as [url|] eqn:Eb; [|done].
  destruct (connector url) as [io|] eqn:Ec; [|done].
  destruct (tunnel_await io (tunnel_new host)) as [[r s] this] eqn:E. intros [= -> ->].
  exists host, scheme, auth, path, url, io. repeat split; try done.
  pose proof (await_unsent io (tunnel_new host)) as Hu. rewrite E in Hu.
  destruct (await_ok _ _ _ _ E) as [Hs _]. unfold unsent in Hu. rewrite Hs, str_app_nil_r in Hu. exact Hu.
Qed.

Lemma proxy_call_written proxy uri sent :
  proxy_call scheme_str authority path_and_query build connector proxy uri = Done (Ready (Ok tt), sent) ->
  exists host, authority uri = Some host /\ sent = tunnel_request host.
Proof. intros H. destruct (proxy_call_tunnels _ _ _ H) as (host & _ & _ & _ & _ & _ & Ha & _ & _ & _ & _ & _ & E). by exists host. Qed.
End ConnectorSpec.

(** ** Witnesses *)

Definition split_io : list IoAnswer :=
  (writes <$> [10; 20; 17])%nat ++ (reads <$> ["HTTP/1.1 "; ("200 OK" +:+ CRLF +:+ CRLF)%string]).

Lemma tunnel_established_witness :
  match tunnel_await split_io (tunnel_new "ex.com:80") with
  | (r, sent, this) => r = Ready (Ok tt) /\ sent = tunnel_request "ex.com:80" /\ response_ok (t_buf this)
  end.
Proof.
  destruct (tunnel_await split_io (tunnel_new "ex.com:80")) as [[r sent] this] eqn:E.
  assert (Hr : r = Ready (Ok tt)).
  { change r with (r, sent, this).1.1. rewrite <- E. vm_compute. reflexivity. }
  destruct (tunnel_established split_io "ex.com:80" r sent this E) as [_ H].
  destruct (H Hr) as (H1 & H2 & _). split; [exact Hr|]. split; [exact H1|exact H2].
Defined.

Lemma tunnel_accepts_witness :
  exists this, tunnel_await split_io (tunnel_new "ex.com:80") = (Ready (Ok tt), tunnel_request "ex.com:80", this).
Proof.
  apply (tunnel_accepts "ex.com:80" [10; 20; 17]%nat ["HTTP/1.1 "; ("200 OK" +:+ CRLF +:+ CRLF)%string]).
  - by repeat constructor.
  - reflexivity.
  - discriminate.
  - by repeat constructor.
  - split; [vm_compute; lia|]. split; reflexivity.
  - intros [|[|k]] Hk; cbn in Hk; [left|left|lia]; vm_compute; lia.
Defined.

(** A forwarding client over concrete URIs: scheme, authority and path. *)
Lemma proxy_call_tunnels_witness :
  exists host scheme auth path proxy_url io,
    Some "ex.com:80" = Some host /\ Some "http" = Some scheme /\ Some "127.0.0.1:8080" = Some auth /\
    Some "/" = Some path /\ Ok (scheme, auth, path) = Ok (E := string) proxy_url /\ Ok split_io = Ok (E := string) io /\
    tunnel_request "ex.com:80" = tunnel_request host.
Proof.
  exact (proxy_call_tunnels (Uri := string * string * string) (fun u => Some u.1.1) (fun u => Some u.1.2)
    (fun u => Some u.2) (fun s a p => Ok (s, a, p)) (fun _ => Ok split_io)
    ("http", "127.0.0.1:8080", "/") ("http", "ex.com:80", "/") (tunnel_request "ex.com:80") eq_refl).
Defined.

