(* ===== verification/Front.v ===== *)
(** * The listener in front of the client ([client/src/proxy.rs],
    [listening_proxy] and [listen_incoming_connection])

    The HTTP service turns requests into connections on a channel, after their
    upgrade for CONNECT; the loop of [listening_proxy] spawns a handler for each
    connection. *)

From S2P Require Import Prelude NetAddr LibProxy LibMetric Metric Tls BackendConfig Peer Balance World Connector Backend Proxy MetricApi Discipline System Example Locks Safety Fair Writers Liveness.

Inductive IncomingConnection := ConnectMethod | NonConnectMethod.

Section Front.
Context `{F : F64} `{CL : ClientLib} `{HR : HashRing} `{TL : TlsLib} (rules : option HostRuler).

(** [upgrades]: answered CONNECT requests whose upgrade is awaited; [lost]:
    those whose upgrade failed; [sent]: everything sent on the channel so far. *)
Record Front := {
  upgrades : list PeerInfo;
  channel : list (IncomingConnection * PeerInfo);
  front_pool : Pool;
  lost : list PeerInfo;
  sent : list (IncomingConnection * PeerInfo);
}.

Definition front_start (w : World) : Front := {|
  upgrades := []; channel := []; front_pool := {| p_tasks := []; p_world := w |}; lost := []; sent := [] |}.

Definition with_pool (s : Pool) (rest : list (IncomingConnection * PeerInfo)) (f : Front) : Front :=
  {| upgrades := upgrades f; channel := rest; front_pool := s; lost := lost f; sent := sent f |}.

Definition send_incoming (c : IncomingConnection) (peer : PeerInfo) (f : Front) : Front :=
  {| upgrades := upgrades f; channel := channel f ++ [(c, peer)]; front_pool := front_pool f; lost := lost f;
     sent := sent f ++ [(c, peer)] |}.

Inductive FrontEvent :=
  (** a request of the peer at an address; the outcome of an upgrade; a turn of
      the dispatch loop; the client's tasks and the metric service *)
  | FRequest (peer_addr : SocketAddr) (req : Request)
  | FUpgraded (i : nat) (ok : bool)
  | FDispatch
  | FRun (i : nat) (e : Env)
  | FApi (req : MetricApiReq).

(** The future of [make_service]'s service for one request. *)
Definition on_request (peer_addr : SocketAddr) (req : Request) (f : Front) : Front :=
  match service peer_addr req with
  | BadRequest _ => f
  | Upgrade peer => {| upgrades := upgrades f ++ [peer]; channel := channel f; front_pool := front_pool f;
      lost := lost f; sent := sent f |}
  | ForwardRequest peer => send_incoming NonConnectMethod peer f
  end.

(** The spawned task that awaits [hyper::upgrade::on]. *)
Definition on_upgraded (i : nat) (ok : bool) (f : Front) : option Front :=
  peer ← upgrades f !! i;
  let f := {| upgrades := delete i (upgrades f); channel := channel f; front_pool := front_pool f;
              lost := if ok then lost f else lost f ++ [peer]; sent := sent f |} in
  Some (if ok then send_incoming ConnectMethod peer f else f).

(** The handler of a connection. *)
Definition connection_job (c : IncomingConnection) (peer : PeerInfo) : job :=
  match c with ConnectMethod => JConnect peer | NonConnectMethod => JForward peer end.

(** A turn of [while let Some((inbound, peer)) = receiver.recv().await]. *)
Definition dispatch (f : Front) : option Front :=
  match channel f with
  | (c, peer) :: rest =>
      s ← step_pool body (job_prog rules) (Arrive (connection_job c peer)) (front_pool f);
      Some (with_pool s rest f)
  | [] => None
  end.

Definition front_step (ev : FrontEvent) (f : Front) : option Front :=
  match ev with
  | FRequest peer_addr req => Some (on_request peer_addr req f)
  | FUpgraded i ok => on_upgraded i ok f
  | FDispatch => dispatch f
  | FRun i e => s ← step_task body (job_prog rules) i e (front_pool f); Some (with_pool s (channel f) f)
  | FApi req => s ← step_pool body (job_prog rules) (Arrive (JApi req)) (front_pool f); Some (with_pool s (channel f) f)
  end.

Fixpoint front_run (evs : list FrontEvent) (f : Front) : option Front :=
  match evs with
  | [] => Some f
  | ev :: evs => f ← front_step ev f; front_run evs f
  end.

(** ** Every request gets one handler *)

(** The peers of the CONNECT requests, and of the others, that name a host. *)
Definition connect_of (ev : FrontEvent) : option PeerInfo :=
  match ev with
  | FRequest peer_addr req => match service peer_addr req with Upgrade peer => Some peer | _ => None end
  | _ => None
  end.
Definition forward_of (ev : FrontEvent) : option PeerInfo :=
  match ev with
  | FRequest peer_addr req => match service peer_addr req with ForwardRequest peer => Some peer | _ => None end
  | _ => None
  end.

(** The connection a task handles. *)
Definition handles (t : job * prog unit) : option (IncomingConnection * PeerInfo) :=
  match t.1 with
  | JConnect peer => Some (ConnectMethod, peer)
  | JForward peer => Some (NonConnectMethod, peer)
  | _ => None
  end.

Definition sent_by (c : IncomingConnection) (x : IncomingConnection * PeerInfo) : option PeerInfo :=
  match c, x.1 with
  | ConnectMethod, ConnectMethod | NonConnectMethod, NonConnectMethod => Some x.2
  | _, _ => None
  end.

Record front_inv (evs : list FrontEvent) (f : Front) : Prop := {
  fi_sent : omap handles (p_tasks (front_pool f)) ++ channel f = sent f;
  fi_connects : omap connect_of evs ≡ₚ lost f ++ upgrades f ++ omap (sent_by ConnectMethod) (sent f);
  fi_forwards : omap forward_of evs = omap (sent_by NonConnectMethod) (sent f);
}.

Lemma handles_spawned js : Forall (fun j => external j = false) js -> omap handles (spawn_all (job_prog rules) js) = [].
Proof. induction 1 as [|j js Hj _ IH]; [done|]. cbn. by destruct j. Qed.

Lemma handles_insert (i : nat) j (q q' : prog unit) (ts : list (job * prog unit)) :
  ts !! i = Some (j, q) -> omap handles (<[i := (j, q')]> ts) = omap handles ts.
Proof.
  revert i; induction ts as [|t ts IH]; intros [|i] H; cbn in *; try done; [by injection H as ->|].
  by rewrite IH.
Qed.

Lemma spawns_internal j js : Forall (spawns j) js -> Forall (fun j' => external j' = false) js.
Proof. induction 1 as [|j' js Hj _ IH]; constructor; [by destruct j, j'|done]. Qed.

(** *** The invariant *)

Lemma omap_sent_snoc c l x : omap (sent_by c) (l ++ [x]) = omap (sent_by c) l ++ omap (sent_by c) [x].
Proof. apply omap_app. Qed.

Lemma request_inv evs f peer_addr req :
  front_inv evs f -> front_inv (evs ++ [FRequest peer_addr req]) (on_request peer_addr req f).
Proof.
  intros [H1 H2 H3]. unfold on_request.
  assert (Hc : omap connect_of (evs ++ [FRequest peer_addr req]) = omap connect_of evs ++
    match service peer_addr req with Upgrade peer => [peer] | _ => [] end).
  { rewrite omap_app. cbn. by destruct (service peer_addr req). }
  assert (Hf : omap forward_of (evs ++ [FRequest peer_addr req]) = omap forward_of evs ++
    match service peer_addr req with ForwardRequest peer => [peer] | _ => [] end).
  { rewrite omap_app. cbn. by destruct (service peer_addr req). }
  destruct (service peer_addr req) as [body|peer|peer]; split; rewrite ?Hc, ?Hf; cbn.
  - done.
  - by rewrite app_nil_r.
  - by rewrite app_nil_r.
  - done.
  - rewrite H2. rewrite <- !app_assoc. apply Permutation_app_head, Permutation_app_head. by rewrite Permutation_app_comm.
  - by rewrite app_nil_r.
  - by rewrite app_assoc, H1.
  - by rewrite omap_sent_snoc, !app_nil_r.
  - by rewrite omap_sent_snoc, H3.
Qed.

Lemma other_inv evs ev f f' :
  front_inv evs f -> connect_of ev = None -> forward_of ev = None ->
  omap handles (p_tasks (front_pool f')) ++ channel f' = sent f' ->
  lost f' ++ upgrades f' ++ omap (sent_by ConnectMethod) (sent f') ≡ₚ
    lost f ++ upgrades f ++ omap (sent_by ConnectMethod) (sent f) ->
  omap (sent_by NonConnectMethod) (sent f') = omap (sent_by NonConnectMethod) (sent f) ->
  front_inv (evs ++ [ev]) f'.
Proof.
  intros [H1 H2 H3] Ec Ef E1 E2 E3. split; [done|rewrite E2, <- H2|rewrite E3, <- H3]; rewrite omap_app; cbn;
    by rewrite ?Ec, ?Ef, app_nil_r.
Qed.

Lemma upgraded_inv evs i ok f f' :
  front_inv evs f -> on_upgraded i ok f = Some f' -> front_inv (evs ++ [FUpgraded i ok]) f'.
Proof.
  intros Hi H. unfold on_upgraded in H. destruct (upgrades f !! i) as [peer|] eqn:Ei; [|done]. cbn in H. injection H as <-.
  pose proof (delete_Permutation _ _ _ Ei) as Hd.
  eapply other_inv; [exact Hi|done|done|..]; destruct ok; cbn; try (set (d := delete i (upgrades f)) in *; clearbody d).
  - by rewrite app_assoc, (fi_sent _ _ Hi).
  - apply (fi_sent _ _ Hi).
  - rewrite omap_sent_snoc. cbn. rewrite Hd. apply Permutation_app_head. cbn.
    rewrite app_assoc. apply Permutation_sym, Permutation_cons_append.
  - rewrite Hd. rewrite <- app_assoc. done.
  - rewrite omap_sent_snoc. cbn. by rewrite app_nil_r.
  - done.
Qed.

Lemma dispatch_inv evs f f' : front_inv evs f -> dispatch f = Some f' -> front_inv (evs ++ [FDispatch]) f'.
Proof.
  intros Hi H. unfold dispatch in H. destruct (channel f) as [|[c peer] rest] eqn:Ec; [done|].
  assert (Hf : f' = with_pool {| p_tasks := p_tasks (front_pool f) ++
      [(connection_job c peer, job_prog rules (connection_job c peer))]; p_world := p_world (front_pool f) |} rest f).
  { by destruct c; cbn in H; injection H as <-. }
  rewrite Hf. eapply other_inv; [exact Hi|done..| |done|done]. cbn. rewrite <- (fi_sent _ _ Hi), Ec, omap_app, <- app_assoc.
  by destruct c.
Qed.

Lemma run_inv evs w i e f f' :
  reachable body (job_prog rules) (start w) (front_pool f) ->
  front_inv evs f -> front_step (FRun i e) f = Some f' -> front_inv (evs ++ [FRun i e]) f'.
Proof.
  intros Hr Hi H. cbn in H. destruct (step_task body (job_prog rules) i e (front_pool f)) as [s|] eqn:Es; [|done].
  cbn in H. injection H as <-. eapply other_inv; [exact Hi|done..| |done|done]. cbn. rewrite <- (fi_sent _ _ Hi).
  destruct (step_task_obeys rules _ i e s (reachable_obey rules w _ Hr) Es) as (j & q & js & q' & Ht & -> & _ & _ & Hjs).
  rewrite omap_app, (handles_insert _ _ _ _ _ Ht), (handles_spawned _ (spawns_internal _ _ Hjs)). by rewrite app_nil_r.
Qed.

Lemma front_pool_step ev f f' :
  front_step ev f = Some f' ->
  front_pool f' = front_pool f \/ exists ev', step_pool body (job_prog rules) ev' (front_pool f) = Some (front_pool f') /\
    match ev, ev' with FRun i e, Run i' e' => i' = i /\ e' = e | FRun _ _, _ => False | _, Arrive _ => True | _, _ => False end.
Proof.
  destruct ev as [addr req|i ok| |i e|req]; cbn; intros H.
  - injection H as <-. left. unfold on_request. by destruct (service addr req).
  - unfold on_upgraded in H. destruct (upgrades f !! i); [|done]. cbn in H. injection H as <-. left. by destruct ok.
  - unfold dispatch in H. destruct (channel f) as [|[c peer] rest]; [done|].
    destruct (step_pool _ _ _ _) as [s|] eqn:E; [|done]. cbn in H. injection H as <-. right. by eexists (Arrive _).
  - destruct (step_task _ _ i e _) as [s|] eqn:E; [|done]. cbn in H. injection H as <-. right. by exists (Run i e).
  - injection H as <-. right. by exists (Arrive (JApi req)).
Qed.

Lemma front_run_snoc evs ev f : front_run (evs ++ [ev]) f = (f ← front_run evs f; front_step ev f).
Proof.
  revert f; induction evs as [|ev' evs IH]; intros f; cbn.
  - destruct (front_step ev f); done.
  - destruct (front_step ev' f); [apply IH|done].
Qed.

Lemma front_reachable w evs f :
  front_run evs (front_start w) = Some f -> reachable body (job_prog rules) (start w) (front_pool f) /\ front_inv evs f.
Proof.
  revert f; induction evs as [|ev evs IH] using rev_ind; intros f H.
  - injection H as <-. split; [constructor|by split].
  - rewrite front_run_snoc in H. destruct (front_run evs (front_start w)) as [f0|] eqn:E; [|done]. cbn in H.
    destruct (IH f0 eq_refl) as [Hr Hi]. split.
    { destruct (front_pool_step _ _ _ H) as [->|(ev' & Hs & _)]; [done|by eapply reach_step]. }
    destruct ev as [addr req|i ok| |i e|req].
    + injection H as <-. by apply request_inv.
    + by eapply upgraded_inv.
    + by eapply dispatch_inv.
    + by eapply run_inv.
    + cbn in H. injection H as <-. eapply other_inv; [exact Hi|done..| |done|done]. cbn.
      rewrite omap_app. cbn. rewrite app_nil_r. apply (fi_sent _ _ Hi).
Qed.

(** C10: Every connection gets exactly one handler: after any run, the connections
    handled by tasks, in the order in which the tasks were spawned, and then
    those waiting on the channel are exactly those that were sent; the CONNECT
    requests that name a host are, one for one, the connections sent, the
    upgrades awaited and the upgrades that failed; the other requests are
    handled in the order in which they came; and a connection that waits can
    always be dispatched. *)
Theorem one_handler_per_request w evs f :
  front_run evs (front_start w) = Some f ->
  omap handles (p_tasks (front_pool f)) ++ channel f = sent f /\
  omap connect_of evs ≡ₚ lost f ++ upgrades f ++ omap (sent_by ConnectMethod) (sent f) /\
  omap forward_of evs = omap (sent_by NonConnectMethod) (sent f) /\
  (channel f <> [] -> exists f', front_step FDispatch f = Some f' /\ length (channel f) = S (length (channel f'))) /\
  reachable body (job_prog rules) (start w) (front_pool f).
Proof.
  intros H. destruct (front_reachable w evs f H) as [Hr [H1 H2 H3]]. do 3 (split; [done|]). split; [|done].
  intros Hc. cbn. unfold dispatch. destruct (channel f) as [|[c peer] rest]; [done|]. by destruct c; eexists.
Qed.

(** Every handler the listener starts finishes, in the sense of [Liveness]. *)
Theorem front_handlers_finish w evs f q n :
  fresh_world w -> front_run evs (front_start w) = Some f -> queue_ok (front_pool f) q ->
  finishes rules n {| fp_pool := front_pool f; fp_queue := q |}.
Proof. intros Hf H Hq. eapply pool_finishes; [exact Hf| |exact Hq]. by eapply front_reachable. Qed.
End Front.

(** ** Witnesses *)

Definition peer_address : SocketAddr := SocketV4 (Ipv4 127 0 0 1) 50000.

(** A CONNECT request, one without a host, and a GET; one upgrade. *)
Definition front_events : list FrontEvent :=
  [FRequest peer_address {| authority := Some "example.com:443"; method_connect := true |};
   FRequest peer_address {| authority := None; method_connect := true |};
   FRequest peer_address {| authority := Some "example.org"; method_connect := false |};
   FDispatch; FUpgraded 0 true; FDispatch; FRun 1 (env_ok 1); FApi ReqAllBackends].

Definition front_example : option Front := front_run None front_events (front_start example_world).

Lemma one_handler_per_request_witness :
  match front_example with
  | Some f => omap handles (p_tasks (front_pool f)) =
      [(NonConnectMethod, peer_new "example.org" peer_address); (ConnectMethod, peer_new "example.com:443" peer_address)]
  | None => False
  end.
Proof.
  assert (R : match front_example with Some f => match channel f with [] => true | _ => false end | None => false end = true)
    by (vm_compute; reflexivity).
  destruct front_example as [f|] eqn:E; [|discriminate R].
  destruct (one_handler_per_request None example_world front_events f E) as (H1 & H2 & H3 & _).
  destruct (channel f) as [|x l] eqn:Ec; [|discriminate R]. rewrite app_nil_r in H1. rewrite H1.
  assert (S : match front_example with Some f => sent f | None => [] end =
    [(NonConnectMethod, peer_new "example.org" peer_address); (ConnectMethod, peer_new "example.com:443" peer_address)])
    by (vm_compute; reflexivity).
  rewrite E in S. exact S.
Defined.

Lemma front_handlers_finish_witness :
  match front_example with Some f => forall n, finishes None n (no_queue (front_pool f)) | None => False end.
Proof.
  assert (R : match front_example with Some f => true | None => false end = true) by (vm_compute; reflexivity).
  destruct front_example as [f|] eqn:E; [|discriminate R]. intros n.
  apply (front_handlers_finish None example_world front_events f [] n example_fresh E). split; [constructor|apply Forall_nil_2].
Defined.
