(* ===== verification/Server.v ===== *)
(** * The server ([server/src/config.rs], [server/src/proxy.rs])

    Configuration, the two accept loops with the semaphore that bounds the
    TCP connections, and what is done with each connection and stream. *)

From S2P Require Import Prelude NetAddr LibProxy Tls TomlConfig.

(** ** Configuration *)

(** [FileConfig] and [Cmd] *)
Record ServerFileConfig := {
  sf_log_level : string;
  sf_listen_address : string;
  sf_auth_key : string;
  sf_auth_cert : string;
  sf_client_ca : option string;
  sf_max_concurrent_tasks : nat;
  sf_quic : option bool;
  sf_use_0rtt : option bool;
}.

Definition default_max_concurrent_tasks : nat := 32.

Record ServerCmd := {
  so_listen_address : option string;
  so_auth : option string;
  so_config : string;
}.

Section Config.
Context `{TL : TlsLib}.
Context (toml_server : string -> result string ServerFileConfig).
Context {Level LevelFilter : Type} (level_error : Level) (parse_level : string -> option Level).
Context (from_level : Level -> LevelFilter) (env_var : string -> option string).

(** [Config]; [quic_config] is the TLS configuration of the QUIC endpoint. *)
Record ServerState := {
  sc_log_level : LevelFilter;
  sc_listen_address : SocketAddr;
  sc_max_concurrent_tasks : nat;
  sc_acceptor : ServerConfig;
  sc_quic_config : option ServerConfig;
  sc_use_0rtt : bool;
}.

(** The QUIC endpoint's changes to the server's TLS configuration. *)
Definition quic_tls (cfg : ServerConfig) : ServerConfig := {|
  client_verifier := client_verifier cfg;
  server_certs := server_certs cfg;
  server_key := server_key cfg;
  ticketer := NeverProducesTickets;
  session_cache := session_cache cfg;
  max_early_data_size := 2 ^ 32 - 1;
  server_alpn := [QUIC_ALPN];
|}.

Definition server_config_new (fs : FileSystem) (opts : ServerCmd) : result string ServerState :=
  file_config ← load_from_file toml_server fs (so_config opts);
  let listen := default (sf_listen_address file_config) (so_listen_address opts) in
  let client_ca := match so_auth opts with Some ca => Some ca | None => sf_client_ca file_config end in
  let level := parse_log_level_str level_error parse_level from_level env_var (sf_log_level file_config) in
  listen ← parse_socket_address listen;
  tls_config ← build_tls_server_config fs (sf_auth_cert file_config) (sf_auth_key file_config) client_ca;
  Ok {|
    sc_log_level := level;
    sc_listen_address := listen;
    sc_max_concurrent_tasks := sf_max_concurrent_tasks file_config;
    sc_acceptor := tls_config;
    sc_quic_config := match sf_quic file_config with
                      | Some true => Some (quic_tls tls_config)
                      | None | Some false => None
                      end;
    sc_use_0rtt := default true (sf_use_0rtt file_config);
  |}.
End Config.

(** ** [run_h2]: the accept loop and its semaphore *)

(** A connection waits for its permit after it was accepted. *)
Record H2Loop := {
  l_permits : nat;
  l_waiting : bool;
  l_active : nat;
  l_ended : bool;
}.

Inductive H2Event :=
  (** [listener.accept()]: an error ends the loop *)
  | Accept (ok : bool)
  (** [acquire_owned] completes and the handler is spawned *)
  | Acquire
  (** a handler ends - or panics - and drops its permit *)
  | Finish.

(** [tokio::sync::Semaphore::MAX_PERMITS] on a 64-bit target: [usize::MAX >> 3]. *)
Definition MAX_PERMITS : Z := Z.shiftr (2 ^ 64 - 1) 3.

(** [Semaphore::new] panics above it. *)
Definition h2_start (max_concurrent_tasks : nat) : outcome H2Loop :=
  _ ← assert (bool_decide (Z.of_nat max_concurrent_tasks <= MAX_PERMITS));
  Done {| l_permits := max_concurrent_tasks; l_waiting := false; l_active := 0; l_ended := false |}.

Definition h2_step (ev : H2Event) (s : H2Loop) : option H2Loop :=
  match ev with
  | Accept ok =>
      if l_ended s || l_waiting s then None
      else if ok
      then Some {| l_permits := l_permits s; l_waiting := true; l_active := l_active s; l_ended := false |}
      else Some {| l_permits := l_permits s; l_waiting := false; l_active := l_active s; l_ended := true |}
  | Acquire =>
      match l_waiting s, l_permits s with
      | true, S n => Some {| l_permits := n; l_waiting := false; l_active := S (l_active s); l_ended := l_ended s |}
      | _, _ => None
      end
  | Finish =>
      match l_active s with
      | S n => Some {| l_permits := S (l_permits s); l_waiting := l_waiting s; l_active := n; l_ended := l_ended s |}
      | O => None
      end
  end.

Inductive h2_reachable (max : nat) : H2Loop -> Prop :=
  | h2_init s : h2_start max = Done s -> h2_reachable max s
  | h2_next s ev s' : h2_reachable max s -> h2_step ev s = Some s' -> h2_reachable max s'.

(** ** Connections and streams *)

(** [handle_h2_connection]'s service: CONNECT requests are tunnelled once
    upgraded, and every request is answered with an empty 200. *)
Inductive H2Reply := EmptyOk (spawned : bool).

Definition h2_service (method_connect : bool) : H2Reply := EmptyOk method_connect.

(** [handle_h2_connection]: the TLS handshake, then the connection, which gives
    each request to the service until it ends; the replies, and its result. *)
Definition handle_h2_connection (accept : result string unit) (requests : list bool) (served : result string unit)
    : list H2Reply * result string unit :=
  match accept with
  | Err e => ([], Err e)
  | Ok _ => (h2_service <$> requests, context "current tcp connection" served)
  end.

Section Streams.
Context {S C : Type} `{TunnelIo S C}.

Definition serve_upgraded (upgraded : result string S) : option (result string unit) :=
  match upgraded with Ok stream => Some (tunnel stream) | Err _ => None end.

(** A QUIC stream: [OK] is written before the head is read. *)
Definition serve_quic_stream (write_ok : string -> S -> result string S) (stream : S)
    : option (result string unit) :=
  match write_ok "OK" stream with
  | Ok stream => Some (tunnel stream)
  | Err _ => None
  end.
End Streams.

(** [connection.accept_bi()] *)
Inductive AcceptBi (S : Type) := BiStream (s : S) | ApplicationClosed | ConnectionError (e : string).
Arguments BiStream {S} s.
Arguments ApplicationClosed {S}.
Arguments ConnectionError {S} e.

(** [handle_quic_connection]: a task for each stream until the connection
    ends; [None] while it has not. *)
Fixpoint quic_accept_loop {S} (accepts : list (AcceptBi S)) : list S * option (result string unit) :=
  match accepts with
  | [] => ([], None)
  | ApplicationClosed :: _ => ([], Some (Ok tt))
  | ConnectionError e :: _ => ([], Some (Err e))
  | BiStream s :: accepts => let '(spawned, r) := quic_accept_loop accepts in (s :: spawned, r)
  end.

(** The handshake of [run_quic]; [None] when the task gives up. *)
Definition quic_handshake {Conn} (use_0rtt : bool) (into_0rtt : option Conn) (await : result string Conn)
    : option Conn :=
  if use_0rtt then
    match into_0rtt with
    | Some connection => Some connection
    | None => match await with Ok connection => Some connection | Err _ => None end
    end
  else match await with Ok connection => Some connection | Err _ => None end.

(** A connection being attempted: [into_0rtt] and [.await]. *)
Record Connecting (Conn : Type) := { c_into_0rtt : option Conn; c_await : result string Conn }.
Arguments c_into_0rtt {Conn} c.
Arguments c_await {Conn} c.

(** The accept loop of [run_quic] over what [endpoint.accept()] gives: the
    connections whose task goes on to [handle_quic_connection], and how the
    loop ends; [None] while it has not. *)
Fixpoint quic_listen {Conn} (use_0rtt : bool) (accepts : list (option (Connecting Conn)))
    : list Conn * option (result string unit) :=
  match accepts with
  | [] => ([], None)
  | None :: _ => ([], Some (Ok tt))
  | Some conn :: accepts =>
      let '(served, r) := quic_listen use_0rtt accepts in
      (match quic_handshake use_0rtt (c_into_0rtt conn) (c_await conn) with
       | Some connection => connection :: served
       | None => served
       end, r)
  end.

(** [run_quic]: without a configuration it ends at once, with success. *)
Definition run_quic {LevelFilter Conn} (cfg : @ServerState LevelFilter) (endpoint : result string unit)
    (accepts : list (option (Connecting Conn))) : list Conn * option (result string unit) :=
  match sc_quic_config cfg with
  | None => ([], Some (Ok tt))
  | Some _ =>
      match endpoint with
      | Err e => ([], Some (Err e))
      | Ok _ => quic_listen (sc_use_0rtt cfg) accepts
      end
  end.

(** [run_h2] up to its loop. *)
Definition run_h2 {LevelFilter} (cfg : @ServerState LevelFilter) (bind : result string unit)
    : outcome (result string H2Loop) :=
  match bind with
  | Ok _ => s ← h2_start (sc_max_concurrent_tasks cfg); Done (Ok s)
  | Err e => Done (Err e)
  end.

(** ** Properties *)

Section ConfigSpec.
Context `{TL : TlsLib}.
Context (toml_server : string -> result string ServerFileConfig).
Context {Level LevelFilter : Type} (level_error : Level) (parse_level : string -> option Level).
Context (from_level : Level -> LevelFilter) (env_var : string -> option string).

(** C26: The command line's address and client CA win over the file's; the TCP and
    the QUIC listener present the same certificate and demand the same client
    certificates; QUIC is configured only when the file asks for it, with the
    [h3] protocol name, early data and no session tickets; 0-RTT is on by
    default. *)
Theorem server_config_new_spec fs opts cfg :
  server_config_new toml_server level_error parse_level from_level env_var fs opts = Ok cfg ->
  exists file_config, load_from_file toml_server fs (so_config opts) = Ok file_config /\
    parse_socket_address (default (sf_listen_address file_config) (so_listen_address opts)) = Ok (sc_listen_address cfg) /\
    build_tls_server_config fs (sf_auth_cert file_config) (sf_auth_key file_config)
      (match so_auth opts with Some ca => Some ca | None => sf_client_ca file_config end) = Ok (sc_acceptor cfg) /\
    sc_max_concurrent_tasks cfg = sf_max_concurrent_tasks file_config /\
    sc_use_0rtt cfg = default true (sf_use_0rtt file_config) /\
    match sc_quic_config cfg with
    | Some q => sf_quic file_config = Some true /\ client_verifier q = client_verifier (sc_acceptor cfg) /\
        server_certs q = server_certs (sc_acceptor cfg) /\ server_key q = server_key (sc_acceptor cfg) /\
        server_alpn q = ["h3"] /\ ticketer q = NeverProducesTickets /\ max_early_data_size q = 2 ^ 32 - 1
    | None => sf_quic file_config <> Some true
    end.
Proof.
  unfold server_config_new. destruct (load_from_file _ _ _) as [fc|] eqn:E1; cbn; [|done].
  destruct (parse_socket_address _) as [listen|] eqn:E3; cbn; [|done].
  destruct (build_tls_server_config _ _ _ _) as [tls|] eqn:E4; cbn; [|done].
  intros [= <-]. exists fc. cbn [sc_listen_address sc_acceptor sc_max_concurrent_tasks sc_use_0rtt sc_quic_config].
  do 5 (split; [done|]). by destruct (sf_quic fc) as [[|]|].
Qed.
End ConfigSpec.

(** The permits in use are the connections being served. *)
Record h2_inv (max : nat) (s : H2Loop) : Prop := {
  hi_permits : (l_permits s + l_active s = max)%nat;
  hi_ended : l_ended s = true -> l_waiting s = false;
}.

Lemma h2_step_inv max ev s s' : h2_inv max s -> h2_step ev s = Some s' -> h2_inv max s'.
Proof.
  intros [H1 H2] H. destruct s as [p w a e]; cbn in *. destruct ev as [ok| |]; cbn in H.
  - destruct e, w, ok; cbn in H; try done; injection H as <-; by split.
  - destruct w, p; try done. injection H as <-. split; cbn; [lia|done].
  - destruct a; [done|]. injection H as <-. split; cbn; [lia|done].
Qed.

(** C27: At most [max_concurrent_tasks] TCP connections are served at a time and at
    most one more is accepted and waits; a waiting connection is served as soon
    as one of them ends, and a permit that is taken is always given back. *)
Theorem semaphore_bound max s :
  h2_reachable max s ->
  (l_active s <= max)%nat /\ (l_permits s + l_active s = max)%nat /\
  (l_waiting s = true -> (l_active s < max)%nat ->
     exists s', h2_step Acquire s = Some s' /\ l_active s' = S (l_active s)) /\
  ((0 < l_active s)%nat -> exists s', h2_step Finish s = Some s' /\ l_permits s' = S (l_permits s)).
Proof.
  intros Hr. assert (Hinv : h2_inv max s).
  { induction Hr as [s Hs|s ev s' Hr IH Hs]; [|by eapply h2_step_inv].
    unfold h2_start in Hs. destruct (bool_decide _); [|done]. injection Hs as <-. by split. }
  destruct Hinv as [H1 H2]. destruct s as [p w a e]; cbn in *. split; [lia|]. split; [done|]. split.
  - intros -> Ha. destruct p; [lia|]. by eexists.
  - intros Ha. destruct a; [lia|]. by eexists.
Qed.

(** Every stream accepted before the connection ends gets a task, in order, and
    none after; closing the connection by the application is no error. *)
Theorem quic_streams_served {S} (accepts : list (AcceptBi S)) :
  exists spawned rest, accepts = (BiStream <$> spawned) ++ rest /\ quic_accept_loop accepts =
    (spawned, match rest with
              | [] => None
              | ApplicationClosed :: _ => Some (Ok tt)
              | ConnectionError e :: _ => Some (Err e)
              | BiStream _ :: _ => None
              end) /\
    match rest with BiStream _ :: _ => False | _ => True end.
Proof.
  induction accepts as [|[s| |e] accepts IH]; cbn.
  - by exists [], [].
  - destruct IH as (spawned & rest & -> & E & Hr). rewrite E. by exists (s :: spawned), rest.
  - by exists [], (ApplicationClosed :: accepts).
  - by exists [], (ConnectionError e :: accepts).
Qed.

(** With 0-RTT a connection is served at once when early data is accepted and
    after its handshake otherwise; a failed handshake ends only its own task. *)
Theorem quic_connections_served {Conn} use_0rtt (conns : list (Connecting Conn)) rest :
  match rest with Some _ :: _ => False | _ => True end ->
  quic_listen use_0rtt ((Some <$> conns) ++ rest) =
    (omap (fun c => match (if use_0rtt then c_into_0rtt c else None), c_await c with
                    | Some conn, _ => Some conn
                    | None, Ok conn => Some conn
                    | None, Err _ => None
                    end) conns,
     match rest with None :: _ => Some (Ok tt) | _ => None end).
Proof.
  intros Hr. induction conns as [|c conns IH]; cbn.
  - by destruct rest as [|[]].
  - rewrite IH. unfold quic_handshake. by destruct use_0rtt, (c_into_0rtt c), (c_await c).
Qed.

(** ** Witnesses *)

Definition example_server_file : ServerFileConfig := {|
  sf_log_level := "INFO"; sf_listen_address := "0.0.0.0:8443"; sf_auth_key := "key.pem";
  sf_auth_cert := "cert.pem"; sf_client_ca := Some "ca.pem"; sf_max_concurrent_tasks := 32;
  sf_quic := Some true; sf_use_0rtt := None;
|}.

Definition server_fs : FileSystem := fun f => if String.eqb f "config.toml" then Some "config" else example_fs f.

Definition example_server_opts : ServerCmd :=
  {| so_listen_address := None; so_auth := None; so_config := "config.toml" |}.

Definition example_server : result string (@ServerState string) :=
  server_config_new (fun _ => Ok example_server_file) "ERROR" Some (fun l => l) (fun _ => None) server_fs
    example_server_opts.

Lemma server_config_new_spec_witness :
  match example_server with
  | Ok cfg => sc_listen_address cfg = SocketV4 (Ipv4 0 0 0 0) 8443 /\ sc_use_0rtt cfg = true /\
      match sc_quic_config cfg with
      | Some q => client_verifier q = client_verifier (sc_acceptor cfg) /\ server_alpn q = ["h3"]
      | None => False
      end
  | Err _ => False
  end.
Proof.
  assert (C : match example_server with Ok cfg => match sc_quic_config cfg with Some _ => true | None => false end | _ => false end = true)
    by (vm_compute; reflexivity).
  destruct example_server as [cfg|] eqn:E; [|discriminate C].
  destruct (server_config_new_spec _ _ _ _ _ server_fs example_server_opts cfg E)
    as (fc & H2 & H3 & _ & _ & H4 & H5).
  injection H2 as <-. injection H3 as <-. split; [reflexivity|]. split; [exact H4|].
  destruct (sc_quic_config cfg) as [q|]; [|discriminate C]. destruct H5 as (_ & H5 & _ & _ & H6 & _).
  split; [exact H5|exact H6].
Defined.

Definition busy_loop : H2Loop := {| l_permits := 0; l_waiting := true; l_active := 1; l_ended := false |}.

Lemma semaphore_bound_witness :
  (l_active busy_loop <= 1)%nat /\ (exists s', h2_step Finish busy_loop = Some s' /\ l_permits s' = 1%nat).
Proof.
  assert (Hr : h2_reachable 1 busy_loop).
  { apply (h2_next 1 {| l_permits := 0; l_waiting := false; l_active := 1; l_ended := false |} (Accept true)); [|reflexivity].
    apply (h2_next 1 {| l_permits := 1; l_waiting := true; l_active := 0; l_ended := false |} Acquire); [|reflexivity].
    apply (h2_next 1 {| l_permits := 1; l_waiting := false; l_active := 0; l_ended := false |} (Accept true)); [|reflexivity].
    by apply h2_init. }
  destruct (semaphore_bound 1 busy_loop Hr) as (H1 & _ & _ & H2). split; [exact H1|].
  apply H2. cbn. lia.
Defined.
