(* ===== verification/ConnectorTests.v ===== *)
(** * The unit tests of [client/src/connector.rs], run on the model

    The mock servers are the network's answers while they run and after they
    are aborted; the tests pass whatever connections and errors those are. *)

From S2P Require Import Prelude NetAddr LibProxy LibMetric Metric Tls BackendConfig Peer Balance World Connector Backend Proxy MetricApi System Example Config UnitTests Server.

(** ** The mock servers *)

(** [H2MockServer::new] *)
Definition h2_mock_server_new : result string ServerConfig :=
  build_tls_server_config assets "assets/certs/server.crt" "assets/certs/server.key" (Some "assets/certs/ca.crt"%string).

(** [H2MockServer::run]: the TLS handshake is completed and the connection
    dropped, so that a stream on it fails. *)
Definition h2_running (conn : conn_id) (err : string) (q : NetOp) : net_resp q :=
  match q return net_resp q with
  | TcpConnect _ _ => TcpOk
  | H2Handshake _ => Ok conn
  | H2PollReady _ => Err err
  | q => net_ok q
  end.

(** The job is aborted: nobody listens and the open connections end. *)
Definition h2_aborted (err : string) (q : NetOp) : net_resp q :=
  match q return net_resp q with
  | TcpConnect _ _ => TcpErr err
  | IsFinished _ => true
  | q => net_ok q
  end.

Definition mock_env (net : forall q, net_resp q) : Env :=
  {| e_now := 0; e_pick := 0; e_cancel := true; e_fs := assets; e_net := fun q => Some (net q) |}.

(** [QuicMockServer::new] *)
Definition quic_mock_server_new : result string ServerConfig :=
  tls_config ← h2_mock_server_new;
  Ok {| client_verifier := client_verifier tls_config; server_certs := server_certs tls_config;
        server_key := server_key tls_config; ticketer := NeverProducesTickets; session_cache := session_cache tls_config;
        max_early_data_size := 2 ^ 32 - 1; server_alpn := [QUIC_ALPN] |}.

(** [QuicMockServer::run]; an aborted one does not close its connections. *)
Definition quic_running (conn : conn_id) (q : NetOp) : net_resp q :=
  match q return net_resp q with
  | Into0rtt => Some conn
  | AwaitConnecting => Ok conn
  | q => net_ok q
  end.

Definition quic_aborted (err : string) (q : NetOp) : net_resp q :=
  match q return net_resp q with
  | QuicConnect _ _ => Err err
  | Into0rtt => None
  | AwaitConnecting => Err err
  | q => net_ok q
  end.

(** ** The clients *)

Definition mock_tls : result string ClientConfig :=
  build_tls_client_config assets (Some "assets/certs/ca.crt"%string) "assets/certs/client.crt" "assets/certs/client.key".

Definition h2_build_mock_connect_config (server_addr : SocketAddr) : outcome H2ConnConfig :=
  tls_config ← unwrap_ok mock_tls;
  domain ← unwrap (server_name_try_from "localhost");
  uri ← unwrap (parse_uri (show_socket_addr server_addr));
  Done {| h2_tls := tls_config; h2_domain := domain; h2_remote_address := show_socket_addr server_addr;
          h2_remote_uri := uri; connect_time := 1;
          h2_builder := {| b_keep_alive_interval := 1; b_keep_alive_timeout := 1; b_keep_alive_while_idle := true;
            b_initial_connection_window_size := h2_default_conn_window;
            b_initial_stream_window_size := h2_default_stream_window;
            b_max_frame_size := h2_default_max_frame_size; b_max_send_buf_size := h2_default_max_send_buf_size;
            b_adaptive_window := false |} |}.

(** [Client::new] *)
Definition client_new (cfg : MixConfig) : ClientCell :=
  {| cl_config := cfg; cl_last_addrs := None; cl_locked := false; cl_state := NotConnected |}.

Definition h2_build_mock_client (server_addr : SocketAddr) : outcome ClientCell :=
  h2config ← h2_build_mock_connect_config server_addr; Done (client_new (H2Config h2config)).

(** A store with one client and no backends. *)
Definition client_world (c : ClientCell) : World :=
  {| w_backends := []; w_clients := [c]; w_tokens := []; w_balance := StFrist |}.

(** [client.inner.lock().await], looked at and released. *)
Definition client_inner : prog ClientState :=
  _ ← do (LockInner 0); s ← do (GetState 0); _ ← do (UnlockInner 0); Ret s.

Definition is_connected (s : ClientState) : bool := match s with Connected _ => true | _ => false end.
Definition is_not_connected (s : ClientState) : bool := match s with NotConnected => true | _ => false end.
Definition is_poisoned (s : ClientState) : bool := match s with Poisoned => true | _ => false end.

Definition assert_inner (e : Env) (f : ClientState -> bool) (w : World) : outcome unit :=
  '(s, _) ← block_on e client_inner w; assert (f s).

(** ** HTTP/2 *)

Definition test_h2_new_connect_config (server_addr : SocketAddr) (conn : conn_id) (err err' : string) : outcome unit :=
  _ ← unwrap_ok h2_mock_server_new;
  c ← h2_build_mock_connect_config server_addr;
  let w := client_world (client_new (H2Config c)) in
  '(res, w) ← block_on (mock_env (h2_running conn err)) (h2_new_connection c) w;
  _ ← unwrap_ok res;
  '(res, _) ← block_on (mock_env (h2_aborted err')) (h2_new_connection c) w;
  assert (is_err res).

Definition test_h2_client (server_addr : SocketAddr) (conn conn' : conn_id) (err err' : string) : outcome unit :=
  _ ← unwrap_ok h2_mock_server_new;
  let up := mock_env (h2_running conn err) in
  let down := mock_env (h2_aborted err') in
  let up_again := mock_env (h2_running conn' err) in
  client ← h2_build_mock_client server_addr;
  let w := client_world client in
  _ ← assert_inner up is_not_connected w;
  '(res, w) ← block_on up (new_stream_fut 0 None) w;
  res ← unwrap_ok res;
  _ ← assert_inner up is_connected w;
  '(_, w) ← block_on up (new_stream res) w;
  '(res, w) ← block_on down (new_stream_fut 0 None) w;
  _ ← assert_inner down is_poisoned w;
  _ ← assert (is_err res);
  '(res, w) ← block_on up_again (new_stream_fut 0 None) w;
  e ← unwrap_err res;
  _ ← assert_eq e "connection is poisoned"%string;
  _ ← assert_inner up_again is_poisoned w;
  '(_, w) ← block_on up_again (client_reset_client 0) w;
  '(res, w) ← block_on up_again (new_stream_fut 0 None) w;
  _ ← unwrap_ok res;
  assert_inner up_again is_connected w.

(** ** QUIC *)

Definition quic_build_mock_connect_config (transport_config : TransportConfig) (server_addr : SocketAddr)
    : outcome QuicConnConfig :=
  tls_config ← unwrap_ok mock_tls;
  let tls_config := {| root_store := root_store tls_config; client_certs := client_certs tls_config;
    client_auth_key := client_auth_key tls_config; enable_early_data := true; alpn_protocols := [QUIC_ALPN] |} in
  Done {| qc_use_0rtt := true; quinn_config := (transport_config, tls_config); server_name := "localhost";
          qc_remote_address := show_socket_addr server_addr; qc_ipv4_only := true |}.

Definition test_quic_new_connect_config (transport_config : TransportConfig) (server_addr : SocketAddr) (conn : conn_id)
    : outcome unit :=
  _ ← unwrap_ok quic_mock_server_new;
  c ← quic_build_mock_connect_config transport_config server_addr;
  '(res, _) ← block_on (mock_env (quic_running conn)) (quic_new_connection 0 c) (client_world (client_new (QuicConfig c)));
  _ ← unwrap_ok res; Done tt.

Definition test_quic_client (transport_config : TransportConfig) (server_addr : SocketAddr) (conn : conn_id) (err : string)
    : outcome unit :=
  _ ← unwrap_ok quic_mock_server_new;
  let up := mock_env (quic_running conn) in
  let down := mock_env (quic_aborted err) in
  c ← quic_build_mock_connect_config transport_config server_addr;
  let w := client_world (client_new (QuicConfig c)) in
  _ ← assert_inner up is_not_connected w;
  '(res, w) ← block_on up (new_stream_fut 0 None) w;
  res ← unwrap_ok res;
  _ ← assert_inner up is_connected w;
  '(_, w) ← block_on up (new_stream res) w;
  '(res, w) ← block_on down (new_stream_fut 0 None) w;
  _ ← assert_inner down is_connected w;
  assert (is_ok res).

(** ** They pass, at every port, with every connection and error *)

(** [TcpListener::bind("127.0.0.1:0")] and its [local_addr] *)
Definition local_addr (port : Z) : SocketAddr := SocketV4 (Ipv4 127 0 0 1) port.

Lemma test_h2_new_connect_config_passes port conn err err' :
  test_h2_new_connect_config (local_addr port) conn err err' = Done tt.
Proof. reflexivity. Qed.

Lemma test_h2_client_passes port conn conn' err err' : test_h2_client (local_addr port) conn conn' err err' = Done tt.
Proof. reflexivity. Qed.

Lemma test_quic_new_connect_config_passes transport_config port conn :
  test_quic_new_connect_config transport_config (local_addr port) conn = Done tt.
Proof. reflexivity. Qed.

Lemma test_quic_client_passes transport_config port conn err :
  test_quic_client transport_config (local_addr port) conn err = Done tt.
Proof. reflexivity. Qed.
