(* ===== verification/Entry.v ===== *)
(** * Entry points ([octoproxy/src/main.rs], the [lib.rs] of client, server and
    certificate tool)

    How a command is dispatched and how the client's and the server's main
    futures end. *)

From S2P Require Import Prelude NetAddr LibProxy LibMetric Metric Tls TomlConfig BackendConfig Peer Balance World Connector Backend Proxy Example Config AsyncIo Server.

(** ** Joining two futures *)

(** What a poll of a joined future gives, when it is polled. *)
Notation main_poll := (poll (result string unit)) (only parsing).

(** One poll of [tokio::join!] or [try_join!]: which future is polled first,
    and what each answers if it is polled. *)
Record JoinTurn := { second_first : bool; poll_a : main_poll; poll_b : main_poll }.

(** The results of the futures that have completed. *)
Record Joining := { done_a : option (result string unit); done_b : option (result string unit) }.
Definition joining_start : Joining := {| done_a := None; done_b := None |}.

(** [MaybeDone]: a completed future is not polled again. *)
Definition poll_maybe_done (d : option (result string unit)) (p : main_poll) : option (result string unit) :=
  match d, p with
  | Some r, _ => Some r
  | None, Ready r => Some r
  | None, Pending => None
  end.

(** [join!]: polls both; ready when both are. *)
Fixpoint join (turns : list JoinTurn) (s : Joining) : poll (result string unit * result string unit) :=
  match turns with
  | [] => Pending
  | t :: turns =>
      let s := {| done_a := poll_maybe_done (done_a s) (poll_a t); done_b := poll_maybe_done (done_b s) (poll_b t) |} in
      match done_a s, done_b s with
      | Some a, Some b => Ready (a, b)
      | _, _ => join turns s
      end
  end.

(** [try_join!]: ends with the first error it finds. *)
Fixpoint try_join (turns : list JoinTurn) (s : Joining) : main_poll :=
  match turns with
  | [] => Pending
  | t :: turns =>
      let s := {| done_a := poll_maybe_done (done_a s) (poll_a t); done_b := poll_maybe_done (done_b s) (poll_b t) |} in
      let '(first, second) := if second_first t then (done_b s, done_a s) else (done_a s, done_b s) in
      match first, second with
      | Some (Err e), _ => Ready (Err e)
      | _, Some (Err e) => Ready (Err e)
      | Some (Ok _), Some (Ok _) => Ready (Ok tt)
      | _, _ => try_join turns s
      end
  end.

(** ** The client and the server *)

Section Main.
Context `{F : F64} `{CL : ClientLib} `{HR : HashRing} `{TL : TlsLib} `{CF : ConfigLib}.

(** [Cmd::run_main] of the client: [listening_proxy] and [listening_metric]. *)
Definition client_main (now : nat -> Z) (fs : FileSystem) (opts : Cmd) (turns : list JoinTurn) : outcome main_poll :=
  config ← config_new now fs opts;
  match context "Could not init config" config with
  | Err e => Done (Ready (Err e))
  | Ok _ => Done (try_join turns joining_start)
  end.
End Main.

Section ServerMain.
Context `{TL : TlsLib}.
Context (toml_server : string -> result string ServerFileConfig).
Context {Level LevelFilter : Type} (level_error : Level) (parse_level : string -> option Level).
Context (from_level : Level -> LevelFilter) (env_var : string -> option string).

(** [Cmd::run_main] of the server: [run_quic] and [run_h2]; their results are
    dropped. *)
Definition server_main (fs : FileSystem) (opts : ServerCmd) (turns : list JoinTurn) : main_poll :=
  match context "Could not init config"
          (server_config_new toml_server level_error parse_level from_level env_var fs opts) with
  | Err e => Ready (Err e)
  | Ok _ =>
      match join turns joining_start with
      | Ready _ => Ready (Ok tt)
      | Pending => Pending
      end
  end.
End ServerMain.

(** ** Dispatch *)

Section Dispatch.
Context {ClientCmd ServerCommand TuiCmd GenCmd ShowCmd Exit : Type}.

Inductive EasyCertCmd := CertGen (cmd : GenCmd) | CertShow (cmd : ShowCmd).

Definition easycert_run (gen : GenCmd -> Exit) (show : ShowCmd -> Exit) (cmd : EasyCertCmd) : Exit :=
  match cmd with CertGen cmd => gen cmd | CertShow cmd => show cmd end.

Inductive OctoCmd :=
  | OctoClient (cmd : ClientCmd)
  | OctoServer (cmd : ServerCommand)
  | OctoEasycert (cmd : EasyCertCmd)
  | OctoTui (cmd : TuiCmd).

Definition octo_run (client : ClientCmd -> Exit) (server : ServerCommand -> Exit) (easycert : EasyCertCmd -> Exit)
    (tui : TuiCmd -> Exit) (cmd : OctoCmd) : Exit :=
  match cmd with
  | OctoClient cmd => client cmd
  | OctoServer cmd => server cmd
  | OctoEasycert cmd => easycert cmd
  | OctoTui cmd => tui cmd
  end.
End Dispatch.

(** ** Properties *)

(** The first answer of a future in a sequence of polls. *)
Fixpoint first_ready (ps : list main_poll) : option (result string unit) :=
  match ps with
  | [] => None
  | Ready r :: _ => Some r
  | Pending :: ps => first_ready ps
  end.

Lemma poll_maybe_done_first d p ps :
  match poll_maybe_done d p with Some r => Some r | None => first_ready ps end
    = match d with Some r => Some r | None => first_ready (p :: ps) end.
Proof. by destruct d, p. Qed.

(** The result of a future so far. *)
Definition outcome_of (d : option (result string unit)) (ps : list main_poll) : option (result string unit) :=
  match d with Some r => Some r | None => first_ready ps end.

Lemma outcome_of_cons d p ps : outcome_of d (p :: ps) = outcome_of (poll_maybe_done d p) ps.
Proof. by destruct d, p. Qed.

Lemma join_spec turns s :
  (done_a s = None \/ done_b s = None) ->
  match join turns s with
  | Ready (a, b) => outcome_of (done_a s) (poll_a <$> turns) = Some a /\ outcome_of (done_b s) (poll_b <$> turns) = Some b
  | Pending => outcome_of (done_a s) (poll_a <$> turns) = None \/ outcome_of (done_b s) (poll_b <$> turns) = None
  end.
Proof.
  revert s; induction turns as [|t turns IH]; intros s Hs.
  - destruct Hs as [-> | ->]; [by left|by right].
  - rewrite !fmap_cons, !outcome_of_cons. cbn [join].
    specialize (IH {| done_a := poll_maybe_done (done_a s) (poll_a t); done_b := poll_maybe_done (done_b s) (poll_b t) |}).
    cbn [done_a done_b] in *. destruct (poll_maybe_done (done_a s) (poll_a t)), (poll_maybe_done (done_b s) (poll_b t)).
    + by split.
    + apply IH. by right.
    + apply IH. by left.
    + apply IH. by left.
Qed.

Definition failed (o : option (result string unit)) : Prop := exists e, o = Some (Err e).

Lemma try_join_spec turns s :
  ~ failed (done_a s) -> ~ failed (done_b s) -> (done_a s = None \/ done_b s = None) ->
  let a := outcome_of (done_a s) (poll_a <$> turns) in
  let b := outcome_of (done_b s) (poll_b <$> turns) in
  match try_join turns s with
  | Ready (Err e) => a = Some (Err e) \/ b = Some (Err e)
  | Ready (Ok _) => a = Some (Ok tt) /\ b = Some (Ok tt)
  | Pending => ~ failed a /\ ~ failed b /\ (a = None \/ b = None)
  end.
Proof.
  revert s; induction turns as [|t turns IH]; intros s Ha Hb Hs a b.
  - subst a b. cbn. destruct (done_a s) as [[[]|]|], (done_b s) as [[[]|]|]; cbn; try done;
      try (split; [done|]; split; [done|]); try by left. all: by right.
  - subst a b. rewrite !fmap_cons, !outcome_of_cons. cbn [try_join].
    specialize (IH {| done_a := poll_maybe_done (done_a s) (poll_a t); done_b := poll_maybe_done (done_b s) (poll_b t) |}).
    cbn [done_a done_b] in *. unfold failed in *.
    destruct (poll_maybe_done (done_a s) (poll_a t)) as [[[]|e]|], (poll_maybe_done (done_b s) (poll_b t)) as [[[]|e']|],
      (second_first t); cbn; auto; apply IH; try naive_solver.
Qed.

Section MainSpec.
Context `{F : F64} `{CL : ClientLib} `{HR : HashRing} `{TL : TlsLib} `{CF : ConfigLib}.

(** The client ends as soon as one of its two listeners fails, with that
    error; it ends well only when both have; and it runs on otherwise. *)
Theorem client_main_spec now fs opts turns cfg :
  config_new now fs opts = Done (Ok cfg) ->
  let a := first_ready (poll_a <$> turns) in
  let b := first_ready (poll_b <$> turns) in
  exists r, client_main now fs opts turns = Done r /\
    match r with
    | Ready (Err e) => a = Some (Err e) \/ b = Some (Err e)
    | Ready (Ok _) => a = Some (Ok tt) /\ b = Some (Ok tt)
    | Pending => ~ failed a /\ ~ failed b /\ (a = None \/ b = None)
    end.
Proof.
  intros H a b. unfold client_main. rewrite H. cbn. eexists. split; [done|].
  apply (try_join_spec turns joining_start); [by intros []|by intros []|by left].
Qed.
End MainSpec.

Section ServerMainSpec.
Context `{TL : TlsLib}.
Context (toml_server : string -> result string ServerFileConfig).
Context {Level LevelFilter : Type} (level_error : Level) (parse_level : string -> option Level).
Context (from_level : Level -> LevelFilter) (env_var : string -> option string).

(** Once its configuration is loaded the server never reports an error: it runs
    until both listeners have ended and then ends with success, also when both
    failed - when the address is taken, for instance. *)
Theorem server_main_hides_errors fs opts turns cfg :
  server_config_new toml_server level_error parse_level from_level env_var fs opts = Ok cfg ->
  let a := first_ready (poll_a <$> turns) in
  let b := first_ready (poll_b <$> turns) in
  server_main toml_server level_error parse_level from_level env_var fs opts turns =
    match a, b with Some _, Some _ => Ready (Ok tt) | _, _ => Pending end.
Proof.
  intros H a b. unfold server_main. rewrite H. cbn.
  pose proof (join_spec turns joining_start (or_introl eq_refl)) as Hj. cbn in Hj. fold a b in Hj.
  destruct (join turns joining_start) as [|[ra rb]].
  - destruct Hj as [-> | ->]; [done|by destruct a].
  - by destruct Hj as [-> ->].
Qed.
End ServerMainSpec.

(** ** Witnesses *)

(** QUIC is not configured; the TCP address is taken. *)
Definition taken : list JoinTurn :=
  [{| second_first := false; poll_a := Ready (Ok tt); poll_b := Pending |};
   {| second_first := false; poll_a := Pending; poll_b := Ready (Err "address in use") |}].

Lemma server_main_hides_errors_witness :
  server_main (fun _ => Ok example_server_file) "ERROR" Some (fun l => l) (fun _ => None) server_fs example_server_opts taken
    = Ready (Ok tt).
Proof.
  assert (R : match example_server with Ok _ => true | _ => false end = true) by (vm_compute; reflexivity).
  destruct example_server as [cfg|] eqn:E; [|discriminate R].
  exact (server_main_hides_errors _ _ _ _ _ server_fs example_server_opts taken cfg E).
Defined.

Lemma client_main_spec_witness :
  exists r, client_main (fun _ => 0) start_fs example_opts taken = Done r /\
    match r with
    | Ready (Err e) => Some (Ok tt) = Some (Err e) \/ Some (Err (A := unit) "address in use") = Some (Err e)
    | Ready (Ok _) => False
    | Pending => False
    end.
Proof.
  assert (C : match config_new (fun _ => 0) start_fs example_opts with Done (Ok _) => true | _ => false end = true)
    by (vm_compute; reflexivity).
  destruct (config_new (fun _ => 0) start_fs example_opts) as [[cfg|]|] eqn:E; try discriminate C.
  destruct (client_main_spec (fun _ => 0) start_fs example_opts taken cfg E) as (r & H1 & H2). exists r.
  split; [exact H1|]. destruct r as [|[u|e]].
  - destruct H2 as (_ & _ & [H2|H2]); discriminate H2.
  - destruct H2 as [_ H2]. discriminate H2.
  - exact H2.
Defined.
