(* ===== verification/Tui.v ===== *)
(** * The terminal UI ([tui/src])

    The input thread sends terminal events to the UI thread, which handles
    them ([App]) and queues at most one request; the fetch thread ([run_loop])
    sends the requests over one socket, in order, and stores the answers in the
    [Fetcher] the two share.  The state of the three with the channels between
    them, and one step of any.  Writing to the terminal succeeds here. *)

From S2P Require Import Prelude NetAddr LibMetric.

(** ** [spinner.rs] *)

(** The number of [SPINNER_CHARS]. *)
Definition spinner_len : nat := 8.

(** [last_char] is an index into the characters, or blank. *)
Record Spinner := { idx : nat; active : bool; last_char : option nat }.

Definition spinner_default : Spinner := {| idx := 0; active := false; last_char := None |}.

Definition spinner_update (s : Spinner) : Spinner :=
  {| idx := (idx s + 1) mod spinner_len; active := active s; last_char := last_char s |}.

Definition spinner_set_state (a : bool) (s : Spinner) : Spinner :=
  {| idx := idx s; active := a; last_char := last_char s |}.

(** [draw]: the character written to the terminal, if it changed. *)
Definition spinner_draw (s : Spinner) : option (option nat) * Spinner :=
  let char_to_draw := if active s then Some (idx s) else None in
  if decide (last_char s = char_to_draw) then (None, s)
  else (Some char_to_draw, {| idx := idx s; active := active s; last_char := char_to_draw |}).

(** ** Channels *)

(** A channel: what was sent and not yet received, and whether a sender is
    left. *)
Record Chan (A : Type) := { msgs : list A; senders : bool }.
Arguments Build_Chan {A} msgs senders.
Arguments msgs {A} c.
Arguments senders {A} c.

Definition chan_new {A} : Chan A := {| msgs := []; senders := true |}.
Definition chan_send {A} (m : A) (c : Chan A) : Chan A := {| msgs := msgs c ++ [m]; senders := senders c |}.
Definition chan_close {A} (c : Chan A) : Chan A := {| msgs := msgs c; senders := false |}.

Definition recv_error : string := "receiving on an empty and disconnected channel".

(** A completed [recv]; [None] while it has to wait. *)
Definition chan_recv {A} (c : Chan A) : option (result string A * Chan A) :=
  match msgs c with
  | m :: q => Some (Ok m, {| msgs := q; senders := senders c |})
  | [] => if senders c then None else Some (Err recv_error, c)
  end.

Section Tui.
Context `{F : F64}.

(** ** Events *)

Inductive KeyCode := KDown | KUp | KChar (c : ascii) | KOther.

Record KeyEvent := { k_code : KeyCode; k_modifiers_empty : bool; k_press : bool }.

Inductive Event := EKey (key : KeyEvent) | EOther.

Inductive MetricApiNotify :=
  | NotifySwitchBackendStatus
  | NotifySwitchBackendProtocol
  | NotifyResetBackend
  | NotifyAllBackends
  | NotifyError (msg : string).

(** ** State *)

(** [Fetcher] with the request channel; [receiver_alive] until the fetch thread
    drops its end. *)
Record Fetcher := {
  inner_queue : list MetricApiReq;
  receiver_alive : bool;
  pending : bool;
  pending_on_id : nat;
  backends : list BackendMetric;
}.

(** [App]; the selection is a [usize]. *)
Record App := {
  backends_state : option Z;
  fetcher : Fetcher;
  do_quit : bool;
  log_text : string;
}.

Definition fetcher_new : Fetcher :=
  {| inner_queue := []; receiver_alive := true; pending := false; pending_on_id := 0; backends := [] |}.

Definition app_new : App :=
  {| backends_state := Some 0; fetcher := fetcher_new; do_quit := false; log_text := EmptyString |}.

Definition with_fetcher (f : Fetcher) (a : App) : App :=
  {| backends_state := backends_state a; fetcher := f; do_quit := do_quit a; log_text := log_text a |}.
Definition with_selected (i : Z) (a : App) : App :=
  {| backends_state := Some i; fetcher := fetcher a; do_quit := do_quit a; log_text := log_text a |}.
Definition set_error (msg : string) (a : App) : App :=
  {| backends_state := backends_state a; fetcher := fetcher a; do_quit := do_quit a; log_text := msg |}.
Definition quit (a : App) : App :=
  {| backends_state := backends_state a; fetcher := fetcher a; do_quit := true; log_text := log_text a |}.

(** ** [Fetcher]'s requests *)

(** [backend_action] with the caller's update of [pending_on_id]: nothing while
    a request is pending; [send] panics when the fetch thread is gone. *)
Definition backend_action (msg : MetricApiReq) (selected : nat) (f : Fetcher) : outcome Fetcher :=
  if pending f then Done f
  else if receiver_alive f
  then Done {| inner_queue := inner_queue f ++ [msg]; receiver_alive := true; pending := true;
               pending_on_id := selected; backends := backends f |}
  else Panic.

(** ** [App::event] *)

(** [reset_backend], [switch_backend_status], [switch_backend_protocol]. *)
Definition action (req : nat -> MetricApiReq) (a : App) : outcome App :=
  match backends_state a with
  | Some selected =>
      let a := set_error EmptyString a in
      let id := Z.to_nat selected in
      f ← backend_action (req id) id (fetcher a);
      Done (with_fetcher f a)
  | None => Done a
  end.

Definition num_backends (a : App) : Z := Z.of_nat (length (backends (fetcher a))).

Definition select_next_backend (p : profile) (a : App) : outcome App :=
  i ← match backends_state a with
      | Some i =>
          last ← usub p 64 (num_backends a) 1;
          if decide (last <= i) then Done 0 else uadd p 64 i 1
      | None => Done 0
      end;
  Done (with_selected i a).

Definition select_prev_backend (p : profile) (a : App) : outcome App :=
  i ← match backends_state a with
      | Some i => if decide (i = 0) then usub p 64 (num_backends a) 1 else usub p 64 i 1
      | None => Done 0
      end;
  Done (with_selected i a).

Definition check_quit (ev : Event) : bool :=
  match ev with
  | EKey e => match k_code e with KChar c => bool_decide (c = "q"%char) && k_modifiers_empty e | _ => false end
  | EOther => false
  end.

Definition app_event (p : profile) (ev : Event) (a : App) : outcome App :=
  if check_quit ev then Done (quit a)
  else match ev with
  | EKey key =>
      if k_press key then
        match k_code key with
        | KDown => select_next_backend p a
        | KUp => select_prev_backend p a
        | KChar c =>
            if decide (c = "k"%char) then select_next_backend p a
            else if decide (c = "j"%char) then select_prev_backend p a
            else if decide (c = " "%char) then action ReqSwitchBackendStatus a
            else if decide (c = "s"%char) then action ReqSwitchBackendProtocol a
            else if decide (c = "r"%char) then action ReqResetBackend a
            else Done a
        | KOther => Done a
        end
      else Done a
  | EOther => Done a
  end.

(** ** [run_loop] and [run_app] *)

(** The fetch thread: connecting, ready for the next request, waiting for a
    message, out of [run_loop] with its result, or ended. *)
Inductive FetchThread := FConnecting | FIdle | FWaiting | FEnding (r : result string unit) | FEnded.

(** A message read from the socket. *)
Inductive WsRead :=
  | ReadBinary (resp : result string MetricApiResp)
  | ReadOther
  | ReadClose
  | ReadError.

(** [exit]: what [run_app] returned, once it has.  [outstanding]: the requests
    written and not yet answered. *)
Record Tui := {
  app : App;
  spinner : Spinner;
  rx_input : Chan Event;
  rx_fetcher : Chan MetricApiNotify;
  close_rx : Chan unit;
  exit : option (result string unit);
  fetch : FetchThread;
  outstanding : list MetricApiReq;
}.

Definition running (t : Tui) : bool := match exit t with None => true | Some _ => false end.

Definition tui_start : Tui := {|
  app := app_new; spinner := spinner_default; rx_input := chan_new; rx_fetcher := chan_new; close_rx := chan_new;
  exit := None; fetch := FConnecting; outstanding := [] |}.

Definition map_fetcher (g : Fetcher -> Fetcher) (t : Tui) : Tui := {|
  app := with_fetcher (g (fetcher (app t))) (app t); spinner := spinner t; rx_input := rx_input t;
  rx_fetcher := rx_fetcher t; close_rx := close_rx t; exit := exit t; fetch := fetch t; outstanding := outstanding t |}.

Definition with_fetch (ft : FetchThread) (out : list MetricApiReq) (t : Tui) : Tui := {|
  app := app t; spinner := spinner t; rx_input := rx_input t; rx_fetcher := rx_fetcher t; close_rx := close_rx t;
  exit := exit t; fetch := ft; outstanding := out |}.

Definition with_channels (ci : Chan Event) (cf : Chan MetricApiNotify) (cc : Chan unit) (t : Tui) : Tui := {|
  app := app t; spinner := spinner t; rx_input := ci; rx_fetcher := cf; close_rx := cc; exit := exit t;
  fetch := fetch t; outstanding := outstanding t |}.

Definition with_spinner (s : Spinner) (t : Tui) : Tui := {|
  app := app t; spinner := s; rx_input := rx_input t; rx_fetcher := rx_fetcher t; close_rx := close_rx t;
  exit := exit t; fetch := fetch t; outstanding := outstanding t |}.

Definition with_exit (r : result string unit) (t : Tui) : Tui := {|
  app := app t; spinner := spinner t; rx_input := rx_input t; rx_fetcher := rx_fetcher t; close_rx := close_rx t;
  exit := Some r; fetch := fetch t; outstanding := outstanding t |}.

Definition push_notify (n : MetricApiNotify) (t : Tui) : Tui :=
  with_channels (rx_input t) (chan_send n (rx_fetcher t)) (close_rx t) t.

Definition set_pending (p : bool) (f : Fetcher) : Fetcher := {|
  inner_queue := inner_queue f; receiver_alive := receiver_alive f; pending := p;
  pending_on_id := pending_on_id f; backends := backends f |}.
Definition set_backends (bs : list BackendMetric) (f : Fetcher) : Fetcher := {|
  inner_queue := inner_queue f; receiver_alive := receiver_alive f; pending := pending f;
  pending_on_id := pending_on_id f; backends := bs |}.
Definition set_queue (q : list MetricApiReq) (f : Fetcher) : Fetcher := {|
  inner_queue := q; receiver_alive := receiver_alive f; pending := pending f;
  pending_on_id := pending_on_id f; backends := backends f |}.
Definition drop_receiver (f : Fetcher) : Fetcher := {|
  inner_queue := inner_queue f; receiver_alive := false; pending := pending f;
  pending_on_id := pending_on_id f; backends := backends f |}.

(** [run_loop] returns: [Ok] when the socket was closed, after the close
    message is sent.  What it owns is dropped: its end of the close channel and
    the request receiver. *)
Definition fetch_end (r : result string unit) (t : Tui) : Tui :=
  let t := match r with
    | Ok _ => with_channels (rx_input t) (rx_fetcher t) (chan_send tt (close_rx t)) t
    | Err _ => t
    end in
  let t := map_fetcher drop_receiver t in
  with_fetch (FEnding r) (outstanding t) (with_channels (rx_input t) (rx_fetcher t) (chan_close (close_rx t)) t).

(** The rest of the thread: an error is reported, then its own sender goes. *)
Definition fetch_exit (r : result string unit) (t : Tui) : Tui :=
  let t := match r with Ok _ => t | Err e => push_notify (NotifyError e) t end in
  with_fetch FEnded (outstanding t) (with_channels (rx_input t) (chan_close (rx_fetcher t)) (close_rx t) t).

(** [run_loop] has returned. *)
Definition ended (t : Tui) : bool := match fetch t with FEnding _ | FEnded => true | _ => false end.

(** The answer to the oldest request: [rest] is still unanswered. *)
Definition handle_resp (resp : MetricApiResp) (rest : list MetricApiReq) (t : Tui) : Tui :=
  let t := with_fetch FIdle rest t in
  match resp with
  | RespSwitchBackendStatus | RespSwitchBackendProtocol | RespResetBackend => map_fetcher (set_pending false) t
  | RespAllBackends items => push_notify NotifyAllBackends (map_fetcher (set_backends items) t)
  | RespError msg => push_notify (NotifyError msg) t
  end.

Inductive QueueEvent :=
  | AppClose
  | SpinnerUpdate
  | QFetch (n : MetricApiNotify)
  | InputEvent (ev : Event).

(** [select_event] once [sel.select()] chose the channel [index]: [None] when
    that channel is not ready.  The ticker is always ready to be chosen. *)
Definition select_event (index : nat) (t : Tui) : option (result string QueueEvent * Tui) :=
  match index with
  | 0%nat => '(r, c) ← chan_recv (rx_input t);
      Some (ev ← r; Ok (InputEvent ev), with_channels c (rx_fetcher t) (close_rx t) t)
  | 1%nat => Some (Ok SpinnerUpdate, t)
  | 2%nat => '(r, c) ← chan_recv (rx_fetcher t);
      Some (n ← r; Ok (QFetch n), with_channels (rx_input t) c (close_rx t) t)
  | 3%nat => '(r, c) ← chan_recv (close_rx t);
      Some (_ ← r; Ok AppClose, with_channels (rx_input t) (rx_fetcher t) c t)
  | _ => None
  end.

(** The end of a turn after an event other than the tick: the application and
    the spinner are drawn, then the loop ends if the user quits. *)
Definition ui_turn (a : App) (t : Tui) : Tui := {|
  app := a; spinner := (spinner_draw (spinner_set_state (pending (fetcher a)) (spinner t))).2;
  rx_input := rx_input t; rx_fetcher := rx_fetcher t; close_rx := close_rx t;
  exit := if do_quit a then Some (Ok tt) else exit t; fetch := fetch t; outstanding := outstanding t |}.

(** One turn of [run_app]'s loop. *)
Definition app_turn (p : profile) (event : QueueEvent) (t : Tui) : outcome Tui :=
  match event with
  | SpinnerUpdate => Done (with_spinner (spinner_draw (spinner_update (spinner t))).2 t)
  | InputEvent e => a ← app_event p e (app t); Done (ui_turn a t)
  | QFetch (NotifyError msg) => Done (ui_turn (set_error msg (app t)) t)
  | QFetch _ => Done (ui_turn (app t) t)
  | AppClose => Done (with_exit (Ok tt) t)
  end.

Inductive TuiEvent :=
  (** the UI thread takes an event from the channel chosen *)
  | UiSelect (index : nat)
  (** the input thread polls the terminal *)
  | InputPoll (r : result string (option Event))
  (** the fetch thread connects; a queued request or its own tick is written;
      the writing fails, or a message is read *)
  | FetchConnect (r : result string unit)
  | FetchSend | FetchTick
  | FetchWriteError (e : string) | FetchRead (m : WsRead)
  (** the thread ends after its loop *)
  | FetchExit.

(** One turn of [input_loop]. *)
Definition input_turn (r : result string (option Event)) (c : Chan Event) : Chan Event :=
  match r with
  | Ok (Some e) => chan_send e c
  | Ok None => c
  | Err _ => chan_close c
  end.

(** One step; [None] when it is not enabled, [Some Panic] when a thread
    panics. *)
Definition tui_step (p : profile) (ev : TuiEvent) (t : Tui) : option (outcome Tui) :=
  match ev with
  | UiSelect index =>
      if running t then
        '(r, t) ← select_event index t;
        Some (match r with Ok event => app_turn p event t | Err e => Done (with_exit (Err e) t) end)
      else None
  | InputPoll r =>
      if senders (rx_input t)
      then Some (Done (with_channels (input_turn r (rx_input t)) (rx_fetcher t) (close_rx t) t))
      else None
  | FetchConnect r =>
      match fetch t with
      | FConnecting => Some (Done (match r with Ok _ => with_fetch FIdle (outstanding t) t | Err e => fetch_end (Err e) t end))
      | _ => None
      end
  | FetchSend =>
      match fetch t, inner_queue (fetcher (app t)) with
      | FIdle, req :: q =>
          Some (Done (with_fetch FWaiting (outstanding t ++ [req]) (map_fetcher (set_queue q) t)))
      | _, _ => None
      end
  | FetchTick =>
      match fetch t with
      | FIdle => Some (Done (with_fetch FWaiting (outstanding t ++ [ReqAllBackends]) t))
      | _ => None
      end
  | FetchWriteError e =>
      match fetch t with FIdle => Some (Done (fetch_end (Err e) t)) | _ => None end
  | FetchRead m =>
      match fetch t with
      | FWaiting =>
          match m with
          | ReadBinary (Ok resp) =>
              match outstanding t with
              | _ :: rest => Some (Done (handle_resp resp rest t))
              | [] => None
              end
          | ReadBinary (Err e) => Some (Done (fetch_end (Err e) t))
          | ReadOther => Some (Done (with_fetch FIdle (outstanding t) t))
          | ReadClose | ReadError => Some (Done (fetch_end (Ok tt) t))
          end
      | _ => None
      end
  | FetchExit => match fetch t with FEnding r => Some (Done (fetch_exit r t)) | _ => None end
  end.

(** [Cmd::run]: the address of the metric service. *)
Definition ws_address (show : Z -> string) (port : Z) : string := ("ws://localhost:" +:+ show port +:+ "/")%string.

(** What the server may answer to a request. *)
Definition reply_matches (req : MetricApiReq) (resp : MetricApiResp) : Prop :=
  match req, resp with
  | _, RespError _ => True
  | ReqSwitchBackendStatus _, RespSwitchBackendStatus => True
  | ReqSwitchBackendProtocol _, RespSwitchBackendProtocol => True
  | ReqResetBackend _, RespResetBackend => True
  | ReqAllBackends, RespAllBackends _ => True
  | _, _ => False
  end.

(** The server answers the requests in order. *)
Definition event_ok (ev : TuiEvent) (t : Tui) : Prop :=
  match ev, outstanding t with
  | FetchRead (ReadBinary (Ok resp)), req :: _ => reply_matches req resp
  | _, _ => True
  end.

Inductive tui_reachable (p : profile) (t0 : Tui) : Tui -> Prop :=
  | tui_init : tui_reachable p t0 t0
  | tui_next t ev t' : tui_reachable p t0 t -> event_ok ev t -> tui_step p ev t = Some (Done t') ->
      tui_reachable p t0 t'.

(** ** Selection *)

Definition in_list (a : App) : Prop :=
  exists i, backends_state a = Some i /\ 0 <= i < num_backends a.

Lemma num_backends_width a : num_backends a < 2 ^ 64 -> 0 < num_backends a ->
  forall p, usub p 64 (num_backends a) 1 = Done (num_backends a - 1).
Proof. intros H1 H2 p. unfold usub. apply fit_ok. unfold in_width. lia. Qed.

Lemma select_next_spec p a i :
  backends_state a = Some i -> 0 <= i < num_backends a -> num_backends a < 2 ^ 64 ->
  select_next_backend p a = Done (with_selected ((i + 1) mod num_backends a) a).
Proof.
  intros Hi H1 H2. unfold select_next_backend. rewrite Hi, num_backends_width by lia. cbn.
  case_decide as D.
  - assert (i = num_backends a - 1) as -> by lia. rewrite Z.sub_add, Z_mod_same_full. done.
  - unfold uadd. rewrite fit_ok by (unfold in_width; lia). cbn. by rewrite Z.mod_small by lia.
Qed.

Lemma select_prev_spec p a i :
  backends_state a = Some i -> 0 <= i < num_backends a -> num_backends a < 2 ^ 64 ->
  select_prev_backend p a = Done (with_selected ((i - 1) mod num_backends a) a).
Proof.
  intros Hi H1 H2. unfold select_prev_backend. rewrite Hi. case_decide as D.
  - subst i. rewrite num_backends_width by lia. cbn.
    assert ((0 - 1) mod num_backends a = num_backends a - 1) as ->; [|done].
    symmetry. apply (Z.mod_unique _ _ (-1)); lia.
  - unfold usub. rewrite fit_ok by (unfold in_width; lia). cbn. by rewrite Z.mod_small by lia.
Qed.


(** Before the first list arrives, moving the selection underflows: a debug
    build panics, a release build selects row 2^64 - 1. *)
Theorem empty_list_underflows a :
  backends (fetcher a) = [] -> backends_state a = Some 0 ->
  select_prev_backend Debug a = Panic /\ select_next_backend Debug a = Panic /\
  select_prev_backend Release a = Done (with_selected (2 ^ 64 - 1) a).
Proof.
  intros Hb Hs. unfold select_prev_backend, select_next_backend, num_backends. rewrite Hb, Hs.
  unfold usub. rewrite fit_release. split; [|split]; reflexivity.
Qed.

(** ** One request at a time *)

Definition is_user (req : MetricApiReq) : bool :=
  match req with ReqAllBackends => false | _ => true end.

Definition users (reqs : list MetricApiReq) : nat := length (filter (fun r => is_user r = true) reqs).

#[local] Arguments users : simpl never.

(** The user's requests queued or waiting for an answer. *)
Definition in_flight (t : Tui) : nat := (users (outstanding t) + users (inner_queue (fetcher (app t))))%nat.

Definition is_pending (t : Tui) : bool := pending (fetcher (app t)).

Lemma users_app l1 l2 : users (l1 ++ l2) = (users l1 + users l2)%nat.
Proof. unfold users. by rewrite list.filter_app, length_app. Qed.

Lemma users_cons r l : users (r :: l) = ((if is_user r then 1 else 0) + users l)%nat.
Proof. unfold users. rewrite filter_cons. by destruct (is_user r). Qed.

(** A request about backend [id]. *)
Definition user_request (id : nat) (req : MetricApiReq) : Prop :=
  req = ReqSwitchBackendStatus id \/ req = ReqSwitchBackendProtocol id \/ req = ReqResetBackend id.

Lemma user_request_user id req : user_request id req -> is_user req = true.
Proof. by intros [->|[->| ->]]. Qed.

(** A turn either leaves the fetcher alone or queues a request for the selected
    backend and marks it pending, which it does only when none is pending. *)
Definition asks (a a' : App) : Prop :=
  fetcher a' = fetcher a \/
  pending (fetcher a) = false /\ pending (fetcher a') = true /\
    receiver_alive (fetcher a') = receiver_alive (fetcher a) /\ backends (fetcher a') = backends (fetcher a) /\
    backends_state a' = backends_state a /\
    exists sel req, backends_state a = Some sel /\ user_request (Z.to_nat sel) req /\
      inner_queue (fetcher a') = inner_queue (fetcher a) ++ [req].

Lemma action_asks req a a' :
  (forall id, user_request id (req id)) -> action req a = Done a' ->
  asks a a' /\ backends_state a' = backends_state a.
Proof.
  intros Hu. unfold action, asks. destruct (backends_state a) as [sel|] eqn:Es; [|intros [= <-]; split; [by left|done]].
  unfold backend_action. cbn. destruct (pending (fetcher a)) eqn:Ep; cbn; [intros [= <-]; split; [by left|done]|].
  destruct (receiver_alive (fetcher a)) eqn:Er; cbn; [|done]. intros [= <-]. cbn. split; [|done].
  right. cbn. do 5 (split; [done|]). exists sel, (req (Z.to_nat sel)). by split.
Qed.

(** What an event does to the selection. *)
Definition moves (p : profile) (a a' : App) : Prop :=
  backends_state a' = backends_state a \/ select_next_backend p a = Done a' \/ select_prev_backend p a = Done a'.

Lemma select_fetcher p a a' :
  select_next_backend p a = Done a' \/ select_prev_backend p a = Done a' -> fetcher a' = fetcher a.
Proof.
  unfold select_next_backend, select_prev_backend.
  intros [H|H]; (destruct (match backends_state a with Some _ => _ | None => _ end); cbn in H; [|done]); by injection H as <-.
Qed.

Lemma app_event_asks p ev a a' : app_event p ev a = Done a' -> asks a a' /\ moves p a a'.
Proof.
  assert (Hsame : a' = a -> asks a a' /\ moves p a a') by (intros ->; split; by left).
  assert (Hact : forall req, (forall id, user_request id (req id)) -> action req a = Done a' -> asks a a' /\ moves p a a').
  { intros req Hu H. destruct (action_asks _ _ _ Hu H). split; [done|by left]. }
  assert (Hsel : select_next_backend p a = Done a' \/ select_prev_backend p a = Done a' -> asks a a' /\ moves p a a').
  { intros H. split; [left; by eapply select_fetcher|by right]. }
  unfold app_event, user_request in *. destruct (check_quit ev); [intros [= <-]; split; by left|].
  destruct ev as [key|]; [|intros [= <-]; by apply Hsame]. destruct (k_press key); [|intros [= <-]; by apply Hsame].
  destruct (k_code key) as [| |c|]; [intros H; apply Hsel; by left|intros H; apply Hsel; by right| |intros [= <-]; by apply Hsame].
  case_decide; [intros H'; apply Hsel; by left|]. case_decide; [intros H'; apply Hsel; by right|].
  repeat (case_decide; [apply Hact; tauto|]). intros [= <-]. by apply Hsame.
Qed.

(** What a turn of the UI thread leaves alone. *)
Record ui_keeps (t t' : Tui) : Prop := {
  uk_fetch : fetch t' = fetch t;
  uk_outstanding : outstanding t' = outstanding t;
  uk_fetcher : senders (rx_fetcher t') = senders (rx_fetcher t);
  uk_close : senders (close_rx t') = senders (close_rx t);
  uk_empty : msgs (close_rx t) = [] -> close_rx t' = close_rx t;
}.

Lemma chan_recv_senders {A} (c c' : Chan A) r : chan_recv c = Some (r, c') -> senders c' = senders c.
Proof. unfold chan_recv. destruct (msgs c), (senders c) eqn:E; intros H; simplify_eq; done. Qed.

Lemma select_event_keeps index t r t' :
  select_event index t = Some (r, t') -> ui_keeps t t' /\ app t' = app t /\ spinner t' = spinner t.
Proof.
  destruct index as [|[|[|[|]]]]; cbn; [..|done].
  - destruct (chan_recv _) as [[x c]|]; [|done]. cbn. by intros [= <- <-].
  - by intros [= <- <-].
  - destruct (chan_recv _) as [[x c]|] eqn:E; [|done]. cbn. intros [= <- <-].
    apply chan_recv_senders in E. by split; [split|].
  - destruct (chan_recv _) as [[x c]|] eqn:E; [|done]. cbn. intros [= <- <-].
    split; [|done]. split; cbn; try done; [by apply chan_recv_senders in E|].
    intros Hm. unfold chan_recv in E. rewrite Hm in E. destruct (senders _); [done|by injection E as _ <-].
Qed.

(** The spinner's index stays below the number of its characters, so that
    drawing never indexes out of bounds. *)
Definition spinner_ok (s : Spinner) : Prop := (idx s < spinner_len)%nat.

Lemma spinner_draw_ok s : spinner_ok (spinner_draw s).2 <-> spinner_ok s.
Proof. unfold spinner_draw, spinner_ok. by case_decide. Qed.

Lemma app_turn_keeps p ev t t' :
  app_turn p ev t = Done t' ->
  ui_keeps t t' /\ asks (app t) (app t') /\ moves p (app t) (app t') /\ (spinner_ok (spinner t) -> spinner_ok (spinner t')).
Proof.
  assert (Hdraw : forall a, asks (app t) a /\ moves p (app t) a -> ui_turn a t = t' ->
    ui_keeps t t' /\ asks (app t) (app t') /\ moves p (app t) (app t') /\ (spinner_ok (spinner t) -> spinner_ok (spinner t'))).
  { intros a [Ha Hm] <-. cbn. rewrite spinner_draw_ok. by split; [split|]. }
  destruct ev as [| |[| | | |]|e]; cbn; try (intros [= H]; eapply Hdraw; [|exact H]; split; by left).
  - intros [= <-]. split; [done|]. split; [by left|]. split; [by left|done].
  - intros [= <-]. split; [done|]. split; [by left|]. split; [by left|]. intros _. cbn. rewrite spinner_draw_ok.
    by apply Nat.mod_upper_bound.
  - destruct (app_event p e (app t)) as [a'|] eqn:Ea; cbn; [|done]. intros [= H]. eapply Hdraw; [|exact H].
    by apply app_event_asks in Ea.
Qed.

Lemma ui_step p index t t' :
  tui_step p (UiSelect index) t = Some (Done t') ->
  ui_keeps t t' /\ asks (app t) (app t') /\ moves p (app t) (app t') /\ (spinner_ok (spinner t) -> spinner_ok (spinner t')).
Proof.
  cbn. destruct (running t); [|done]. destruct (select_event index t) as [[r t1]|] eqn:Es; [|done]. cbn.
  apply select_event_keeps in Es as ([K1 K2 K3 K4 K5] & <- & Hsp). intros H.
  destruct r as [ev|e]; injection H as H.
  - apply app_turn_keeps in H as ([L1 L2 L3 L4 L5] & H). rewrite Hsp in H. split; [|done].
    split; try congruence. intros Hm. rewrite L5; rewrite K5; done.
  - rewrite <- H. split; [done|]. split; [by left|]. split; [by left|]. cbn. by rewrite Hsp.
Qed.

Lemma tui_step_flight p ev t t' :
  tui_step p ev t = Some (Done t') -> event_ok ev t ->
  (in_flight t <= if is_pending t then 1 else 0)%nat ->
  (in_flight t' <= if is_pending t' then 1 else 0)%nat /\
  (is_pending t = true -> in_flight t = 0%nat -> is_pending t' = true /\ in_flight t' = 0%nat).
Proof.
  unfold in_flight, is_pending. intros H Hok Hinv.
  assert (Hsame : forall t1, pending (fetcher (app t1)) = pending (fetcher (app t)) ->
    inner_queue (fetcher (app t1)) = inner_queue (fetcher (app t)) -> outstanding t1 = outstanding t -> t1 = t' ->
    (users (outstanding t') + users (inner_queue (fetcher (app t'))) <= if pending (fetcher (app t')) then 1 else 0)%nat /\
    (pending (fetcher (app t)) = true -> (users (outstanding t) + users (inner_queue (fetcher (app t))))%nat = 0%nat ->
     pending (fetcher (app t')) = true /\ (users (outstanding t') + users (inner_queue (fetcher (app t'))))%nat = 0%nat)).
  { intros t1 E1 E2 E3 <-. by rewrite E1, E2, E3. }
  destruct ev as [index|r|cr| | |e|m|].
  - destruct (ui_step _ _ _ _ H) as ([_ Eo _ _ _] & Ha & _). rewrite Eo.
    destruct Ha as [->|(E1 & E2 & _ & _ & _ & sel & req & _ & Hu & E3)]; [done|].
    rewrite E2, E3, users_app, users_cons, (user_request_user _ _ Hu), E1. rewrite E1 in Hinv.
    change (users []) with 0%nat. split; [lia|done].
  - cbn in H. destruct (senders (rx_input t)); [|done]. injection H as H. refine (Hsame _ _ _ _ H); reflexivity.
  - cbn in H. destruct (fetch t); try done. destruct cr; injection H as H; refine (Hsame _ _ _ _ H); reflexivity.
  - cbn in H. destruct (fetch t), (inner_queue (fetcher (app t))) as [|req q] eqn:Eq; try done. injection H as <-. cbn.
    clear Hsame. rewrite users_app. rewrite !users_cons in *. change (users []) with 0%nat. cbn. split; [|intros Hp Hz; split; [done|]]; lia.
  - cbn in H. destruct (fetch t); try done. injection H as <-. cbn. clear Hsame.
    rewrite users_app, users_cons. change (users []) with 0%nat. cbn. rewrite Nat.add_0_r. done.
  - cbn in H. destruct (fetch t); try done. injection H as H. refine (Hsame _ _ _ _ H); reflexivity.
  - cbn in H. destruct (fetch t); try done. destruct m as [[resp|e]| | |]; [|(injection H as H; refine (Hsame _ _ _ _ H); reflexivity)..].
    destruct (outstanding t) as [|req rest] eqn:Eo; [done|]. injection H as <-. cbn in Hok. rewrite Eo in Hok.
    clear Hsame. rewrite users_cons in *. destruct resp, req; cbn in *; try done; (split; [|intros Hp Hz; split; [done|]]);
      destruct (pending (fetcher (app t))); try done; lia.
  - cbn in H. destruct (fetch t) as [| | |[|]|]; try done; injection H as H; refine (Hsame _ _ _ _ H); reflexivity.
Qed.

Lemma in_flight_bound p t :
  tui_reachable p tui_start t -> (in_flight t <= if is_pending t then 1 else 0)%nat.
Proof.
  induction 1 as [|t ev t' Hr IH Hok Hs]; [done|]. by eapply tui_step_flight.
Qed.

(** C28: The user has at most one request queued or unanswered, and none unless one
    is pending.  So a terminal event queues a request only when none of the
    user's is queued or unanswered: one, after which the UI is pending. *)
Theorem one_request_at_a_time p t :
  tui_reachable p tui_start t ->
  (in_flight t <= if is_pending t then 1 else 0)%nat /\
  (forall ev a, app_event p ev (app t) = Done a -> inner_queue (fetcher a) <> inner_queue (fetcher (app t)) ->
     in_flight t = 0%nat /\ is_pending t = false /\ pending (fetcher a) = true /\
     exists req, is_user req = true /\ inner_queue (fetcher a) = inner_queue (fetcher (app t)) ++ [req]).
Proof.
  intros Hr. pose proof (in_flight_bound p t Hr) as Hf. split; [done|]. intros ev a Ha Hne.
  apply app_event_asks in Ha as [[E|(E1 & E2 & _ & _ & _ & sel & req & _ & Hu & E3)] _]; [by rewrite E in Hne|].
  unfold is_pending in *. rewrite E1 in Hf. split; [lia|]. do 2 (split; [done|]). exists req. split; [by eapply user_request_user|done].
Qed.

(** ** The rest of the state *)

(** The fetch thread's ends of the channels are there while it runs. *)
Definition tui_ok (t : Tui) : Prop :=
  let alive := negb (ended t) in
  spinner_ok (spinner t) /\ senders (rx_fetcher t) = (match fetch t with FEnded => false | _ => true end) /\
  senders (close_rx t) = alive /\ receiver_alive (fetcher (app t)) = alive /\ (alive = true -> close_rx t = chan_new).

Lemma tui_step_ok p ev t t' : tui_step p ev t = Some (Done t') -> tui_ok t -> tui_ok t'.
Proof.
  unfold tui_ok, ended. intros H (H1 & H2 & H3 & H4 & H5). destruct ev as [index|r|cr| | |e|m|].
  - destruct (ui_step _ _ _ _ H) as ([E1 E2 E3 E4 E5] & Ha & _ & Hsp). rewrite E1, E3, E4. split; [by apply Hsp|].
    do 2 (split; [done|]). split; [by destruct Ha as [->|(_ & _ & -> & _)]|].
    intros E. rewrite E5; [by apply H5|by rewrite H5].
  - cbn in H. destruct (senders (rx_input t)); [|done]. by injection H as <-.
  - cbn in H. destruct (fetch t); try done. destruct cr; by injection H as <-.
  - cbn in H. destruct (fetch t), (inner_queue (fetcher (app t))); try done. by injection H as <-.
  - cbn in H. destruct (fetch t); try done. by injection H as <-.
  - cbn in H. destruct (fetch t); try done. by injection H as <-.
  - cbn in H. destruct (fetch t); try done. destruct m as [[resp|e]| | |]; try (by injection H as <-).
    destruct (outstanding t) as [|req rest]; [done|]. injection H as <-. by destruct resp.
  - cbn in H. destruct (fetch t) as [| | |[|]|]; try done; by injection H as <-.
Qed.

Lemma tui_reachable_ok p t : tui_reachable p tui_start t -> tui_ok t.
Proof. induction 1 as [|t ev t' Hr IH Hok Hs]; [by split; [unfold spinner_ok, spinner_len; cbn; lia|]|]. by eapply tui_step_ok. Qed.

(** The spinner's index is in range in every reachable state, a thread never
    sends to a closed request channel while [run_loop] runs, and once that has
    returned the UI can leave its loop. *)
Theorem tui_invariants p t :
  tui_reachable p tui_start t -> tui_ok t /\
  (ended t = true -> running t = true -> exists t', tui_step p (UiSelect 3) t = Some (Done t') /\ running t' = false) /\
  (ended t = false -> forall req id, is_done (backend_action req id (fetcher (app t)))).
Proof.
  intros Hr. pose proof (tui_reachable_ok p t Hr) as Hok. split; [done|]. destruct Hok as (_ & _ & Hc & Ha & _). split.
  - intros Hf Hrun. rewrite Hf in Hc. cbn. rewrite Hrun. unfold chan_recv. rewrite Hc.
    destruct (msgs (close_rx t)); cbn; by eexists.
  - intros Hf req id. unfold backend_action. destruct (pending _); [by eexists|].
    rewrite Ha, Hf. by eexists.
Qed.

(** ** An error answer *)

(** A stuck UI stays stuck: pending, and nothing left that could end it. *)
Lemma stuck_reachable p t t' :
  tui_reachable p t t' -> is_pending t = true -> in_flight t = 0%nat ->
  is_pending t' = true /\ in_flight t' = 0%nat.
Proof.
  intros Hr Hp Hz. induction Hr as [|t1 ev t2 Hr IH Hok Hs]; [done|]. destruct IH as [H1 H2].
  eapply tui_step_flight; [done|done| |done|done]. rewrite H1. lia.
Qed.

Lemma handle_resp_flight resp req rest t :
  outstanding t = req :: rest -> is_user req = true -> reply_matches req resp ->
  (in_flight t <= if is_pending t then 1 else 0)%nat ->
  in_flight (handle_resp resp rest t) = 0%nat /\
  is_pending (handle_resp resp rest t) = match resp with RespError _ => true | _ => false end.
Proof.
  unfold in_flight, is_pending. intros Eo Hu Hm Hf. rewrite Eo, users_cons, Hu in Hf.
  destruct (pending (fetcher (app t))) eqn:Ep; [|lia]. destruct resp, req; try done; cbn; (split; [lia|done]).
Qed.

(** C29: What an answer to a request of the user does to the next one.  An error
    leaves the UI pending for ever: in every later state no request of the user
    is queued or unanswered, and no terminal event makes one, until the program
    is restarted.  Any other answer ends the wait: nothing is pending, and the
    next action's request is queued if the fetch thread lives. *)
Theorem error_blocks_requests p t req rest resp t1 :
  tui_reachable p tui_start t -> outstanding t = req :: rest -> is_user req = true -> reply_matches req resp ->
  tui_step p (FetchRead (ReadBinary (Ok resp))) t = Some (Done t1) ->
  match resp with
  | RespError _ => forall t2, tui_reachable p t1 t2 ->
      is_pending t2 = true /\ in_flight t2 = 0%nat /\
      (forall ev a, app_event p ev (app t2) = Done a -> inner_queue (fetcher a) = inner_queue (fetcher (app t2)))
  | _ => is_pending t1 = false /\ in_flight t1 = 0%nat /\
      (forall next id, exists f, backend_action next id (fetcher (app t1)) = Done f /\
         inner_queue f = inner_queue (fetcher (app t1)) ++ [next] /\ pending f = true)
  end.
Proof.
  intros Hr Eo Hu Hm H. cbn in H. destruct (fetch t) eqn:Ef; try done. rewrite Eo in H. injection H as H.
  pose proof (handle_resp_flight _ _ _ _ Eo Hu Hm (in_flight_bound p t Hr)) as [H1 H2]. rewrite H in H1, H2.
  assert (Hlive : receiver_alive (fetcher (app t1)) = true).
  { destruct (tui_reachable_ok p t Hr) as (_ & _ & _ & Ha & _). unfold ended in Ha. rewrite Ef in Ha. rewrite <- H. by destruct resp. }
  assert (Hnext : is_pending t1 = false -> forall next id, exists f, backend_action next id (fetcher (app t1)) = Done f /\
    inner_queue f = inner_queue (fetcher (app t1)) ++ [next] /\ pending f = true).
  { intros Hp next id. unfold backend_action. unfold is_pending in Hp. rewrite Hp, Hlive. by eexists. }
  destruct resp as [| | | |msg]; [by auto..|]. intros t2 Hr2. destruct (stuck_reachable p t1 t2 Hr2 H2 H1) as [S1 S2].
  do 2 (split; [done|]). intros ev a Ha. apply app_event_asks in Ha as [[->|(E & _)] _]; [done|]. unfold is_pending in S1. congruence.
Qed.

(** ** A failed connection *)

(** [run_loop] returned an error: no close message was sent or will be. *)
Definition failed (t : Tui) : Prop :=
  (match fetch t with FEnding (Err _) => True | FEnded => senders (rx_fetcher t) = false | _ => False end) /\
  close_rx t = {| msgs := []; senders := false |}.

Lemma failed_step p ev t t' : tui_step p ev t = Some (Done t') -> failed t -> failed t'.
Proof.
  intros H (H1 & H2). destruct ev as [index|r|cr| | |e|m|].
  - destruct (ui_step _ _ _ _ H) as ([E1 E2 E3 E4 E5] & _). unfold failed. rewrite E1, E3, E5; by rewrite ?H2.
  - cbn in H. destruct (senders _); [|done]. by injection H as <-.
  - cbn in H. by destruct (fetch t).
  - cbn in H. by destruct (fetch t).
  - cbn in H. by destruct (fetch t).
  - cbn in H. by destruct (fetch t).
  - cbn in H. by destruct (fetch t).
  - cbn in H. destruct (fetch t) as [| | |[|]|]; try done. by injection H as <-.
Qed.

(** When the connection to the metric service cannot be made or breaks, the UI
    can end with the error of a closed channel as soon as [run_loop] has
    returned, before the error that the thread then reports is queued; a
    reported error is on the screen only until the UI next looks at its
    channels.  The user's quitting is the only way to end without an error. *)
Theorem failure_ends_ui p t e evf t' t'' :
  tui_reachable p tui_start t -> evf = FetchConnect (Err e) \/ evf = FetchWriteError e -> tui_step p evf t = Some (Done t') ->
  tui_reachable p t' t'' -> exit t'' = None ->
  tui_step p (UiSelect 3) t'' = Some (Done (with_exit (Err recv_error) t'')) /\
  (fetch t'' = FEnded -> msgs (rx_fetcher t'') = [] ->
     tui_step p (UiSelect 2) t'' = Some (Done (with_exit (Err recv_error) t''))).
Proof.
  intros Ht Hev H Hr Hrun. destruct (tui_reachable_ok p t Ht) as (_ & _ & _ & _ & Hc).
  assert (Hfail : failed t'').
  { clear Hrun. induction Hr as [|t1 ev t2 Hr IH Hok Hs]; [|by eapply failed_step].
    unfold ended in Hc. destruct Hev as [->| ->]; cbn in H; (destruct (fetch t); try done); injection H as <-;
      unfold failed, fetch_end; cbn; by rewrite Hc. }
  destruct Hfail as (H3 & H2). destruct t'' as [a s ci cf cc x ft out]. cbn in *. subst. cbn. split; [done|].
  intros -> Hm. unfold chan_recv. rewrite Hm, H3. cbn. by destruct cf; cbn in *; subst.
Qed.
End Tui.

(** ** Witnesses *)

Definition example_row : @BackendMetric RF64 := {|
  bm_backend_name := "one"; bm_domain := "example.com"; bm_address := "example.com:8443";
  bm_metric := MetricData_default (F := RF64) 0 |}.

Definition listed_app : @App RF64 := {|
  backends_state := Some 0;
  fetcher := set_backends [example_row; example_row; example_row] fetcher_new;
  do_quit := false; log_text := EmptyString |}.


Lemma empty_list_underflows_witness :
  select_prev_backend Debug (@app_new RF64) = Panic /\ select_next_backend Debug (@app_new RF64) = Panic /\
  select_prev_backend Release (@app_new RF64) = Done (with_selected (2 ^ 64 - 1) app_new).
Proof. exact (empty_list_underflows (@app_new RF64) eq_refl eq_refl). Defined.

(** Runs whose answers are errors, which match any request. *)
Definition plain (ev : TuiEvent) : Prop :=
  match ev with
  | FetchRead (ReadBinary (Ok (RespError _))) => True
  | FetchRead (ReadBinary (Ok _)) => False
  | _ => True
  end.

Fixpoint tui_run (evs : list TuiEvent) (t : Tui) : option (@Tui RF64) :=
  match evs with
  | [] => Some t
  | ev :: evs => match tui_step Release ev t with Some (Done t) => tui_run evs t | _ => None end
  end.

Lemma tui_run_reachable evs t0 t t' :
  tui_reachable Release t0 t -> Forall plain evs -> tui_run evs t = Some t' -> tui_reachable Release t0 t'.
Proof.
  revert t; induction evs as [|ev evs IH]; intros t Hr Hp H; cbn in H; [by injection H as <-|].
  apply Forall_cons_1 in Hp as [H1 H2]. destruct (tui_step Release ev t) as [[t1|]|] eqn:E; [|done..].
  apply (IH t1); [|done..]. eapply tui_next; [exact Hr| |exact E].
  unfold event_ok. destruct ev as [| | | | | |[[[]|]| | |]|]; try done; by destruct (outstanding t) as [|[] ?].
Qed.

(** A key, the request, and its answer. *)
Definition space_key : Event := EKey {| k_code := KChar " "; k_modifiers_empty := true; k_press := true |}.

Definition press (ev : Event) : list TuiEvent := [InputPoll (Ok (Some ev)); UiSelect 0].

Definition refusal : list TuiEvent := [FetchConnect (Ok tt); FetchSend; FetchRead (ReadBinary (Ok (RespError "no suck backends")))].

(** After the key the request is queued; after an error it is still pending. *)
Definition tui_asked : @Tui RF64 := default tui_start (tui_run (press space_key) tui_start).
Definition tui_refused : @Tui RF64 := default tui_start (tui_run (press space_key ++ refusal) tui_start).
Definition tui_again : @Tui RF64 := default tui_start (tui_run (press space_key) tui_refused).

Ltac plain_events := repeat (apply Forall_cons_2; [exact I|]); apply Forall_nil_2.

Lemma asked_reachable : tui_reachable Release tui_start tui_asked.
Proof. apply (tui_run_reachable (press space_key) _ tui_start); [constructor|unfold press; plain_events|reflexivity]. Qed.

Lemma one_request_at_a_time_witness : in_flight tui_asked = 1%nat /\ (in_flight tui_asked <= 1)%nat.
Proof. split; [reflexivity|]. exact (proj1 (one_request_at_a_time Release tui_asked asked_reachable)). Defined.

Lemma tui_invariants_witness : tui_ok tui_asked.
Proof. exact (proj1 (tui_invariants Release tui_asked asked_reachable)). Defined.

(** The refusal is read in the state before its last event. *)
Definition tui_waiting : @Tui RF64 := default tui_start (tui_run (press space_key ++ [FetchConnect (Ok tt); FetchSend]) tui_start).

Lemma error_blocks_requests_witness : is_pending tui_again = true /\ in_flight tui_again = 0%nat.
Proof.
  destruct (error_blocks_requests Release tui_waiting (ReqSwitchBackendStatus 0) [] (RespError "no suck backends") tui_refused)
    with (t2 := tui_again) as (H1 & H2 & _); [| | | | | |by split].
  - apply (tui_run_reachable (press space_key ++ [FetchConnect (Ok tt); FetchSend]) _ tui_start);
      [constructor|unfold press; plain_events|reflexivity].
  - reflexivity.
  - reflexivity.
  - exact I.
  - reflexivity.
  - apply (tui_run_reachable (press space_key) _ tui_refused); [constructor|unfold press; plain_events|reflexivity].
Defined.
