(* ===== verification/TuiDraw.v ===== *)
(** * Drawing the terminal UI ([tui/src/app.rs])

    What [App::draw] hands to ratatui: a list of widgets, each with the part of
    the screen it fills.  The layout solver and the geometry of blocks are the
    class [Ratatui]. *)

From S2P Require Import Prelude NetAddr LibMetric Tui.

(** ** Values of ratatui *)

Record Rect := { x : Z; y : Z; width : Z; height : Z }.

Inductive Constraint := Length (n : Z) | Min (n : Z).

Inductive Color := Green | Red | Yellow | Magenta | Gray | DarkGray | Blue.
Inductive Modifier := CROSSED_OUT | BOLD.

Record Style := { fg : option Color; modifier : option Modifier }.
Definition Style_default : Style := {| fg := None; modifier := None |}.
Definition with_fg (c : Color) : Style := {| fg := Some c; modifier := None |}.
Definition add_modifier (m : Modifier) (s : Style) : Style := {| fg := fg s; modifier := Some m |}.

Record Span := { content : string; span_style : Style }.
Definition span_raw (s : string) : Span := {| content := s; span_style := Style_default |}.
Definition span_styled (s : string) (st : Style) : Span := {| content := s; span_style := st |}.

(** [Spans]: a line. *)
Notation Spans := (list Span).

Record Block := { borders_all : bool; title : option string; border_style : Style }.

Inductive Widget :=
  | WTabs (titles : list Spans) (block : Block) (style : Style) (divider : string)
  | WBlock (block : Block)
  | WParagraph (text : list Spans) (style : Style) (block : option Block) (wrap_trim : option bool)
  | WList (items : list (list Spans)) (highlight_symbol : string) (selected : option Z).

Class Ratatui := {
  split : list Constraint -> Rect -> list Rect;
  inner : Z -> Z -> Rect -> Rect;
  block_inner : Block -> Rect -> Rect;
  right : Rect -> Z;
  bottom : Rect -> Z;
}.

(** [Layout::split] returns one chunk for each constraint. *)
Class RatatuiLaws `{Ratatui} := {
  split_length : forall cs r, length (split cs r) = length cs;
}.

(** Saturating arithmetic on [u16]. *)
Definition saturating_add16 (a b : Z) : Z := Z.min (a + b) (2 ^ 16 - 1).
Definition saturating_sub16 (a b : Z) : Z := Z.max (a - b) 0.

Section Draw.
Context `{F : F64} `{R : Ratatui} (show : Z -> string).

(** What was rendered, and where. *)
Definition Frame : Type := list (Widget * Rect).

(** [chunks[i]] *)
Definition chunk (i : nat) (chunks : list Rect) : outcome Rect :=
  match chunks !! i with Some r => Done r | None => Panic end.

(** [Iterator::reduce] *)
Definition reduce {A} (f : A -> A -> A) (l : list A) : option A :=
  match l with [] => None | a :: l => Some (fold_left f l a) end.

(** ** [draw_log], [draw_top_bar] *)

Definition draw_log (a : App) (r : Rect) : Frame :=
  let text := [[span_raw (log_text a)]] in
  let block := {| borders_all := true; title := Some "Error Log"; border_style := Style_default |} in
  [(WParagraph text (with_fg Gray) (Some block) (Some true), r)].

Definition available_count (a : App) : Z :=
  default 0 (reduce Z.add ((fun b => if decide (status (bm_metric b) = Normal) then 1 else 0) <$> backends (fetcher a))).

Definition draw_top_bar (a : App) (r : Rect) : Frame :=
  let r := inner 0 1 r in
  let tab_labels := [span_raw ("available backends : " +:+ show (available_count a))] in
  let tabs := (fun s => [s]) <$> tab_labels in
  [(WTabs tabs {| borders_all := false; title := None; border_style := with_fg DarkGray |} (with_fg DarkGray) "|", r)].

(** ** [draw_backends] *)

Definition header_spans : Spans :=
  [span_raw ("   " +:+ pad_right 10 "name"); span_raw (pad_right 12 "status"); span_raw (pad_right 12 "active_conn");
   span_raw (pad_right 12 "conn_time"); span_raw (pad_right 12 "proto")].

(** The header moves in from the border. *)
Definition header_chunk (c : Rect) : Rect :=
  let c := {| x := Z.min (saturating_add16 (x c) 1) (right c); y := y c; width := width c; height := height c |} in
  let c := {| x := x c; y := y c; width := saturating_sub16 (width c) 1; height := height c |} in
  let c := {| x := x c; y := Z.min (saturating_add16 (y c) 1) (bottom c); width := width c; height := height c |} in
  {| x := x c; y := y c; width := width c; height := saturating_sub16 (height c) 1 |}.

(** Whether a request about a row is pending. *)
Definition crossed_out (a : App) (id : nat) : bool :=
  pending (fetcher a) && bool_decide (pending_on_id (fetcher a) = id).

Definition current_status (a : App) (id : nat) : Modifier :=
  if crossed_out a id then CROSSED_OUT else BOLD.

Definition status_style (s : BackendStatus) : Style :=
  match s with
  | Normal => with_fg Green
  | Closed => with_fg Red
  | Unknown => with_fg Yellow
  | ForceClosed => with_fg Magenta
  end.

(** The line of a backend; the connection time in milliseconds. *)
Definition backend_line (m : Modifier) (b : BackendMetric) : Spans :=
  let plain := add_modifier m Style_default in
  [span_styled (pad_right 10 (bm_backend_name b)) (add_modifier m (status_style (status (bm_metric b))));
   span_styled (pad_right 12 (show_status (status (bm_metric b)))) plain;
   span_styled (pad_right 12 (show (active_connections (bm_metric b)))) plain;
   span_styled (pad_right 12 (show (connection_time (bm_metric b) / 1000000) +:+ "ms")) plain;
   span_styled (pad_right 12 (show_protocol (protocol (bm_metric b)))) plain].

Definition backend_item (a : App) (list_chunk : Rect) (id : nat) (b : BackendMetric) : list Spans :=
  [backend_line (current_status a id) b; [span_raw (spaces (Z.to_nat (width list_chunk)))]].

Definition draw_backends (a : App) (r : Rect) : outcome Frame :=
  let block := {| borders_all := true; title := Some "Backends"; border_style := Style_default |} in
  let chunks := split [Length 2; Min 2] r in
  header ← chunk 0 chunks;
  rows ← chunk 1 chunks;
  let list_chunk := block_inner block rows in
  Done [(WBlock block, r);
        (WParagraph [header_spans] (with_fg Blue) None None, header_chunk header);
        (WList (imap (backend_item a list_chunk) (backends (fetcher a))) ">> " (backends_state a), list_chunk)].

(** ** [App::draw] *)

Definition main_constraints (a : App) : list Constraint :=
  [Length 2; Min 2; Length (if decide (log_text a = EmptyString) then 0 else 4)].

Definition draw (a : App) (fsize : Rect) : outcome Frame :=
  let chunks_main := split (main_constraints a) fsize in
  top ← chunk 0 chunks_main;
  mid ← chunk 1 chunks_main;
  backends ← draw_backends a mid;
  log ← chunk 2 chunks_main;
  Done (draw_top_bar a top ++ backends ++ draw_log a log).

(** ** Properties *)

(** The text of a line. *)
Fixpoint line_text (l : Spans) : string :=
  match l with [] => EmptyString | s :: l => (content s +:+ line_text l)%string end.

Lemma fold_left_add l n : fold_left Z.add l n = n + foldr Z.add 0 l.
Proof. revert n; induction l as [|z l IH]; intros n; cbn; [lia|]. rewrite IH. lia. Qed.

(** The top bar counts the backends that take requests. *)
Lemma available_count_spec a :
  available_count a = Z.of_nat (length (filter (fun b => status (bm_metric b) = Normal) (backends (fetcher a)))).
Proof.
  unfold available_count. set (f := fun b : BackendMetric => _).
  assert (H : forall l, foldr Z.add 0 (f <$> l) = Z.of_nat (length (filter (fun b => status (bm_metric b) = Normal) l))).
  { induction l as [|b l IH]; [done|]. rewrite fmap_cons, filter_cons. cbn [foldr]. rewrite IH. unfold f.
    case_decide; cbn [length]; lia. }
  rewrite <- H. destruct (backends (fetcher a)) as [|b l]; [done|]. cbn [fmap list_fmap reduce default].
  by rewrite fold_left_add.
Qed.

Lemma chunk_split `{!RatatuiLaws} i cs r : (i < length cs)%nat -> exists c, chunk i (split cs r) = Done c.
Proof.
  intros Hi. unfold chunk. destruct (lookup_lt_is_Some_2 (split cs r) i) as [c ->]; [by rewrite split_length|]. by exists c.
Qed.

(** The columns of a row line up with the header's when the name and the
    numbers fit their columns. *)
Theorem row_aligned m b :
  (String.length (bm_backend_name b) <= 10)%nat ->
  (String.length (show (active_connections (bm_metric b))) <= 12)%nat ->
  (String.length (show (connection_time (bm_metric b) / 1000000)%Z) <= 10)%nat ->
  (String.length (line_text (backend_line m b)) + 3 = String.length (line_text header_spans))%nat.
Proof.
  intros H1 H2 H3. change (String.length (line_text header_spans)) with 61%nat. unfold backend_line.
  assert (String.length (show_status (status (bm_metric b))) = 12%nat) as Hs by (by destruct (status _)).
  assert (String.length (show_protocol (protocol (bm_metric b))) = 12%nat) as Hp by (by destruct (protocol _)).
  cbn [line_text content span_styled].
  rewrite !str_length_app, !pad_right_length, str_length_app, Hs, Hp. cbn [String.length]. lia.
Qed.

(** The screen shows every backend in order, one item each, with the selection
    of the keys; the item of the backend a request is pending on is crossed out
    and every other is bold; names are coloured by status; the bar counts the
    backends that take requests; and the log has room exactly when there is an
    error to show.  Drawing never indexes a chunk that is not there. *)
Theorem draw_spec `{!RatatuiLaws} a fsize :
  exists top mid log rows list_chunk,
    split (main_constraints a) fsize = [top; mid; log] /\
    draw a fsize = Done (draw_top_bar a top ++ [
      (WBlock {| borders_all := true; title := Some "Backends"; border_style := Style_default |}, mid);
      (WParagraph [header_spans] (with_fg Blue) None None, header_chunk (default mid (split [Length 2; Min 2] mid !! 0%nat)));
      (WList rows ">> " (backends_state a), list_chunk)] ++ draw_log a log) /\
    length rows = length (backends (fetcher a)) /\
    (forall id b, backends (fetcher a) !! id = Some b ->
      exists line blank, rows !! id = Some [line; blank] /\ line = backend_line (current_status a id) b /\
        (current_status a id = CROSSED_OUT <-> pending (fetcher a) = true /\ pending_on_id (fetcher a) = id)) /\
    (main_constraints a !! 2%nat = Some (Length 0) <-> log_text a = EmptyString).
Proof.
  assert (Hs : exists top mid log, split (main_constraints a) fsize = [top; mid; log]).
  { pose proof (split_length (main_constraints a) fsize) as Hl. destruct (split _ fsize) as [|top [|mid [|log [|]]]]; try done. eauto. }
  destruct Hs as (top & mid & log & Hs).
  assert (Hm : exists header body, split [Length 2; Min 2] mid = [header; body]).
  { pose proof (split_length [Length 2; Min 2] mid) as Hl. destruct (split _ mid) as [|h [|b [|]]]; try done. eauto. }
  destruct Hm as (header & body & Hm). exists top, mid, log. unfold draw. rewrite Hs. cbn [chunk lookup list_lookup mbind outcome_bind].
  unfold draw_backends. rewrite Hm. cbn.
  eexists _, _. split; [done|]. split; [done|]. split; [by rewrite length_imap|]. split.
  - intros id b Hb. rewrite list_lookup_imap, Hb. cbn. eexists _, _. split; [done|]. split; [done|].
    unfold current_status, crossed_out. destruct (pending _); cbn; [|by split; [|intros [? _]]].
    case_bool_decide; by split; [|intros []].
  - unfold main_constraints. cbn. case_decide; split; try done.
Qed.
End Draw.

(** ** Witnesses *)

Lemma row_aligned_witness :
  (String.length (line_text (backend_line (fun _ => "0") BOLD example_row)) + 3
    = String.length (line_text header_spans))%nat.
Proof. apply (row_aligned (fun _ => "0") BOLD example_row); cbn; lia. Defined.

(** Chunks stacked by their constraint. *)
Definition stack_ratatui : Ratatui := {|
  split := fun cs r => (fun _ => r) <$> cs;
  inner := fun _ _ r => r;
  block_inner := fun _ r => r;
  right := fun r => saturating_add16 (x r) (width r);
  bottom := fun r => saturating_add16 (y r) (height r);
|}.

#[export] Instance stack_laws : @RatatuiLaws stack_ratatui.
Proof. split. intros cs r. apply length_fmap. Qed.

Definition screen : Rect := {| x := 0; y := 0; width := 80; height := 24 |}.

Lemma draw_spec_witness :
  exists top mid log : Rect, split (Ratatui := stack_ratatui) (main_constraints listed_app) screen = [top; mid; log].
Proof.
  destruct (draw_spec (R := stack_ratatui) (fun _ => "0") listed_app screen) as (top & mid & log & _ & _ & H & _).
  by exists top, mid, log.
Defined.
