(* ===== verification/Terminal.v ===== *)
(** * The terminal of the UI ([tui/src/lib.rs], [Cmd::run])

    Setting the terminal up, running the UI, and leaving the terminal as it was
    however the UI ends.  crossterm and the terminal are a class whose
    operations may fail. *)

From S2P Require Import Prelude.

(** Each operation gives its result and the terminal it leaves. *)
Class Crossterm (T : Type) := {
  enable_raw_mode : T -> result string unit * T;
  disable_raw_mode : T -> result string unit * T;
  enter_alternate_screen : T -> result string unit * T;
  leave_alternate_screen : T -> result string unit * T;
  hide_cursor : T -> result string unit * T;
  clear : T -> result string unit * T;
  raw_mode : T -> bool;
  alternate_screen : T -> bool;
}.

(** What an operation of [crossterm] does: it changes the mode it is for when it
    succeeds, and never the other. *)
Record switches `{Crossterm T} (f : T -> result string unit * T) (mode other : T -> bool) (v : bool) : Prop := {
  sw_mode t : (f t).1 = Ok tt -> mode (f t).2 = v;
  sw_other t : other (f t).2 = other t;
}.

Record keeps_modes `{Crossterm T} (f : T -> result string unit * T) : Prop := {
  km_raw t : raw_mode (f t).2 = raw_mode t;
  km_alt t : alternate_screen (f t).2 = alternate_screen t;
}.

Class CrosstermLaws T `{Crossterm T} := {
  enable_raw : switches enable_raw_mode raw_mode alternate_screen true;
  disable_raw : switches disable_raw_mode raw_mode alternate_screen false;
  enter_alternate : switches enter_alternate_screen alternate_screen raw_mode true;
  leave_alternate : switches leave_alternate_screen alternate_screen raw_mode false;
  hide_keeps : keeps_modes hide_cursor;
  clear_keeps : keeps_modes clear;
}.

Section Terminal.
Context {T : Type} `{CT : Crossterm T}.

(** A computation on the terminal that may fail or panic; the terminal is there
    in every case. *)
Definition term (A : Type) : Type := T -> outcome (result string A) * T.

#[local] Instance term_ret : MRet term := fun _ a t => (Done (Ok a), t).
#[local] Instance term_bind : MBind term := fun _ _ k m t =>
  match m t with
  | (Done (Ok a), t) => k a t
  | (Done (Err e), t) => (Done (Err e), t)
  | (Panic, t) => (Panic, t)
  end.

Definition io {A} (f : T -> result string A * T) : term A := fun t => let '(r, t) := f t in (Done r, t).

Definition setup_terminal : term unit :=
  _ ← io enable_raw_mode;
  _ ← io enter_alternate_screen;
  mret tt.

(** Errors are only printed: both operations are always tried. *)
Definition shutdown_terminal (t : T) : list string * T :=
  let '(leave_screen, t) := leave_alternate_screen t in
  let '(leave_raw_mode, t) := disable_raw_mode t in
  (match leave_screen with Err e => ["leave_screen failed: " +:+ e]%string | Ok _ => [] end ++
   match leave_raw_mode with Err e => ["leave_raw_mode failed: " +:+ e]%string | Ok _ => [] end, t).

Definition start_terminal : term unit :=
  _ ← io hide_cursor;
  _ ← io clear;
  mret tt.

(** [defer!]: the guard runs when the scope is left, by a panic as well. *)
Definition deferred {A} (guard : T -> list string * T) (m : term A) : T -> outcome (result string A) * list string * T :=
  fun t => let '(r, t) := m t in let '(printed, t) := guard t in (r, printed, t).

(** [Cmd::run] with what it prints; [run_app] is [Tui]'s. *)
Definition cmd_run (run_app : term unit) (t : T) : outcome (result string unit) * list string * T :=
  match setup_terminal t with
  | (Done (Ok _), t) => deferred shutdown_terminal (_ ← start_terminal; run_app) t
  | (r, t) => (r, [], t)
  end.

(** ** The terminal is restored *)

Context {CTL : CrosstermLaws T}.

Lemma shutdown_modes t :
  let '(printed, t') := shutdown_terminal t in
  printed = [] -> raw_mode t' = false /\ alternate_screen t' = false.
Proof.
  unfold shutdown_terminal. pose proof (sw_mode _ _ _ _ leave_alternate t) as H1.
  destruct (leave_alternate_screen t) as [[[]|e] t1]; cbn in H1.
  - pose proof (sw_mode _ _ _ _ disable_raw t1) as H2. pose proof (sw_other _ _ _ _ disable_raw t1) as H3.
    destruct (disable_raw_mode t1) as [[[]|e] t2]; cbn in *; [|done]. intros _. split; [by apply H2|].
    rewrite H3. by apply H1.
  - by destruct (disable_raw_mode t1).
Qed.

(** However the UI ends - well, with an error, by a panic, or before it starts
    because the screen cannot be cleared - the terminal is out of raw mode and
    off the alternate screen unless leaving them failed, which is printed; and
    the result is the UI's own.  The exception is a failure of the set-up
    itself. *)
Theorem terminal_restored run_app t t1 :
  setup_terminal t = (Done (Ok tt), t1) ->
  exists r t2 printed t', (_ ← start_terminal; run_app) t1 = (r, t2) /\ cmd_run run_app t = (r, printed, t') /\
    (printed = [] -> raw_mode t' = false /\ alternate_screen t' = false).
Proof.
  intros H. unfold cmd_run. rewrite H. unfold deferred.
  destruct ((_ ← start_terminal; run_app) t1) as [r t2]. pose proof (shutdown_modes t2) as Hs.
  destruct (shutdown_terminal t2) as [printed t']. by exists r, t2, printed, t'.
Qed.

(** The guard is registered only after the set-up: when the alternate screen
    cannot be entered the terminal is left in raw mode. *)
Theorem failed_setup_stays_raw run_app t t1 e :
  setup_terminal t = (Done (Err e), t1) ->
  cmd_run run_app t = (Done (Err e), [], t1) /\
  ((enable_raw_mode t).1 = Err e \/ (enable_raw_mode t).1 = Ok tt /\ raw_mode t1 = true).
Proof.
  intros H. unfold cmd_run. rewrite H. split; [done|]. revert H. unfold setup_terminal, mbind, term_bind, io.
  pose proof (sw_mode _ _ _ _ enable_raw t) as H1. destruct (enable_raw_mode t) as [[[]|e1] t2]; cbn in *.
  - pose proof (sw_other _ _ _ _ enter_alternate t2) as H2.
    destruct (enter_alternate_screen t2) as [[[]|e2] t3]; cbn in *; [done|]. intros [= <- <-]. right. split; [done|].
    rewrite H2. by apply H1.
  - intros [= <- _]. by left.
Qed.
End Terminal.

(** ** Witnesses: a terminal that is not one ([raw], [alternate]) *)

Record Screen := { s_raw : bool; s_alternate : bool; s_tty : bool }.

#[export] Instance screen_crossterm : Crossterm Screen := {|
  enable_raw_mode := fun s => (Ok tt, {| s_raw := true; s_alternate := s_alternate s; s_tty := s_tty s |});
  disable_raw_mode := fun s => (Ok tt, {| s_raw := false; s_alternate := s_alternate s; s_tty := s_tty s |});
  enter_alternate_screen := fun s =>
    if s_tty s then (Ok tt, {| s_raw := s_raw s; s_alternate := true; s_tty := s_tty s |}) else (Err "broken pipe", s);
  leave_alternate_screen := fun s => (Ok tt, {| s_raw := s_raw s; s_alternate := false; s_tty := s_tty s |});
  hide_cursor := fun s => (Ok tt, s);
  clear := fun s => (Ok tt, s);
  raw_mode := s_raw;
  alternate_screen := s_alternate;
|}%string.

#[export] Instance screen_laws : CrosstermLaws Screen.
Proof. split; split; intros [[] [] []]; cbn; try reflexivity; discriminate. Qed.

Definition shell : Screen := {| s_raw := false; s_alternate := false; s_tty := true |}.
Definition pipe : Screen := {| s_raw := false; s_alternate := false; s_tty := false |}.

(** The UI panics. *)
Lemma terminal_restored_witness :
  exists printed t', cmd_run (fun t => (Panic, t)) shell = (Panic, printed, t') /\
    raw_mode t' = false /\ alternate_screen t' = false.
Proof.
  destruct (terminal_restored (fun t => (Panic, t)) shell {| s_raw := true; s_alternate := true; s_tty := true |})
    as (r & t2 & printed & t' & H1 & H2 & H3); [reflexivity|].
  injection H1 as <- <-. exists printed, t'. split; [exact H2|]. apply H3. injection H2 as <- <-. reflexivity.
Defined.

Lemma failed_setup_stays_raw_witness :
  exists t', cmd_run (fun t => (Done (Ok tt), t)) pipe = (Done (Err "broken pipe"%string), [], t') /\ raw_mode t' = true.
Proof.
  destruct (failed_setup_stays_raw (fun t => (Done (Ok tt), t)) pipe
    {| s_raw := true; s_alternate := false; s_tty := false |} "broken pipe"%string) as [H1 [H2|[_ H2]]];
    [reflexivity|discriminate H2|]. eexists. split; [exact H1|exact H2].
Defined.
