(* ===== verification/Service.v ===== *)
(** * The metric API and its client agree

    The terminal UI ([Tui]) assumes that the server answers its requests in
    order, each with a reply to that request.  The service half ([MetricApi])
    keeps this promise, whatever the other tasks do between its steps. *)

From S2P Require Import Prelude NetAddr LibProxy LibMetric Metric Tls BackendConfig Peer Balance World Connector Backend Proxy MetricApi System Example Tui.

Section Service.
Context `{F : F64} `{CL : ClientLib} `{HR : HashRing} `{TL : TlsLib}.

(** What a program may return when, between any two of its steps, the store
    and the environment change in any way. *)
Inductive returned {A} : prog A -> A -> Prop :=
  | returned_ret a : returned (Ret a) a
  | returned_step e p w p' w' js a : step_prog body e p w = Some (p', w', js) -> returned p' a -> returned p a.

(** A postcondition of every path through a program whose operations answer
    as [R] allows. *)
Definition Answers : Type := forall o, resp o -> Prop.
Definition any_answer : Answers := fun _ _ => True.

Fixpoint post (R : Answers) {A} (Q : A -> Prop) (p : prog A) : Prop :=
  match p with
  | Ret a => Q a
  | Vis o k => forall r, R o r -> post R Q (k r)
  | Call l k => forall r, post R Q (k r)
  end.

Lemma post_bind R {A B} (Q : A -> Prop) (Q' : B -> Prop) p (f : A -> prog B) :
  post R Q p -> (forall a, Q a -> post R Q' (f a)) -> post R Q' (pbind p f).
Proof.
  induction p as [a|o k IH|l k IH]; cbn; intros Hp Hf; [by apply Hf|intros r Hr; by apply IH; [apply Hp|]|intros r; by apply IH].
Qed.

Lemma post_true R {A} (p : prog A) : post R (fun _ => True) p.
Proof. by induction p; cbn. Qed.

(** A program whose result the rest does not use. *)
Lemma post_then R {A B} (Q : B -> Prop) (p : prog A) (f : A -> prog B) :
  (forall a, post R Q (f a)) -> post R Q (pbind p f).
Proof. intros Hf. eapply post_bind; [apply post_true|]. by intros a _. Qed.

(** A step preserves a postcondition when the operation's answer is allowed. *)
Lemma post_step R {A} (Q : A -> Prop) e (p p' : prog A) w w' js :
  (forall o r w1 js1, op_eval e o w = Some (r, w1, js1) -> R o r) ->
  step_prog body e p w = Some (p', w', js) -> post R Q p -> post R Q p'.
Proof.
  intros Hans Hs Hp. destruct p as [x|o k|l k]; cbn in Hs; [done| |].
  - destruct (op_eval e o w) as [[[r w1] js1]|] eqn:E; [|done]. injection Hs as <- <- <-. eapply Hp, Hans, E.
  - injection Hs as <- <- <-. by apply post_then.
Qed.

Lemma post_returned {A} (Q : A -> Prop) (p : prog A) a : post any_answer Q p -> returned p a -> Q a.
Proof.
  intros Hp H. revert Hp. induction H as [a|e p w p' w' js a Hs H IH]; [done|]. intros Hp. apply IH.
  by eapply post_step.
Qed.

(** Each handler answers its own request. *)
Lemma post_switcher req : post any_answer (reply_matches req) (backend_metric_switcher req).
Proof.
  destruct req; cbn [backend_metric_switcher]; apply post_then; intros a; cbn; try done;
    by destruct a.
Qed.

(** The requests of a socket: its binary messages until it is closed. *)
Fixpoint requests {B} (msgs : list (WsMessage B)) : list B :=
  match msgs with
  | [] | WsClose :: _ => []
  | WsBinary req :: msgs => req :: requests msgs
  | WsText :: msgs | WsPing :: msgs | WsPong :: msgs => requests msgs
  end.

Definition answers_request {B} (decode : B -> result string MetricApiReq) (req : B) (resp : MetricApiResp) : Prop :=
  match decode req with
  | Ok req => reply_matches req resp
  | Err e => resp = RespError e
  end.

Lemma post_ws_loop {B} (decode : B -> result string MetricApiReq) msgs :
  post any_answer (Forall2 (answers_request decode) (requests msgs)) (ws_loop decode msgs).
Proof.
  induction msgs as [|[req| | | |] msgs IH]; cbn [ws_loop ws_turn requests]; try exact IH; try (by constructor).
  eapply post_bind with (Q := answers_request decode req).
  - unfold answers_request. destruct (decode req) as [r|e]; [apply post_switcher|done].
  - intros resp Hr. eapply post_bind; [exact IH|]. intros rest Hrest. by constructor.
Qed.

(** The service answers the binary messages of a socket one by one, in order,
    until it is closed: each request with a reply to that request or an error,
    a message that is no request with the decoding error - whatever the rest
    of the client does meanwhile. *)
Theorem api_replies_match {B} (decode : B -> result string MetricApiReq) msgs resps :
  returned (ws_loop decode msgs) resps -> Forall2 (answers_request decode) (requests msgs) resps.
Proof. apply post_returned, post_ws_loop. Qed.
End Service.

(** ** Witness *)

Definition example_decode (s : string) : result string MetricApiReq :=
  if String.eqb s "status" then Ok (ReqSwitchBackendStatus 0)
  else if String.eqb s "missing" then Ok (ReqResetBackend 7) else Err "invalid".

Definition example_msgs : list (WsMessage string) :=
  [WsBinary "status"; WsPing; WsBinary "missing"; WsBinary "junk"; WsClose; WsBinary "status"].

Lemma run_to_end_returned {A} n e (p : prog A) w a w' js :
  run_to_end n e p w = Some (a, w', js) -> returned p a.
Proof.
  revert p w w' js; induction n as [|n IH]; intros p w w' js H.
  - destruct p; cbn in H; [|done..]. injection H as -> _ _. constructor.
  - destruct p as [x|o k|l k]; [injection H as -> _ _; constructor| |]; cbn [run_to_end] in H.
    + destruct (step_prog body e (Vis o k) w) as [[[p1 w1] js1]|] eqn:E; [|done]. cbn [mbind option_bind] in H.
      destruct (run_to_end n e p1 w1) as [[[a1 w2] js2]|] eqn:E1; [|done]. injection H as <- <- <-.
      eapply returned_step; [exact E|]. by eapply IH.
    + destruct (step_prog body e (Call l k) w) as [[[p1 w1] js1]|] eqn:E; [|done]. cbn [mbind option_bind] in H.
      destruct (run_to_end n e p1 w1) as [[[a1 w2] js2]|] eqn:E1; [|done]. injection H as <- <- <-.
      eapply returned_step; [exact E|]. by eapply IH.
Qed.

Lemma api_replies_match_witness :
  match run_to_end 60 (env_ok 1) (ws_loop example_decode example_msgs) example_world with
  | Some (resps, _, _) =>
      Forall2 (answers_request example_decode) ["status"; "missing"; "junk"] resps
  | None => False
  end.
Proof.
  assert (R : match run_to_end 60 (env_ok 1) (ws_loop example_decode example_msgs) example_world with
    | Some _ => true | None => false end = true) by (vm_compute; reflexivity).
  destruct (run_to_end 60 (env_ok 1) (ws_loop example_decode example_msgs) example_world)
    as [[[resps w] js]|] eqn:E; [|discriminate R].
  exact (api_replies_match example_decode example_msgs resps (run_to_end_returned 60 (env_ok 1) _ _ _ _ _ E)).
Defined.
