(* ===== verification/UiSystem.v ===== *)
(** * The terminal UI and the client it talks to

    The UI's two threads ([Tui]), one websocket and the task that serves it
    ([MetricApi]), and all other tasks of the client, as one transition
    system.  Its runs project to runs of its parts, so what is proved of them
    holds of the whole; what the UI assumes of the service is discharged. *)

From Stdlib Require Import List_Extension.
From S2P Require Import Prelude NetAddr LibProxy LibMetric Metric Tls BackendConfig Peer Balance World Connector Backend Proxy MetricApi Discipline System Run Example Locks Safety Fair Writers Liveness Tui Service.

Section UiSystem.
Context `{F : F64} `{CL : ClientLib} `{HR : HashRing} `{TL : TlsLib}.

(** ** The wire *)

(** Both ends use [rmp_serde]; a decoder needs the clock, because the skipped
    estimator of a metric is set to its default. *)
Class Wire := {
  bytes : Type;
  req_to_vec : MetricApiReq -> bytes;
  req_from_slice : bytes -> result string MetricApiReq;
  resp_to_vec : MetricApiResp -> bytes;
  resp_from_slice : Z -> bytes -> result string MetricApiResp;
}.

(** A socket address is written as its IP and port alone: the flow and the scope
    of an IPv6 address are not. *)
Definition wire_addr (a : SocketAddr) : SocketAddr :=
  match a with SocketV4 _ _ => a | SocketV6 ip port _ _ => SocketV6 ip port 0 0 end.

(** Of peers that become the same, one count is kept. *)
Definition same_peers (ps ps' : gmap SocketAddr Z) : Prop :=
  (forall a n, ps !! a = Some n -> is_Some (ps' !! wire_addr a)) /\
  (forall a' n, ps' !! a' = Some n -> exists a, ps !! a = Some n /\ wire_addr a = a').

(** A metric read from the wire: [#[serde(skip)] peak_ewma] is set to its
    default. *)
Record same_metric (now : Z) (m m' : MetricData) : Prop := {
  sm_peers : same_peers (active_peers m) (active_peers m');
  sm_fields : m' = with_peers (active_peers m') (with_ewma (ewma_new now) m);
}.

Record same_backend (now : Z) (b b' : BackendMetric) : Prop := {
  sb_name : bm_backend_name b' = bm_backend_name b;
  sb_domain : bm_domain b' = bm_domain b;
  sb_address : bm_address b' = bm_address b;
  sb_metric : same_metric now (bm_metric b) (bm_metric b');
}.

Definition same_on_wire (now : Z) (resp resp' : MetricApiResp) : Prop :=
  match resp with
  | RespAllBackends items => exists items', resp' = RespAllBackends items' /\ Forall2 (same_backend now) items items'
  | _ => resp' = resp
  end.

Class WireLaws `{Wire} := {
  req_round_trip : forall req, req_from_slice (req_to_vec req) = Ok req;
  resp_round_trip : forall now resp, exists resp',
    resp_from_slice now (resp_to_vec resp) = Ok resp' /\ same_on_wire now resp resp';
}.

Section Sys.
Context `{W : Wire} (rules : option HostRuler) (p : profile).

(** ** The client's side *)

(** The receive task of the socket: waiting for a message, handling a request
    as task [i] of the pool, or ended. *)
Inductive Session :=
  | SIdle
  | SBusy (i : option nat) (reply : prog MetricApiResp)
  | SClosed.

(** [inbox] and [outbox]: the messages written and not yet read. *)
Record Srv := {
  pool : Pool;
  session : Session;
  inbox : list (WsMessage bytes);
  outbox : list bytes;
}.

Inductive SrvEvent :=
  (** the receive task takes a message; a step of the request it handles; the
      reply is sent; the socket is closed, before a message or at a reply *)
  | Take | Turn (e : Env) | Reply | Hangup
  (** any other task, or a new one *)
  | Other (ev : event).

Definition request_of (msg : WsMessage bytes) : option MetricApiReq :=
  match msg with
  | WsBinary b => match req_from_slice b with Ok req => Some req | Err _ => None end
  | _ => None
  end.

(** The receive task handles a request itself: it is a task of the pool from
    the message to the reply. *)
Definition srv_take (msg : WsMessage bytes) (rest : list (WsMessage bytes)) (s : Srv) : option Srv :=
  match ws_turn req_from_slice msg with
  | WsReply reply =>
      match request_of msg with
      | Some req =>
          pool' ← step_pool body (job_prog rules) (Arrive (JApi req)) (pool s);
          Some {| pool := pool'; session := SBusy (Some (length (p_tasks (pool s)))) reply;
                  inbox := rest; outbox := outbox s |}
      | None => Some {| pool := pool s; session := SBusy None reply; inbox := rest; outbox := outbox s |}
      end
  | WsContinue => Some {| pool := pool s; session := SIdle; inbox := rest; outbox := outbox s |}
  | WsReturn => Some {| pool := pool s; session := SClosed; inbox := rest; outbox := outbox s |}
  end.

Definition handled_by (ses : Session) (i : nat) : bool :=
  match ses with SBusy (Some i') _ => bool_decide (i = i') | _ => false end.

Definition srv_step (ev : SrvEvent) (s : Srv) : option Srv :=
  match ev with
  | Take =>
      match session s, inbox s with
      | SIdle, msg :: rest => srv_take msg rest s
      | _, _ => None
      end
  | Turn e =>
      match session s with
      | SBusy (Some i) reply =>
          '(reply, _, _) ← step_prog body e reply (p_world (pool s));
          pool' ← step_task body (job_prog rules) i e (pool s);
          Some {| pool := pool'; session := SBusy (Some i) reply; inbox := inbox s; outbox := outbox s |}
      | _ => None
      end
  | Reply =>
      match session s with
      | SBusy _ (Ret resp) => Some {| pool := pool s; session := SIdle; inbox := inbox s;
          outbox := outbox s ++ [resp_to_vec resp] |}
      | _ => None
      end
  | Hangup =>
      match session s with
      | SIdle | SBusy _ (Ret _) => Some {| pool := pool s; session := SClosed; inbox := inbox s; outbox := outbox s |}
      | _ => None
      end
  | Other ev =>
      let own := match ev with Run i _ => handled_by (session s) i | Arrive _ => false end in
      if own then None
      else pool' ← step_pool body (job_prog rules) ev (pool s);
        Some {| pool := pool'; session := session s; inbox := inbox s; outbox := outbox s |}
  end.

(** ** The whole *)

Record UiSystem := { tui : Tui; srv : Srv }.

Inductive UiEvent :=
  (** a thread of the UI, the socket's writing and its failures included *)
  | Thread (ev : TuiEvent)
  (** the fetch thread reads the oldest reply *)
  | ReadReply (now : Z)
  | Serve (ev : SrvEvent).

(** The service sends nothing but replies. *)
Definition thread_event (ev : TuiEvent) : bool :=
  match ev with
  | FetchRead (ReadBinary _) | FetchRead ReadOther => false
  | _ => true
  end.

(** The message a step of the fetch thread writes. *)
Definition written (ev : TuiEvent) (t : Tui) : list (WsMessage bytes) :=
  match ev with
  | FetchSend | FetchTick =>
      match list.last (outstanding t) with Some req => [WsBinary (req_to_vec req)] | None => [] end
  | _ => []
  end.

Definition push_inbox (msgs : list (WsMessage bytes)) (s : Srv) : Srv :=
  {| pool := pool s; session := session s; inbox := inbox s ++ msgs; outbox := outbox s |}.
Definition set_outbox (out : list bytes) (s : Srv) : Srv :=
  {| pool := pool s; session := session s; inbox := inbox s; outbox := out |}.

Definition system_step (ev : UiEvent) (s : UiSystem) : option (outcome UiSystem) :=
  match ev with
  | Thread ev =>
      if thread_event ev then
        o ← tui_step p ev (tui s);
        Some (t ← o; Done {| tui := t; srv := push_inbox (written ev t) (srv s) |})
      else None
  | ReadReply now =>
      match outbox (srv s) with
      | b :: rest =>
          o ← tui_step p (FetchRead (ReadBinary (resp_from_slice now b))) (tui s);
          Some (t ← o; Done {| tui := t; srv := set_outbox rest (srv s) |})
      | [] => None
      end
  | Serve ev => s' ← srv_step ev (srv s); Some (Done {| tui := tui s; srv := s' |})
  end.

Definition system_start (w : World) : UiSystem := {|
  tui := tui_start;
  srv := {| pool := {| p_tasks := []; p_world := w |}; session := SIdle; inbox := []; outbox := [] |} |}.

(** The environments that occur satisfy [ok]. *)
Definition event_env (ok : Env -> Prop) (ev : UiEvent) : Prop :=
  match ev with
  | Serve (Turn e) | Serve (Other (Run _ e)) => ok e
  | _ => True
  end.

Inductive system_reachable (ok : Env -> Prop) (w : World) : UiSystem -> Prop :=
  | sys_init : system_reachable ok w (system_start w)
  | sys_next s ev s' : system_reachable ok w s -> event_env ok ev -> system_step ev s = Some (Done s') ->
      system_reachable ok w s'.

(** ** What the service knows of the backends *)

(** Names, domains and addresses never change. *)
Definition Identity : Type := string * string * string.
Definition cell_identity (c : BackendCell) : Identity := (be_name c, be_domain c, be_address c).
Definition identity (m : BackendMetric) : Identity := (bm_backend_name m, bm_domain m, bm_address m).
Definition statics (w : World) : list Identity := cell_identity <$> w_backends w.

Section Knowledge.
Context (K : list Identity).

Fixpoint answers_of (o : op) : resp o -> Prop :=
  match o return resp o -> Prop with
  | NumBackends => fun n => n = length K
  | GetMetric b => fun m => K !! b = Some (identity m)
  | OrCancel _ o => fun r => match r with Some r => answers_of o r | None => True end
  | _ => fun _ => True
  end.

Lemma on_backend_statics b w f w' :
  on_backend b w f = Some w' -> (forall c c', f c = Some c' -> cell_identity c' = cell_identity c) -> statics w' = statics w.
Proof.
  intros H Hf. apply on_backend_Some in H as (c & c' & Hc & Hcc & ->). unfold statics. cbn.
  rewrite list_fmap_insert, (Hf c c' Hcc). apply list_insert_id. by rewrite list_lookup_fmap, Hc.
Qed.

Lemma op_statics e o w r w' js :
  op_eval e o w = Some (r, w', js) -> statics w = K -> statics w' = K /\ answers_of o r.
Proof.
  intros H HK. revert r w' js H; induction o; intros r w' js H; cbn [op_eval] in H.
  all: try (apply done_unit_Some in H as [H _]; split; [|exact I];
    first [ rewrite <- HK; eapply on_backend_statics; [exact H|]; clear; intros c0 c1 E; cbn beta in E; repeat case_match; by simplify_eq
          | apply on_client_Some in H as (?&?&_&_& ->); exact HK ]).
  all: try (destruct (w_backends w !! b) as [c|] eqn:Ec; cbn in H; [|done]; injection H as <- <- <-; split; [done|]; try exact I).
  all: try (destruct (w_clients w !! c); cbn in H; [|done]; injection H as <- <- <-; split; [done|exact I]).
  all: try (injection H as <- <- <-; split; [done|exact I]).
  - injection H as <- <- <-. split; [done|]. cbn. rewrite <- HK. unfold statics. by rewrite length_fmap.
  - cbn. rewrite <- HK. unfold statics. by rewrite list_lookup_fmap, Ec.
  - destruct (balance_next _ _ _ _ _) as [[x b]|]; [|done]. by injection H as <- <- <-.
  - done.
  - destruct (e_net e q); [|done]. by injection H as <- <- <-.
  - case_match; [by injection H as <- <- <-|].
    destruct (op_eval e o w) as [[[r0 w0] js0]|] eqn:E; [|done]. injection H as <- <- <-. by eapply IHo.
Qed.

Lemma step_prog_statics {A} e (q q' : prog A) w w' js :
  step_prog body e q w = Some (q', w', js) -> statics w = K -> statics w' = K.
Proof.
  destruct q as [a|o k|l k]; cbn; [done| |by intros [= _ <- _]].
  destruct (op_eval e o w) as [[[r w1] js1]|] eqn:E; [|done]. intros [= _ <- _] HK. by eapply op_statics.
Qed.

Lemma step_pool_statics ev s s' :
  step_pool body (job_prog rules) ev s = Some s' -> statics (p_world s) = K -> statics (p_world s') = K.
Proof.
  destruct ev as [i e|j]; cbn.
  - unfold step_task. destruct (p_tasks s !! i) as [[j q]|]; cbn; [|done].
    destruct (step_prog body e q (p_world s)) as [[[q' w'] js]|] eqn:E; [|done]. intros [= <-]. by eapply step_prog_statics.
  - destruct (external j); [|done]. by intros [= <-].
Qed.

(** ** Replies *)

(** A reply to [req]: of its kind; an error only of a protocol switch or for
    a backend that does not exist; a list that names every backend. *)
Definition reply_ok (req : MetricApiReq) (resp : MetricApiResp) : Prop :=
  reply_matches req resp /\
  (forall msg, resp = RespError msg ->
     exists id, req = ReqSwitchBackendProtocol id \/ user_request id req /\ (length K <= id)%nat) /\
  (forall items, resp = RespAllBackends items -> identity <$> items = K).

Lemma post_metrics n k :
  (k + n = length K)%nat -> post answers_of (fun items => identity <$> items = drop k K) (metrics_loop (seq k n)).
Proof.
  revert k; induction n as [|n IH]; intros k Hk; cbn.
  - rewrite drop_ge by lia. done.
  - intros m Hm. eapply post_bind; [apply (IH (S k)); lia|]. intros rest Hr. cbn.
    rewrite Hr, (drop_S K (identity m) k Hm). done.
Qed.

Lemma post_get_all : post answers_of (fun items => identity <$> items = K) get_all_backends.
Proof. intros n ->. apply (post_metrics (length K) 0). done. Qed.

(** A handler succeeds when its backend exists. *)
Definition done_or_missing (id : nat) (r : result string unit) : Prop := r = Ok tt \/ (length K <= id)%nat.

Ltac post_steps := repeat first
  [ progress (intros; cbn) | apply post_then | case_match | by left ].

Lemma post_find id {A} (Q : A -> Prop) (f : option nat -> prog A) :
  post answers_of Q (f (Some id)) -> ((length K <= id)%nat -> post answers_of Q (f None)) ->
  post answers_of Q (pbind (find_backend_by_id id) f).
Proof. intros H1 H2. intros n ->. cbn. case_decide; [done|]. apply H2. lia. Qed.

Lemma post_switch_status id : post answers_of (done_or_missing id) (switch_backend_status id).
Proof. apply post_find; [post_steps|by right]. Qed.

Lemma post_reset id : post answers_of (done_or_missing id) (reset_backend id).
Proof. apply post_find; [post_steps|by right]. Qed.

Lemma post_switcher_ok req : post answers_of (reply_ok req) (backend_metric_switcher req).
Proof.
  destruct req as [id|id|id|]; cbn [backend_metric_switcher].
  - eapply post_bind; [apply post_switch_status|]. intros [a|e] [H|H]; try done; cbn.
    split; [done|]. split; [|done]. intros _ _. exists id. right. split; [by left|done].
  - apply post_then. intros [a|e]; (split; [done|]; split; [|done]); [done|]. intros _ _. exists id. by left.
  - eapply post_bind; [apply post_reset|]. intros [a|e] [H|H]; try done; cbn.
    split; [done|]. split; [|done]. intros _ _. exists id. right. split; [by right; right|done].
  - eapply post_bind; [apply post_get_all|]. intros items H. split; [done|]. split; [done|]. by intros ? [= <-].
Qed.
End Knowledge.

(** ** What links the two sides *)

Definition encode (req : MetricApiReq) : WsMessage bytes := WsBinary (req_to_vec req).

(** A reply in transit. *)
Definition carries (K : list Identity) (req : MetricApiReq) (b : bytes) : Prop :=
  exists resp, b = resp_to_vec resp /\ reply_ok K req resp.

(** [rest]: the unanswered requests whose reply was not sent yet. *)
Definition session_ok (K : list Identity) (rest : list MetricApiReq) (s : Srv) : Prop :=
  match session s with
  | SIdle => inbox s = encode <$> rest
  | SBusy oi reply => exists i req rest', oi = Some i /\ rest = req :: rest' /\ inbox s = encode <$> rest' /\
      post (answers_of K) (reply_ok K req) reply /\ p_tasks (pool s) !! i = Some (JApi req, detach reply)
  | SClosed => True
  end.

Definition wire_ok (K : list Identity) (unanswered : list MetricApiReq) (s : Srv) : Prop :=
  exists replied rest, unanswered = replied ++ rest /\ Forall2 (carries K) replied (outbox s) /\ session_ok K rest s.

(** The fetch thread waits for the reply to its one request. *)
Definition waits_for (t : Tui) : Prop :=
  match fetch t with
  | FConnecting | FIdle => outstanding t = []
  | FWaiting => exists req, outstanding t = [req]
  | FEnding _ | FEnded => True
  end.

Record linked (K : list Identity) (s : UiSystem) : Prop := {
  lk_statics : statics (p_world (pool (srv s))) = K;
  lk_wire : wire_ok K (outstanding (tui s)) (srv s);
  lk_wait : waits_for (tui s);
}.

(** *** Steps of the pool *)

Lemma step_detach e (q : prog MetricApiResp) w :
  match q with Ret _ => True | _ =>
    step_prog body e (detach q) w = ('(q', w', js) ← step_prog body e q w; Some (detach q', w', js))
  end.
Proof.
  destruct q as [a|o k|l k]; [done| |]; cbn.
  - by destruct (op_eval e o w) as [[[r w1] js1]|].
  - unfold detach. by rewrite pbind_assoc.
Qed.

Lemma step_task_at i e s s' :
  step_task body (job_prog rules) i e s = Some s' ->
  exists j q q' w' js, p_tasks s !! i = Some (j, q) /\ step_prog body e q (p_world s) = Some (q', w', js) /\
    s' = {| p_tasks := <[i := (j, q')]> (p_tasks s) ++ spawn_all (job_prog rules) js; p_world := w' |}.
Proof.
  unfold step_task. destruct (p_tasks s !! i) as [[j q]|] eqn:Ei; cbn; [|done].
  destruct (step_prog body e q (p_world s)) as [[[q' w'] js]|] eqn:Es; cbn; [|done]. intros [= <-]. eauto 10.
Qed.

Lemma step_pool_other ev s s' i x :
  step_pool body (job_prog rules) ev s = Some s' -> match ev with Run i' _ => i' <> i | Arrive _ => True end ->
  p_tasks s !! i = Some x -> p_tasks s' !! i = Some x.
Proof.
  destruct ev as [i' e|j]; cbn.
  - intros (j & q & q' & w' & js & Hi & Hs & ->)%step_task_at Hne Hx. cbn.
    rewrite lookup_app_l by (rewrite length_insert; by eapply lookup_lt_Some). by rewrite list_lookup_insert_ne.
  - destruct (external j); [|done]. intros [= <-] _ Hx. cbn. rewrite lookup_app_l; [done|by eapply lookup_lt_Some].
Qed.

(** *** The client's side keeps the link *)

Context {WL : WireLaws}.

Lemma take_session K req rest s s' :
  srv_take (encode req) (encode <$> rest) s = Some s' ->
  outbox s' = outbox s /\ session_ok K (req :: rest) s' /\ inbox s' = encode <$> rest /\
  step_pool body (job_prog rules) (Arrive (JApi req)) (pool s) = Some (pool s') /\ session s' <> SClosed.
Proof.
  unfold srv_take, encode at 1 2. cbn [ws_turn request_of]. rewrite req_round_trip. cbn. intros [= <-].
  split; [done|]. split; [|done]. cbn. exists (length (p_tasks (pool s))), req, rest. do 3 (split; [done|]).
  split; [apply post_switcher_ok|]. cbn. by rewrite lookup_app_r, Nat.sub_diag by lia.
Qed.

Lemma srv_step_wire K ev s s' unanswered :
  srv_step ev s = Some s' -> statics (p_world (pool s)) = K -> wire_ok K unanswered s ->
  wire_ok K unanswered s' /\ statics (p_world (pool s')) = K /\
  (pool s' = pool s \/ exists ev', step_pool body (job_prog rules) ev' (pool s) = Some (pool s') /\
     match ev, ev' with
     | Turn e, Run _ e' | Other (Run _ e), Run _ e' => e' = e
     | Take, Arrive _ | Other (Arrive _), Arrive _ => True
     | _, _ => False
     end).
Proof.
  intros H HK (r1 & rest & -> & H1 & H2). destruct ev as [|e| | |ev]; cbn in H.
  - unfold session_ok in H2. destruct (session s) eqn:Es; try done. destruct (inbox s) as [|msg msgs] eqn:Ei; [done|].
    destruct rest as [|req rest]; [done|]. injection H2 as -> ->.
    destruct (take_session K _ _ _ _ H) as (E1 & E2 & _ & E3 & _). split; [exists r1, (req :: rest); by rewrite E1|].
    split; [by eapply step_pool_statics|]. right. by exists (Arrive (JApi req)).
  - unfold session_ok in H2. destruct (session s) as [|[i|] reply|] eqn:Es; try done.
    destruct H2 as (i' & req & rest' & [= <-] & -> & Hin & Hp & Hi).
    destruct (step_prog body e reply (p_world (pool s))) as [[[q w1] js1]|] eqn:Eq; [|done]. cbn in H.
    destruct (step_task body (job_prog rules) i e (pool s)) as [pool'|] eqn:Et; [|done]. injection H as <-.
    split; [|split; [by eapply (step_pool_statics K (Run i e))|right; by exists (Run i e)]].
    exists r1, (req :: rest'). split; [done|]. split; [done|]. cbn. exists i, req, rest'. do 3 (split; [done|]). split.
    + eapply post_step; [|exact Eq|exact Hp]. intros o r w2 js2 Ho. by eapply op_statics.
    + apply step_task_at in Et as (j & q0 & q1 & w2 & js & Hi' & Hs & ->). cbn.
      rewrite Hi in Hi'. injection Hi' as <- <-. pose proof (step_detach e reply (p_world (pool s))) as Hd.
      destruct reply as [a|o k|l k]; [done| |]; rewrite Hd, Eq in Hs; cbn in Hs; injection Hs as <- <- <-;
        (rewrite lookup_app_l by (rewrite length_insert; by eapply lookup_lt_Some));
        (rewrite list_lookup_insert_eq; [done|by eapply lookup_lt_Some]).
  - unfold session_ok in H2. destruct (session s) as [|oi [resp| |]|] eqn:Es; try done. injection H as <-.
    destruct H2 as (i & req & rest' & -> & -> & Hin & Hp & Hi). split; [|split; [done|by left]].
    exists (r1 ++ [req]), rest'. split; [by rewrite <- app_assoc|]. split; [|exact Hin].
    apply Forall2_app; [done|]. constructor; [|constructor]. by exists resp.
  - assert (Hc : {| pool := pool s; session := SClosed; inbox := inbox s; outbox := outbox s |} = s' ->
      wire_ok K (r1 ++ rest) s' /\ statics (p_world (pool s')) = K /\ pool s' = pool s) by (intros <-; split; [by exists r1, rest|done]).
    destruct (session s) as [|? []|]; try done; injection H as H; apply Hc in H as (? & ? & ?); auto.
  - destruct (match ev with Run i _ => handled_by (session s) i | Arrive _ => false end) eqn:Eo; [done|].
    destruct (step_pool body (job_prog rules) ev (pool s)) as [pool'|] eqn:Ep; [|done]. injection H as <-.
    split; [|split; [by eapply step_pool_statics|right; exists ev; split; [done|by destruct ev]]].
    exists r1, rest. split; [done|]. split; [done|]. unfold session_ok in *. cbn.
    destruct (session s) as [|oi reply|]; try done. destruct H2 as (i & req & rest' & -> & -> & Hin & Hp & Hi).
    exists i, req, rest'. do 4 (split; [done|]). eapply step_pool_other; [exact Ep| |exact Hi].
    destruct ev as [i' e|]; [|done]. cbn in Eo. by case_bool_decide.
Qed.

(** *** The UI's side keeps the link *)

Lemma thread_wire ev t t' :
  tui_step p ev t = Some (Done t') -> thread_event ev = true -> waits_for t ->
  waits_for t' /\ event_ok ev t /\
  (outstanding t' = outstanding t /\ written ev t' = []
   \/ exists req, fetch t' = FWaiting /\ outstanding t' = outstanding t ++ [req] /\ written ev t' = [encode req]).
Proof.
  unfold waits_for. intros H Hev Hw. destruct ev as [index|r|cr| | |e|m|].
  - destruct (ui_step _ _ _ _ H) as ([E1 E2 _ _ _] & _). rewrite E1, E2. (split; [done|]; split; [done|]; by left).
  - cbn in H. destruct (senders _); [|done]. injection H as <-. cbn. (split; [done|]; split; [done|]; by left).
  - cbn in H. destruct (fetch t); try done. destruct cr; injection H as <-; cbn; (split; [done|]; split; [done|]; by left).
  - cbn in H. destruct (fetch t), (inner_queue (fetcher (app t))) as [|req q]; try done. injection H as <-. cbn.
    rewrite Hw. cbn. split; [by exists req|]. split; [done|]. right. by exists req.
  - cbn in H. destruct (fetch t); try done. injection H as <-. cbn. rewrite Hw. cbn. split; [by exists ReqAllBackends|].
    split; [done|]. right. by exists ReqAllBackends.
  - cbn in H. destruct (fetch t); try done. injection H as <-. cbn. (split; [done|]; split; [done|]; by left).
  - cbn in H. destruct (fetch t); try done. destruct m; try done; injection H as <-; cbn; (split; [done|]; split; [done|]; by left).
  - cbn in H. destruct (fetch t) as [| | |[|]|]; try done; injection H as <-; cbn; (split; [done|]; split; [done|]; by left).
Qed.

Lemma push_wire K unanswered req s :
  wire_ok K unanswered s -> wire_ok K (unanswered ++ [req]) (push_inbox [encode req] s).
Proof.
  intros (r1 & rest & -> & H1 & H2). exists r1, (rest ++ [req]). split; [by rewrite app_assoc|]. split; [done|].
  unfold session_ok in *. cbn. destruct (session s) as [|oi reply|]; [by rewrite H2, fmap_app| |done].
  destruct H2 as (i & req0 & rest' & -> & -> & Hin & Hp & Hi). exists i, req0, (rest' ++ [req]).
  rewrite Hin, fmap_app. by repeat split.
Qed.

Lemma push_nil s : push_inbox [] s = s.
Proof. unfold push_inbox. rewrite app_nil_r. by destruct s. Qed.

(** Reading the oldest reply. *)
Lemma read_wire K t s now b out :
  outbox s = b :: out -> wire_ok K (outstanding t) s -> fetch t = FWaiting -> waits_for t ->
  exists req resp resp', outstanding t = [req] /\ reply_ok K req resp /\ same_on_wire now resp resp' /\
    resp_from_slice now b = Ok resp' /\
    tui_step p (FetchRead (ReadBinary (resp_from_slice now b))) t = Some (Done (handle_resp resp' [] t)) /\
    wire_ok K [] (set_outbox out s).
Proof.
  intros Ho (r1 & rest & E & H1 & H2) Hf Hw. unfold waits_for in Hw. rewrite Hf in Hw. destruct Hw as [req Hw].
  rewrite Ho in H1. apply Forall2_cons_inv_r in H1 as (req' & r1' & (resp & -> & Hr) & H1 & ->).
  rewrite Hw in E. injection E as <- E. symmetry in E. apply app_eq_nil in E as [-> ->].
  destruct (resp_round_trip now resp) as (resp' & Er & Es). exists req, resp, resp'. do 4 (split; [done|]). rewrite Er.
  cbn. rewrite Hf, Hw. split; [done|]. exists [], []. by split.
Qed.

Lemma handle_resp_idle resp t : fetch (handle_resp resp [] t) = FIdle /\ outstanding (handle_resp resp [] t) = [].
Proof. by destruct resp. Qed.

Lemma on_wire_matches now req resp resp' : same_on_wire now resp resp' -> reply_matches req resp -> reply_matches req resp'.
Proof. destruct resp; cbn; [intros ->; done..|intros (items' & -> & _)|intros ->; done]. by destruct req. Qed.

Lemma system_linked K s ev s' :
  system_step ev s = Some (Done s') -> linked K s -> linked K s' /\
  match ev with
  | Thread ev' => event_ok ev' (tui s) /\ tui_step p ev' (tui s) = Some (Done (tui s')) /\ pool (srv s') = pool (srv s)
  | ReadReply now => pool (srv s') = pool (srv s) /\ exists m, event_ok (FetchRead m) (tui s) /\
      tui_step p (FetchRead m) (tui s) = Some (Done (tui s'))
  | Serve ev' => tui s' = tui s /\ srv_step ev' (srv s) = Some (srv s')
  end.
Proof.
  intros H [L1 L2 L3]. destruct ev as [ev|now|ev]; cbn -[tui_step] in H.
  - destruct (thread_event ev) eqn:Ev; [|done]. destruct (tui_step p ev (tui s)) as [[t'|]|] eqn:Es; [|done..].
    cbn in H. injection H as <-. destruct (thread_wire ev _ _ Es Ev L3) as (H1 & H2 & H3). split; [|done].
    split; cbn; [done| |done].
    destruct H3 as [[-> ->]|(req & _ & -> & ->)]; [by rewrite push_nil|by apply push_wire].
  - destruct (outbox (srv s)) as [|b out] eqn:Eo; [done|].
    destruct (fetch (tui s)) eqn:Ef; try (cbn in H; rewrite Ef in H; discriminate H).
    destruct (read_wire K _ _ now b out Eo L2 Ef L3) as (req & resp & resp' & E1 & E2 & E3 & E0 & E4 & E5).
    rewrite E4 in H. cbn in H. injection H as <-. destruct (handle_resp_idle resp' (tui s)) as [F1 F2].
    split; [|split; [done|]].
    + split; cbn; [done|by rewrite F2|by unfold waits_for; rewrite F1].
    + eexists. split; [|exact E4]. unfold event_ok. rewrite E0, E1. eapply on_wire_matches; [exact E3|apply E2].
  - destruct (srv_step ev (srv s)) as [s1|] eqn:Es; [|done]. cbn in H. injection H as <-.
    destruct (srv_step_wire K _ _ _ _ Es L1 L2) as (H1 & H2 & _). by split; [split|].
Qed.

Lemma start_linked w : linked (statics w) (system_start w).
Proof. split; [done| |done]. by exists [], []. Qed.

Lemma reachable_linked ok w s : system_reachable ok w s -> linked (statics w) s.
Proof. induction 1 as [|s ev s' Hr IH He Hs]; [apply start_linked|]. by eapply system_linked. Qed.

Lemma system_pool ok w s :
  system_reachable ok w s -> reachable body (job_prog rules) {| p_tasks := []; p_world := w |} (pool (srv s)).
Proof.
  induction 1 as [|s ev s' Hr IH He Hs]; [constructor|]. pose proof (reachable_linked _ _ _ Hr) as Hl.
  destruct (system_linked _ _ _ _ Hs Hl) as [_ H]. destruct ev as [ev|now|ev].
  - destruct H as (_ & _ & ->). done.
  - destruct H as (-> & _). done.
  - destruct H as [_ H]. destruct (srv_step_wire _ _ _ _ _ H (lk_statics _ _ Hl) (lk_wire _ _ Hl)) as (_ & _ & [->|(ev' & H' & _)]); [done|].
    by eapply reach_step.
Qed.

(** While the fetch thread waits, the threads write nothing. *)
Lemma waiting_thread ev t t' :
  tui_step p ev t = Some (Done t') -> thread_event ev = true -> fetch t = FWaiting ->
  written ev t' = [] /\ (fetch t' = FWaiting \/ ended t' = true).
Proof.
  intros H Hev Hw. destruct ev as [index|r|cr| | |e|m|].
  - destruct (ui_step _ _ _ _ H) as ([E1 E2 _ _ _] & _). rewrite E1. by split; [|left].
  - cbn in H. destruct (senders _); [|done]. injection H as <-. by split; [|left].
  - cbn in H. by rewrite Hw in H.
  - cbn in H. by rewrite Hw in H.
  - cbn in H. by rewrite Hw in H.
  - cbn in H. by rewrite Hw in H.
  - cbn in H. rewrite Hw in H. destruct m; try done; injection H as <-; by split; [|right].
  - cbn in H. by rewrite Hw in H.
Qed.

(** C8: The composed system refines its parts: the UI's half of every run is a run
    of the two UI threads in which every message read is the reply to the
    oldest unanswered request - what [Tui.event_ok] assumes - and the other
    half is a run of the client's task pool. *)
Theorem system_refines_parts ok w s :
  system_reachable ok w s ->
  tui_reachable p tui_start (tui s) /\
  reachable body (job_prog rules) {| p_tasks := []; p_world := w |} (pool (srv s)) /\
  linked (statics w) s.
Proof.
  intros Hr. split; [|split; [|by eapply reachable_linked]].
  - induction Hr as [|s ev s' Hr IH He Hs]; [constructor|].
    destruct (system_linked _ _ _ _ Hs (reachable_linked _ _ _ Hr)) as [_ H]. destruct ev as [ev|now|ev].
    + destruct H as (H1 & H2 & _). by eapply tui_next.
    + destruct H as (_ & m & H1 & H2). by eapply tui_next.
    + destruct H as [-> _]. done.
  - by eapply system_pool.
Qed.

(** ** Requests are answered *)

(** The client's side with the queues of its locks ([Fair]). *)
Record FairSrv := { fs_srv : Srv; fs_queue : list Waiting }.

Inductive fair_srv_event := SrvJoin (i : nat) | SrvGo (ev : SrvEvent).

(** The step of the task pool that an event makes under the queues. *)
Definition task_event (ev : SrvEvent) (s : Srv) : option event :=
  match ev with
  | Turn e => match session s with SBusy (Some i) _ => Some (Run i e) | _ => None end
  | Other ev => Some ev
  | _ => None
  end.

Definition fair_srv_step (ev : fair_srv_event) (f : FairSrv) : option FairSrv :=
  let s := fs_srv f in
  let q := fs_queue f in
  match ev with
  | SrvJoin i => q ← join i (pool s) q; Some {| fs_srv := s; fs_queue := q |}
  | SrvGo ev =>
      match task_event ev s with
      | Some ev' =>
          if permits ev' (pool s) q
          then s' ← srv_step ev s; Some {| fs_srv := s'; fs_queue := queue_after ev' q |} else None
      | None => s' ← srv_step ev s; Some {| fs_srv := s'; fs_queue := q |}
      end
  end.

(** Fluctuations and arrivals, as in [Liveness]; the request itself is free. *)
Definition srv_cost (ev : fair_srv_event) (f : FairSrv) : nat :=
  match ev with
  | SrvJoin _ => 0
  | SrvGo ev => match task_event ev (fs_srv f) with Some ev => event_cost ev (pool (fs_srv f)) | None => 0 end
  end.

(** What the client does by itself in the environment [e]. *)
Definition own_event (e : Env) (ev : SrvEvent) : Prop :=
  match ev with
  | Take | Reply => True
  | Turn e' | Other (Run _ e') => e' = e
  | _ => False
  end.

(** The client can go on by itself, perhaps after a task has joined a queue. *)
Definition goes_on (e : Env) (f : FairSrv) : Prop :=
  exists f1 ev f2, (f1 = f \/ exists i, fair_srv_step (SrvJoin i) f = Some f1) /\ own_event e ev /\
    fair_srv_step (SrvGo ev) f1 = Some f2.

(** Every run with at most [n] fluctuations and arrivals in which the socket is
    not closed comes to a reply, and does not get stuck before it. *)
Inductive will_reply : nat -> FairSrv -> Prop :=
  | wr_sent n f : outbox (fs_srv f) <> [] -> will_reply n f
  | wr_step n f :
      (forall e, answers e -> goes_on e f) ->
      (forall ev f', ev <> SrvGo Hangup -> fair_srv_step ev f = Some f' -> (srv_cost ev f <= n)%nat ->
         will_reply (n - srv_cost ev f) f') ->
      will_reply n f.

(** A request is under way. *)
Definition under_way (K : list Identity) (req : MetricApiReq) (s : Srv) : Prop :=
  outbox s = [] /\ session s <> SClosed /\ session_ok K [req] s.

Lemma ret_or_not {A} (q : prog A) : (exists a, q = Ret a) \/ ~ exists a, q = Ret a.
Proof. destruct q as [a|o k|l k]; [left; by exists a|right; by intros [? ?]..]. Qed.

(** A step of the pool, as an event of the service. *)
Lemma run_event K req i e s q f2 :
  under_way K req s -> fair_step rules (Go (Run i e)) {| fp_pool := pool s; fp_queue := q |} = Some f2 ->
  exists ev f3, own_event e ev /\ fair_srv_step (SrvGo ev) {| fs_srv := s; fs_queue := q |} = Some f3.
Proof.
  intros (_ & Hc & Hs) H. cbn in H. destruct (granted i e (pool s) q) eqn:Eg; [|done].
  destruct (step_task body (job_prog rules) i e (pool s)) as [s'|] eqn:Es; [|done]. clear H.
  unfold session_ok in Hs. destruct (session s) as [|oi reply|] eqn:Ese; [| |done].
  { exists (Other (Run i e)). cbn. rewrite Eg, Ese. cbn. rewrite Es. by eexists. }
  destruct Hs as (i' & req' & rest' & -> & _ & _ & _ & Hi). destruct (decide (i = i')) as [->|Hne].
  - exists (Turn e). cbn. rewrite Ese. cbn. rewrite Eg. apply step_task_at in Es as H2.
    destruct H2 as (j & q0 & q' & w' & js & Hi' & Hq & _). rewrite Hi in Hi'. injection Hi' as <- <-.
    pose proof (step_detach e reply (p_world (pool s))) as Hd. destruct (ret_or_not reply) as [[a ->]|Hn]; [done|].
    destruct reply as [a|o k|l k]; [by destruct Hn; exists a| |]; rewrite Hd in Hq;
      (destruct (step_prog body e _ _) as [[[q1 w1] js1]|]; [|done]); cbn; rewrite Es; by eexists.
  - exists (Other (Run i e)). cbn. rewrite Eg, Ese. cbn. rewrite bool_decide_false by done. rewrite Es. by eexists.
Qed.

(** The client can always do something about it. *)
Lemma under_way_runs K req w s q e :
  fresh_world w -> reachable body (job_prog rules) {| p_tasks := []; p_world := w |} (pool s) -> queue_ok (pool s) q ->
  under_way K req s -> answers e -> goes_on e {| fs_srv := s; fs_queue := q |}.
Proof.
  intros Hf Hr Hq Hu He. pose proof Hu as (Ho & Hc & Hs). unfold session_ok in Hs.
  assert (Hnow : forall ev s', own_event e ev -> task_event ev s = None -> srv_step ev s = Some s' ->
    goes_on e {| fs_srv := s; fs_queue := q |}).
  { intros ev s' H1 H2 H3. exists {| fs_srv := s; fs_queue := q |}, ev. eexists. split; [by left|]. split; [done|].
    cbn. by rewrite H2, H3. }
  destruct (session s) as [|oi reply|] eqn:Es; [| |done].
  - eapply (Hnow Take); [done|done|]. unfold srv_step. rewrite Es, Hs. cbn [fmap list_fmap]. unfold srv_take, encode. cbn.
    by rewrite req_round_trip.
  - destruct Hs as (i & req' & rest' & -> & _ & _ & _ & Hi). destruct (ret_or_not reply) as [[resp ->]|Hn].
    { eapply (Hnow Reply); [done|done|]. unfold srv_step. by rewrite Es. }
    destruct (reachable_inv rules w _ Hf Hr) as [hs Hinv].
    destruct (progress rules e He (pool s) hs q Hinv Hq) as [Hd|(i' & f1 & f2 & Hj & H2)].
    { destruct (Hd i _ _ Hi) as [a Ha]. destruct reply as [resp| |]; [|done..]. by destruct Hn; exists resp. }
    destruct Hj as [->|Hj].
    + destruct (run_event K req i' e s q f2 Hu H2) as (ev & f3 & H3 & H4).
      exists {| fs_srv := s; fs_queue := q |}, ev, f3. split; [by left|done].
    + cbn in Hj. destruct (join i' (pool s) q) as [q'|] eqn:Ej; [|done]. injection Hj as <-.
      destruct (run_event K req i' e s q' f2 Hu H2) as (ev & f3 & H3 & H4).
      exists {| fs_srv := s; fs_queue := q' |}, ev, f3. split; [right; exists i'; cbn; by rewrite Ej|done].
Qed.

(** A step leads to a reply in the outbox, or to a smaller inbox, or it is a
    step of the pool. *)
Lemma under_way_step K req s ev s' :
  statics (p_world (pool s)) = K -> ev <> Hangup -> srv_step ev s = Some s' -> under_way K req s ->
  outbox s' <> [] \/
  under_way K req s' /\ ((length (inbox s') < length (inbox s))%nat /\ task_event ev s = None \/
    inbox s' = inbox s /\ exists ev', task_event ev s = Some ev' /\ step_pool body (job_prog rules) ev' (pool s) = Some (pool s')).
Proof.
  intros HK Hev H (Ho & Hc & Hs).
  assert (Hw : wire_ok K [req] s) by (exists [], [req]; rewrite Ho; split; [done|by split]).
  destruct (srv_step_wire K ev s s' [req] H HK Hw) as ((r1 & rest & E & H1 & H2) & _ & Hp).
  destruct (outbox s') as [|b out] eqn:Eo; [right|by left]. inversion H1; subst r1. cbn in E. subst rest.
  assert (Hgoal : session s' <> SClosed -> under_way K req s') by done.
  unfold session_ok in Hs. destruct ev as [|e| | |ev]; try done; cbn in H |- *.
  - destruct (session s); try done. rewrite Hs in *. destruct (take_session K req [] s s' H) as (_ & _ & E & _ & E2).
    split; [by apply Hgoal|]. left. rewrite E. split; [cbn; lia|done].
  - destruct (session s) as [|[i|] reply|]; try done.
    destruct (step_prog body e reply _) as [[[q w1] js1]|]; [|done]. cbn in H.
    destruct (step_task body (job_prog rules) i e (pool s)) as [pool'|] eqn:Et; [|done]. injection H as <-.
    split; [by apply Hgoal|]. right. split; [done|]. by exists (Run i e).
  - destruct (session s) as [|? [resp| |]|]; try done. injection H as <-. cbn in Eo. by apply app_eq_nil in Eo as [_ ?].
  - destruct (match ev with Run i _ => handled_by (session s) i | Arrive _ => false end); [done|].
    destruct (step_pool body (job_prog rules) ev (pool s)) as [pool'|] eqn:Et; [|done]. injection H as <-.
    split; [by apply Hgoal|]. right. split; [done|]. by exists ev.
Qed.

Lemma take_pool ev s s' :
  task_event ev s = None -> srv_step ev s = Some s' ->
  pool s' = pool s \/ exists j, step_pool body (job_prog rules) (Arrive j) (pool s) = Some (pool s').
Proof.
  intros Ht H. destruct ev as [|e| | |ev]; cbn in H, Ht; try done.
  - destruct (session s); try done. destruct (inbox s) as [|msg msgs]; [done|]. unfold srv_take in H.
    destruct (ws_turn req_from_slice msg); try (injection H as <-; by left).
    destruct (request_of msg) as [req|]; injection H as <-; [right; by exists (JApi req)|by left].
  - by destruct (session s) as [|[i|] reply|].
  - destruct (session s) as [|? [resp| |]|]; try done. injection H as <-. by left.
  - destruct (session s) as [|? [resp| |]|]; try done; injection H as <-; by left.
Qed.

(** Fewer fluctuations, then fewer messages, then less work of the pool, then
    more tasks in the queues. *)
Lemma under_way_replies K req w n s q :
  fresh_world w -> reachable body (job_prog rules) {| p_tasks := []; p_world := w |} (pool s) -> queue_ok (pool s) q ->
  statics (p_world (pool s)) = K -> under_way K req s -> will_reply n {| fs_srv := s; fs_queue := q |}.
Proof.
  intros Hf. set (nb := length (w_backends w)). revert s q. induction n as [n IHn] using lt_wf_ind. intros s.
  remember (length (inbox s)) as m eqn:Em. revert s Em. induction m as [m IHm] using lt_wf_ind. intros s -> q Hr Hq HK Hu.
  assert (Hacc : forall l, Acc (list_ext _ (succ rules nb)) l -> forall k s1 q1 hs ks,
    (length (p_tasks (pool s1)) - length q1 < k)%nat -> length (inbox s1) = length (inbox s) ->
    reachable body (job_prog rules) {| p_tasks := []; p_world := w |} (pool s1) -> queue_ok (pool s1) q1 ->
    statics (p_world (pool s1)) = K -> under_way K req s1 -> live_pool rules nb n (pool s1) hs ks ->
    l ≡ₚ work (pool s1) ks -> will_reply n {| fs_srv := s1; fs_queue := q1 |}).
  { clear q Hr Hq HK Hu. induction 1 as [l Hacc IH]. induction k as [|k IHk]; intros s1 q1 hs ks Hk Hlen Hr Hq HK Hu Hl Hm; [lia|].
    apply wr_step; [intros e He; by eapply under_way_runs|].
    intros [i|ev] f' Hev Hs Hc; cbn [fair_srv_step srv_cost fs_srv fs_queue] in Hs, Hc |- *.
    - destruct (join i (pool s1) q1) as [q'|] eqn:Ej; [|done]. injection Hs as <-. rewrite Nat.sub_0_r.
      pose proof (join_length _ _ _ _ Ej). pose proof (queue_ok_join _ _ _ _ Hq Ej) as Hq'. pose proof (queue_length _ _ Hq').
      eapply IHk; [|exact Hlen|exact Hr|exact Hq'|exact HK|exact Hu|exact Hl|exact Hm]. lia.
    - destruct (task_event ev s1) as [ev'|] eqn:Et.
      + destruct (permits ev' (pool s1) q1); [|done]. destruct (srv_step ev s1) as [s'|] eqn:Es; [|done]. cbn in Hs. injection Hs as <-.
        destruct (under_way_step K req s1 ev s' HK ltac:(congruence) Es Hu) as [H|[Hu' [[_ H]|[Hin (ev2 & E2 & Hp)]]]];
          [by apply wr_sent|congruence|]. rewrite Et in E2. injection E2 as <-.
        assert (Hr' : reachable body (job_prog rules) {| p_tasks := []; p_world := w |} (pool s')) by (by eapply reach_step).
        pose proof (queue_ok_step rules ev' _ _ q1 Hq Hp) as Hq'. pose proof (step_pool_statics K _ _ _ Hp HK) as HK'.
        destruct (event_cost ev' (pool s1)) as [|c] eqn:Ec.
        * rewrite Nat.sub_0_r. destruct ev' as [i e|j]; [|done].
          destruct (live_pool_step rules nb n e i _ _ hs ks Hl Hp Ec) as (hs' & ks' & m1 & Hl' & Hm1 & Hext).
          destruct (list_ext_perm rules nb m1 _ l Hext Hm) as (m' & Hm' & Hext').
          eapply (IH m' Hext'); [apply Nat.lt_succ_diag_r|by rewrite Hin|exact Hr'|exact Hq'|exact HK'|exact Hu'|exact Hl'|by rewrite Hm'].
        * apply (IHn (n - S c)%nat); [lia|done..].
      + destruct (srv_step ev s1) as [s'|] eqn:Es; [|done]. cbn in Hs. injection Hs as <-. rewrite Nat.sub_0_r.
        destruct (under_way_step K req s1 ev s' HK ltac:(congruence) Es Hu) as [H|[Hu' [[Hin _]|[_ (ev2 & E2 & _)]]]];
          [by apply wr_sent| |congruence].
        destruct (take_pool ev s1 s' Et Es) as [Ep|[j Hp]].
        * eapply (IHm (length (inbox s'))); [lia|done|rewrite Ep; exact Hr|rewrite Ep; exact Hq|rewrite Ep; exact HK|exact Hu'].
        * eapply (IHm (length (inbox s'))); [lia|done|by eapply reach_step| |by eapply step_pool_statics|exact Hu'].
          exact (queue_ok_step rules (Arrive j) _ _ q1 Hq Hp). }
  destruct (reachable_live rules nb w (pool s) n Hf eq_refl Hr) as (hs & ks & Hl).
  eapply (Hacc (work (pool s) ks)); [by eapply live_pool_acc|apply Nat.lt_succ_diag_r|done|done|done|done|done|exact Hl|done].
Qed.

(** C9: A request the fetch thread waits for is answered as long as its socket is
    not closed: under every schedule with fair locks, whatever the network
    answers and whichever cancellations win - those of the request itself
    included - every run of the client in which at most [n] times a connection
    is found closed, a QUIC write of a head stalls, a backend is made [Normal]
    again or another connection or request arrives comes to the reply, and
    never gets stuck before it as long as the network answers at all.
    Meanwhile the UI's threads do not touch the client, and the fetch thread
    keeps waiting unless it ends; and when the reply is there the fetch thread
    can read it and is then ready for the next request. *)
Theorem ui_request_answered ok w s q n :
  fresh_world w -> system_reachable ok w s -> queue_ok (pool (srv s)) q ->
  fetch (tui s) = FWaiting -> session (srv s) <> SClosed ->
  will_reply n {| fs_srv := srv s; fs_queue := q |} /\
  (forall ev s', system_step (Thread ev) s = Some (Done s') ->
     srv s' = srv s /\ (fetch (tui s') = FWaiting \/ ended (tui s') = true)) /\
  (outbox (srv s) <> [] -> forall now, exists s', system_step (ReadReply now) s = Some (Done s') /\
     fetch (tui s') = FIdle /\ outstanding (tui s') = []).
Proof.
  intros Hf Hr Hq Hw Hses. pose proof (reachable_linked _ _ _ Hr) as [L1 L2 L3]. split; [|split].
  - destruct (outbox (srv s)) as [|b out] eqn:Eo; [|apply wr_sent; cbn; by rewrite Eo].
    unfold waits_for in L3. rewrite Hw in L3. destruct L3 as [req E]. destruct L2 as (r1 & rest & E1 & H1 & H2).
    rewrite Eo in H1. inversion H1; subst r1. rewrite E in E1. cbn in E1. subst rest.
    eapply under_way_replies; [exact Hf|by eapply system_pool|exact Hq|exact L1|by split].
  - intros ev s' H. cbn -[tui_step] in H. destruct (thread_event ev) eqn:Hev; [|done].
    destruct (tui_step p ev (tui s)) as [[t'|]|] eqn:Et; [|done..]. cbn in H. injection H as <-. cbn.
    destruct (waiting_thread ev _ _ Et Hev Hw) as [E1 E2]. by rewrite E1, push_nil.
  - intros Ho now. destruct (outbox (srv s)) as [|b out] eqn:Eo; [done|].
    destruct (read_wire _ _ _ now b out Eo L2 Hw L3) as (req & resp & resp' & _ & _ & _ & _ & E & _).
    destruct (handle_resp_idle resp' (tui s)).
    exists {| tui := handle_resp resp' [] (tui s); srv := set_outbox out (srv s) |}.
    split; [|done]. cbn -[tui_step]. by rewrite Eo, E.
Qed.

(** ** Requests name backends that exist *)

(** Nothing is selected but a row of the list, or the first row before the
    list arrives. *)
Definition selection_ok (n : nat) (a : App) : Prop :=
  exists i, backends_state a = Some i /\ 0 <= i < Z.of_nat n /\
    (backends (fetcher a) = [] /\ i = 0 \/ length (backends (fetcher a)) = n).

Definition names_valid (n : nat) (req : MetricApiReq) : Prop := forall id, user_request id req -> (id < n)%nat.

Lemma fit_debug w z z' : fit Debug w z = Done z' -> z' = z /\ in_width w z.
Proof. unfold fit. case_decide as Hd; [|done]. intros [= <-]. split; [done|exact Hd]. Qed.

(** In a debug build the selection moves only within a list. *)
Lemma moves_selection n a a' : moves Debug a a' -> fetcher a' = fetcher a -> selection_ok n a -> selection_ok n a'.
Proof.
  intros Hm Hf (i & Hi & Hn & Hb). unfold selection_ok. rewrite Hf.
  destruct Hm as [->|[H|H]]; [by exists i| |];
    unfold select_next_backend, select_prev_backend, num_backends in H; rewrite Hi in H; unfold usub, uadd in H.
  - destruct (fit Debug 64 (Z.of_nat (length (backends (fetcher a))) - 1)) as [last|] eqn:E; cbn in H; [|done]. apply fit_debug in E as [-> [E _]].
    destruct Hb as [[Hb _]|Hb]; [rewrite Hb in E; cbn in E; lia|]. rewrite Hb in *.
    case_decide as D; cbn in H.
    + injection H as <-. exists 0. cbn. split; [done|]. split; [lia|by right].
    + destruct (fit Debug 64 (i + 1)) as [i'|] eqn:E1; cbn in H; [|done]. apply fit_debug in E1 as [-> _].
      injection H as <-. exists (i + 1). cbn. split; [done|]. split; [lia|by right].
  - case_decide as D.
    + destruct (fit Debug 64 (Z.of_nat (length (backends (fetcher a))) - 1)) as [last|] eqn:E; cbn in H; [|done]. apply fit_debug in E as [-> [E _]].
      destruct Hb as [[Hb _]|Hb]; [rewrite Hb in E; cbn in E; lia|]. rewrite Hb in *.
      injection H as <-. exists (Z.of_nat n - 1). cbn. split; [done|]. split; [lia|by right].
    + destruct Hb as [[Hb ->]|Hb]; [done|].
      destruct (fit Debug 64 _) as [i'|] eqn:E; cbn in H; [|done]. apply fit_debug in E as [-> _].
      injection H as <-. exists (i - 1). cbn. split; [done|]. split; [lia|by right].
Qed.

Record valid_ui (K : list Identity) (t : Tui) : Prop := {
  vu_selection : selection_ok (length K) (app t);
  vu_requests : Forall (names_valid (length K)) (outstanding t ++ inner_queue (fetcher (app t)));
  vu_list : backends (fetcher (app t)) = [] \/ identity <$> backends (fetcher (app t)) = K;
}.

Lemma names_valid_user n id req : (id < n)%nat -> user_request id req -> names_valid n req.
Proof. intros Hid Hu id' Hu'. unfold user_request in *. naive_solver. Qed.

Lemma asks_valid (K : list Identity) a a' out :
  asks a a' -> selection_ok (length K) a -> Forall (names_valid (length K)) (out ++ inner_queue (fetcher a)) ->
  Forall (names_valid (length K)) (out ++ inner_queue (fetcher a')) /\ backends (fetcher a') = backends (fetcher a).
Proof.
  intros [->|(_ & _ & _ & E & _ & sel & req & Hs & Hu & ->)] (i & Hi & Hn & _) Hf; [done|]. split; [|done].
  rewrite app_assoc. apply Forall_app_2; [done|]. apply Forall_cons_2; [|apply Forall_nil_2].
  rewrite Hi in Hs. injection Hs as <-. eapply names_valid_user; [|exact Hu]. lia.
Qed.

Lemma ui_turn_valid K index t t' :
  tui_step Debug (UiSelect index) t = Some (Done t') -> valid_ui K t -> valid_ui K t'.
Proof.
  intros H [V1 V2 V3]. destruct (ui_step _ _ _ _ H) as ([_ Eo _ _ _] & Ha & Hm & _).
  destruct (asks_valid K _ _ _ Ha V1 V2) as [H1 H2]. split; [|by rewrite Eo|by rewrite H2].
  destruct Ha as [Ha|(_ & _ & _ & E1 & E2 & _)]; [by eapply moves_selection|].
  unfold selection_ok in *. by rewrite E1, E2.
Qed.

Lemma fetch_valid K ev t t' :
  tui_step Debug ev t = Some (Done t') -> thread_event ev = true -> (0 < length K)%nat -> valid_ui K t -> valid_ui K t'.
Proof.
  intros H Hev HK [V1 V2 V3]. destruct ev as [index|r|cr| | |e|m|]; [by eapply ui_turn_valid|..]; cbn in H.
  - destruct (senders _); [|done]. injection H as <-. by split.
  - destruct (fetch t); try done. destruct cr; injection H as <-; by split.
  - destruct (fetch t), (inner_queue (fetcher (app t))) as [|req q] eqn:Eq; try done. injection H as <-.
    split; [done| |done]. cbn. by rewrite <- app_assoc.
  - destruct (fetch t); try done. injection H as <-. split; [done| |done]. cbn. rewrite <- app_assoc.
    apply Forall_app in V2 as [V2 V2']. apply Forall_app_2; [done|]. apply Forall_cons_2; [|done].
    by intros id [|[|]].
  - destruct (fetch t); try done. injection H as <-. by split.
  - destruct (fetch t); try done. destruct m; try done; injection H as <-; by split.
  - destruct (fetch t) as [| | |[|]|]; try done; injection H as <-; by split.
Qed.

Lemma same_identity now items items' : Forall2 (same_backend now) items items' -> identity <$> items' = identity <$> items.
Proof. induction 1 as [|b b' items items' [E1 E2 E3 _] _ IH]; [done|]. cbn. unfold identity at 1 3. by rewrite E1, E2, E3, IH. Qed.

Lemma read_valid K t req resp resp' now :
  reply_ok K req resp -> same_on_wire now resp resp' -> outstanding t = [req] -> valid_ui K t ->
  valid_ui K (handle_resp resp' [] t).
Proof.
  intros (_ & _ & Hr) Hsame Ho [V1 V2 V3]. rewrite Ho in V2. apply Forall_app in V2 as [_ V2].
  assert (Hkeep : forall t', app t' = app t \/ (exists b, app t' = with_fetcher (set_pending b (fetcher (app t))) (app t)) ->
    outstanding t' = [] -> valid_ui K t').
  { intros t' E Eo. split; rewrite ?Eo; destruct E as [->|[b ->]]; done. }
  destruct resp as [| | |items|msg]; cbn in Hsame; try subst resp'; try (apply Hkeep; [by right; exists false|done]);
    [destruct Hsame as (items' & -> & Hsame)|apply Hkeep; [by left|done]].
  specialize (Hr items eq_refl). set (t' := handle_resp _ _ t).
  assert (Hi : identity <$> backends (fetcher (app t')) = K) by (rewrite <- Hr; by apply (same_identity now)).
  split; [|done|by right]. destruct V1 as (i & Hi1 & Hi2 & _). exists i. split; [done|]. split; [done|]. right.
  by rewrite <- Hi, length_fmap.
Qed.
End Sys.

Section Valid.
Context `{W : Wire} {WL : WireLaws} (rules : option HostRuler).

Lemma reachable_valid ok w s :
  w_backends w <> [] -> system_reachable rules Debug ok w s -> valid_ui (statics w) (tui s).
Proof.
  intros Hw Hr. assert (HK : (0 < length (statics w))%nat).
  { unfold statics. rewrite length_fmap. destruct (w_backends w); [done|cbn; lia]. }
  induction Hr as [|s ev s' Hr IH He Hs].
  - split; cbn; [|constructor|by left]. exists 0. split; [done|]. split; [lia|by left].
  - pose proof (reachable_linked _ _ _ _ _ Hr) as [L1 L2 L3]. destruct ev as [ev|now|ev]; cbn -[tui_step] in Hs.
    + destruct (thread_event ev) eqn:Ev; [|done]. destruct (tui_step Debug ev (tui s)) as [[t'|]|] eqn:Et; [|done..].
      cbn in Hs. injection Hs as <-. by eapply fetch_valid.
    + destruct (outbox (srv s)) as [|b out] eqn:Eo; [done|].
      destruct (fetch (tui s)) eqn:Ef; try (cbn in Hs; rewrite Ef in Hs; discriminate Hs).
      destruct (read_wire Debug _ _ _ now b out Eo L2 Ef L3) as (req & resp & resp' & E1 & E2 & E3 & _ & E4 & _).
      rewrite E4 in Hs. cbn in Hs. injection Hs as <-. by eapply read_valid.
    + destruct (srv_step _ ev (srv s)) as [s1|]; [|done]. cbn in Hs. by injection Hs as <-.
Qed.

End Valid.
End UiSystem.

(** ** Witnesses *)

(** A codec that keeps values, but for the skipped estimator and what an
    address loses. *)
Definition wire_peers (ps : gmap SocketAddr Z) : gmap SocketAddr Z :=
  list_to_map ((fun x => (wire_addr x.1, x.2)) <$> map_to_list ps).

Definition wire_backend (now : Z) (b : BackendMetric) : BackendMetric := {|
  bm_backend_name := bm_backend_name b; bm_domain := bm_domain b; bm_address := bm_address b;
  bm_metric := with_peers (wire_peers (active_peers (bm_metric b))) (with_ewma (ewma_new now) (bm_metric b)) |}.

Definition wire_resp (now : Z) (resp : MetricApiResp) : MetricApiResp :=
  match resp with RespAllBackends items => RespAllBackends (wire_backend now <$> items) | resp => resp end.

Lemma wire_peers_same ps : same_peers ps (wire_peers ps).
Proof.
  unfold wire_peers. split.
  - intros a n Ha. apply elem_of_map_to_list in Ha.
    destruct (list_to_map _ !! wire_addr a) as [n'|] eqn:E; [by exists n'|]. apply not_elem_of_list_to_map in E.
    destruct E. rewrite <- list_fmap_compose. apply list_elem_of_fmap. by exists (a, n).
  - intros a' n Ha. apply elem_of_list_to_map_2, list_elem_of_fmap in Ha as ([a n'] & [= -> ->] & Ha).
    exists a. split; [by apply elem_of_map_to_list|done].
Qed.

Definition plain_wire : Wire := {|
  bytes := MetricApiReq + MetricApiResp;
  req_to_vec := inl;
  req_from_slice := fun b => match b with inl req => Ok req | inr _ => Err "invalid" end;
  resp_to_vec := inr;
  resp_from_slice := fun now b => match b with inr resp => Ok (wire_resp now resp) | inl _ => Err "invalid" end;
|}.

#[export] Existing Instance plain_wire | 10.

#[export] Instance plain_wire_laws : @WireLaws ZF64 plain_wire.
Proof.
  split; [done|]. intros now resp. exists (wire_resp now resp). split; [done|].
  destruct resp as [| | |items|msg]; try done. exists (wire_backend now <$> items). split; [done|].
  induction items as [|b items IH]; [constructor|]. constructor; [|exact IH]. split; [done..|]. split; [apply wire_peers_same|done].
Qed.

Fixpoint system_run (p : profile) (evs : list UiEvent) (s : UiSystem) : option UiSystem :=
  match evs with
  | [] => Some s
  | ev :: evs => match system_step None p ev s with Some (Done s) => system_run p evs s | _ => None end
  end.

Lemma system_run_reachable p ok w evs s s' :
  system_reachable None p ok w s -> Forall (event_env ok) evs -> system_run p evs s = Some s' ->
  system_reachable None p ok w s'.
Proof.
  revert s; induction evs as [|ev evs IH]; intros s Hr He H; cbn in H; [by injection H as <-|].
  apply Forall_cons_1 in He as [H1 H2]. destruct (system_step None p ev s) as [[s1|]|] eqn:E; [|done..].
  apply (IH s1); [|done..]. by eapply sys_next.
Qed.

(** The user opens or closes the first backend; the client works on it. *)
Definition ask_events : list UiEvent :=
  [Thread (InputPoll (Ok (Some space_key))); Thread (UiSelect 0);
   Thread (FetchConnect (Ok tt)); Thread FetchSend; Serve Take;
   Serve (Turn (env_ok 1)); Serve (Turn (env_ok 1))].

(** ... until it replies. *)
Definition reply_events : list UiEvent :=
  ask_events ++ replicate 7 (Serve (Turn (env_ok 1))) ++ [Serve Reply].

Definition asked_system : option UiSystem := system_run Debug ask_events (system_start example_world).
Definition replied_system : option UiSystem := system_run Debug reply_events (system_start example_world).

Definition any_env (e : Env) : Prop := True.

Lemma any_events evs : Forall (event_env any_env) evs.
Proof. apply list.Forall_forall. by intros [ev|now|[|e| | |[i e|j]]] _. Qed.

Lemma asked_reach s : asked_system = Some s -> system_reachable None Debug any_env example_world s.
Proof. apply system_run_reachable; [constructor|apply any_events]. Qed.

Lemma replied_reach s : replied_system = Some s -> system_reachable None Debug any_env example_world s.
Proof. apply system_run_reachable; [constructor|apply any_events]. Qed.

Definition is_busy (s : UiSystem) : bool :=
  match fetch (tui s), session (srv s) with FWaiting, SBusy _ _ => true | _, _ => false end.

Definition has_reply (s : UiSystem) : bool :=
  match fetch (tui s), outbox (srv s) with FWaiting, [inr RespSwitchBackendStatus] => true | _, _ => false end.

Lemma is_busy_true s : is_busy s = true -> fetch (tui s) = FWaiting /\ session (srv s) <> SClosed.
Proof. unfold is_busy. by destruct (fetch (tui s)), (session (srv s)). Qed.

Lemma system_refines_parts_witness :
  match replied_system with
  | Some s => has_reply s = true /\ tui_reachable Debug tui_start (tui s) /\
      reachable body (job_prog None) example_start (pool (srv s))
  | None => False
  end.
Proof.
  assert (R : match replied_system with Some s => has_reply s | None => false end = true) by (vm_compute; reflexivity).
  destruct replied_system as [s|] eqn:E; [|discriminate R]. split; [exact R|].
  destruct (system_refines_parts None Debug any_env example_world s (replied_reach s E)) as (H1 & H2 & _).
  split; [exact H1|exact H2].
Defined.

Lemma ui_request_answered_witness :
  match asked_system with
  | Some s => forall n, will_reply None n {| fs_srv := srv s; fs_queue := [] |}
  | None => False
  end.
Proof.
  assert (R : match asked_system with Some s => is_busy s | None => false end = true) by (vm_compute; reflexivity).
  destruct asked_system as [s|] eqn:E; [|discriminate R]. destruct (is_busy_true s R) as [H1 H2]. intros n.
  exact (proj1 (ui_request_answered None Debug any_env example_world s [] n example_fresh (asked_reach s E)
    (conj (NoDup_nil_2) (Forall_nil_2 _)) H1 H2)).
Defined.

