(* ===== verification/EasyCert.v ===== *)
(** * The certificate tool ([easycert/src])

    [gen]: subject alternative names, the certificate's parameters and the
    files written; [show]: the table of a certificate's fields. *)

From S2P Require Import Prelude NetAddr LibProxy Tls TomlConfig.

(** ** Strings of the standard library *)

(** [str::split(c)] for an ASCII character. *)
Fixpoint split (c : ascii) (s : string) : list string :=
  match s with
  | EmptyString => [EmptyString]
  | String d s =>
      if decide (d = c) then EmptyString :: split c s
      else match split c s with
           | piece :: pieces => String d piece :: pieces
           | [] => [String d EmptyString]
           end
  end.

Definition ascii_upper (c : ascii) : ascii :=
  let n := N_of_ascii c in
  if decide (97 <= n <= 122)%N then ascii_of_N (n - 32) else c.

Fixpoint map_string (f : ascii -> ascii) (s : string) : string :=
  match s with EmptyString => EmptyString | String c s => String (f c) (map_string f s) end.

Fixpoint all_ascii (s : string) : bool :=
  match s with EmptyString => true | String c s => bool_decide (N_of_ascii c < 128)%N && all_ascii s end.

(** [PathBuf::join] on Unix. *)
Definition path_join (a b : string) : string :=
  match b with
  | String "/" _ => b
  | _ =>
      match a with
      | EmptyString => b
      | _ => if decide (str_drop (String.length a - 1) a = "/"%string) then (a +:+ b)%string
             else (a +:+ String "/" b)%string
      end
  end.

(** ** Effects *)

(** Effects one after the other, [io] answering each: the result, and what was
    attempted.  The last attempt of a run that fails is the one that failed;
    what is left of it is not known. *)
Fixpoint attempt {A} (io : A -> result string unit) (steps : list A) : result string unit * list A :=
  match steps with
  | [] => (Ok tt, [])
  | step :: steps =>
      match io step with
      | Ok _ => let '(r, ws) := attempt io steps in (r, step :: ws)
      | Err e => (Err e, [step])
      end
  end.

(** [?] on what was attempted before [k]. *)
Definition and_then {A} (x : result string unit * list A) (k : outcome (result string unit * list A))
    : outcome (result string unit * list A) :=
  match x with
  | (Ok _, ws) => '(r, ws') ← k; Done (r, ws ++ ws')
  | (Err e, ws) => Done (Err e, ws)
  end.

Lemma and_then_attempt {A} (io : A -> result string unit) (l1 l2 : list A) :
  and_then (attempt io l1) (Done (attempt io l2)) = Done (attempt io (l1 ++ l2)).
Proof.
  induction l1 as [|a l1 IH]; cbn [attempt app].
  - cbn. by destruct (attempt io l2).
  - destruct (io a); [|done]. rewrite <- (f_equal (fun o => match o with Done x => x | Panic => (Ok tt, []) end) IH).
    destruct (attempt io l1) as [[]]; cbn; [|done]. by destruct (attempt io l2).
Qed.

Lemma attempt_all {A} (io : A -> result string unit) l :
  Forall (fun a => io a = Ok tt) l -> attempt io l = (Ok tt, l).
Proof. induction 1 as [|a l Ha _ IH]; [done|]. cbn. by rewrite Ha, IH. Qed.

(** ** [gen.rs] *)

Inductive SanType := DnsName (name : string) | IpAddress (ip : IpAddr).

Record Gen := {
  ca_cert : string;
  ca_key : string;
  common_name : string;
  subject_alt_names : list string;
  days : Z;
  output : string;
  name : string;
}.

(** [rcgen::CertificateParams], as far as the code sets it; times in
    seconds. *)
Record CertificateParams := {
  not_before : Z;
  not_after : Z;
  distinguished_name : list (string * string);
  params_san : list SanType;
}.

(** [rcgen], the clock's arithmetic and Unicode upper-casing beyond ASCII. *)
Class CertLib := {
  KeyPair : Type;
  Certificate : Type;
  keypair_from_pem : string -> result string KeyPair;
  CaParams : Type;
  from_ca_cert_pem : string -> KeyPair -> result string CaParams;
  from_ca_params : CaParams -> result string Certificate;
  from_params : CertificateParams -> result string Certificate;
  serialize_pem_with_signer : Certificate -> Certificate -> result string string;
  serialize_private_key_pem : Certificate -> string;
  (** [OffsetDateTime + Duration] panics out of range *)
  add_time : Z -> Z -> outcome Z;
  unicode_upper : string -> string;
}.

Section Gen.
Context `{CERT : CertLib}.

Definition to_uppercase (s : string) : string :=
  if all_ascii s then map_string ascii_upper s else unicode_upper s.

(** One turn of the loop of [parse_san]. *)
Definition parse_one_san (san_str : string) : result string SanType :=
  match take 2 (split ":" san_str) with
  | [kind; san_value] =>
      let upper := to_uppercase kind in
      if decide (upper = "DNS") then
        match san_value with
        | EmptyString => Err "Dns name is empty"
        | _ => Ok (DnsName san_value)
        end
      else if decide (upper = "IP") then
        match Parser.parse_ip_addr san_value with
        | Some ip => Ok (IpAddress ip)
        | None => Err "Failed to parse ip address: invalid IP address syntax"
        end
      else Err ("subject alt name type currently not support: " +:+ kind)%string
  | _ => Err ("subject alt name should be in pair: " +:+ san_str)%string
  end.

Fixpoint san_loop (subject_alt_names_str : list string) : result string (list SanType) :=
  match subject_alt_names_str with
  | [] => Ok []
  | san_str :: rest => san ← parse_one_san san_str; sans ← san_loop rest; Ok (san :: sans)
  end.

Definition parse_san (subject_alt_names_str : list string) : result string (list SanType) :=
  match subject_alt_names_str with
  | [] => Err "at least provide one SAN"
  | _ => san_loop subject_alt_names_str
  end.

Definition load_ca (fs : FileSystem) (ca_key ca_cert : string) : result string Certificate :=
  key ← fs_read_to_string fs ca_key;
  ca_keypair ← keypair_from_pem key;
  ca ← fs_read_to_string fs ca_cert;
  ca ← from_ca_cert_pem ca ca_keypair;
  from_ca_params ca.

(** The clock is read twice. *)
Definition gen_cert (now now' : Z) (common_name : string) (days : Z) (san : list SanType)
    : outcome (result string Certificate) :=
  not_after ← add_time now' (days * 86400);
  Done (from_params {| not_before := now; not_after := not_after;
    distinguished_name := [("CommonName", common_name)]; params_san := san |}).

(** [Gen::run]: the result, and the directories and files whose writing was
    attempted. *)
Inductive Written := CreateDirAll (path : string) | WriteFile (path content : string).

Definition gen_run (fs : FileSystem) (io : Written -> result string unit) (now now' : Z) (self : Gen)
    : outcome (result string unit * list Written) :=
  match parse_san (subject_alt_names self) with
  | Err e => Done (Err e, [])
  | Ok san =>
      match load_ca fs (ca_key self) (ca_cert self) with
      | Err e => Done (Err e, [])
      | Ok ca =>
          c ← gen_cert now now' (common_name self) (days self) san;
          match c with
          | Err e => Done (Err e, [])
          | Ok cert =>
              match serialize_pem_with_signer cert ca with
              | Err e => Done (Err e, [])
              | Ok cert_signed =>
                  let output := path_join (output self) (name self) in
                  and_then (attempt io [CreateDirAll output])
                  (let cert_path := path_join output (name self +:+ ".crt")%string in
                   and_then (attempt io [WriteFile cert_path cert_signed])
                   (let key_path := path_join output (name self +:+ ".key")%string in
                    and_then (attempt io [WriteFile key_path (serialize_private_key_pem cert)])
                    (Done (Ok tt, []))))
              end
          end
      end
  end.
End Gen.

(** ** [show.rs] *)

Definition Table := list (string * string).

Definition table_push (name value : string) (t : Table) : Table := t ++ [(name, value)].

Definition name_width (t : Table) : Z :=
  Z.of_nat (foldr Nat.max 0%nat ((fun row => String.length row.1) <$> t)).

Definition NL : string := String "010" EmptyString.

Section Write.
(** The writer: its answer to each text it is given. *)
Context (out : string -> result string unit).

(** [write_name] with the padding in front; [style] is the console's blue. *)
Definition write_name (name : string) (width : Z) : result string unit * list string :=
  attempt out [(spaces (Z.to_nat width) +:+ name)%string].

(** A row. *)
Definition table_line (p : profile) (style : string -> string) (is_styled : bool) (name_width : Z)
    (row : string * string) : outcome (result string unit * list string) :=
  let '(name, value) := row in
  width ← usub p 64 name_width (Z.of_nat (String.length name));
  and_then (write_name (if is_styled then style name else name) width)
  (Done (attempt out [("  " +:+ value +:+ NL)%string])).

Fixpoint table_lines (p : profile) (style : string -> string) (is_styled : bool) (name_width : Z) (t : Table)
    : outcome (result string unit * list string) :=
  match t with
  | [] => Done (Ok tt, [])
  | row :: t =>
      line ← table_line p style is_styled name_width row;
      and_then line (table_lines p style is_styled name_width t)
  end.

Definition write_human_readable (p : profile) (style : string -> string) (is_styled : bool) (t : Table)
    : outcome (result string unit * list string) :=
  table_lines p style is_styled (name_width t) t.
End Write.

(** The fields [Show::run] reads from a parsed certificate. *)
Record CertInfo := {
  ci_is_ca : bool;
  ci_issuer : string;
  ci_sans : option (list string);
  ci_subject : string;
  ci_not_before : string;
  ci_not_after : string;
  ci_is_valid : bool;
}.

Fixpoint join_comma (l : list string) : string :=
  match l with
  | [] => EmptyString
  | [s] => s
  | s :: l => (s +:+ ", " +:+ join_comma l)%string
  end.

Definition yes_no (b : bool) : string := if b then "yes" else "no".

Definition show_table (cert : CertInfo) : Table :=
  table_push "Is Valid" (yes_no (ci_is_valid cert))
  (table_push "Not After" (ci_not_after cert)
  (table_push "Not Before" (ci_not_before cert)
  (table_push "Subject" (ci_subject cert)
  (table_push "SAN" (match ci_sans cert with Some l => join_comma l | None => EmptyString end)
  (table_push "Issuer" (ci_issuer cert)
  (table_push "Is CA" (yes_no (ci_is_ca cert)) [])))))).

(** The pem, x509_parser and time crates. *)
Class X509Lib := {
  Pem : Type;
  X509Certificate : Type;
  pem_parse : string -> result string Pem;
  contents : Pem -> string;
  parse_x509_certificate : string -> result string X509Certificate;
  is_ca : X509Certificate -> bool;
  issuer : X509Certificate -> string;
  subject_alternative_name : X509Certificate -> result string (option (list string));
  subject : X509Certificate -> string;
  (** the validity's ends in the tool's format *)
  format_not_before : X509Certificate -> result string string;
  format_not_after : X509Certificate -> result string string;
  is_valid : X509Certificate -> bool;
}.

Section Show.
Context `{X : X509Lib} (fs : FileSystem).

Definition load_pem (cert_content : string) : result string Pem :=
  context "Failed to parse pem" (pem_parse cert_content).

Definition load_cert_from_der (pem_content : Pem) : result string X509Certificate :=
  parse_x509_certificate (contents pem_content).

Definition cert_info (cert : X509Certificate) : result string CertInfo :=
  sans ← subject_alternative_name cert;
  not_before ← format_not_before cert;
  not_after ← format_not_after cert;
  Ok {| ci_is_ca := is_ca cert; ci_issuer := issuer cert; ci_sans := sans; ci_subject := subject cert;
        ci_not_before := not_before; ci_not_after := not_after; ci_is_valid := is_valid cert |}.

(** [Show::run] and the texts given to the standard output. *)
Definition show_run (stdout : string -> result string unit) (style : string -> string) (cert_path : string) (no_color : bool)
    : outcome (result string unit * list string) :=
  let cert :=
    cert_content ← context "Failed to open cert" (fs_read_to_string fs cert_path);
    pem_content ← load_pem cert_content;
    cert ← load_cert_from_der pem_content;
    cert_info cert in
  match cert with
  | Err e => Done (Err e, [])
  | Ok cert => write_human_readable stdout Release style (negb no_color) (show_table cert)
  end.
End Show.

(** ** No IPv6 in a name *)

Lemma split_piece c s piece : piece ∈ split c s -> ~ str_elem c piece.
Proof.
  revert piece; induction s as [|d s IH]; intros piece; cbn [split].
  - intros ->%list_elem_of_singleton. by intros [].
  - case_decide as D.
    + intros [->|Hp]%elem_of_cons; [by intros []|by apply IH].
    + destruct (split c s) as [|p ps] eqn:E.
      * intros ->%list_elem_of_singleton. cbn. intros [->|[]]. done.
      * intros [->|Hp]%elem_of_cons; [|apply IH; by apply elem_of_cons; right].
        cbn. intros [->|Hp]; [done|]. apply (IH p); [by apply elem_of_cons; left|done].
Qed.

(** Parsers consume from the front: what is left has no new characters. *)
Definition shrinks {A} (p : Parser.parser A) : Prop :=
  forall s a s' c, p s = Some (a, s') -> str_elem c s' -> str_elem c s.

Lemma read_digits_shrinks radix md w a k s r n s' c :
  Parser.read_digits radix md w a k s = Some (r, n, s') -> str_elem c s' -> str_elem c s.
Proof.
  revert a k; induction s as [|d s IH]; intros a k; cbn; [by intros [= _ _ <-]|].
  destruct (Parser.to_digit radix d); [|by intros [= _ _ <-]].
  destruct md; case_decide; try done; intros Hd Hc; right; by eapply IH.
Qed.

Lemma read_number_shrinks radix md z w : shrinks (Parser.read_number radix md z w).
Proof.
  intros s a s' c. unfold Parser.read_number.
  destruct (Parser.read_digits radix md w 0 0 s) as [[[r n] s0]|] eqn:E; [|done].
  repeat case_match; try done; intros [= _ <-]; by eapply read_digits_shrinks.
Qed.

Lemma bind_shrinks {A B} (m : Parser.parser A) (k : A -> Parser.parser B) :
  shrinks m -> (forall a, shrinks (k a)) -> shrinks (Parser.pbind m k).
Proof.
  intros Hm Hk s b s' c. unfold Parser.pbind. destruct (m s) as [[a s1]|] eqn:E; [|done].
  intros H Hc. eapply Hm; [exact E|]. by eapply Hk.
Qed.

Lemma char_shrinks d : shrinks (Parser.read_given_char d).
Proof. intros [|e s] a s' c; cbn; [done|]. case_decide; [|done]. intros [= _ <-]. by right. Qed.

Lemma separator_shrinks {A} sep i (m : Parser.parser A) : shrinks m -> shrinks (Parser.read_separator sep i m).
Proof. intros Hm. unfold Parser.read_separator. case_decide; [|done]. apply bind_shrinks; [apply char_shrinks|done]. Qed.

Lemma ipv4_shrinks : shrinks Parser.read_ipv4_addr.
Proof.
  unfold Parser.read_ipv4_addr. repeat (apply bind_shrinks; [apply separator_shrinks, read_number_shrinks|intros ?]).
  intros t r t' x. by intros [= _ <-].
Qed.

Lemma no_char d s : ~ str_elem d s -> Parser.read_given_char d s = None.
Proof. destruct s as [|e s]; cbn; [done|]. intros H. case_decide; [|done]. subst. destruct H. by left. Qed.

(** The first round of [read_groups] on a whole address. *)
Lemma read_groups_first s :
  Parser.read_groups 8 0 s =
    match Parser.read_ipv4_addr s with
    | Some (Ipv4 a b c d, s') => ([a * 256 + b; c * 256 + d], true, s')
    | None =>
        match Parser.read_number 16 (Some 4%nat) true 16 s with
        | Some (g, s') => let '(gs, v4, s'') := Parser.read_groups 7 1 s' in (g :: gs, v4, s'')
        | None => ([], false, s)
        end
    end.
Proof. reflexivity. Qed.

(** Without a colon at most one group, or an IPv4 address, can be read. *)
Lemma read_groups_no_colon s :
  ~ str_elem ":" s ->
  let '(gs, _, s') := Parser.read_groups 8 0 s in (length gs <= 2)%nat /\ ~ str_elem ":" s'.
Proof.
  intros Hs. assert (Htail : forall s, ~ str_elem ":" s -> Parser.read_groups 7 1 s = ([], false, s)).
  { intros t Ht. cbn [Parser.read_groups]. rewrite decide_True by lia.
    unfold Parser.read_separator at 1 2. rewrite !decide_True by lia. unfold Parser.pbind.
    by rewrite (no_char ":" t Ht). }
  rewrite read_groups_first. destruct (Parser.read_ipv4_addr s) as [[[a b c d] s1]|] eqn:E4.
  - split; [cbn; lia|]. intros Hc. apply Hs. by eapply ipv4_shrinks.
  - destruct (Parser.read_number 16 (Some 4%nat) true 16 s) as [[g s1]|] eqn:E1; [|split; [cbn; lia|done]].
    assert (Hs1 : ~ str_elem ":" s1) by (intros Hc; apply Hs; by eapply read_number_shrinks).
    rewrite (Htail s1 Hs1). split; [cbn; lia|done].
Qed.

Lemma ipv6_needs_colon s ip : ~ str_elem ":" s -> Parser.parse_ip_addr s <> Some (IpV6 ip).
Proof.
  intros Hs H. unfold Parser.parse_ip_addr, Parser.parse_with, Parser.read_ip_addr, Parser.por, Parser.pmap, Parser.pbind in H.
  destruct (Parser.read_ipv4_addr s) as [[a s1]|]; [by destruct s1|].
  unfold Parser.read_ipv6_addr in H. pose proof (read_groups_no_colon s Hs) as Hg.
  destruct (Parser.read_groups 8 0 s) as [[gs v4] s1]. destruct Hg as [Hl Hs1].
  rewrite decide_False in H by lia. destruct v4; [done|]. unfold Parser.pbind in H.
  by rewrite (no_char ":" s1 Hs1) in H.
Qed.

Section GenSpec.
Context `{CERT : CertLib}.

(** What a name may be: a DNS name that is not empty and has no colon, or an
    IPv4 address.  An IPv6 address cannot be given: the value ends at the
    second colon. *)
Theorem san_values san_str san :
  parse_one_san san_str = Ok san ->
  match san with
  | DnsName name => name <> EmptyString /\ ~ str_elem ":" name
  | IpAddress (IpV4 _) => True
  | IpAddress (IpV6 _) => False
  end.
Proof.
  unfold parse_one_san. destruct (split ":" san_str) as [|kind [|value rest]] eqn:E; try done. cbn [take].
  assert (Hv : ~ str_elem ":" value).
  { eapply (split_piece ":" san_str). rewrite E. set_solver. }
  case_decide; [destruct value; [done|]; by intros [= <-]|].
  case_decide; [|done]. destruct (Parser.parse_ip_addr value) as [[ip|ip]|] eqn:Ep; [by intros [= <-]| |done].
  by apply ipv6_needs_colon in Ep.
Qed.

(** Parsing keeps every name in order or fails as a whole. *)
Theorem parse_san_spec l sans :
  parse_san l = Ok sans <-> l <> [] /\ Forall2 (fun s san => parse_one_san s = Ok san) l sans.
Proof.
  assert (Hloop : forall l sans, san_loop l = Ok sans <-> Forall2 (fun s san => parse_one_san s = Ok san) l sans).
  { intros l0; induction l0 as [|s l' IH]; intros ss; cbn [san_loop].
    - split; [intros [= <-]; constructor|]. by inversion 1.
    - split.
      + destruct (parse_one_san s) as [san|] eqn:E1; cbn; [|done].
        destruct (san_loop l') as [sans'|] eqn:E2; cbn; [|done]. intros [= <-]. constructor; [done|]. by apply IH.
      + intros (san & ss' & H1 & H2 & ->)%Forall2_cons_inv_l. rewrite H1. cbn. apply IH in H2. by rewrite H2. }
  unfold parse_san. destruct l as [|s l']; [by split; [|intros []]|].
  rewrite Hloop. split; [by split|by intros []].
Qed.

(** What has to hold before anything is written: every name parses, the CA
    loads, and the certificate for the given subject and names, valid for the
    given days from now, is made and signed. *)
Definition signed (fs : FileSystem) (now now' : Z) (self : Gen) (cert : Certificate) (pem : string) : Prop :=
  exists sans ca not_after,
    subject_alt_names self <> [] /\ Forall2 (fun s san => parse_one_san s = Ok san) (subject_alt_names self) sans /\
    load_ca fs (ca_key self) (ca_cert self) = Ok ca /\ add_time now' (days self * 86400) = Done not_after /\
    from_params {| not_before := now; not_after := not_after;
      distinguished_name := [("CommonName", common_name self)]; params_san := sans |} = Ok cert /\
    serialize_pem_with_signer cert ca = Ok pem.

(** The directory named after the certificate, the certificate and its key. *)
Definition files (self : Gen) (cert : Certificate) (pem : string) : list Written :=
  let dir := path_join (output self) (name self) in
  [CreateDirAll dir; WriteFile (path_join dir (name self +:+ ".crt")%string) pem;
   WriteFile (path_join dir (name self +:+ ".key")%string) (serialize_private_key_pem cert)].

(** C36: [gen] succeeds exactly when the names parse, the CA loads, the
    certificate is signed and its directory, the certificate and the key are
    then written, in that order and nothing else.  It fails either before
    anything is written, because there is no such signed certificate, or at
    the first write that fails, with that write's error and none after it.  It
    panics only when the end of the validity is out of range. *)
Theorem gen_run_spec fs io now now' self :
  match gen_run fs io now now' self with
  | Done (Ok _, ws) => exists cert pem, signed fs now now' self cert pem /\
      ws = files self cert pem /\ Forall (fun w => io w = Ok tt) ws
  | Done (Err e, ws) =>
      ws = [] /\ (forall cert pem, ~ signed fs now now' self cert pem) \/
      exists cert pem before last, signed fs now now' self cert pem /\ ws = before ++ [last] /\
        ws `prefix_of` files self cert pem /\ Forall (fun w => io w = Ok tt) before /\ io last = Err e
  | Panic => add_time now' (days self * 86400) = Panic
  end.
Proof.
  unfold gen_run, gen_cert.
  destruct (parse_san (subject_alt_names self)) as [sans|] eqn:Es.
  2: { left. split; [done|]. intros cert pem (sans & ? & ? & H1 & H2 & _).
       assert (H : parse_san (subject_alt_names self) = Ok sans) by by apply parse_san_spec. congruence. }
  pose proof Es as [Hne Hs]%parse_san_spec.
  assert (Hsans : forall sans', Forall2 (fun s san => parse_one_san s = Ok san) (subject_alt_names self) sans' -> sans' = sans).
  { intros sans' H. assert (E : parse_san (subject_alt_names self) = Ok sans') by by apply parse_san_spec. congruence. }
  destruct (load_ca _ _ _) as [ca|] eqn:Ec.
  2: { left. split; [done|]. intros cert pem (? & ? & ? & _ & _ & H & _). congruence. }
  destruct (add_time _ _) as [na|] eqn:Ea; cbn [mbind outcome_bind]; [|done].
  destruct (from_params _) as [cert|] eqn:Ef.
  2: { left. split; [done|]. intros cert pem (? & ? & ? & _ & ->%Hsans & H1 & H2 & H3 & _). congruence. }
  destruct (serialize_pem_with_signer cert ca) as [pem|] eqn:Ep.
  2: { left. split; [done|]. intros cert' pem (? & ? & ? & _ & ->%Hsans & H1 & H2 & H3 & H4). congruence. }
  assert (Hsig : signed fs now now' self cert pem) by by exists sans, ca, na.
  cbn [attempt and_then app]. fold (files self cert pem). unfold files.
  set (w1 := CreateDirAll _). set (w2 := WriteFile _ pem). set (w3 := WriteFile _ _).
  destruct (io w1) as [[]|e1] eqn:E1; cbn; [|right; exists cert, pem, [], w1; split; [done|]; split; [done|]; split; [by exists [w2; w3]|done]].
  destruct (io w2) as [[]|e2] eqn:E2; cbn.
  2: { right; exists cert, pem, [w1], w2; split; [done|]; split; [done|]; split; [by exists [w3]|]. split; [by repeat constructor|done]. }
  destruct (io w3) as [[]|e3] eqn:E3; cbn.
  - exists cert, pem. split; [done|]. split; [done|]. by repeat constructor.
  - right; exists cert, pem, [w1; w2], w3; split; [done|]; split; [done|]; split; [by exists []|]. split; [by repeat constructor|done].
Qed.
End GenSpec.

(** ** The table *)

Lemma name_width_bound name value t : (name, value) ∈ t -> Z.of_nat (String.length name) <= name_width t.
Proof.
  unfold name_width. induction t as [|row t IH]; intros Hin; [by apply not_elem_of_nil in Hin|].
  cbn. apply elem_of_cons in Hin as [<-|Hin%IH]; cbn; lia.
Qed.

(** A name's column: as wide as the longest name of the table. *)
Definition aligned (name_width : Z) (style : string -> string) (is_styled : bool) (row : string * string) : string :=
  (spaces (Z.to_nat name_width - String.length row.1) +:+ (if is_styled then style row.1 else row.1)
   +:+ "  " +:+ row.2 +:+ NL)%string.

(** What is given to the writer for a row: the padded name, the rest. *)
Definition row_texts (name_width : Z) (style : string -> string) (is_styled : bool) (row : string * string) : list string :=
  [(spaces (Z.to_nat name_width - String.length row.1) +:+ (if is_styled then style row.1 else row.1))%string;
   ("  " +:+ row.2 +:+ NL)%string].

Definition texts (name_width : Z) (style : string -> string) (is_styled : bool) (t : Table) : list string :=
  concat (row_texts name_width style is_styled <$> t).

Lemma table_lines_texts out p style is_styled w t :
  0 <= w < 2 ^ 64 -> Forall (fun row => Z.of_nat (String.length row.1) <= w) t ->
  table_lines out p style is_styled w t = Done (attempt out (texts w style is_styled t)).
Proof.
  intros Hw Hb. induction t as [|[n v] t IH]; [done|].
  pose proof (Forall_inv Hb) as H1. apply Forall_inv_tail in Hb. cbn in H1.
  cbn [table_lines table_line]. unfold usub. rewrite fit_ok by (unfold in_width; lia). cbn [mbind outcome_bind].
  rewrite (IH Hb). unfold write_name. rewrite !and_then_attempt. cbn [mbind outcome_bind]. rewrite and_then_attempt.
  unfold texts, row_texts. cbn [fmap list_fmap concat fst snd].
  by replace (Z.to_nat (w - Z.of_nat (String.length n))) with (Z.to_nat w - String.length n)%nat by lia.
Qed.

(** C37: The width's subtraction never underflows, so [show] writes every row, in
    order, whether the build checks overflow or not, up to the first write that
    fails; unstyled, every name ends in the same column. *)
Theorem write_human_readable_spec out p style is_styled t :
  name_width t < 2 ^ 64 ->
  let ws := texts (name_width t) style is_styled t in
  write_human_readable out p style is_styled t = Done (attempt out ws) /\
  (Forall (fun s => out s = Ok tt) ws -> write_human_readable out p style is_styled t = Done (Ok tt, ws)) /\
  foldr String.append EmptyString ws = foldr String.append EmptyString (aligned (name_width t) style is_styled <$> t) /\
  Forall (fun row => exists rest,
    aligned (name_width t) style false row =
      (pad_left (Z.to_nat (name_width t)) row.1 +:+ rest)%string /\
    String.length (pad_left (Z.to_nat (name_width t)) row.1) = Z.to_nat (name_width t)) t.
Proof.
  intros Hw ws. assert (Hb : Forall (fun row => Z.of_nat (String.length row.1) <= name_width t) t).
  { apply list.Forall_forall. intros [n v] Hin. exact (name_width_bound n v t Hin). }
  assert (E : write_human_readable out p style is_styled t = Done (attempt out ws)).
  { apply table_lines_texts; [|done]. split; [unfold name_width; lia|done]. }
  split; [done|]. split; [intros Hall; by rewrite E, attempt_all|]. split.
  - subst ws. unfold texts. generalize (name_width t). intros w. clear. induction t as [|row t IH]; [done|].
    cbn [fmap list_fmap concat row_texts app foldr fst snd]. rewrite IH. unfold aligned at 2. cbn [fst snd].
    by rewrite !str_app_assoc.
  - revert Hb. apply Forall_impl. intros [n v] H1. cbn in H1. exists ("  " +:+ v +:+ NL)%string.
    unfold aligned, pad_left. cbn. split; [by rewrite str_app_assoc|].
    rewrite str_length_app, spaces_length. lia.
Qed.

(** ** Witnesses *)

#[local] Instance example_certs : CertLib := {|
  KeyPair := string; Certificate := string;
  keypair_from_pem := Ok;
  CaParams := string;
  from_ca_cert_pem := fun cert _ => Ok cert;
  from_ca_params := Ok;
  from_params := fun c =>
    match distinguished_name c with [(_, cn)] => Ok cn | _ => Err "name" end;
  serialize_pem_with_signer := fun cert ca => Ok (cert +:+ " signed by " +:+ ca)%string;
  serialize_private_key_pem := fun cert => (cert +:+ " key")%string;
  add_time := fun a b => Done (a + b);
  unicode_upper := fun s => s;
|}.

Definition ca_fs : FileSystem := fun f =>
  if String.eqb f "ca.key" then Some "key" else if String.eqb f "ca.crt" then Some "ca" else None.

Definition example_gen : Gen := {|
  ca_cert := "ca.crt"; ca_key := "ca.key"; common_name := "client";
  subject_alt_names := ["dns:localhost"; "IP:127.0.0.1"]; days := 365; output := "certs"; name := "client" |}.

Lemma san_values_witness : ~ str_elem ":" "example.com".
Proof. apply (san_values "Dns:example.com:8080" (DnsName "example.com")). reflexivity. Defined.

(** The key cannot be written: nothing is claimed but the three attempts. *)
Lemma gen_run_spec_witness :
  let io w := if w is WriteFile "certs/client/client.key" _ then Err "disk full" else Ok tt in
  exists before last, gen_run ca_fs io 0 0 example_gen = Done (Err "disk full", before ++ [last]) /\
    length before = 2%nat /\ io last = Err "disk full".
Proof.
  intros io. pose proof (gen_run_spec ca_fs io 0 0 example_gen) as H.
  destruct (gen_run ca_fs io 0 0 example_gen) as [[[r|e] ws]|] eqn:E; vm_compute in E; [discriminate E| |discriminate E].
  injection E as E1 E2. subst e. destruct H as [[H _]|(cert & pem & before & last & _ & H1 & _ & _ & H2)].
  { subst ws. discriminate H. }
  exists before, last. split; [by rewrite <- H1|]. split; [|exact H2].
  apply (f_equal length) in H1. rewrite length_app in H1. subst ws. cbn in H1. lia.
Defined.

Lemma write_human_readable_spec_witness :
  write_human_readable (fun _ => Ok tt) Debug (fun s => s) true [("Is CA", "no"); ("SAN", "localhost")] =
    Done (Ok tt, ["Is CA"; "  no" +:+ NL; "  SAN"; "  localhost" +:+ NL])%string.
Proof.
  destruct (write_human_readable_spec (fun _ => Ok tt) Debug (fun s => s) true [("Is CA", "no"); ("SAN", "localhost")])
    as (_ & H & _); [by vm_compute|]. apply H. repeat constructor.
Defined.

(** ** The unit tests of [gen.rs] *)

Section Tests.
Context `{CERT : CertLib}.

Definition assert_err (res : result string (list SanType)) (want : string) : outcome unit :=
  _ ← assert (is_err res); msg ← unwrap_err res; assert_eq msg want.

Definition test_parse_san_ok : outcome unit :=
  _ ← assert (is_ok (parse_san ["IP:1.1.1.1"]));
  _ ← assert (is_ok (parse_san ["iP:1.1.1.1"]));
  _ ← assert (is_ok (parse_san ["dns:example.com"]));
  assert (is_ok (parse_san ["ip:1.1.1.1"; "dns:example.com"])).

Definition test_parse_san_invalid : outcome unit :=
  _ ← assert_err (parse_san []) "at least provide one SAN";
  _ ← assert_err (parse_san ["IP:"]) "Failed to parse ip address: invalid IP address syntax";
  _ ← assert_err (parse_san ["IP"]) "subject alt name should be in pair: IP";
  _ ← assert_err (parse_san ["IP:1.1.1.1"; "IP:"]) "Failed to parse ip address: invalid IP address syntax";
  _ ← assert (is_err (parse_san ["IP:1.1.1"]));
  assert (is_err (parse_san ["DNS:"])).

Lemma test_parse_san_ok_passes : test_parse_san_ok = Done tt.
Proof. reflexivity. Qed.

Lemma test_parse_san_invalid_passes : test_parse_san_invalid = Done tt.
Proof. reflexivity. Qed.
End Tests.
